(* ===== verification/_CoqProject ===== *)
-Q . S2P
Prelude.v
Text.v
Contracts.v
Writer.v
Binary.v
Secrets.v
Cluster.v
Address.v
RelayProtocol.v
Wire.v
Base64Url.v
Session.v
RelayState.v
Ssh.v
TmuxGrammar.v
TmuxPanes.v
TmuxControl.v
TmuxSafety.v
Lease.v
Config.v
Tables.v
Authority.v
Custody.v
SshAccess.v
Storage.v
Tunnel.v
Ownership.v
CustodyTheorems.v
AuthorityInvariant.v
AuthorityTheorems.v
Admission.v
Gate.v
Registry.v
Process.v
Enrollment.v
RelayClient.v
Link.v
AttachmentFrames.v
Internal.v
Attachment.v
AttachmentSafety.v
InternalTheorems.v
Transition.v
Proxy.v
AttachmentTheorems.v
AttachmentResults.v
Browser.v
Upgrade.v
