(* ===== verification/Prelude.v ===== *)
(** * OwlMux: a verification library

    OwlMux gives a browser access to tmux sessions on remote machines.  A
    Relay on the machine ([crates/owlmux-relay]) keeps one WebSocket tunnel to
    one server incarnation ([crates/owlmux-server]), which runs OpenSSH over
    that tunnel, drives tmux in control mode over SSH, and serves attachments.
    Incarnations share a PostgreSQL database: node leases, the owner of each
    machine (fenced by a connection epoch), Relay bindings and enrollments.
    This library translates that program into Rocq, one file per component,
    and proves what makes each component correct.

    ** The files

    - [Prelude] (this file): fallible code ([result], Rust's [Result]), machine
      integers as [Z] with their bounds written out, byte strings, and the
      tactics [inv_ok], [split_bools], [split_cons].
    - [Text]: the string functions of the Rust standard library (UTF-8,
      splitting, parsing and printing of integers, character classes).
    - [Contracts]: the limits of [generated/contracts.rs].
    - [Writer]: [writer.rs], the exclusive writer pointer of a route, as a
      store of shared scopes.
    - [Binary], [Secrets], [Cluster], [RelayProtocol]: framed binary
      transcripts; [auth.rs] and [crypto.rs] (key formats, credential
      envelopes); [cluster.rs] (owner authentication between nodes); both
      copies of [protocol.rs] (frames, signed statements).
    - [Ssh]: [ssh.rs], from the runtime directory and the rendered commands to
      the bounded line transport of a control child; [SshAccess]: its five
      operations as effects on the runtime directory, the permits and the
      clients they start, with every early return and drop, and their queries
      on the tables of [Custody].
    - [TmuxGrammar], [TmuxControl]: [tmux.rs], its parsers and renderers and
      the control adapter; [TmuxPanes] and [TmuxSafety] hold their theorems.
    - [Lease]: [clock.rs] and [deployment.rs], node membership and the local
      authority fence, in continuous time with two drifting clocks.
    - [Tables], [Authority]: the rows of [migrations/*.sql] and the
      transactions over them in [relay/mod.rs] (enrollment, activation,
      ownership), [api/mod.rs] (machine lifecycle) and [owner.rs] (resolution);
      [Ownership] (histories, evolution of rows), [AuthorityInvariant] and
      [AuthorityTheorems] hold the theorems.
    - [Admission]: [SourceAdmission] of [service.rs]; [Gate]: [require_auth]
      of [api/mod.rs] with the permits and counters of [service.rs], and the
      read endpoints.
    - [Address], [Config]: the socket addresses of the standard library and
      [config.rs], from the environment to the identity a node registers.
    - [Custody], [Storage]: the credential endpoints of [api/mod.rs] with the
      generation of [crypto.rs] and the audit log, and the bootstrap of
      [storage.rs]; [CustodyTheorems] holds their histories and theorems.
    - [Registry]: the tunnel registry of [relay/mod.rs], dispatch barriers and
      machine transitions, as critical sections over shared handles.
    - [Process]: the life of a server process: [ServerState::bootstrap] of
      [service.rs], the start, tasks, public connections and shutdown of
      [main.rs], [runtime.rs] and the health endpoints of [lib.rs].
    - [Wire], [Session]: websocket messages with the codec of the two frame
      types, and the monad of a conversation: a script of what is received and
      of the fate of every write, a log of what is done.
    - [Tunnel], [Enrollment]: the server's two websocket sessions of
      [relay/mod.rs], the stream multiplexer of an owned tunnel and the
      enrollment with its provisional streams.
    - [RelayState], [RelayClient]: the Relay's identity file ([state.rs], on a
      directory that can crash) and its client ([main.rs]): enrollment, tunnel
      and reconnection.  [Link] composes both ends of a tunnel.
    - [AttachmentFrames], [Attachment]: [attachment.rs], the frames and guards,
      and the session of a browser from the upgrade to the release; the
      calculus of [AttachmentSafety] and the theorems of
      [AttachmentTheorems] and [AttachmentResults] are about it.
    - [Internal], [Proxy]: [internal.rs], the owner connection between two
      nodes (frames, authentication, invalidation), the attachment proxy and
      the connection limits; [Base64Url] is RFC 4648, against which codecs are
      instantiated; [InternalTheorems] holds the abstract owner protocol and
      its refinement.  [Transition] composes the API's machine transitions of
      [api/mod.rs] with both ends of such a connection.
    - [Browser]: the sequence check of the web client ([client.ts]) and the
      projection protocol between it and [Attachment].
    - [Upgrade]: the upgrade handlers of [relay/mod.rs] and [attachment.rs] on
      the permits of [service.rs], and the connections that hold them.

    ** How the parts interact

    [TmuxControl] runs on the lines and commands of [Ssh]'s control child and
    on [TmuxGrammar]; [Ssh] opens credentials with [Secrets]; [Authority] asks
    [Lease] (whose tables are the base of [Tables]) and the host-key check of
    [Ssh]; [Registry] guards a route by a [RouteIdentity], whose claim the
    tunnel task obtains between [reserve_claim] and [install_reserved];
    [Enrollment] calls [Authority]'s transactions and hands an owned tunnel to
    [Tunnel]; [Link] runs [Tunnel] against [RelayClient].  [Attachment] drives
    a [TmuxControl] adapter, shares a [Writer] scope with the other attachments
    of its route, checks the route in the [Registry], is admitted by
    [Admission] and sent to its owner by [Authority]'s resolution; [Browser]
    reads what it writes.  A node starts with the [Config] it loads, checks it
    with [Storage], registers it with [Lease] and lets requests through
    [Gate]; [Process] runs these steps, and ends them over the [Lease] and the
    [Registry]; [Transition] settles a machine transition of [Authority] with the
    owner, locally in the [Registry] or over [Internal], which signs with
    [Cluster].  Third-party code is a class with its documented
    laws: base64, AEAD, HMAC, SHA-256, SSH keys, UUID text, JSON; each witness
    instantiates the classes it needs with concrete functions.

    ** How state, effects and concurrency are modelled

    A Rust function is a function on explicit state; an error is a value of
    [result].  Shared objects ([Arc]) live in a store under an identifier.
    Everything the environment decides is an input: readings of a clock, the
    lease checks of a transaction, fresh identifiers, what a child process
    delivers and which writes fail, and the fate of a transaction (it commits,
    a statement fails, or the commit fails with or without effect).  Concurrent
    tasks are interleavings of their atomic sections: a step relation per
    component ([Lease.world_step], [Ownership.world_step],
    [Registry.world_step], [Admission.world_step],
    [CustodyTheorems.world_step], [Proxy.runtime_step], [Process.step],
    [Upgrade.websocket_step], [Link]'s steps), with invariants by induction on
    histories.  Transactions are atomic because every
    one of them locks the deployment row first.  A long conversation runs on a
    script of the environment ([Session]) or on an oracle that answers every
    question it awaits ([Attachment.Oracle], which also says what the other
    attachments do to the shared scope); its theorems hold for every script
    and every oracle, and speak about the log or trace it leaves.

    ** What the theorems show

    - Authority: the rows of a machine fit together in every history; owners
      are fenced by strictly increasing epochs and a lease-valid owner is never
      replaced; tokens are single-use; host keys and targets are immutable;
      expired attempts never block; ambiguous commits are settled honestly;
      resolution decides exactly its specification.
    - Custody and start: every machine is bound to an active credential and
      every envelope opens under the deployment's key in every history; a
      configuration changes only while no lease is valid; a start decides
      exactly, can be repeated whatever became of its commit, and yields a
      node that can register and serve; a loaded configuration is exactly what
      the environment spells.
    - Management API: a request reaches a handler exactly when it is admitted
      and bears the key; endpoints report what they did; what is presented as
      reachable is what routing finds.  Public websockets are admitted exactly
      while the permits that requests and connections share leave room.
    - Nodes: an accepted owner connection refines the owner protocol and acts
      only for an authenticated peer; two current nodes complete the
      handshake; a transition is consistent across both nodes; the proxy is
      transparent and its capacity exact.
    - Lease: a successful local check implies a valid durable lease, however
      renewals interleave, while the clocks drift apart by at most the safety
      margin; lost authority is final.
    - Enrollment and tunnels: an enrollment activates only what has proved
      itself and is settled on every path, a tunnel owns a machine only after
      its proof, and the multiplexer respects its limits; the two ends of a
      tunnel refine a pair of byte pipes per stream and drain; the identity
      file is replaced atomically and survives crashes as far as its directory
      does.  The fence of the node may drop either session anywhere.
    - Attachments: every mutation of the target is asked for, dispatched under
      the dispatch mutex, on a checked route and by the current writer; replies
      are unique and truthful; uncertainty fails closed; an ended attachment
      leaves no writer; the browser accepts every projection and puts together
      what was captured; input, epochs and snapshot frames are bounded exactly.
    - Process: a live process with a valid lease is a member of the
      deployment; from its drain on it is never ready and its row never renewed,
      no tunnel survives [close_all], a clean exit comes after every task ended
      and released the row, and shutdown always ends; a start that fails early
      leaves the membership alone, one that succeeds is a registered node.
    - Registry: barriers are final, a started transition excludes every other
      use of its machine, and a finished cleanup leaves the machine quiet.
    - tmux: the control grammar and its escapes are decided exactly, rows and
      snapshots are bounded and round trip, guarded responses are framed
      exactly, mutation outcomes are honest, the event queue stays bounded, and
      a published projection is consistent.
    - SSH and custody: quoting yields one shell word, line reading does not
      depend on chunking, scavenging removes only own files; every
      operation gives back its permit, bridge and directory on every path, every
      client that gets a key is authorized and pinned, and a reply tells the
      truth about the client that ran.
    - Cryptographic framing: canonical keys, envelopes bound to their
      identifiers, transcripts and signed statements that determine their
      content, equal on both sides of the wire.
    - Writer and Admission: writer changes are always announced, scopes belong
      to one route, releases are exact; admission counts exactly the permits
      that exist.

    ** Fuel and bounds

    Recursion that is not structural takes fuel computed from its input: the
    number of bytes left in the decoders of [Text] and [TmuxGrammar], the number of
    events left on the wire in [TmuxControl] (each step consumes one), the
    retry count of the source in [hydrate], and the number of sleeps before the
    deadline in [open_relay_stream].  The loops that serve a connection recur
    on the events of their script; running out of them means that the loop
    is still running, which is a result of its own ([None], [false]).  The
    theorems state the result, so
    running out of fuel would contradict them.  Integers that the source bounds
    ([u8], [u32], [u64], [usize], [i64]) carry their wrap-around or their
    checked arithmetic.

    ** What is not modelled

    Sockets, TLS and its certificates ([internal.rs], [bind]), JSON text, SQL
    parsing, migrations and connection pools, timers, logging and the audit
    rows of machines and attachments; of an attachment, the select against the
    node fence that drops the whole task (its permits are in [Upgrade]).  Of the
    process, the composition
    of the HTTP router with its header layers, static files and the serving of
    one HTTP connection are library calls; the OpenSSH client, the kernel and
    the copying of bytes between socket and tunnel are an environment that
    answers.  The web application is represented only by its sequence check,
    and the scripts and deployment files hold no program logic. *)

From Stdlib Require Export ZArith Lia Bool.
From Stdlib.Strings Require Export Byte String.
From stdpp Require Export base tactics list option gmap sets relations strings.

#[export] Set Warnings "-clear-no-such-hyp".

Open Scope Z_scope.
Open Scope list_scope.

(** ** Fallible code: Rust's [Result]. *)

Inductive result (E A : Type) : Type :=
| Ok (value : A)
| Err (error : E).
Arguments Ok {E A} value.
Arguments Err {E A} error.

Global Instance result_ret E : MRet (result E) := fun A => @Ok E A.
Global Instance result_bind E : MBind (result E) := fun A B f m =>
  match m with Ok a => f a | Err e => Err e end.
Global Instance result_fmap E : FMap (result E) := fun A B f m =>
  match m with Ok a => Ok (f a) | Err e => Err e end.

Global Instance result_eq_dec {E A} `{EqDecision E} `{EqDecision A} :
  EqDecision (result E A).
Proof. solve_decision. Defined.

Definition is_ok {E A} (r : result E A) : bool :=
  match r with Ok _ => true | Err _ => false end.

(** [Option::ok_or]. *)
Definition ok_or {E A} (e : E) (o : option A) : result E A :=
  match o with Some a => Ok a | None => Err e end.

(** [Result::map_err]. *)
Definition map_err {E F A} (f : E -> F) (r : result E A) : result F A :=
  match r with Ok a => Ok a | Err e => Err (f e) end.

(** An early [return Err(e)] guarded by a condition. *)
Definition fail_if {E} (c : bool) (e : E) : result E unit :=
  if c then Err e else Ok tt.

Section result_lemmas.
Context {E A B : Type}.
Implicit Types (m : result E A) (f : A -> result E B).

Lemma bind_Ok m f b :
  (m ≫= f) = Ok b <-> exists a, m = Ok a /\ f a = Ok b.
Proof. destruct m; cbn; split; naive_solver. Qed.

Lemma bind_Err m f e :
  (m ≫= f) = Err e <-> m = Err e \/ exists a, m = Ok a /\ f a = Err e.
Proof. destruct m; cbn; split; naive_solver. Qed.

Lemma ok_or_Ok (e : E) (o : option A) a : ok_or e o = Ok a <-> o = Some a.
Proof. destruct o; cbn; split; congruence. Qed.

Lemma ok_or_Err (e e' : E) (o : option A) :
  ok_or e o = Err e' <-> o = None /\ e' = e.
Proof. destruct o; cbn; split; naive_solver. Qed.

Lemma fail_if_Ok (c : bool) (e : E) u : fail_if c e = Ok u <-> c = false.
Proof. destruct c, u; cbn; split; congruence. Qed.

Lemma fail_if_Err (c : bool) (e e' : E) :
  fail_if c e = Err e' <-> c = true /\ e' = e.
Proof. destruct c; cbn; split; naive_solver. Qed.
End result_lemmas.

Lemma map_err_Ok {E F A} (g : E -> F) (r : result E A) a :
  map_err g r = Ok a <-> r = Ok a.
Proof. destruct r; cbn; split; congruence. Qed.

(** Decompose a successful run of a chain of fallible steps. *)
Ltac inv_ok :=
  repeat match goal with
  | H : (_ ≫= _) = Ok _ |- _ =>
      let a := fresh "v" in let H1 := fresh "H" in let H2 := fresh "H" in
      apply bind_Ok in H; destruct H as (a & H1 & H2)
  | H : ok_or _ _ = Ok _ |- _ => apply ok_or_Ok in H
  | H : map_err _ _ = Ok _ |- _ => apply map_err_Ok in H
  | H : fail_if _ _ = Ok _ |- _ => apply fail_if_Ok in H
  | H : Ok _ = Ok _ |- _ => injection H as H; subst
  | H : Some _ = Some _ |- _ => injection H as H; subst
  | H : Ok _ = Err _ |- _ => discriminate H
  | H : Err _ = Ok _ |- _ => discriminate H
  | H : Err _ = Err _ |- _ => injection H as H; subst
  | H : (if ?b then _ else Err _) = Ok _ |- _ =>
      let E := fresh "Hif" in destruct b eqn:E; [| discriminate H]
  | H : (if ?b then Err _ else _) = Ok _ |- _ =>
      let E := fresh "Hif" in destruct b eqn:E; [discriminate H |]
  end.

(** Split boolean conjunctions and disjunctions in the context into
    propositions [lia] and [congruence] understand. *)
Ltac split_bools :=
  repeat match goal with
  | H : _ && _ = true |- _ => apply andb_true_iff in H as [? ?]
  | H : _ || _ = false |- _ => apply orb_false_iff in H as [? ?]
  | H : negb _ = true |- _ => apply negb_true_iff in H
  | H : negb _ = false |- _ => apply negb_false_iff in H
  | H : bool_decide _ = true |- _ => apply bool_decide_eq_true in H
  | H : bool_decide _ = false |- _ => apply bool_decide_eq_false in H
  | H : (_ <? _) = true |- _ => apply Z.ltb_lt in H
  | H : (_ <? _) = false |- _ => apply Z.ltb_ge in H
  | H : (_ <=? _) = true |- _ => apply Z.leb_le in H
  | H : (_ <=? _) = false |- _ => apply Z.leb_gt in H
  | H : (_ =? _) = true |- _ => apply Z.eqb_eq in H
  | H : (_ =? _) = false |- _ => apply Z.eqb_neq in H
  end.

(** ** Machine integers as [Z] with their width written out. *)

Definition u8_max : Z := 255.
Definition u32_max : Z := 4294967295.
Definition u64_max : Z := 18446744073709551615.
Definition i64_max : Z := 9223372036854775807.
Definition i64_min : Z := -9223372036854775808.
(** [usize] on the supported 64-bit targets. *)
Definition usize_max : Z := u64_max.

(** [uN::checked_add]. *)
Definition checked_add (max a b : Z) : option Z :=
  if a + b <=? max then Some (a + b) else None.
(** [uN::saturating_sub] and [uN::saturating_add]. *)
Definition saturating_sub (a b : Z) : Z := Z.max 0 (a - b).
Definition saturating_add (max a b : Z) : Z := Z.min max (a + b).
(** [uN::wrapping_add]. *)
Definition wrapping_add (max a b : Z) : Z := (a + b) mod (max + 1).

Lemma checked_add_Some max a b c :
  checked_add max a b = Some c <-> c = a + b /\ a + b <= max.
Proof. unfold checked_add. case_match; split_bools; naive_solver lia. Qed.

Lemma checked_add_small max a b : a + b <= max -> checked_add max a b = Some (a + b).
Proof. intros. apply checked_add_Some. auto. Qed.

(** Lengths are [usize] values. *)
Definition zlen {A} (l : list A) : Z := Z.of_nat (length l).

Lemma zlen_nonneg {A} (l : list A) : 0 <= zlen l.
Proof. unfold zlen. lia. Qed.
Lemma zlen_nil {A} : zlen (@nil A) = 0.
Proof. reflexivity. Qed.
Lemma zlen_cons {A} (x : A) l : zlen (x :: l) = 1 + zlen l.
Proof. unfold zlen. cbn [length]. lia. Qed.
Lemma zlen_app {A} (l k : list A) : zlen (l ++ k) = zlen l + zlen k.
Proof. unfold zlen. rewrite length_app. lia. Qed.
Lemma zlen_map {A B} (f : A -> B) l : zlen (map f l) = zlen l.
Proof. unfold zlen. by rewrite length_map. Qed.
Lemma zlen_zero {A} (l : list A) : zlen l = 0 <-> l = [].
Proof. unfold zlen. destruct l; cbn [length]; split; intros; try done; lia. Qed.
Lemma zlen_eq_length {A B} (l : list A) (k : list B) :
  zlen l = zlen k <-> length l = length k.
Proof. unfold zlen. lia. Qed.

Create HintDb owl.
Create Rewrite HintDb zlen.
#[export] Hint Resolve zlen_nonneg : owl.
#[export] Hint Rewrite @zlen_nil @zlen_cons @zlen_app @zlen_map : zlen.

Ltac zlen_simpl := autorewrite with zlen in *.

(** Two concatenations with equally long heads are equal only piecewise. *)
Lemma app_inj_length {A} (l1 l2 k1 k2 : list A) :
  length l1 = length k1 -> l1 ++ l2 = k1 ++ k2 -> l1 = k1 /\ l2 = k2.
Proof. intros Hlen Heq. by apply app_inj_1. Qed.

Lemma cons_inj {A} (x y : A) l k : x :: l = y :: k -> x = y /\ l = k.
Proof. naive_solver. Qed.

(** Equate two list literals piece by piece, without looking into them. *)
Ltac split_cons :=
  repeat match goal with
  | H : _ :: _ = _ :: _ |- _ =>
      let Hh := fresh "Hh" in apply cons_inj in H; destruct H as [Hh H]
  end.

(** ** Byte strings *)

Abbreviation byte := Byte.byte.
(** [Vec<u8>], [&[u8]], and the UTF-8 bytes of a [String] or [&str]. *)
Abbreviation bytes := (list Byte.byte).

Global Instance byte_eq_dec : EqDecision byte := Byte.byte_eq_dec.
Global Program Instance byte_countable : Countable byte :=
  inj_countable Byte.to_N Byte.of_N _.
Next Obligation. apply Byte.of_to_N. Qed.

(** The numeric value of a byte. *)
Definition bval (c : byte) : Z := Z.of_N (Byte.to_N c).
(** [n as u8]. *)
Definition byte_of (n : Z) : byte :=
  match Byte.of_N (Z.to_N (n mod 256)) with Some c => c | None => "000"%byte end.

Lemma bval_range c : 0 <= bval c < 256.
Proof. unfold bval. pose proof (Byte.to_N_bounded c). lia. Qed.
#[export] Hint Resolve bval_range : owl.

Lemma byte_of_bval c : byte_of (bval c) = c.
Proof.
  unfold byte_of. rewrite Z.mod_small by apply bval_range.
  unfold bval. by rewrite N2Z.id, Byte.of_to_N.
Qed.

Lemma bval_byte_of n : bval (byte_of n) = n mod 256.
Proof.
  unfold byte_of, bval. pose proof (Z.mod_pos_bound n 256 ltac:(lia)).
  destruct (Byte.of_N _) as [c|] eqn:E.
  - apply Byte.to_of_N in E. rewrite E. lia.
  - apply Byte.of_N_None_iff in E. lia.
Qed.

Lemma bval_inj c d : bval c = bval d -> c = d.
Proof. intros H. rewrite <-(byte_of_bval c), H. apply byte_of_bval. Qed.

Lemma bval_byte_of_small n : 0 <= n < 256 -> bval (byte_of n) = n.
Proof. intros. rewrite bval_byte_of. by apply Z.mod_small. Qed.

(** Byte-string literals, b"..." in the source. *)
Definition lit (s : string) : bytes := list_byte_of_string s.
Arguments lit : simpl never.

(** A property of all 256 bytes, decided by evaluation. *)
Definition all_bytes : list byte := omap (fun n => Byte.of_N (N.of_nat n)) (seq 0 256).

Lemma all_bytes_complete c : c ∈ all_bytes.
Proof.
  apply list_elem_of_omap. exists (N.to_nat (Byte.to_N c)). split.
  - apply elem_of_seq. pose proof (Byte.to_N_bounded c). lia.
  - rewrite N2Nat.id. apply Byte.of_to_N.
Qed.

Lemma byte_forall (P : byte -> bool) :
  forallb P all_bytes = true -> forall c, P c = true.
Proof.
  intros H c. rewrite forallb_forall in H. apply H.
  apply list_elem_of_In, all_bytes_complete.
Qed.

(** ** Identifiers *)

(** A 128-bit identifier; see [Binary.uuid_bytes] for its big-endian bytes. *)
Abbreviation Uuid := Z (only parsing).
Definition is_uuid (u : Uuid) : Prop := 0 <= u < 2 ^ 128.
