(* ===== verification/Text.v ===== *)
(** * Text: the Rust standard-library string functions the sources use

    [&str]/[String] values are the lists of their UTF-8 bytes.  This file
    models slicing and searching ([strip_prefix], [split], [splitn],
    [lines], [split_once]), UTF-8 validation and [chars], the character
    classes [char::is_control]/[char::is_whitespace], integer parsing
    ([FromStr] of [u32], [u64], [i64]) and decimal printing ([Display]),
    with the lemmas the components share. *)

From S2P Require Import Prelude.

(** ** Prefixes, suffixes and searching *)

(** [slice::strip_prefix]. *)
Fixpoint strip_prefix (p v : bytes) : option bytes :=
  match p, v with
  | [], _ => Some v
  | x :: p', y :: v' => if decide (x = y) then strip_prefix p' v' else None
  | _ :: _, [] => None
  end.

Definition starts_with (p v : bytes) : bool :=
  match strip_prefix p v with Some _ => true | None => false end.

Lemma strip_prefix_Some p v r : strip_prefix p v = Some r <-> v = p ++ r.
Proof.
  revert v; induction p as [|x p IH]; intros [|y v]; cbn; try naive_solver.
  case_decide; [rewrite IH |]; naive_solver.
Qed.

Lemma strip_prefix_app p r : strip_prefix p (p ++ r) = Some r.
Proof. by apply strip_prefix_Some. Qed.

Lemma starts_with_spec p v : starts_with p v = true <-> exists r, v = p ++ r.
Proof.
  unfold starts_with. destruct (strip_prefix p v) as [r|] eqn:E.
  - apply strip_prefix_Some in E. naive_solver.
  - split; [done |]. intros [r Hr]. apply strip_prefix_Some in Hr. congruence.
Qed.

(** [slice::strip_suffix] of one byte. *)
Definition strip_suffix_byte (c : byte) (v : bytes) : option bytes :=
  match last v with
  | Some d => if decide (d = c) then Some (removelast v) else None
  | None => None
  end.

Lemma strip_suffix_byte_app c v : strip_suffix_byte c (v ++ [c]) = Some v.
Proof.
  unfold strip_suffix_byte. rewrite last_snoc. rewrite decide_True by done.
  f_equal. apply removelast_last.
Qed.

Lemma strip_suffix_byte_Some c v r :
  strip_suffix_byte c v = Some r <-> v = r ++ [c].
Proof.
  split; [| intros ->; apply strip_suffix_byte_app].
  unfold strip_suffix_byte. destruct (last v) as [d|] eqn:E; [| done].
  apply last_Some in E as [l ->]. case_decide; [subst | done].
  intros [= <-]. by rewrite removelast_last.
Qed.

(** [v.strip_suffix(c).unwrap_or(v)]. *)
Definition trim_one (c : byte) (v : bytes) : bytes := default v (strip_suffix_byte c v).

(** [iter().position(|byte| *byte == c)] with the split around it:
    the bytes before the first [c] and the bytes after it. *)
Fixpoint split_once (c : byte) (v : bytes) : option (bytes * bytes) :=
  match v with
  | [] => None
  | x :: v' =>
      if decide (x = c) then Some ([], v')
      else match split_once c v' with
           | Some (a, b) => Some (x :: a, b)
           | None => None
           end
  end.

Lemma split_once_Some c v a b :
  split_once c v = Some (a, b) <-> v = a ++ c :: b /\ c ∉ a.
Proof.
  revert a b; induction v as [|x v IH]; intros a b; cbn.
  - split; [done |]. intros [H _]. by destruct a.
  - case_decide as Hx.
    + subst. split; [intros [= <- <-]; split; [done | set_solver] |].
      intros [H Hn]. destruct a as [|y a]; cbn in H; [naive_solver |].
      injection H as -> ->. set_solver.
    + destruct (split_once c v) as [[a' b']|] eqn:E.
      * destruct (IH a' b') as [IH' _]. destruct (IH' eq_refl) as [-> Hn].
        split; [intros [= <- <-]; split; [done | set_solver] |].
        intros [H Hn']. destruct a as [|y a]; cbn in H; [naive_solver |].
        injection H as -> H.
        assert (Some (a', b') = Some (a, b)) as [= -> ->]; [| done].
        apply IH. set_solver.
      * split; [done |]. intros [H Hn]. destruct a as [|y a]; cbn in H; [naive_solver |].
        injection H as -> ->.
        assert (None = Some (a, b)) as [=]. apply IH. set_solver.
Qed.

(** The position of a subsequence, as the split around it
    ([windows(p.len()).position(|w| w == p)]). *)
Fixpoint split_sub (p v : bytes) : option (bytes * bytes) :=
  match strip_prefix p v with
  | Some r => Some ([], r)
  | None =>
      match v with
      | [] => None
      | x :: v' =>
          match split_sub p v' with
          | Some (a, b) => Some (x :: a, b)
          | None => None
          end
      end
  end.

Lemma split_sub_Some p v a b : split_sub p v = Some (a, b) -> v = a ++ p ++ b.
Proof.
  revert a b; induction v as [|x v IH]; intros a b; cbn.
  - destruct p; naive_solver.
  - destruct (strip_prefix p (x :: v)) as [r|] eqn:E.
    + apply strip_prefix_Some in E. intros [= <- <-]. done.
    + destruct (split_sub p v) as [[a' b']|]; [| done].
      intros [= <- <-]. cbn. by rewrite (IH a' b').
Qed.

(** [str::split(c)]: always at least one piece. *)
Fixpoint split (c : byte) (v : bytes) : list bytes :=
  match v with
  | [] => [[]]
  | x :: v' =>
      if decide (x = c) then [] :: split c v'
      else match split c v' with
           | h :: t => (x :: h) :: t
           | [] => [[x]]
           end
  end.

(** [str::splitn(n, c)]. *)
Fixpoint splitn (n : nat) (c : byte) (v : bytes) : list bytes :=
  match n with
  | O => []
  | S O => [v]
  | S n' => match split_once c v with
            | Some (a, b) => a :: splitn n' c b
            | None => [v]
            end
  end.

Lemma split_nonempty c v : split c v <> [].
Proof. destruct v; cbn; repeat case_match; done. Qed.

(** Joining the pieces with the separator. *)
Fixpoint join (c : byte) (l : list bytes) : bytes :=
  match l with
  | [] => []
  | [x] => x
  | x :: l' => x ++ c :: join c l'
  end.

Lemma join_cons c x l : l <> [] -> join c (x :: l) = x ++ c :: join c l.
Proof. by destruct l. Qed.

Lemma join_split c v : join c (split c v) = v.
Proof.
  induction v as [|x v IH]; cbn; [done |].
  pose proof (split_nonempty c v) as Hne.
  destruct (split c v) as [|h t]; [done |].
  case_decide; subst; cbn in *; [done |].
  destruct t; cbn in *; congruence.
Qed.

Lemma split_app c v w :
  c ∉ v -> split c (v ++ c :: w) = v :: split c w.
Proof.
  intros Hv. induction v as [|x v IH]; cbn.
  - by rewrite decide_True.
  - rewrite decide_False by set_solver. rewrite IH by set_solver. done.
Qed.

Lemma split_single c v : c ∉ v -> split c v = [v].
Proof.
  intros Hv. induction v as [|x v IH]; cbn; [done |].
  rewrite decide_False by set_solver. by rewrite IH by set_solver.
Qed.

(** Splitting inverts joining when no piece contains the separator. *)
Lemma split_join c l :
  l <> [] -> Forall (fun p => c ∉ p) l -> split c (join c l) = l.
Proof.
  intros Hne H. induction H as [|p l Hp Hl IH]; [done |].
  destruct l as [|q l]; cbn; [by apply split_single |].
  rewrite split_app by done. f_equal. by apply IH.
Qed.

Lemma splitn_nonempty n c v : n <> O -> splitn n c v <> [].
Proof. destruct n as [|[|n]]; cbn; repeat case_match; done. Qed.

(** [splitn] keeps every byte: joining the pieces gives the input back. *)
Lemma join_splitn n c v : n <> O -> join c (splitn n c v) = v.
Proof.
  revert v; induction n as [|n IH]; intros v Hn; [done |].
  destruct n as [|n]; [done |].
  change (splitn (S (S n)) c v) with
    (match split_once c v with Some (a, b) => a :: splitn (S n) c b | None => [v] end).
  destruct (split_once c v) as [[a b]|] eqn:E; [| done].
  apply split_once_Some in E as [-> _].
  rewrite join_cons by (by apply splitn_nonempty). by rewrite IH.
Qed.

(** [str::lines]: pieces ended by a line feed, which is dropped together
    with a carriage return before it; a last piece without a line feed is
    kept as it is, and an empty last piece is not a line. *)
Fixpoint lines_from (parts : list bytes) : list bytes :=
  match parts with
  | [] => []
  | [l] => if decide (l = []) then [] else [l]
  | p :: rest => trim_one "013"%byte p :: lines_from rest
  end.
Definition lines (v : bytes) : list bytes := lines_from (split "010"%byte v).

(** ** Characters *)

Definition in_range (lo hi n : Z) : bool := (lo <=? n) && (n <=? hi).

Definition is_ascii_digit (c : byte) : bool := in_range 48 57 (bval c).
(** [u8::is_ascii_graphic]: U+0021 to U+007E. *)
Definition is_ascii_graphic (c : byte) : bool := in_range 33 126 (bval c).
Definition is_ascii_lowercase (c : byte) : bool := in_range 97 122 (bval c).
Definition is_ascii_alphabetic (c : byte) : bool :=
  in_range 65 90 (bval c) || in_range 97 122 (bval c).
Definition is_ascii_alphanumeric (c : byte) : bool :=
  is_ascii_alphabetic c || is_ascii_digit c.

(** [take_while(u8::is_ascii_digit)] and what it leaves. *)
Fixpoint span_digits (v : bytes) : bytes * bytes :=
  match v with
  | c :: v' => if is_ascii_digit c then (c :: fst (span_digits v'), snd (span_digits v'))
               else ([], v)
  | [] => ([], [])
  end.

(** A UTF-8 continuation byte. *)
Definition is_cont (c : byte) : bool := in_range 128 191 (bval c).
Definition cont_bits (c : byte) : Z := bval c - 128.

(** One well-formed UTF-8 sequence at the head of [v] (Unicode table 3-7:
    no overlong form, no surrogate, nothing above U+10FFFF): the scalar
    value and the rest. *)
Definition next_char (v : bytes) : option (Z * bytes) :=
  match v with
  | [] => None
  | b0 :: v1 =>
    let n0 := bval b0 in
    if n0 <? 128 then Some (n0, v1)
    else if in_range 194 223 n0 then
      match v1 with
      | b1 :: v2 =>
          if is_cont b1 then Some ((n0 - 192) * 64 + cont_bits b1, v2) else None
      | _ => None
      end
    else if in_range 224 239 n0 then
      match v1 with
      | b1 :: b2 :: v3 =>
          let n := (n0 - 224) * 4096 + cont_bits b1 * 64 + cont_bits b2 in
          if is_cont b1 && is_cont b2 && (2048 <=? n) && negb (in_range 55296 57343 n)
          then Some (n, v3) else None
      | _ => None
      end
    else if in_range 240 244 n0 then
      match v1 with
      | b1 :: b2 :: b3 :: v4 =>
          let n := (n0 - 240) * 262144 + cont_bits b1 * 4096
                   + cont_bits b2 * 64 + cont_bits b3 in
          if is_cont b1 && is_cont b2 && is_cont b3 && in_range 65536 1114111 n
          then Some (n, v4) else None
      | _ => None
      end
    else None
  end.

Fixpoint decode_utf8 (fuel : nat) (v : bytes) : option (list Z) :=
  match v, fuel with
  | [], _ => Some []
  | _, O => None
  | _, S fuel' =>
      match next_char v with
      | Some (n, rest) =>
          match decode_utf8 fuel' rest with
          | Some cs => Some (n :: cs)
          | None => None
          end
      | None => None
      end
  end.

(** [str::chars] of a byte string, [None] when it is not valid UTF-8.
    Every sequence has at least one byte, so the length is enough fuel. *)
Definition chars (v : bytes) : option (list Z) := decode_utf8 (length v) v.

(** [std::str::from_utf8(v).ok()]. *)
Definition from_utf8 (v : bytes) : option bytes :=
  match chars v with Some _ => Some v | None => None end.

(** [char::is_control]: general category Cc. *)
Definition is_control (n : Z) : bool := in_range 0 31 n || in_range 127 159 n.
(** [char::is_whitespace]: the Unicode White_Space property. *)
Definition is_whitespace (n : Z) : bool :=
  in_range 9 13 n || (n =? 32) || (n =? 133) || (n =? 160) || (n =? 5760)
  || in_range 8192 8202 n || (n =? 8232) || (n =? 8233) || (n =? 8239)
  || (n =? 8287) || (n =? 12288).

(** [s.chars().any(p)] for a [&str] [s]. *)
Definition chars_any (p : Z -> bool) (v : bytes) : bool :=
  match chars v with Some cs => existsb p cs | None => false end.

Lemma next_char_shorter v n rest :
  next_char v = Some (n, rest) -> (length rest < length v)%nat.
Proof.
  destruct v as [|b0 v1]; cbn; [done |].
  repeat case_match; intros [= <- <-]; subst; cbn; lia.
Qed.

Lemma decode_utf8_fuel f g v :
  (length v <= f)%nat -> (length v <= g)%nat -> decode_utf8 f v = decode_utf8 g v.
Proof.
  revert g v; induction f as [|f IH]; intros g v Hf Hg.
  { destruct v; cbn in *; [by destruct g | lia]. }
  destruct v as [|x v]; [by destruct g |].
  destruct g as [|g]; [cbn in *; lia |]. cbn [decode_utf8].
  destruct (next_char (x :: v)) as [[n rest]|] eqn:E; [| done].
  apply next_char_shorter in E.
  by rewrite (IH g rest) by (cbn in *; lia).
Qed.

(** The unfolding equation of [chars]. *)
Lemma chars_step v n rest :
  next_char v = Some (n, rest) ->
  chars v = match chars rest with Some cs => Some (n :: cs) | None => None end.
Proof.
  intros H. unfold chars. pose proof (next_char_shorter _ _ _ H).
  destruct v as [|x v]; [done |]. cbn [length decode_utf8]. rewrite H.
  by rewrite (decode_utf8_fuel (length v) (length rest)) by (cbn in *; lia).
Qed.

Lemma chars_ascii_cons c v :
  bval c < 128 ->
  chars (c :: v) = match chars v with Some cs => Some (bval c :: cs) | None => None end.
Proof.
  intros H. apply chars_step. cbn. by rewrite (proj2 (Z.ltb_lt _ _)).
Qed.

(** ASCII text is valid UTF-8 and its characters are its bytes. *)
Lemma chars_ascii v :
  Forall (fun c => bval c < 128) v -> chars v = Some (map bval v).
Proof.
  induction 1 as [|c v Hc Hv IH]; [done |].
  by rewrite chars_ascii_cons, IH.
Qed.

Lemma from_utf8_ascii v : Forall (fun c => bval c < 128) v -> from_utf8 v = Some v.
Proof. intros H. unfold from_utf8. by rewrite chars_ascii. Qed.

Lemma from_utf8_Some v w : from_utf8 v = Some w -> w = v.
Proof. unfold from_utf8. case_match; congruence. Qed.

(** ** Integers *)

Definition digit_val (c : byte) : Z := bval c - 48.
Definition dec_digit (n : Z) : byte := byte_of (48 + n).

(** The digit loop of [FromStr] for integers: every step is checked
    against the largest value of the type. *)
Fixpoint parse_digits (max acc : Z) (v : bytes) : option Z :=
  match v with
  | [] => Some acc
  | c :: v' =>
      if is_ascii_digit c then
        let n := acc * 10 + digit_val c in
        if n <=? max then parse_digits max n v' else None
      else None
  end.

Definition parse_nonempty (max : Z) (v : bytes) : option Z :=
  match v with [] => None | _ => parse_digits max 0 v end.

(** [str::parse::<uN>]: an optional leading [+], at least one digit. *)
Definition parse_unsigned (max : Z) (v : bytes) : option Z :=
  match v with
  | c :: v' => if decide (c = "+"%byte) then parse_nonempty max v' else parse_nonempty max v
  | [] => None
  end.
Definition parse_u32 : bytes -> option Z := parse_unsigned u32_max.
Definition parse_u64 : bytes -> option Z := parse_unsigned u64_max.

(** [str::parse::<i64>]: an optional sign, at least one digit. *)
Definition parse_i64 (v : bytes) : option Z :=
  match v with
  | c :: v' =>
      if decide (c = "-"%byte) then
        match parse_nonempty (- i64_min) v' with Some n => Some (- n) | None => None end
      else parse_unsigned i64_max v
  | [] => None
  end.

(** [Display] of a nonnegative integer.  The fuel [log2 n + 1] is enough:
    every round divides by ten. *)
Fixpoint dec_loop (fuel : nat) (n : Z) (acc : bytes) : bytes :=
  match fuel with
  | O => acc
  | S fuel' =>
      let acc' := dec_digit (n mod 10) :: acc in
      if n <? 10 then acc' else dec_loop fuel' (n / 10) acc'
  end.
Definition dec (n : Z) : bytes := dec_loop (S (Z.to_nat (Z.log2 n))) n [].
(** [Display] of a signed integer. *)
Definition dec_signed (n : Z) : bytes := if n <? 0 then "-"%byte :: dec (- n) else dec n.

(** [{byte:02x}]. *)
Definition hex_digit (n : Z) : byte := byte_of (if n <? 10 then 48 + n else 87 + n).
Definition hex02 (c : byte) : bytes := [hex_digit (bval c / 16); hex_digit (bval c mod 16)].

(** The number a digit string denotes, starting from [acc]. *)
Definition dec_value (acc : Z) (v : bytes) : Z :=
  fold_left (fun a c => a * 10 + digit_val c) v acc.

Lemma is_ascii_digit_range c :
  is_ascii_digit c = true <-> 0 <= digit_val c <= 9.
Proof.
  unfold is_ascii_digit, in_range, digit_val.
  rewrite andb_true_iff, !Z.leb_le. lia.
Qed.

Lemma dec_value_ge acc v :
  0 <= acc -> forallb is_ascii_digit v = true -> acc <= dec_value acc v.
Proof.
  revert acc; induction v as [|c v IH]; intros acc Hacc Hv; cbn; [lia |].
  cbn in Hv. split_bools. apply is_ascii_digit_range in H.
  etransitivity; [| apply IH; auto; lia]. lia.
Qed.

Lemma parse_digits_Some max acc v n :
  0 <= acc <= max ->
  parse_digits max acc v = Some n <->
  forallb is_ascii_digit v = true /\ n = dec_value acc v /\ n <= max.
Proof.
  revert acc; induction v as [|c v IH]; intros acc Hacc; cbn.
  - naive_solver lia.
  - destruct (is_ascii_digit c) eqn:Hc; cbn; [| naive_solver].
    pose proof Hc as Hr. apply is_ascii_digit_range in Hr.
    destruct (Z.leb_spec (acc * 10 + digit_val c) max) as [Hle|Hgt].
    + rewrite IH by lia. done.
    + split; [done |]. intros (Hv & -> & Hn).
      pose proof (dec_value_ge (acc * 10 + digit_val c) v ltac:(lia) Hv).
      unfold dec_value in *. lia.
Qed.

Lemma dec_digit_spec n :
  0 <= n <= 9 -> is_ascii_digit (dec_digit n) = true /\ digit_val (dec_digit n) = n.
Proof.
  intros Hn. rewrite is_ascii_digit_range. unfold digit_val, dec_digit.
  rewrite bval_byte_of_small by lia. lia.
Qed.

Lemma dec_value_app acc v w : dec_value acc (v ++ w) = dec_value (dec_value acc v) w.
Proof. apply fold_left_app. Qed.

Lemma dec_value_shift acc v :
  dec_value acc v = acc * 10 ^ zlen v + dec_value 0 v.
Proof.
  revert acc; induction v as [|c v IH]; intros acc; cbn [dec_value fold_left].
  - rewrite zlen_nil. unfold dec_value. cbn. lia.
  - fold (dec_value (acc * 10 + digit_val c) v) (dec_value (0 * 10 + digit_val c) v).
    rewrite IH, (IH (0 * 10 + _)), zlen_cons, Z.pow_add_r by (auto with owl; lia).
    change (10 ^ 1) with 10. lia.
Qed.

Lemma dec_loop_spec fuel n acc :
  0 <= n < 2 ^ Z.of_nat fuel ->
  forallb is_ascii_digit acc = true ->
  forallb is_ascii_digit (dec_loop fuel n acc) = true
  /\ dec_value 0 (dec_loop fuel n acc) = n * 10 ^ zlen acc + dec_value 0 acc.
Proof.
  revert n acc; induction fuel as [|fuel IH]; intros n acc Hn Hacc.
  { change (2 ^ Z.of_nat 0) with 1 in Hn. assert (n = 0) as -> by lia.
    split; [done | cbn [dec_loop]; lia]. }
  cbn [dec_loop].
  pose proof (Z.mod_pos_bound n 10 ltac:(lia)) as Hm.
  destruct (dec_digit_spec (n mod 10) ltac:(lia)) as [Hd Hv].
  destruct (Z.ltb_spec n 10) as [Hlt|Hge].
  - split; [cbn; by rewrite Hd |].
    change (dec_digit (n mod 10) :: acc) with ([dec_digit (n mod 10)] ++ acc).
    rewrite dec_value_app. unfold dec_value at 2; cbn. rewrite Hv.
    rewrite dec_value_shift. rewrite Z.mod_small by lia. lia.
  - assert (0 <= n / 10 < 2 ^ Z.of_nat fuel) as Hdiv.
    { split; [apply Z.div_pos; lia |]. apply Z.div_lt_upper_bound; [lia |].
      rewrite Nat2Z.inj_succ, Z.pow_succ_r in Hn by lia. lia. }
    destruct (IH (n / 10) (dec_digit (n mod 10) :: acc) Hdiv) as [H1 H2].
    { cbn. by rewrite Hd. }
    split; [done |]. rewrite H2, zlen_cons, Z.pow_add_r by (auto with owl; lia).
    change (dec_digit (n mod 10) :: acc) with ([dec_digit (n mod 10)] ++ acc).
    rewrite dec_value_app, dec_value_shift. unfold dec_value at 1; cbn [fold_left].
    rewrite Hv. pose proof (Z.div_mod n 10 ltac:(lia)) as Hn10.
    revert Hn10. generalize (n / 10), (n mod 10), (10 ^ zlen acc).
    intros q r P ->. ring.
Qed.

Lemma dec_spec n :
  0 <= n ->
  forallb is_ascii_digit (dec n) = true /\ dec_value 0 (dec n) = n /\ dec n <> [].
Proof.
  intros Hn. unfold dec.
  destruct (dec_loop_spec (S (Z.to_nat (Z.log2 n))) n []) as [H1 H2]; [| done |].
  { split; [done |]. rewrite Nat2Z.inj_succ, Z2Nat.id by apply Z.log2_nonneg.
    destruct (Z.eq_dec n 0) as [->|]; [done |].
    apply Z.log2_spec. lia. }
  split; [done |]. split.
  { rewrite H2, zlen_nil, Z.pow_0_r. change (dec_value 0 []) with 0. lia. }
  assert (forall fuel m acc, acc <> [] -> dec_loop fuel m acc <> []) as Haux.
  { clear. induction fuel as [|fuel IH]; intros m acc Hacc; cbn; [done |].
    case_match; [done |]. by apply IH. }
  cbn [dec_loop]. case_match; [done |]. by apply Haux.
Qed.

(** Printing then parsing gives the number back, for every width. *)
Lemma parse_nonempty_dec max n :
  0 <= n <= max -> parse_nonempty max (dec n) = Some n.
Proof.
  intros Hn. destruct (dec_spec n ltac:(lia)) as (Hd & Hv & Hne).
  unfold parse_nonempty. destruct (dec n) as [|c v] eqn:E; [done |].
  apply parse_digits_Some; [lia |]. rewrite Hv. split; [done | lia].
Qed.

Lemma dec_head_digit n c v : 0 <= n -> dec n = c :: v -> is_ascii_digit c = true.
Proof.
  intros Hn E. destruct (dec_spec n Hn) as (Hd & _ & _).
  rewrite E in Hd. cbn in Hd. by split_bools.
Qed.

Lemma parse_unsigned_dec max n :
  0 <= n <= max -> parse_unsigned max (dec n) = Some n.
Proof.
  intros Hn. pose proof (parse_nonempty_dec max n Hn) as Hp.
  unfold parse_unsigned. destruct (dec n) as [|c v] eqn:E; [done |].
  rewrite decide_False; [done |]. intros ->.
  by pose proof (dec_head_digit n _ _ ltac:(lia) E).
Qed.

Lemma parse_i64_dec n : 0 <= n <= i64_max -> parse_i64 (dec n) = Some n.
Proof.
  intros Hn. pose proof (parse_unsigned_dec i64_max n Hn) as Hp.
  unfold parse_i64. destruct (dec n) as [|c v] eqn:E; [done |].
  rewrite decide_False; [done |]. intros ->.
  by pose proof (dec_head_digit n _ _ ltac:(lia) E).
Qed.

Lemma parse_unsigned_range max v n :
  0 <= max -> parse_unsigned max v = Some n -> 0 <= n <= max.
Proof.
  intros Hmax. assert (forall w, parse_nonempty max w = Some n -> 0 <= n <= max) as Haux.
  { intros w. unfold parse_nonempty. destruct w as [|c w]; [done |].
    intros H. apply parse_digits_Some in H as (Hd & -> & Hle); [| lia].
    pose proof (dec_value_ge 0 (c :: w) ltac:(lia) Hd). lia. }
  unfold parse_unsigned. destruct v as [|c v]; [done |]. case_decide; apply Haux.
Qed.

Lemma parse_i64_range v n : parse_i64 v = Some n -> i64_min <= n <= i64_max.
Proof.
  unfold parse_i64. destruct v as [|c v]; [done |]. case_decide.
  - destruct (parse_nonempty (- i64_min) v) as [m|] eqn:E; [| done]. intros [= <-].
    assert (parse_unsigned (- i64_min) ("+"%byte :: v) = Some m) as Hm
      by (unfold parse_unsigned; by rewrite decide_True).
    apply parse_unsigned_range in Hm; unfold i64_min, i64_max in *; lia.
  - intros Hp. apply parse_unsigned_range in Hp; unfold i64_min, i64_max in *; lia.
Qed.

Lemma dec_length n : 0 <= n <= i64_max -> zlen (dec n) <= 64.
Proof.
  intros [H0 H]. unfold dec.
  assert (forall fuel m acc, (length (dec_loop fuel m acc) <= fuel + length acc)%nat) as Hl.
  { induction fuel as [|fuel IH]; intros m acc; cbn; [lia |]. case_match; cbn; [lia |].
    specialize (IH (m / 10) (dec_digit (m mod 10) :: acc)). cbn in IH. lia. }
  specialize (Hl (S (Z.to_nat (Z.log2 n))) n []). unfold zlen. cbn [length] in Hl.
  pose proof (Z.log2_le_mono _ _ H) as Hg. change (Z.log2 i64_max) with 62 in Hg. lia.
Qed.

Lemma dec_ascii n : 0 <= n -> Forall (fun c => bval c < 128) (dec n).
Proof.
  intros Hn. destruct (dec_spec n Hn) as (Hd & _ & _).
  apply Forall_forall. intros c Hc. rewrite forallb_forall in Hd.
  apply list_elem_of_In in Hc. specialize (Hd c Hc).
  apply is_ascii_digit_range in Hd. unfold digit_val in Hd. lia.
Qed.

Lemma is_ascii_digit_not c d :
  is_ascii_digit d = false -> is_ascii_digit c = true -> c <> d.
Proof. congruence. Qed.

(** No digit string contains a byte that is not a digit. *)
Lemma digits_not_elem d v :
  is_ascii_digit d = false -> forallb is_ascii_digit v = true -> d ∉ v.
Proof.
  intros Hd Hv Hin. rewrite forallb_forall in Hv.
  apply list_elem_of_In, Hv in Hin. congruence.
Qed.

Example parse_examples :
  parse_u32 (lit "+080") = Some 80 /\ parse_u32 (lit "4294967296") = None
  /\ parse_i64 (lit "-5") = Some (-5) /\ parse_u64 (lit "") = None
  /\ dec 1700000000 = lit "1700000000" /\ dec 0 = lit "0"
  /\ hex02 (byte_of 10) = lit "0a".
Proof. by vm_compute. Qed.

(** ** Words *)

(** [str::split_whitespace]: the maximal runs of characters that are not
    Unicode white space; the length is enough fuel, every character has at
    least one byte. *)
Fixpoint words_from (fuel : nat) (cur v : bytes) : list bytes :=
  let flush := match cur with [] => [] | _ => [cur] end in
  match v, fuel with
  | [], _ => flush
  | _, O => flush
  | _, S fuel' =>
      match next_char v with
      | None => flush
      | Some (n, rest) =>
          if is_whitespace n then flush ++ words_from fuel' [] rest
          else words_from fuel' (cur ++ take (length v - length rest)%nat v) rest
      end
  end.
Definition split_whitespace (v : bytes) : list bytes := words_from (length v) [] v.

(** [u8::is_ascii_whitespace] and [str::split_ascii_whitespace]. *)
Definition is_ascii_whitespace (c : byte) : bool :=
  existsb (Z.eqb (bval c)) [32; 9; 10; 12; 13].
Fixpoint ascii_words_from (cur v : bytes) : list bytes :=
  let flush := match cur with [] => [] | _ => [cur] end in
  match v with
  | [] => flush
  | c :: v' => if is_ascii_whitespace c then flush ++ ascii_words_from [] v'
               else ascii_words_from (cur ++ [c]) v'
  end.
Definition split_ascii_whitespace (v : bytes) : list bytes := ascii_words_from [] v.

(** A nonempty run of ASCII digits is one word, and the space after it
    separates it from the next one. *)
Lemma words_from_digits fuel cur v w :
  forallb is_ascii_digit v = true -> (length v + length w <= fuel)%nat ->
  words_from fuel cur (v ++ w) = words_from (fuel - length v) (cur ++ v) w.
Proof.
  revert fuel cur; induction v as [|c v IH]; intros fuel cur Hv Hf; cbn [app length].
  { rewrite Nat.sub_0_r, app_nil_r. done. }
  cbn in Hv, Hf. split_bools.
  destruct fuel as [|fuel]; [lia |]. cbn [words_from].
  assert (next_char (c :: v ++ w) = Some (bval c, v ++ w)) as Hn.
  { apply is_ascii_digit_range in H. unfold digit_val in H. cbn.
    by rewrite (proj2 (Z.ltb_lt _ _)) by lia. }
  assert (is_whitespace (bval c) = false) as Hw.
  { apply is_ascii_digit_range in H. unfold digit_val in H.
    unfold is_whitespace, in_range.
    repeat (rewrite orb_false_iff); repeat split; rewrite ?andb_false_iff,
      ?Z.leb_gt, ?Z.eqb_neq; lia. }
  cbn [app] in Hn. rewrite Hn, Hw, IH by (try done; lia).
  replace (length (c :: v ++ w) - length (v ++ w))%nat with 1%nat by (cbn; lia).
  by rewrite <-app_assoc.
Qed.

Lemma words_from_space fuel cur v :
  words_from (S fuel) cur (" "%byte :: v)
  = match cur with [] => [] | _ => [cur] end ++ words_from fuel [] v.
Proof. reflexivity. Qed.

Example words_examples :
  split_whitespace (lit " 1700000000  42 1") = [lit "1700000000"; lit "42"; lit "1"]
  /\ split_ascii_whitespace (lit "ssh-ed25519 AAAA ") = [lit "ssh-ed25519"; lit "AAAA"]
  /\ lines (lit "a") = [lit "a"] /\ lines [] = [].
Proof. by vm_compute. Qed.
