(* ===== verification/Contracts.v ===== *)
(** * Contracts: the constants shared by the components

    Models [crates/owlmux-server/src/generated/contracts.rs] (sizes and
    limits), the [RouteIdentity] of [relay/mod.rs] and the [SshError] values of
    [ssh.rs] every layer maps. *)

From S2P Require Import Prelude Text.

Definition RELAY_PROTOCOL_VERSION : Z := 1.
Definition RELAY_MAX_FRAME_BYTES : Z := 32768.
Definition RELAY_MAX_DATA_BYTES : Z := 16384.
Definition RELAY_MAX_STREAMS : Z := 32.
Definition ATTACHMENT_MAX_FRAME_BYTES : Z := 32768.
Definition ATTACHMENT_MAX_TERMINAL_CHUNK_BYTES : Z := 16384.
Definition ATTACHMENT_MAX_INPUT_BYTES : Z := 1024.
Definition ATTACHMENT_MAX_DIMENSION : Z := 10000.
Definition ATTACHMENT_MAX_GRID_CELLS : Z := 2000000.
Definition ATTACHMENT_MAX_PANES : Z := 32.
Definition ATTACHMENT_MAX_PANE_SNAPSHOT_BYTES : Z := 262144.
Definition ATTACHMENT_MAX_PROJECTION_BYTES : Z := 1048576.
Definition ATTACHMENT_CLOSE_NORMAL : Z := 1000.
Definition ATTACHMENT_CLOSE_PROTOCOL_ERROR : Z := 1002.
Definition ATTACHMENT_CLOSE_POLICY_VIOLATION : Z := 1008.
Definition ATTACHMENT_CLOSE_TEMPORARILY_UNAVAILABLE : Z := 1013.
Definition INTERNAL_CONTRACT_VERSION : bytes := lit "owner.v1".
Definition INTERNAL_CONFIGURATION_VERSION : bytes := lit "configuration.v1".
Definition INTERNAL_CONFIGURATION_DOMAIN : bytes :=
  lit "owlmux:cluster-configuration:v1" ++ ["000"%byte].
Definition INTERNAL_AUTH_TIMEOUT_SECONDS : Z := 5.
Definition INTERNAL_MAX_FRAME_BYTES : Z := 32768.
Definition INTERNAL_MAX_CONNECTIONS : Z := 128.
Definition INTERNAL_MAX_CONTROL_CONNECTIONS : Z := 8.

(** [relay::RouteIdentity]. *)
Record RouteIdentity : Type := { rt_revision : Z; rt_epoch : Z; rt_connection : Uuid }.
Global Instance RouteIdentity_eq_dec : EqDecision RouteIdentity.
Proof. solve_decision. Defined.

(** [ssh::SshError]. *)
Inductive SshError : Type :=
| SshCustody | SshUnavailable | SshInvalidState | SshProofFailed | SshFenced.
Global Instance SshError_eq_dec : EqDecision SshError.
Proof. solve_decision. Defined.
