(* ===== verification/Writer.v ===== *)
(** * Writer: the exclusive writer pointer of a Machine route

    Models [crates/owlmux-server/src/writer.rs].  A [WriterScope] is the
    object an [Arc<WriterScope>] points to: the route it belongs to, the
    current writer, the [dispatch] mutex and the revision of its [watch]
    channel.  Scopes are shared between the registry and the attachments
    that hold a clone of the [Arc], so [WriterRegistry] is a store: object
    references ([ScopeRef]) to scopes, and the [HashMap] from Machine to the
    reference of its current scope.  Replacing a Machine's scope on a new
    route leaves the old object in the store, as the old [Arc]s do.

    Every operation below runs under the state mutex in the source, so each
    one is an atomic step. *)

From S2P Require Import Prelude Text Contracts.

Record ClientSize : Type := { columns : Z; rows : Z }.

Inductive ControlOutcome : Type :=
| ControlSucceeded | ControlFailed | ControlAmbiguous.
Global Instance ControlOutcome_eq_dec : EqDecision ControlOutcome.
Proof. solve_decision. Defined.

(** The sending half of an attachment's directive channel, as an identity. *)
Abbreviation ControlSender := Z (only parsing).

Inductive ControlDirective : Type :=
| Demote (response : Z)
| Close.

Record WriterHandle : Type := {
  attachment_id : Uuid;
  size : ClientSize;
  control : option ControlSender;
}.

Record WriterView : Type := { is_writer : bool; writer_available : bool }.

Record WriterScope : Type := {
  route : RouteIdentity;
  dispatch_held : bool;
  current : option WriterHandle;
  revision : Z;
}.

(** [WriterScope::new]. *)
Definition new_scope (r : RouteIdentity) : WriterScope :=
  {| route := r; dispatch_held := false; current := None; revision := 0 |}.

Definition set_writer_state (s : WriterScope) (w : option WriterHandle) : WriterScope :=
  {| route := route s; dispatch_held := dispatch_held s; current := w;
     revision := revision s |}.
Definition set_dispatch (s : WriterScope) (held : bool) : WriterScope :=
  {| route := route s; dispatch_held := held; current := current s;
     revision := revision s |}.

(** [WriterGuard::notify]. *)
Definition notify (s : WriterScope) : WriterScope :=
  {| route := route s; dispatch_held := dispatch_held s; current := current s;
     revision := wrapping_add u64_max (revision s) 1 |}.

Definition is_current (s : WriterScope) (a : Uuid) : bool :=
  match current s with Some w => attachment_id w =? a | None => false end.

Definition is_available (s : WriterScope) : bool :=
  match current s with Some _ => false | None => true end.

Definition view (s : WriterScope) (a : Uuid) : WriterView :=
  {| is_writer := match current s with Some w => attachment_id w =? a | None => false end;
     writer_available := match current s with Some _ => false | None => true end |}.

Definition try_dispatch (s : WriterScope) : option WriterScope :=
  if dispatch_held s then None else Some (set_dispatch s true).
Definition drop_dispatch (s : WriterScope) : WriterScope := set_dispatch s false.

Definition current_attachment (s : WriterScope) : option Uuid :=
  attachment_id <$> current s.

Definition current_control (s : WriterScope) : option ControlSender :=
  w ← current s; control w.

Definition current_size (s : WriterScope) (a : Uuid) : option ClientSize :=
  w ← current s; if attachment_id w =? a then Some (size w) else None.

Definition set_current (s : WriterScope) (a : Uuid) (sz : ClientSize)
    (c : option ControlSender) : WriterScope :=
  notify (set_writer_state s
    (Some {| attachment_id := a; size := sz; control := c |})).

Definition set_control (s : WriterScope) (a : Uuid) (c : ControlSender)
    : WriterScope * bool :=
  match current s with
  | None => (s, false)
  | Some w =>
      if negb (attachment_id w =? a) then (s, false)
      else (set_writer_state s (Some {| attachment_id := attachment_id w;
              size := size w; control := Some c |}), true)
  end.

Definition clear_control (s : WriterScope) (a : Uuid) : WriterScope * bool :=
  match current s with
  | None => (s, false)
  | Some w =>
      if negb (attachment_id w =? a) then (s, false)
      else (set_writer_state s (Some {| attachment_id := attachment_id w;
              size := size w; control := None |}), true)
  end.

Definition update_size (s : WriterScope) (a : Uuid) (sz : ClientSize)
    : WriterScope * bool :=
  match current s with
  | None => (s, false)
  | Some w =>
      if negb (attachment_id w =? a) then (s, false)
      else (set_writer_state s (Some {| attachment_id := attachment_id w;
              size := sz; control := control w |}), true)
  end.

Definition clear_if_current (s : WriterScope) (a : Uuid) : WriterScope * bool :=
  if negb (is_current s a) then (s, false)
  else (notify (set_writer_state s None), true).

Definition clear (s : WriterScope) : WriterScope :=
  match current s with
  | Some _ => notify (set_writer_state s None)
  | None => s
  end.

(** [WriterScope::release]: waits for the dispatch mutex, clears the writer
    if it is the attachment, drops the mutex.  [None]: it has to wait. *)
Definition release (s : WriterScope) (a : Uuid) : option WriterScope :=
  s1 ← try_dispatch s;
  Some (drop_dispatch (fst (clear_if_current s1 a))).

(** ** The registry and its store *)

Abbreviation ScopeRef := Z (only parsing).

Record WriterRegistry : Type := {
  scopes : gmap Uuid ScopeRef;
  store : gmap ScopeRef WriterScope;
  next_ref : ScopeRef;
}.

Definition new_registry : WriterRegistry :=
  {| scopes := ∅; store := ∅; next_ref := 0 |}.

(** [WriterRegistry::scope]. *)
Definition scope (g : WriterRegistry) (machine : Uuid) (r : RouteIdentity)
    : WriterRegistry * ScopeRef :=
  let fresh :=
    ({| scopes := <[machine := next_ref g]> (scopes g);
        store := <[next_ref g := new_scope r]> (store g);
        next_ref := next_ref g + 1 |}, next_ref g) in
  match scopes g !! machine with
  | Some ref =>
      match store g !! ref with
      | Some s => if decide (route s = r) then (g, ref) else fresh
      | None => fresh
      end
  | None => fresh
  end.

(** [WriterRegistry::release_attachment]: the scopes registered now, one
    after the other. *)
Fixpoint release_all (refs : list ScopeRef) (a : Uuid)
    (st : gmap ScopeRef WriterScope) : option (gmap ScopeRef WriterScope) :=
  match refs with
  | [] => Some st
  | ref :: rest =>
      match st !! ref with
      | None => release_all rest a st
      | Some s => s' ← release s a; release_all rest a (<[ref := s']> st)
      end
  end.

Definition release_attachment (g : WriterRegistry) (a : Uuid) : option WriterRegistry :=
  st ← release_all (map snd (map_to_list (scopes g))) a (store g);
  Some {| scopes := scopes g; store := st; next_ref := next_ref g |}.

(** Every registered reference points to an object, and fresh references
    are unused. *)
Definition registry_ok (g : WriterRegistry) : Prop :=
  (forall m ref, scopes g !! m = Some ref -> is_Some (store g !! ref))
  /\ (forall ref, is_Some (store g !! ref) -> ref < next_ref g).

(** ** Operations as steps *)

Inductive op : Type :=
| OpSetCurrent (a : Uuid) (sz : ClientSize) (c : option ControlSender)
| OpSetControl (a : Uuid) (c : ControlSender)
| OpClearControl (a : Uuid)
| OpUpdateSize (a : Uuid) (sz : ClientSize)
| OpClearIfCurrent (a : Uuid)
| OpClear
| OpTryDispatch
| OpDropDispatch.

Definition run_op (o : op) (s : WriterScope) : WriterScope :=
  match o with
  | OpSetCurrent a sz c => set_current s a sz c
  | OpSetControl a c => fst (set_control s a c)
  | OpClearControl a => fst (clear_control s a)
  | OpUpdateSize a sz => fst (update_size s a sz)
  | OpClearIfCurrent a => fst (clear_if_current s a)
  | OpClear => clear s
  | OpTryDispatch => default s (try_dispatch s)
  | OpDropDispatch => drop_dispatch s
  end.

(** ** Theorems *)

Ltac unfold_writer :=
  unfold run_op, set_current, set_control, clear_control, update_size,
    clear_if_current, clear, try_dispatch, drop_dispatch, set_dispatch,
    notify, set_writer_state, view, is_current, is_available in *.

Lemma release_spec s a s' :
  release s a = Some s' ->
  dispatch_held s' = false /\ route s' = route s /\ is_current s' a = false
  /\ (is_current s a = false -> s' = s).
Proof.
  unfold release, try_dispatch. destruct s as [r [|] [w|] rev]; cbn; try done.
  - unfold clear_if_current, is_current; cbn.
    destruct (attachment_id w =? a) eqn:E; cbn; intros [= <-]; cbn; rewrite ?E; done.
  - intros [= <-]; done.
Qed.

Lemma release_enabled s a : dispatch_held s = false -> is_Some (release s a).
Proof. unfold release, try_dispatch. intros ->. cbn. eauto. Qed.

(** No change of who is the
    writer goes unannounced: when an operation changes what some attachment
    sees ([view]), the watch revision moves to its wrapping successor, which
    differs from the old one; when no view changes and the writer pointer is
    not replaced, subscribers are not woken. *)
Theorem view_changes_are_notified (o : op) (s : WriterScope)
    (Hrev : 0 <= revision s <= u64_max) :
  (forall a, view (run_op o s) a <> view s a ->
     revision (run_op o s) = wrapping_add u64_max (revision s) 1
     /\ revision (run_op o s) <> revision s)
  /\ (revision (run_op o s) = revision s -> forall a, view (run_op o s) a = view s a).
Proof.
  assert (revision s <> wrapping_add u64_max (revision s) 1) as Hne.
  { unfold wrapping_add, u64_max in *.
    destruct (Z.eq_dec (revision s) 18446744073709551615) as [->|]; [done |].
    rewrite Z.mod_small by lia. lia. }
  destruct s as [r h [w|] rev], o; unfold_writer; cbn in *;
    repeat (case_match; cbn in *); split; intros; split_bools; simplify_eq/=;
    rewrite ?Z.eqb_refl in *; try done; try congruence; try (split; congruence).
Qed.

Lemma view_changes_are_notified_witness :
  revision (run_op OpClear (set_current (new_scope
     {| rt_revision := 1; rt_epoch := 1; rt_connection := 7 |}) 5
     {| columns := 80; rows := 24 |} None)) = 2.
Proof.
  pose (s := set_current (new_scope
     {| rt_revision := 1; rt_epoch := 1; rt_connection := 7 |}) 5
     {| columns := 80; rows := 24 |} None).
  assert (0 <= revision s <= u64_max) as Hs by (vm_compute; split; discriminate).
  destruct (view_changes_are_notified OpClear s Hs) as [Hn _].
  destruct (Hn 5) as [Hr _]; [vm_compute; discriminate |].
  etransitivity; [exact Hr | reflexivity].
Defined.

Lemma registry_ok_new : registry_ok new_registry.
Proof. split; cbn; intros *; rewrite lookup_empty; naive_solver. Qed.

Lemma scope_registered g m r g' ref :
  scope g m r = (g', ref) -> registry_ok g ->
  scopes g' !! m = Some ref /\
  ((g' = g /\ exists s, store g !! ref = Some s /\ route s = r)
   \/ (store g !! ref = None /\ store g' = <[ref := new_scope r]> (store g)
       /\ scopes g' = <[m := ref]> (scopes g) /\ next_ref g' = next_ref g + 1
       /\ ref = next_ref g)).
Proof.
  unfold scope. intros H [Hreg Hfresh].
  assert (store g !! next_ref g = None) as Hnone.
  { destruct (store g !! next_ref g) eqn:E; [| done].
    specialize (Hfresh (next_ref g)). rewrite E in Hfresh.
    specialize (Hfresh ltac:(eauto)). lia. }
  repeat case_match; simplify_eq/=; rewrite ?lookup_insert_eq;
    first [by eauto 10 | split; [done | right; done]].
Qed.

Lemma scope_ok g m r g' ref :
  scope g m r = (g', ref) -> registry_ok g -> registry_ok g'.
Proof.
  intros H Hok. destruct (scope_registered _ _ _ _ _ H Hok)
    as [_ [[-> _] | (_ & Hst & Hsc & Hn & ->)]]; [done |].
  destruct Hok as [Hreg Hfresh]. split; intros *; rewrite ?Hst, ?Hsc, ?Hn.
  - rewrite !lookup_insert. repeat case_decide; naive_solver.
  - rewrite lookup_insert. case_decide; [lia |]. intros Hs. apply Hfresh in Hs. lia.
Qed.

(** [WriterRegistry::scope] hands out exactly one live scope per route:
    the result is registered for the Machine and carries the requested
    route; asking again with the same route gives the same shared object;
    asking with another route gives an object nobody held before, with no
    writer, and leaves every existing object (the old route's included)
    untouched. *)
Theorem scope_is_route_exact (g : WriterRegistry) (m : Uuid) (r : RouteIdentity)
    (g1 : WriterRegistry) (ref : ScopeRef)
    (Hok : registry_ok g) (H : scope g m r = (g1, ref)) :
  scopes g1 !! m = Some ref
  /\ (exists s, store g1 !! ref = Some s /\ route s = r)
  /\ scope g1 m r = (g1, ref)
  /\ (forall ref' s', store g !! ref' = Some s' -> store g1 !! ref' = Some s')
  /\ (forall r' g2 ref', scope g1 m r' = (g2, ref') -> r' <> r ->
        ref' <> ref /\ store g1 !! ref' = None
        /\ store g2 !! ref' = Some (new_scope r')
        /\ store g2 !! ref = store g1 !! ref).
Proof.
  pose proof (scope_ok _ _ _ _ _ H Hok) as Hok1.
  destruct (scope_registered _ _ _ _ _ H Hok) as [Hreg Hcase].
  assert (exists s, store g1 !! ref = Some s /\ route s = r) as (s & Hs & Hr).
  { destruct Hcase as [[-> ?] | (_ & -> & _)]; [done |].
    rewrite lookup_insert_eq. eexists; split; [done | reflexivity]. }
  split_and!; eauto.
  - unfold scope. rewrite Hreg, Hs. by rewrite decide_True.
  - destruct Hcase as [[-> ?] | (Hnone & -> & _)]; [done |].
    intros ref' s' Hs'. rewrite lookup_insert_ne; congruence.
  - intros r' g2 ref' H2 Hne.
    destruct (scope_registered _ _ _ _ _ H2 Hok1)
      as [_ [[-> (s2 & Hs2 & Hr2)] | (Hn & Hst & _ & _ & ->)]].
    + unfold scope in H2. rewrite Hreg, Hs in H2.
      rewrite decide_False in H2 by congruence.
      injection H2 as Hg2 <-. apply (f_equal next_ref) in Hg2. cbn in Hg2. lia.
    + assert (next_ref g1 <> ref) by congruence.
      rewrite Hst, lookup_insert_eq, lookup_insert_ne by done. done.
Qed.

Lemma scope_is_route_exact_witness :
  let r k := {| rt_revision := 1; rt_epoch := k; rt_connection := 9 |} in
  let '(g1, ref1) := scope new_registry 4 (r 1) in
  scope g1 4 (r 1) = (g1, ref1) /\ snd (scope g1 4 (r 2)) <> ref1.
Proof.
  cbv zeta. destruct (scope new_registry 4 _) as [g1 ref1] eqn:E.
  pose proof (scope_is_route_exact _ _ _ _ _ registry_ok_new E) as (_ & _ & Hs & _ & Hn).
  split; [exact Hs |].
  destruct (scope g1 4 {| rt_revision := 1; rt_epoch := 2; rt_connection := 9 |})
    as [g2 ref2] eqn:E2.
  exact (proj1 (Hn _ _ _ E2 ltac:(discriminate))).
Defined.

Lemma release_all_spec refs a st st' :
  release_all refs a st = Some st' -> NoDup refs ->
  forall ref, st' !! ref =
    (if bool_decide (ref ∈ refs) then st !! ref ≫= (fun s => release s a)
     else st !! ref).
Proof.
  revert st; induction refs as [|ref0 refs IH]; intros st H Hnd ref.
  { cbn in H. injection H as ->. by rewrite bool_decide_false by set_solver. }
  apply NoDup_cons in Hnd as [Hnotin Hnd]. cbn in H.
  destruct (st !! ref0) as [s|] eqn:E; cbn in H.
  - destruct (release s a) as [s'|] eqn:Er; cbn in H; [| done].
    rewrite (IH _ H Hnd). rewrite lookup_insert.
    destruct (decide (ref0 = ref)) as [<-|Hne].
    + rewrite bool_decide_false by done.
      rewrite bool_decide_true by set_solver. by rewrite E.
    + destruct (decide (ref ∈ refs)).
      * rewrite !bool_decide_true by set_solver. done.
      * rewrite !bool_decide_false by set_solver. done.
  - rewrite (IH _ H Hnd).
    destruct (decide (ref0 = ref)) as [<-|Hne].
    + rewrite bool_decide_false, bool_decide_true by set_solver. by rewrite E.
    + destruct (decide (ref ∈ refs)).
      * rewrite !bool_decide_true by set_solver. done.
      * rewrite !bool_decide_false by set_solver. done.
Qed.

Lemma release_all_enabled refs a st :
  (forall ref s, st !! ref = Some s -> ref ∈ refs -> dispatch_held s = false) ->
  is_Some (release_all refs a st).
Proof.
  revert st; induction refs as [|ref0 refs IH]; intros st H; cbn; [eauto |].
  destruct (st !! ref0) as [s|] eqn:E; cbn; [| apply IH; set_solver].
  destruct (release_enabled s a) as [s' Hs']; [eapply H; set_solver |].
  rewrite Hs'; cbn. apply IH. intros ref s1. rewrite lookup_insert.
  case_decide; [intros [= <-] _; apply (release_spec _ _ _ Hs') |].
  intros; eapply H; set_solver.
Qed.

(** The registry never maps two Machines to one scope object. *)
Definition refs_distinct (g : WriterRegistry) : Prop :=
  NoDup (map snd (map_to_list (scopes g))).

(** Releasing an attachment ends its tenure everywhere and nobody
    else's: when no registered scope is being dispatched the release runs to
    completion; afterwards the attachment is the writer of no registered
    scope, every scope it did not hold is bit-for-bit unchanged (so another
    attachment's writer handle, size and control survive), and no scope is
    added or dropped. *)
Theorem release_attachment_exact (g : WriterRegistry) (a : Uuid)
    (Hok : registry_ok g) (Hnd : refs_distinct g)
    (Hfree : forall m ref s, scopes g !! m = Some ref -> store g !! ref = Some s ->
       dispatch_held s = false) :
  exists g', release_attachment g a = Some g'
  /\ scopes g' = scopes g
  /\ (forall m ref s, scopes g' !! m = Some ref -> store g' !! ref = Some s ->
        is_current s a = false)
  /\ (forall ref s, store g !! ref = Some s -> is_current s a = false ->
        store g' !! ref = Some s).
Proof.
  assert (forall ref, ref ∈ map snd (map_to_list (scopes g)) <->
            exists m, scopes g !! m = Some ref) as Hin.
  { intros ref. rewrite list_elem_of_fmap. split.
    - intros ([m r] & -> & Hm). apply elem_of_map_to_list in Hm. eauto.
    - intros [m Hm]. exists (m, ref). by rewrite elem_of_map_to_list. }
  destruct (release_all_enabled (map snd (map_to_list (scopes g))) a (store g)) as [st Hst].
  { intros ref s Hs Hr. apply Hin in Hr as [m Hm]. eauto. }
  unfold release_attachment. rewrite Hst. eexists; split; [reflexivity |]; cbn.
  pose proof (release_all_spec _ _ _ _ Hst Hnd) as Hspec.
  split_and!; [done | |].
  - intros m ref s Hm Hs. rewrite Hspec, bool_decide_true in Hs by (apply Hin; eauto).
    destruct (store g !! ref) as [s0|]; cbn in Hs; [| done]. 
    by destruct (release_spec _ _ _ Hs) as (_ & _ & ? & _).
  - intros ref s Hs Hc. rewrite Hspec. case_bool_decide as Hr; [| done].
    rewrite Hs; cbn. apply Hin in Hr as [m Hm].
    destruct (release_enabled s a) as [s' Hs']; [eauto |].
    rewrite Hs'. f_equal. by apply (release_spec _ _ _ Hs').
Qed.

Lemma release_attachment_exact_witness :
  let r := {| rt_revision := 1; rt_epoch := 1; rt_connection := 9 |} in
  let s := set_current (new_scope r) 5 {| columns := 80; rows := 24 |} None in
  let g := {| scopes := {[ 4 := 0 ]}; store := {[ 0 := s ]}; next_ref := 1 |} in
  (exists g', release_attachment g 6 = Some g' /\ store g' !! 0 = Some s)
  /\ (exists g' s', release_attachment g 5 = Some g' /\ store g' !! 0 = Some s'
        /\ is_current s' 5 = false).
Proof.
  cbv zeta.
  set (r := {| rt_revision := 1; rt_epoch := 1; rt_connection := 9 |}).
  set (s := set_current (new_scope r) 5 {| columns := 80; rows := 24 |} None).
  set (g := {| scopes := {[ 4 := 0 ]}; store := {[ 0 := s ]}; next_ref := 1 |}).
  assert (forall m ref, scopes g !! m = Some ref -> m = 4 /\ ref = 0) as Hsc.
  { intros m ref Hm. by apply (lookup_singleton_Some 4 m 0 ref) in Hm as [<- <-]. }
  assert (forall ref s', store g !! ref = Some s' -> ref = 0 /\ s' = s) as Hst.
  { intros ref s' Hm. by apply (lookup_singleton_Some 0 ref s s') in Hm as [<- <-]. }
  assert (registry_ok g) as Hok.
  { split; [intros m ref [-> ->]%Hsc; eexists; reflexivity |].
    intros ref [s' [-> _]%Hst]. reflexivity. }
  assert (refs_distinct g) as Hnd.
  { vm_compute. repeat constructor; intros H; inversion H. }
  assert (forall m ref s', scopes g !! m = Some ref -> store g !! ref = Some s' ->
            dispatch_held s' = false) as Hfree.
  { intros m ref s' _ [_ ->]%Hst. reflexivity. }
  split.
  - destruct (release_attachment_exact g 6 Hok Hnd Hfree) as (g' & H1 & _ & _ & H3).
    exists g'. split; [exact H1 |]. exact (H3 0 s eq_refl eq_refl).
  - destruct (release_attachment_exact g 5 Hok Hnd Hfree) as (g' & H1 & H2 & H3 & _).
    destruct (release_attachment g 5) as [g''|] eqn:E; [| discriminate].
    injection H1 as <-.
    assert (is_Some (store g'' !! 0)) as [s' Es].
    { vm_compute in E. injection E as <-. eexists. reflexivity. }
    exists g'', s'. split_and!; [done | done |].
    eapply (H3 4 0); [rewrite H2; reflexivity | done].
Defined.
