(* ===== verification/Binary.v ===== *)
(** * Binary: fixed-width encodings and length-framed fields

    [to_be_bytes] of the integer types, [Uuid::as_bytes], and the framed
    transcript fields of [cluster.rs]; each with the injectivity lemmas that
    the authentication components rely on. *)

From S2P Require Import Prelude.

(** [n.to_be_bytes()] of a [k]-byte integer (two's complement for [n < 0]). *)
Fixpoint be_bytes (k : nat) (n : Z) : bytes :=
  match k with
  | O => []
  | S k' => be_bytes k' (n / 256) ++ [byte_of n]
  end.

(** [Uuid::as_bytes], and [to_be_bytes] of [i64] and [u32]. *)
Definition uuid_bytes (u : Uuid) : bytes := be_bytes 16 u.
Definition i64_bytes (n : Z) : bytes := be_bytes 8 n.
Definition u32_bytes (n : Z) : bytes := be_bytes 4 n.

Arguments is_uuid : simpl never.
Arguments uuid_bytes : simpl never.
Arguments i64_bytes : simpl never.
Arguments u32_bytes : simpl never.

Definition is_i64 (n : Z) : Prop := i64_min <= n <= i64_max.
Arguments is_i64 : simpl never.

Lemma length_be_bytes k n : length (be_bytes k n) = k.
Proof.
  revert n; induction k as [|k IH]; intros n; cbn; [done |].
  rewrite length_app, IH. cbn. lia.
Qed.

Lemma be_bytes_inj k a b :
  be_bytes k a = be_bytes k b -> a mod 256 ^ Z.of_nat k = b mod 256 ^ Z.of_nat k.
Proof.
  revert a b; induction k as [|k IH]; intros a b H.
  - change (256 ^ Z.of_nat 0) with 1. by rewrite !Z.mod_1_r.
  - cbn [be_bytes] in H. apply app_inj_tail in H as [H1 H2]. apply IH in H1.
    assert (a mod 256 = b mod 256) as H3 by (by rewrite <- !bval_byte_of, H2).
    rewrite Nat2Z.inj_succ, Z.pow_succ_r by lia.
    rewrite !Z.rem_mul_r by lia. by rewrite H1, H3.
Qed.

Lemma uuid_bytes_inj a b : is_uuid a -> is_uuid b -> uuid_bytes a = uuid_bytes b -> a = b.
Proof.
  unfold is_uuid. intros Ha Hb H%be_bytes_inj.
  change (256 ^ Z.of_nat 16) with (2 ^ 128) in H. by rewrite !Z.mod_small in H.
Qed.

Lemma i64_bytes_inj a b : is_i64 a -> is_i64 b -> i64_bytes a = i64_bytes b -> a = b.
Proof.
  unfold is_i64, i64_min, i64_max. intros Ha Hb H%be_bytes_inj.
  change (256 ^ Z.of_nat 8) with 18446744073709551616 in H.
  pose proof (Z_div_mod_eq_full a 18446744073709551616).
  pose proof (Z_div_mod_eq_full b 18446744073709551616). lia.
Qed.

Lemma u32_bytes_inj a b :
  0 <= a <= u32_max -> 0 <= b <= u32_max -> u32_bytes a = u32_bytes b -> a = b.
Proof.
  unfold u32_max. intros Ha Hb H%be_bytes_inj.
  change (256 ^ Z.of_nat 4) with 4294967296 in H. by rewrite !Z.mod_small in H by lia.
Qed.

(** ** Length-framed fields *)

Definition frame_field (value : bytes) : bytes := u32_bytes (zlen value) ++ value.

Definition field_fits (value : bytes) : Prop := zlen value <= u32_max.

(** A concatenation of framed fields determines the fields. *)
Lemma frame_fields_inj fs gs :
  Forall field_fits fs -> Forall field_fits gs ->
  concat (map frame_field fs) = concat (map frame_field gs) -> fs = gs.
Proof.
  intros Hf. revert gs; induction Hf as [|f fs Hf _ IH]; intros gs Hg H.
  - destruct Hg as [|g gs Hg _]; [done |]. exfalso. cbn [map concat] in H.
    apply (f_equal (@length byte)) in H. unfold frame_field in H.
    rewrite !length_app in H. unfold u32_bytes in H. rewrite length_be_bytes in H. cbn in H. lia.
  - destruct Hg as [|g gs Hg Hgs].
    { exfalso. cbn [map concat] in H. apply (f_equal (@length byte)) in H.
      unfold frame_field in H. rewrite !length_app in H. unfold u32_bytes in H.
      rewrite length_be_bytes in H. cbn in H. lia. }
    cbn [map concat] in H. unfold frame_field in H at 1 3. rewrite <- !app_assoc in H.
    apply app_inj_length in H as [H1 H2]; [| unfold u32_bytes; by rewrite !length_be_bytes].
    unfold field_fits in *. pose proof (zlen_nonneg f). pose proof (zlen_nonneg g).
    apply u32_bytes_inj in H1; [| lia | lia].
    apply app_inj_length in H2 as [-> H2]; [| by apply zlen_eq_length].
    f_equal. by apply IH.
Qed.
