(* ===== verification/Secrets.v ===== *)
(** * Secrets: key formats and the credential envelope

    Models [crates/owlmux-server/src/auth.rs] (API key, canonical 32-byte
    secrets) and [crypto.rs] (associated data, [seal], [open]).  The base64url
    codec, the digest and the AEAD are third-party code: they are the classes
    below, whose laws state their documented behaviour. *)

From S2P Require Import Prelude Text Binary.

(** ** Third-party interfaces *)

(** [base64::URL_SAFE_NO_PAD]. *)
Class Base64 : Type := {
  b64_encode : bytes -> bytes;
  b64_decode : bytes -> option bytes;
}.

(** Documented: decoding inverts encoding. *)
Class Base64Laws `{Base64} : Prop := {
  b64_roundtrip : forall v, b64_decode (b64_encode v) = Some v;
}.

(** [sha2::Sha256]. *)
Class Sha256 : Type := { sha256 : bytes -> bytes }.

(** [chacha20poly1305::XChaCha20Poly1305]: [encrypt key nonce aad msg]. *)
Class Aead : Type := {
  aead_encrypt : bytes -> bytes -> bytes -> bytes -> option bytes;
  aead_decrypt : bytes -> bytes -> bytes -> bytes -> option bytes;
}.

(** Documented: decryption returns exactly the message of a ciphertext that
    was produced under the same key, nonce and associated data; ciphertexts
    carry a 16-byte tag. *)
Class AeadLaws `{Aead} : Prop := {
  aead_decrypt_spec : forall k n a c m,
    aead_decrypt k n a c = Some m <-> aead_encrypt k n a m = Some c;
  aead_tag : forall k n a m c, aead_encrypt k n a m = Some c -> zlen c = zlen m + 16;
}.

(** ** auth.rs *)

Inductive SecretFormatError : Type := SecretFormat.
Global Instance SecretFormatError_eq_dec : EqDecision SecretFormatError.
Proof. solve_decision. Defined.

Definition API_KEY_PREFIX : bytes := lit "owlmux_sk_v1_".

Section auth.
Context `{Base64}.

(** A [[u8; 32]] is a byte string of length 32. *)
Definition decode_canonical_32 (value : bytes) : result SecretFormatError bytes :=
  decoded ← ok_or SecretFormat (b64_decode value);
  if negb (zlen decoded =? 32) || negb (bool_decide (b64_encode decoded = value))
  then Err SecretFormat
  else Ok decoded.

(** [ApiKey::parse]. *)
Definition parse_api_key (value : bytes) : result SecretFormatError bytes :=
  payload ← ok_or SecretFormat (strip_prefix API_KEY_PREFIX value);
  decode_canonical_32 payload.

(** [ApiKey::verify]; [ct_eq] of two arrays is their equality. *)
Definition verify_api_key (key candidate : bytes) : bool :=
  match parse_api_key candidate with
  | Ok c => bool_decide (key = c)
  | Err _ => false
  end.

(** [EncryptionKey::parse]. *)
Definition parse_encryption_key (value : bytes) : result SecretFormatError bytes :=
  decode_canonical_32 value.

Lemma decode_canonical_32_Ok value k :
  decode_canonical_32 value = Ok k <->
  b64_decode value = Some k /\ zlen k = 32 /\ b64_encode k = value.
Proof.
  unfold decode_canonical_32. destruct (b64_decode value) as [d|]; cbn; [| naive_solver].
  destruct (Z.eqb_spec (zlen d) 32); cbn; [| naive_solver].
  case_bool_decide; cbn; naive_solver.
Qed.

Context `{!Base64Laws}.

Lemma decode_canonical_32_exact value k :
  decode_canonical_32 value = Ok k <-> zlen k = 32 /\ value = b64_encode k.
Proof.
  rewrite decode_canonical_32_Ok. split; [naive_solver |].
  intros [? ->]. by rewrite b64_roundtrip.
Qed.

(** The API key has one accepted spelling: a candidate verifies iff it
    is the prefix followed by the canonical encoding of exactly the 32 bytes
    of the configured key; in particular the configured text itself verifies
    and no padded, truncated or otherwise noncanonical variant does. *)
Theorem verify_api_key_exact (text key candidate : bytes)
    (Hkey : parse_api_key text = Ok key) :
  (verify_api_key key candidate = true <-> candidate = text)
  /\ text = API_KEY_PREFIX ++ b64_encode key /\ zlen key = 32.
Proof.
  assert (forall t k, parse_api_key t = Ok k <->
            zlen k = 32 /\ t = API_KEY_PREFIX ++ b64_encode k) as Hspec.
  { intros t k. unfold parse_api_key. rewrite bind_Ok. split.
    - intros (p & Hp%ok_or_Ok & Hk%decode_canonical_32_exact).
      apply strip_prefix_Some in Hp as ->. naive_solver.
    - intros [Hl ->]. exists (b64_encode k).
      by rewrite strip_prefix_app, decode_canonical_32_exact. }
  apply Hspec in Hkey as Hk. destruct Hk as [Hl ->]. split; [| done].
  unfold verify_api_key. split.
  - destruct (parse_api_key candidate) as [c|] eqn:E; [| done].
    intros Hc. split_bools. subst c. by apply Hspec in E as [_ ->].
  - intros ->. rewrite Hkey. by apply bool_decide_true.
Qed.
End auth.

(** ** crypto.rs *)

Inductive CryptoError : Type := CryptoFailed.
Global Instance CryptoError_eq_dec : EqDecision CryptoError.
Proof. solve_decision. Defined.

Definition ENVELOPE_VERSION : byte := "001"%byte.
Definition ENVELOPE_DOMAIN : bytes := lit "owlmux:ssh-private-key:v1" ++ ["000"%byte].
Definition NONCE_LENGTH : nat := 24.

Definition associated_data (deployment_id credential_id : Uuid) : bytes :=
  ENVELOPE_DOMAIN ++ uuid_bytes deployment_id ++ uuid_bytes credential_id.

Lemma associated_data_inj d c d' c' :
  is_uuid d -> is_uuid c -> is_uuid d' -> is_uuid c' ->
  associated_data d c = associated_data d' c' -> d = d' /\ c = c'.
Proof.
  intros Hd Hc Hd' Hc' H%app_inv_head.
  apply app_inj_length in H as [H1 H2]; [| unfold uuid_bytes; by rewrite !length_be_bytes].
  split; by apply uuid_bytes_inj.
Qed.

Section crypto.
Context `{Aead}.

(** [nonce] is the 24 random bytes of the call. *)
Definition seal (key : bytes) (deployment_id credential_id : Uuid) (nonce plaintext : bytes)
    : result CryptoError bytes :=
  ciphertext ← ok_or CryptoFailed
    (aead_encrypt key nonce (associated_data deployment_id credential_id) plaintext);
  Ok (ENVELOPE_VERSION :: nonce ++ ciphertext).

Definition open (key : bytes) (deployment_id credential_id : Uuid) (envelope : bytes)
    : result CryptoError bytes :=
  if negb (bool_decide (head envelope = Some ENVELOPE_VERSION))
     || (zlen envelope <=? 1 + Z.of_nat NONCE_LENGTH)
  then Err CryptoFailed
  else
    let nonce := take NONCE_LENGTH (drop 1 envelope) in
    ok_or CryptoFailed
      (aead_decrypt key nonce (associated_data deployment_id credential_id)
         (drop (1 + NONCE_LENGTH) envelope)).

Context `{!AeadLaws}.

Lemma open_seal_iff key d c envelope plaintext :
  open key d c envelope = Ok plaintext <->
  exists nonce, length nonce = NONCE_LENGTH /\ seal key d c nonce plaintext = Ok envelope.
Proof.
  unfold open, seal. split.
  - intros Ho. inv_ok. split_bools. destruct envelope as [|v e]; [done |].
    match goal with Hh : head _ = _ |- _ => injection Hh as -> end.
    rewrite zlen_cons in *. exists (take NONCE_LENGTH e). cbn in *.
    assert (NONCE_LENGTH <= length e)%nat by (unfold zlen, NONCE_LENGTH in *; lia).
    split; [by rewrite length_take_le |].
    apply aead_decrypt_spec in Ho. change (drop 0 e) with e in Ho. rewrite Ho. cbn. by rewrite take_drop.
  - intros (n & Hn & Hs). inv_ok.
    assert (zlen v = zlen plaintext + 16) as Hlen by (by eapply aead_tag).
    rewrite bool_decide_true by done. cbn [negb orb].
    rewrite (proj2 (Z.leb_gt _ _)).
    2:{ rewrite zlen_cons, zlen_app. pose proof (zlen_nonneg plaintext).
        unfold zlen in *. rewrite Hn. lia. }
    cbn [drop Nat.add]. change (drop 0 ?l) with l. rewrite take_app_length' by done.
    rewrite drop_app_length' by done. apply ok_or_Ok. by apply aead_decrypt_spec.
Qed.

(** The credential envelope: an envelope opens to a plaintext iff it is
    exactly the envelope [seal] makes of that plaintext with a 24-byte nonce,
    under the same key and for the same deployment and credential (whose
    bytes the associated data determines); every other byte string, an
    unknown version and a truncated envelope included, is refused. *)
Theorem open_exactly_sealed (key : bytes) (d c : Uuid) (envelope plaintext : bytes)
    (Hd : is_uuid d) (Hc : is_uuid c) :
  (open key d c envelope = Ok plaintext <->
   exists nonce, length nonce = NONCE_LENGTH /\ seal key d c nonce plaintext = Ok envelope)
  /\ (forall d' c', is_uuid d' -> is_uuid c' ->
      associated_data d' c' = associated_data d c -> d' = d /\ c' = c).
Proof. split; [apply open_seal_iff | intros; by apply associated_data_inj]. Qed.
End crypto.

(** ** A concrete instance of the interfaces

    Lower-case hex for the text codec, and an AEAD that checks its context by
    carrying it: the laws are satisfiable together. *)

Definition hex_value (c : byte) : option Z :=
  if is_ascii_digit c then Some (bval c - 48)
  else if in_range 97 102 (bval c) then Some (bval c - 87) else None.
Definition hex_encode (v : bytes) : bytes := concat (map hex02 v).
Fixpoint hex_decode (v : bytes) : option bytes :=
  match v with
  | [] => Some []
  | h :: l :: v' => a ← hex_value h; b ← hex_value l; rest ← hex_decode v';
                    Some (byte_of (16 * a + b) :: rest)
  | _ => None
  end.

Lemma hex_byte_roundtrip c :
  (a ← hex_value (hex_digit (bval c / 16)); b ← hex_value (hex_digit (bval c mod 16));
   Some (byte_of (16 * a + b))) = Some c.
Proof.
  apply (bool_decide_eq_true_1 _). revert c. apply byte_forall. vm_compute. reflexivity.
Qed.

Lemma hex_roundtrip v : hex_decode (hex_encode v) = Some v.
Proof.
  induction v as [|c v IH]; [done |]. pose proof (hex_byte_roundtrip c) as Hc.
  change (hex_encode (c :: v)) with (hex02 c ++ hex_encode v).
  cbn [hex02 app hex_decode]. rewrite IH.
  destruct (hex_value (hex_digit (bval c / 16))); [| done].
  destruct (hex_value (hex_digit (bval c mod 16))); [| done].
  cbn in *. congruence.
Qed.

Definition hex_base64 : Base64 := {| b64_encode := hex_encode; b64_decode := hex_decode |}.
Lemma hex_base64_laws : @Base64Laws hex_base64.
Proof. constructor. exact hex_roundtrip. Qed.

(** The instance's ciphertext is the message under a tag made of the first
    bytes of the context; it decrypts only if the tag is the one it would
    make. *)
Definition toy_tag (k n a m : bytes) : bytes :=
  let ctx := k ++ n ++ a ++ m in take 16 (ctx ++ repeat "000"%byte 16).
Definition toy_encrypt (k n a m : bytes) : option bytes := Some (m ++ toy_tag k n a m).
Definition toy_decrypt (k n a c : bytes) : option bytes :=
  let m := take (length c - 16) c in
  if bool_decide (c = m ++ toy_tag k n a m) then Some m else None.
Definition toy_aead : Aead := {| aead_encrypt := toy_encrypt; aead_decrypt := toy_decrypt |}.

Lemma length_toy_tag k n a m : length (toy_tag k n a m) = 16%nat.
Proof. unfold toy_tag. rewrite length_take, !length_app, repeat_length. lia. Qed.

Lemma toy_aead_laws : @AeadLaws toy_aead.
Proof.
  constructor; cbn; unfold toy_encrypt, toy_decrypt.
  - intros k n a c m. split.
    + case_bool_decide as Hc; [| done]. intros [= Hm]. by rewrite Hm in Hc; rewrite <- Hc.
    + intros [= <-]. rewrite length_app, length_toy_tag, Nat.add_sub, take_app_length.
      by rewrite bool_decide_true.
  - intros k n a m c [= <-]. rewrite zlen_app. unfold zlen. rewrite length_toy_tag. lia.
Qed.

Definition sample_key : bytes := repeat "007"%byte 32.

Lemma verify_api_key_exact_witness :
  exists text key, @parse_api_key hex_base64 text = Ok key
  /\ @verify_api_key hex_base64 key text = true
  /\ @verify_api_key hex_base64 key (text ++ lit "=") = false.
Proof.
  exists (API_KEY_PREFIX ++ hex_encode sample_key), sample_key.
  assert (@parse_api_key hex_base64 (API_KEY_PREFIX ++ hex_encode sample_key) = Ok sample_key)
    as Hp by (vm_compute; reflexivity).
  split; [exact Hp |]. split; [| vm_compute; reflexivity].
  apply (@verify_api_key_exact hex_base64 hex_base64_laws _ _ _ Hp). reflexivity.
Defined.

Lemma open_exactly_sealed_witness :
  exists envelope, @open toy_aead sample_key 5 9 envelope = Ok (lit "private")
  /\ @open toy_aead (lit "other") 5 9 envelope = Err CryptoFailed.
Proof.
  destruct (@seal toy_aead sample_key 5 9 (repeat "001"%byte 24) (lit "private"))
    as [envelope |] eqn:E; [| discriminate E].
  exists envelope. split.
  - apply (@open_exactly_sealed toy_aead toy_aead_laws); [by vm_compute .. |].
    exists (repeat "001"%byte 24). split; [reflexivity | exact E].
  - injection E as <-. vm_compute. reflexivity.
Defined.
