(* ===== verification/Cluster.v ===== *)
(** * Cluster: keyed transcripts between server incarnations

    Models [crates/owlmux-server/src/cluster.rs]: the configuration proof,
    the owner-connection transcript and its verification.  HMAC-SHA-256 is a
    third-party function, a class here. *)

From S2P Require Import Prelude Text Contracts Binary Secrets.

(** [Hmac<Sha256>]: a deterministic tag of a key and a message. *)
Class Hmac : Type := { hmac : bytes -> bytes -> bytes }.

Definition OWNER_AUTH_DOMAIN : bytes := lit "owlmux:owner-wss-auth:v1" ++ ["000"%byte].
Definition SCHEMA_GENERATION : bytes := lit "3".
Definition PUBLIC_GENERATION : bytes := lit "public.v1".
Definition RELAY_GENERATION : bytes := lit "relay.v1".
Definition ENVELOPE_GENERATION : bytes := lit "ssh-envelope.v1".
Definition ORIGIN_POLICY : bytes := lit "exact".

(** [append_field]; [None] is the panic of its [expect]. *)
Definition append_field (target value : bytes) : option bytes :=
  if zlen value <=? u32_max then Some (target ++ u32_bytes (zlen value) ++ value) else None.

Fixpoint append_fields (target : bytes) (values : list bytes) : option bytes :=
  match values with
  | [] => Some target
  | v :: rest => target ← append_field target v; append_fields target rest
  end.

Record ConfigurationInput : Type := {
  ci_deployment_id : Uuid; ci_config_epoch : Z; ci_server_build_id : bytes;
  ci_api_key_digest : bytes; ci_encryption_key_digest : bytes; ci_public_origin : bytes;
}.

Inductive ConnectionClass : Type := Attachment | Control.
Global Instance ConnectionClass_eq_dec : EqDecision ConnectionClass.
Proof. solve_decision. Defined.

Definition label (c : ConnectionClass) : bytes :=
  match c with Attachment => lit "attachment" | Control => lit "control" end.

Record OwnerAuthContext : Type := {
  deployment_id : Uuid; config_epoch : Z; source_incarnation_id : Uuid;
  destination_incarnation_id : Uuid; machine_id : Uuid; route_revision : Z;
  connection_epoch : Z; connection_class : ConnectionClass; challenge : bytes;
  source_nonce : bytes; trace_id : Uuid;
}.

(** The fields of [configuration_proof] and [OwnerAuthContext::transcript],
    in their order. *)
Definition configuration_fields (i : ConfigurationInput) : list bytes :=
  [INTERNAL_CONFIGURATION_VERSION; uuid_bytes (ci_deployment_id i);
   i64_bytes (ci_config_epoch i); ci_server_build_id i; ci_api_key_digest i;
   ci_encryption_key_digest i; ci_public_origin i; ORIGIN_POLICY; SCHEMA_GENERATION;
   PUBLIC_GENERATION; RELAY_GENERATION; INTERNAL_CONTRACT_VERSION; ENVELOPE_GENERATION;
   dec INTERNAL_AUTH_TIMEOUT_SECONDS; dec INTERNAL_MAX_FRAME_BYTES].

Definition transcript_fields (c : OwnerAuthContext) : list bytes :=
  [INTERNAL_CONTRACT_VERSION; label (connection_class c); uuid_bytes (deployment_id c);
   i64_bytes (config_epoch c); uuid_bytes (source_incarnation_id c);
   uuid_bytes (destination_incarnation_id c); uuid_bytes (machine_id c);
   i64_bytes (route_revision c); i64_bytes (connection_epoch c); lit "api_key_verified";
   challenge c; source_nonce c; uuid_bytes (trace_id c)].

Definition configuration_transcript (i : ConfigurationInput) : option bytes :=
  append_fields INTERNAL_CONFIGURATION_DOMAIN (configuration_fields i).
Definition transcript (c : OwnerAuthContext) : option bytes :=
  append_fields OWNER_AUTH_DOMAIN (transcript_fields c).

Section cluster_key.
Context `{Base64, Hmac}.

(** [ClusterKey::parse]. *)
Definition parse_cluster_key (value : bytes) : result SecretFormatError bytes :=
  decode_canonical_32 value.

Definition sign (key value : bytes) : bytes := hmac key value.

Definition configuration_proof (key : bytes) (i : ConfigurationInput) : option bytes :=
  t ← configuration_transcript i; Some (sign key t).
Definition owner_response (key : bytes) (c : OwnerAuthContext) : option bytes :=
  t ← transcript c; Some (sign key t).
(** [verify_slice] accepts exactly the full tag. *)
Definition verify_owner_response (key : bytes) (c : OwnerAuthContext) (candidate : bytes)
    : option bool :=
  t ← transcript c; Some (bool_decide (candidate = hmac key t)).
End cluster_key.

(** ** Transcripts determine what they authenticate *)

Definition context_wf (c : OwnerAuthContext) : Prop :=
  is_uuid (deployment_id c) /\ is_i64 (config_epoch c)
  /\ is_uuid (source_incarnation_id c) /\ is_uuid (destination_incarnation_id c)
  /\ is_uuid (machine_id c) /\ is_i64 (route_revision c) /\ is_i64 (connection_epoch c)
  /\ zlen (challenge c) = 32 /\ zlen (source_nonce c) = 32 /\ is_uuid (trace_id c).

Lemma append_fields_spec t fs :
  Forall field_fits fs -> append_fields t fs = Some (t ++ concat (map frame_field fs)).
Proof.
  intros H. revert t; induction H as [|f fs Hf _ IH]; intros t; cbn.
  - by rewrite app_nil_r.
  - unfold append_field. unfold field_fits in Hf. rewrite (proj2 (Z.leb_le _ _)) by done.
    cbn. rewrite IH. unfold frame_field. by rewrite <- !app_assoc.
Qed.

Lemma append_fields_Some t fs r : append_fields t fs = Some r -> Forall field_fits fs.
Proof.
  revert t; induction fs as [|f fs IH]; intros t H; [constructor |]. cbn in H.
  unfold append_field in H. destruct (Z.leb_spec (zlen f) u32_max); [| done].
  constructor; [done |]. by eapply IH.
Qed.

Lemma append_fields_inj t fs gs r :
  append_fields t fs = Some r -> append_fields t gs = Some r -> fs = gs.
Proof.
  intros Hf Hg. pose proof (append_fields_Some _ _ _ Hf) as Ff.
  pose proof (append_fields_Some _ _ _ Hg) as Fg.
  rewrite append_fields_spec in Hf by done. rewrite append_fields_spec in Hg by done.
  apply frame_fields_inj; [done | done |]. apply (app_inv_head t). congruence.
Qed.

Lemma small_field v n : zlen v = n -> n <= u32_max -> field_fits v.
Proof. unfold field_fits. lia. Qed.

Lemma label_inj a b : label a = label b -> a = b.
Proof. by destruct a, b. Qed.

Lemma transcript_fits c : context_wf c -> Forall field_fits (transcript_fields c).
Proof.
  intros (_ & _ & _ & _ & _ & _ & _ & Hc & Hn & _). unfold transcript_fields.
  assert (forall k n, (k <= 16)%nat -> field_fits (be_bytes k n)) as Hb
    by (intros k n Hk; unfold field_fits, zlen; rewrite length_be_bytes; unfold u32_max; lia).
  assert (field_fits (challenge c)) by (eapply small_field; [exact Hc | by vm_compute]).
  assert (field_fits (source_nonce c)) by (eapply small_field; [exact Hn | by vm_compute]).
  assert (field_fits (label (connection_class c))) by (by destruct (connection_class c)).
  unfold uuid_bytes, i64_bytes.
  repeat (constructor; [first [done | apply Hb; lia | by vm_compute] |]). constructor.
Qed.

Lemma transcript_fields_inj c c' :
  context_wf c -> context_wf c' -> transcript_fields c = transcript_fields c' -> c = c'.
Proof.
  destruct c, c'. unfold context_wf, transcript_fields. cbn.
  intros ? ? Heq. destruct_and!. split_cons.
  f_equal; first [by apply uuid_bytes_inj | by apply i64_bytes_inj | by apply label_inj | done].
Qed.

(** The owner transcript authenticates its whole context: it exists for
    every well-formed context (no field overflows its 32-bit length), two
    contexts with the same transcript are equal (so a response for one class,
    epoch, machine or nonce is a response for no other transcript), no
    transcript is a configuration transcript under the same key, and a
    response verifies for its own context and, as a byte string, only it. *)
Theorem owner_transcript_binds `{Hmac} (c : OwnerAuthContext) (key : bytes)
    (Hc : context_wf c) :
  (exists t, transcript c = Some t
   /\ (forall c', context_wf c' -> transcript c' = Some t -> c' = c)
   /\ (forall i, configuration_transcript i <> Some t))
  /\ (exists r, owner_response key c = Some r
      /\ forall candidate, verify_owner_response key c candidate = Some true <-> candidate = r).
Proof.
  pose proof (transcript_fits c Hc) as Hf.
  pose proof (append_fields_spec OWNER_AUTH_DOMAIN _ Hf) as Ht.
  change (append_fields OWNER_AUTH_DOMAIN (transcript_fields c)) with (transcript c) in Ht.
  split.
  - eexists. split; [exact Ht |]. split.
    + intros c' Hc' Ht'. apply transcript_fields_inj; [done | done |].
      eapply append_fields_inj; [exact Ht' | exact Ht].
    + intros i Hi. unfold configuration_transcript in Hi.
      pose proof (append_fields_Some _ _ _ Hi) as Fi.
      rewrite append_fields_spec in Hi by done. injection Hi as Hi. discriminate Hi.
  - unfold owner_response, verify_owner_response. rewrite Ht. cbn.
    eexists. split; [reflexivity |]. intros cand. unfold sign. split.
    + intros [= Hb]. by split_bools.
    + intros ->. by rewrite bool_decide_true.
Qed.

(** A concrete instance: the key's and the message's first bytes. *)
Definition toy_hmac : Hmac :=
  {| hmac k m := take 32 (drop (length m - 16) m ++ k ++ repeat "000"%byte 32) |}.
Definition sample_context : OwnerAuthContext :=
  {| deployment_id := 1; config_epoch := 2; source_incarnation_id := 3;
     destination_incarnation_id := 4; machine_id := 5; route_revision := 6;
     connection_epoch := 7; connection_class := Control;
     challenge := repeat "001"%byte 32; source_nonce := repeat "002"%byte 32;
     trace_id := 8 |}.

Lemma owner_transcript_binds_witness :
  exists r, @owner_response toy_hmac sample_key sample_context = Some r
  /\ @verify_owner_response toy_hmac sample_key sample_context r = Some true.
Proof.
  assert (context_wf sample_context) as Hc by (repeat split; by vm_compute).
  destruct (@owner_transcript_binds toy_hmac sample_context sample_key Hc)
    as [_ (r & Hr & Hv)].
  exists r. split; [exact Hr | by apply Hv].
Defined.
