(* ===== verification/Address.v ===== *)
(** * Address: the socket address parser of the standard library

    [str::parse::<SocketAddr>] as [core::net::parser] writes it: IPv4 groups
    without leading zeros, IPv6 groups with one [::] and an optional embedded
    IPv4 tail, a scope, a port.  Config parses its two addresses with it. *)

From S2P Require Import Prelude Text.

(** An address with its octets or its 16-bit groups. *)
Inductive SocketAddr : Type :=
| V4 (octets : list Z) (port : Z)
| V6 (groups : list Z) (scope_id : Z) (port : Z).
Global Instance SocketAddr_eq_dec : EqDecision SocketAddr.
Proof. solve_decision. Defined.

Definition u16_max : Z := 65535.

(** [char::to_digit]. *)
Definition to_digit (radix : Z) (c : byte) : option Z :=
  let n := bval c in
  let digit := if in_range 48 57 n then Some (n - 48)
               else if in_range 97 122 n then Some (n - 87)
               else if in_range 65 90 n then Some (n - 55) else None in
  d ← digit; if d <? radix then Some d else None.

(** The digit loop of [read_number]: without a digit limit the arithmetic is
    checked, with one it is not needed. *)
Fixpoint read_digits (radix max : Z) (max_digits : option Z) (acc count : Z) (v : bytes)
    : option (Z * Z * bytes) :=
  match v with
  | [] => Some (acc, count, [])
  | c :: v' =>
      match to_digit radix c with
      | None => Some (acc, count, v)
      | Some d =>
          let acc := acc * radix + d in
          let too_long := match max_digits with
                          | Some k => k <? count + 1
                          | None => max <? acc
                          end in
          if too_long then None else read_digits radix max max_digits acc (count + 1) v'
      end
  end.

Definition read_number (radix max : Z) (max_digits : option Z) (allow_zero_prefix : bool)
    (v : bytes) : option (Z * bytes) :=
  '(n, count, rest) ← read_digits radix max max_digits 0 0 v;
  if (count =? 0) || (negb allow_zero_prefix && bool_decide (head v = Some "0"%byte) && (1 <? count))
     || (max <? n)
  then None else Some (n, rest).

Definition read_given_char (c : byte) (v : bytes) : option bytes :=
  match v with
  | x :: rest => if decide (x = c) then Some rest else None
  | [] => None
  end.

(** [read_separator]: the separator comes before every group but the first. *)
Definition read_separator {A} (sep : byte) (first : bool) (inner : bytes -> option (A * bytes))
    (v : bytes) : option (A * bytes) :=
  rest ← (if first then Some v else read_given_char sep v);
  inner rest.

Definition read_octet : bytes -> option (Z * bytes) := read_number 10 255 (Some 3) false.

Fixpoint read_octets (n : nat) (first : bool) (v : bytes) : option (list Z * bytes) :=
  match n with
  | O => Some ([], v)
  | S n' =>
      '(o, rest) ← read_separator "."%byte first read_octet v;
      '(os, rest) ← read_octets n' false rest;
      Some (o :: os, rest)
  end.
Definition read_ipv4_addr (v : bytes) : option (list Z * bytes) := read_octets 4 true v.

(** [read_groups] with [left] groups of room: the groups, whether an IPv4
    address ended them, and the rest. *)
Fixpoint read_groups (left : nat) (first : bool) (v : bytes) : list Z * bool * bytes :=
  match left with
  | O => ([], false, v)
  | S left' =>
      let ipv4 := if (1 <? left)%nat then read_separator ":"%byte first read_ipv4_addr v
                  else None in
      match ipv4 with
      | Some ([a; b; c; d], rest) => ([256 * a + b; 256 * c + d], true, rest)
      | _ =>
          match read_separator ":"%byte first (read_number 16 u16_max (Some 4) true) v with
          | Some (g, rest) =>
              let '(gs, ipv4, rest) := read_groups left' false rest in (g :: gs, ipv4, rest)
          | None => ([], false, v)
          end
      end
  end.

Definition read_ipv6_addr (v : bytes) : option (list Z * bytes) :=
  let '(head, head_ipv4, rest) := read_groups 8 true v in
  if (length head =? 8)%nat then Some (head, rest)
  else if head_ipv4 : bool then None
  else rest ← read_given_char ":"%byte rest;
       rest ← read_given_char ":"%byte rest;
       let '(tail, _, rest) := read_groups (8 - (length head + 1)) true rest in
       Some (head ++ repeat 0 (8 - length tail - length head) ++ tail, rest).

Definition read_port (v : bytes) : option (Z * bytes) :=
  rest ← read_given_char ":"%byte v; read_number 10 u16_max None true rest.

Definition read_scope_id (v : bytes) : option (Z * bytes) :=
  rest ← read_given_char "%"%byte v; read_number 10 u32_max None true rest.

Definition read_socket_addr_v4 (v : bytes) : option (SocketAddr * bytes) :=
  '(ip, rest) ← read_ipv4_addr v;
  '(port, rest) ← read_port rest;
  Some (V4 ip port, rest).

Definition read_socket_addr_v6 (v : bytes) : option (SocketAddr * bytes) :=
  rest ← read_given_char "["%byte v;
  '(ip, rest) ← read_ipv6_addr rest;
  let '(scope, rest) := default (0, rest) (read_scope_id rest) in
  rest ← read_given_char "]"%byte rest;
  '(port, rest) ← read_port rest;
  Some (V6 ip scope port, rest).

Definition parse_socket_addr (v : bytes) : option SocketAddr :=
  match read_socket_addr_v4 v with
  | Some (a, []) => Some a
  | Some _ => None
  | None => match read_socket_addr_v6 v with Some (a, []) => Some a | _ => None end
  end.

(** ** Ranges *)

Definition port_of (a : SocketAddr) : Z := match a with V4 _ p | V6 _ _ p => p end.

Lemma to_digit_nonneg radix c d : to_digit radix c = Some d -> 0 <= d.
Proof.
  unfold to_digit, in_range. cbv zeta. intros H.
  destruct ((48 <=? bval c) && (bval c <=? 57)) eqn:E1;
    [| destruct ((97 <=? bval c) && (bval c <=? 122)) eqn:E2;
       [| destruct ((65 <=? bval c) && (bval c <=? 90)) eqn:E3; [| done]]];
    cbn in H; case_match; simplify_eq; split_bools; lia.
Qed.

Lemma read_digits_range radix max k acc count v n count' rest :
  0 <= radix -> 0 <= acc -> read_digits radix max k acc count v = Some (n, count', rest) -> 0 <= n.
Proof.
  intros Hr. revert acc count; induction v as [|c v IH]; intros acc count Ha H; cbn in H.
  { by simplify_eq. }
  destruct (to_digit radix c) as [d|] eqn:Ed; [| by simplify_eq].
  apply to_digit_nonneg in Ed.
  destruct (match k with Some _ => _ | None => _ end); [done |].
  eapply IH; [| exact H]. nia.
Qed.

Lemma read_number_range radix max k z v n rest :
  0 <= radix -> read_number radix max k z v = Some (n, rest) -> 0 <= n <= max.
Proof.
  unfold read_number. intros Hr H.
  destruct (read_digits radix max k 0 0 v) as [[[m count] r]|] eqn:E; [| done]. cbn in H.
  apply read_digits_range in E; [| lia | lia].
  destruct (_ || _) eqn:Ec in H; [done |]. simplify_eq. split_bools. lia.
Qed.

Lemma read_port_range v n rest : read_port v = Some (n, rest) -> 0 <= n <= u16_max.
Proof.
  unfold read_port. destruct (read_given_char _ v) as [r|]; cbn; [| done].
  by apply read_number_range.
Qed.

Lemma read_socket_addr_v4_port v a rest :
  read_socket_addr_v4 v = Some (a, rest) -> 0 <= port_of a <= u16_max.
Proof.
  intros ([ip r] & _ & ([p r'] & Hp%read_port_range & [= <- <-])%bind_Some)%bind_Some. exact Hp.
Qed.

Lemma read_socket_addr_v6_port v a rest :
  read_socket_addr_v6 v = Some (a, rest) -> 0 <= port_of a <= u16_max.
Proof.
  intros (r1 & _ & ([ip r2] & _ & H)%bind_Some)%bind_Some.
  destruct (default _ (read_scope_id r2)) as [scope r3].
  apply bind_Some in H as (r4 & _ & ([p r5] & Hp%read_port_range & [= <- <-])%bind_Some).
  exact Hp.
Qed.

Lemma parse_socket_addr_port v a : parse_socket_addr v = Some a -> 0 <= port_of a <= u16_max.
Proof.
  unfold parse_socket_addr.
  destruct (read_socket_addr_v4 v) as [[a4 [|]]|] eqn:E4; [| done |].
  - apply read_socket_addr_v4_port in E4. by intros [= <-].
  - destruct (read_socket_addr_v6 v) as [[a6 [|]]|] eqn:E6; [| done | done].
    apply read_socket_addr_v6_port in E6. by intros [= <-].
Qed.

(** Addresses of both families, and near misses. *)
Example socket_addr_examples :
  map parse_socket_addr
    [lit "127.0.0.1:8080"; lit "[::1]:443"; lit "[fe80::1%3]:1"; lit "[1:2::3.4.5.6]:0";
     lit "127.0.0.01:8080"; lit "127.0.0.1"; lit "localhost:80"; lit "1.2.3.4:65536";
     lit "[1:2:3:4:5:6:7:8]:9"; lit "[1:2:3:4:5:6:7::]:9"; lit "[::1.2.3.4::]:9"]
  = [Some (V4 [127; 0; 0; 1] 8080); Some (V6 [0; 0; 0; 0; 0; 0; 0; 1] 0 443);
     Some (V6 [65152; 0; 0; 0; 0; 0; 0; 1] 3 1); Some (V6 [1; 2; 0; 0; 0; 0; 772; 1286] 0 0);
     None; None; None; None;
     Some (V6 [1; 2; 3; 4; 5; 6; 7; 8] 0 9); Some (V6 [1; 2; 3; 4; 5; 6; 7; 0] 0 9); None].
Proof. vm_compute. reflexivity. Qed.
