(* ===== verification/RelayProtocol.v ===== *)
(** * RelayProtocol: the frames both ends of a Relay connection exchange

    Models [crates/owlmux-server/src/relay/protocol.rs] (module [Server]) and
    [crates/owlmux-relay/src/protocol.rs] (module [Relay]).  The JSON text of
    a frame is produced and parsed by serde (third-party); the components
    that read frames take the codec as a parameter. *)

From S2P Require Import Prelude Text Contracts Binary.

Definition VERSION : Z := 1.
Definition MAX_FRAME_BYTES : Z := 32768.
Definition MAX_DATA_BYTES : Z := 16384.
Definition MAX_STREAMS : Z := 32.

Inductive CloseReason : Type := Eof | ConnectFailed | ProtocolReason | Shutdown.
Global Instance CloseReason_eq_dec : EqDecision CloseReason.
Proof. solve_decision. Defined.

Inductive ChallengePurpose : Type := Enrollment | Tunnel.
Global Instance ChallengePurpose_eq_dec : EqDecision ChallengePurpose.
Proof. solve_decision. Defined.

(** Frames a Relay sends and a server receives. *)
Inductive ClientFrame : Type :=
| Token (token : bytes)
| Setup (protocol : Z) (relay_id : Uuid) (public_key endpoint observed_account : bytes)
| Ready
| HostKeyAccepted (host_identity : bytes)
| Signature (signature : bytes)
| TunnelHello (protocol : Z) (deployment_id machine_id relay_id connection_id : Uuid)
    (route_revision : Z)
| ClientStreamOpened (stream_id : Z)
| ClientStreamData (stream_id : Z) (data : bytes)
| ClientStreamHalfClosed (stream_id : Z)
| ClientStreamClosed (stream_id : Z) (reason : CloseReason)
| Pong (nonce : Z).
Global Instance ClientFrame_eq_dec : EqDecision ClientFrame.
Proof. solve_decision. Defined.

(** Frames a server sends and a Relay receives. *)
Inductive ServerFrame : Type :=
| Accepted (deployment_id machine_id attempt_id : Uuid) (route_revision : Z)
| Credential (credential_id : Uuid) (name public_key public_fingerprint_sha256 : bytes)
| HostKey (host_identity fingerprint_sha256 : bytes)
| Challenge (purpose : ChallengePurpose) (nonce : bytes)
| Activated (route_revision : Z)
| TunnelEstablished (connection_epoch : Z)
| OpenStream (stream_id : Z)
| StreamData (stream_id : Z) (data : bytes)
| StreamHalfClosed (stream_id : Z)
| StreamClosed (stream_id : Z) (reason : CloseReason)
| Ping (nonce : Z)
| ErrorFrame (code message : bytes).
Global Instance ServerFrame_eq_dec : EqDecision ServerFrame.
Proof. solve_decision. Defined.

Module Server.

Definition signature_message (purpose : ChallengePurpose)
    (deployment_id machine_id relay_id : Uuid) (connection_id : option Uuid)
    (route_revision : Z) (nonce : bytes) : bytes :=
  lit "owlmux:relay-signature:v1" ++ ["000"%byte]
  ++ match purpose with
     | Enrollment => lit "enrollment" ++ ["000"%byte]
     | Tunnel => lit "tunnel" ++ ["000"%byte]
     end
  ++ uuid_bytes deployment_id ++ uuid_bytes machine_id ++ uuid_bytes relay_id
  ++ match connection_id with Some c => uuid_bytes c | None => [] end
  ++ i64_bytes route_revision ++ nonce.

End Server.

Module Relay.

Definition signature_message (purpose : ChallengePurpose)
    (deployment_id machine_id relay_id : Uuid) (connection_id : option Uuid)
    (route_revision : Z) (nonce : bytes) : bytes :=
  let message := lit "owlmux:relay-signature:v1" ++ ["000"%byte] in
  let message := message ++ match purpose with
                            | Enrollment => lit "enrollment" ++ ["000"%byte]
                            | Tunnel => lit "tunnel" ++ ["000"%byte]
                            end in
  let message := message ++ uuid_bytes deployment_id in
  let message := message ++ uuid_bytes machine_id in
  let message := message ++ uuid_bytes relay_id in
  let message := match connection_id with
                 | Some c => message ++ uuid_bytes c
                 | None => message
                 end in
  let message := message ++ i64_bytes route_revision in
  message ++ nonce.

End Relay.

(** What a signature is asked to cover. *)
Record Statement : Type := {
  s_purpose : ChallengePurpose; s_deployment : Uuid; s_machine : Uuid; s_relay : Uuid;
  s_connection : option Uuid; s_revision : Z; s_nonce : bytes;
}.

Definition statement_wf (s : Statement) : Prop :=
  is_uuid (s_deployment s) /\ is_uuid (s_machine s) /\ is_uuid (s_relay s)
  /\ match s_connection s with Some c => is_uuid c | None => True end
  /\ is_i64 (s_revision s) /\ zlen (s_nonce s) = 32.

Definition message_of (s : Statement) : bytes :=
  Server.signature_message (s_purpose s) (s_deployment s) (s_machine s) (s_relay s)
    (s_connection s) (s_revision s) (s_nonce s).

Lemma length_uuid_bytes u : length (uuid_bytes u) = 16%nat.
Proof. apply length_be_bytes. Qed.
Lemma length_i64_bytes n : length (i64_bytes n) = 8%nat.
Proof. apply length_be_bytes. Qed.

(** Peel one fixed-width field off both sides. *)
Ltac peel_field H :=
  let H1 := fresh "Hfield" in
  apply app_inj_length in H;
  [destruct H as [H1 H] | by rewrite ?length_uuid_bytes, ?length_i64_bytes].

Lemma message_tail_inj c c' r r' n n' :
  match c with Some u => is_uuid u | None => True end ->
  match c' with Some u => is_uuid u | None => True end ->
  is_i64 r -> is_i64 r' -> length n = length n' ->
  match c with Some u => uuid_bytes u | None => [] end ++ i64_bytes r ++ n
  = match c' with Some u => uuid_bytes u | None => [] end ++ i64_bytes r' ++ n' ->
  c = c' /\ r = r' /\ n = n'.
Proof.
  intros Hc Hc' Hr Hr' Hn H. pose proof (f_equal length H) as Hl.
  destruct c as [u|], c' as [u'|]; rewrite ?length_app, ?length_uuid_bytes,
    ?length_i64_bytes in Hl; cbn [length] in Hl; try lia.
  - peel_field H. peel_field H. split; [f_equal; by apply uuid_bytes_inj |].
    split; [by apply i64_bytes_inj | done].
  - cbn [app] in H. peel_field H. split; [done |].
    split; [by apply i64_bytes_inj | done].
Qed.

(** The signed statement: server and Relay build the same bytes, and the
    bytes determine the whole statement - purpose, deployment, machine,
    Relay, connection (or its absence), route revision and nonce - so a
    signature given for one statement is never a signature for another. *)
Theorem signature_message_binds (s s' : Statement)
    (Hs : statement_wf s) (Hs' : statement_wf s') :
  Relay.signature_message (s_purpose s) (s_deployment s) (s_machine s) (s_relay s)
    (s_connection s) (s_revision s) (s_nonce s) = message_of s
  /\ (message_of s = message_of s' -> s = s').
Proof.
  split.
  - unfold Relay.signature_message, message_of, Server.signature_message.
    destruct (s_connection s); cbv zeta; by rewrite <- !app_assoc.
  - destruct Hs as (Hd & Hm & Hr & Hc & Hv & Hn), Hs' as (Hd' & Hm' & Hr' & Hc' & Hv' & Hn').
    intros H. unfold message_of, Server.signature_message in H. do 2 apply app_inv_head in H.
    assert (s_purpose s = s_purpose s') as Hp.
    { destruct (s_purpose s), (s_purpose s'); (done || discriminate H). }
    rewrite Hp in H. apply app_inv_head in H.
    do 3 peel_field H. apply message_tail_inj in H as (H1 & H2 & H3); try done.
    2:{ apply zlen_eq_length. congruence. }
    destruct s, s'; cbn in *. subst.
    f_equal; by apply uuid_bytes_inj.
Qed.

Definition sample_statement (nonce : byte) : Statement :=
  {| s_purpose := Tunnel; s_deployment := 1; s_machine := 2; s_relay := 3;
     s_connection := Some 4; s_revision := 5; s_nonce := repeat nonce 32 |}.

Lemma signature_message_binds_witness :
  message_of (sample_statement "001"%byte) <> message_of (sample_statement "002"%byte).
Proof.
  intros H. apply signature_message_binds in H;
    [discriminate H | repeat split; by vm_compute ..].
Defined.
