(* ===== verification/Wire.v ===== *)
(** * Wire: websocket messages and the frame codecs of a Relay connection

    Both ends of a Relay connection exchange websocket text messages that
    carry one JSON frame each.  The websocket and serde are third-party code:
    the outcome of a socket operation is an input of the model, and the JSON
    codec is the class below, with its documented laws. *)

From S2P Require Import Prelude Text Binary Secrets RelayProtocol.

(** A websocket message: [Message::Text] or any other kind. *)
Inductive Message : Type := TextMessage (text : bytes) | OtherMessage.

(** What the socket's stream of messages yields next; a wait under a timeout
    yields [None] when it elapses. *)
Inductive Incoming : Type := Received (m : Message) | SocketError | EndOfStream.

(** What becomes of a write under a timeout: accepted, refused, or handed over
    although the caller sees a failure. *)
Inductive SendFate : Type := Delivered | Dropped | DeliveredUnseen.
Global Instance SendFate_eq_dec : EqDecision SendFate.
Proof. solve_decision. Defined.

(** [serde_json] on the two frame types. *)
Class FrameCodec : Type := {
  print_server : ServerFrame -> option bytes;
  parse_server : bytes -> option ServerFrame;
  print_client : ClientFrame -> option bytes;
  parse_client : bytes -> option ClientFrame;
}.

(** The frames of an established tunnel, with fields of their Rust types;
    [data] is any string of the base64 alphabet. *)
Definition is_u32 (n : Z) : Prop := 0 <= n <= u32_max.
Definition is_u64 (n : Z) : Prop := 0 <= n <= u64_max.

Definition server_tunnel_frame `{Base64} (f : ServerFrame) : Prop :=
  match f with
  | OpenStream s | StreamHalfClosed s | StreamClosed s _ => is_u32 s
  | StreamData s data => is_u32 s /\ exists v, data = b64_encode v
  | Ping n => is_u64 n
  | _ => False
  end.
Definition client_tunnel_frame `{Base64} (f : ClientFrame) : Prop :=
  match f with
  | ClientStreamOpened s | ClientStreamHalfClosed s | ClientStreamClosed s _ => is_u32 s
  | ClientStreamData s data => is_u32 s /\ exists v, data = b64_encode v
  | Pong n => is_u64 n
  | _ => False
  end.

(** The ranges of the numbers of a parsed frame. *)
Definition server_typed (f : ServerFrame) : Prop :=
  match f with
  | OpenStream s | StreamData s _ | StreamHalfClosed s | StreamClosed s _ => is_u32 s
  | Ping n => is_u64 n
  | _ => True
  end.

Definition server_payload (f : ServerFrame) : Z :=
  match f with StreamData _ data => zlen data | _ => 0 end.
Definition client_payload (f : ClientFrame) : Z :=
  match f with ClientStreamData _ data => zlen data | _ => 0 end.

(** Documented: what is printed parses back to itself, the JSON around the
    payload of a tunnel frame ([{"type":..,"stream_id":..,"data":..}]) takes
    less than 128 bytes, and parsing refuses a number outside its type. *)
Class FrameCodecLaws `{Base64} `{FrameCodec} : Prop := {
  server_print : forall f, server_tunnel_frame f ->
    exists t, print_server f = Some t /\ parse_server t = Some f
              /\ zlen t <= server_payload f + 128;
  client_print : forall f, client_tunnel_frame f ->
    exists t, print_client f = Some t /\ parse_client t = Some f
              /\ zlen t <= client_payload f + 128;
  server_parse_typed : forall t f, parse_server t = Some f -> server_typed f;
}.

(** Documented: unpadded base64 takes [ceil (4 n / 3)] bytes. *)
Class Base64Length `{Base64} : Prop := {
  b64_length : forall v, zlen (b64_encode v) * 3 <= zlen v * 4 + 2;
}.

(** The outcome of reading a byte stream: end, some bytes, or an error. *)
Inductive ReadOutcome : Type := ReadEof | ReadBytes (chunk : bytes) | ReadError.

(** ** Concrete codecs, used by the witnesses *)

(** The identity is a base64 codec as far as the laws go. *)
Definition plain_base64 : Base64 := {| b64_encode := fun v => v; b64_decode := Some |}.

Definition be_value (v : bytes) : Z := fold_left (fun acc c => acc * 256 + bval c) v 0.

(** One tag byte, a fixed-width number, the rest of the frame. *)
Definition tagged (tag : Z) (k : nat) (n : Z) (rest : bytes) : bytes :=
  byte_of tag :: be_bytes k n ++ rest.
Definition untag (k : nat) (v : bytes) : Z * bytes := (be_value (take k v), drop k v).

Definition reason_tag (r : CloseReason) : Z :=
  match r with Eof => 0 | ConnectFailed => 1 | ProtocolReason => 2 | Shutdown => 3 end.
Definition tag_reason (v : bytes) : option CloseReason :=
  match map bval v with
  | [0] => Some Eof | [1] => Some ConnectFailed | [2] => Some ProtocolReason
  | [3] => Some Shutdown | _ => None
  end.

Definition toy_print_server (f : ServerFrame) : option bytes :=
  match f with
  | OpenStream s => Some (tagged 1 4 s [])
  | StreamData s data => Some (tagged 2 4 s data)
  | StreamHalfClosed s => Some (tagged 3 4 s [])
  | StreamClosed s r => Some (tagged 4 4 s [byte_of (reason_tag r)])
  | Ping n => Some (tagged 5 8 n [])
  | _ => None
  end.
Definition toy_parse_server (v : bytes) : option ServerFrame :=
  match v with
  | [] => None
  | c :: v =>
      let '(s, rest) := untag 4 v in
      match bval c with
      | 1 => Some (OpenStream s) | 2 => Some (StreamData s rest)
      | 3 => Some (StreamHalfClosed s)
      | 4 => r ← tag_reason rest; Some (StreamClosed s r)
      | 5 => Some (Ping (fst (untag 8 v)))
      | _ => None
      end
  end.
Definition toy_print_client (f : ClientFrame) : option bytes :=
  match f with
  | ClientStreamOpened s => Some (tagged 1 4 s [])
  | ClientStreamData s data => Some (tagged 2 4 s data)
  | ClientStreamHalfClosed s => Some (tagged 3 4 s [])
  | ClientStreamClosed s r => Some (tagged 4 4 s [byte_of (reason_tag r)])
  | Pong n => Some (tagged 5 8 n [])
  | _ => None
  end.
Definition toy_parse_client (v : bytes) : option ClientFrame :=
  match v with
  | [] => None
  | c :: v =>
      let '(s, rest) := untag 4 v in
      match bval c with
      | 1 => Some (ClientStreamOpened s) | 2 => Some (ClientStreamData s rest)
      | 3 => Some (ClientStreamHalfClosed s)
      | 4 => r ← tag_reason rest; Some (ClientStreamClosed s r)
      | 5 => Some (Pong (fst (untag 8 v)))
      | _ => None
      end
  end.
Definition toy_codec : FrameCodec :=
  {| print_server := toy_print_server; parse_server := toy_parse_server;
     print_client := toy_print_client; parse_client := toy_parse_client |}.

Lemma plain_base64_laws : @Base64Laws plain_base64.
Proof. constructor. done. Qed.
Lemma plain_base64_length : @Base64Length plain_base64.
Proof. constructor. intros v. cbn. pose proof (zlen_nonneg v). lia. Qed.

Lemma be_value_app v c : be_value (v ++ [c]) = be_value v * 256 + bval c.
Proof. unfold be_value. by rewrite fold_left_app. Qed.

Lemma be_value_bytes k n : be_value (be_bytes k n) = n mod 256 ^ Z.of_nat k.
Proof.
  revert n; induction k as [|k IH]; intros n; cbn [be_bytes].
  - cbn. by rewrite Z.mod_1_r.
  - rewrite be_value_app, IH, Nat2Z.inj_succ, Z.pow_succ_r by lia.
    rewrite bval_byte_of, Z.rem_mul_r by lia. lia.
Qed.

Lemma untag_tagged k n rest :
  0 <= n < 256 ^ Z.of_nat k -> untag k (be_bytes k n ++ rest) = (n, rest).
Proof.
  intros Hn. unfold untag.
  rewrite take_app_length', drop_app_length' by by rewrite length_be_bytes.
  by rewrite be_value_bytes, Z.mod_small.
Qed.

Lemma be_value_range v : 0 <= be_value v < 256 ^ zlen v.
Proof.
  induction v as [|c v IH] using rev_ind; [done |].
  rewrite be_value_app. pose proof (bval_range c). unfold zlen in *.
  rewrite length_app, Nat.add_1_r, Nat2Z.inj_succ, Z.pow_succ_r by lia. lia.
Qed.

Lemma untag_range k v : 0 <= fst (untag k v) < 256 ^ Z.of_nat k.
Proof.
  cbn. pose proof (be_value_range (take k v)) as H. unfold zlen in H.
  assert (256 ^ Z.of_nat (length (take k v)) <= 256 ^ Z.of_nat k); [| lia].
  apply Z.pow_le_mono_r; [lia |]. rewrite length_take. lia.
Qed.

Lemma toy_parse_typed v f : toy_parse_server v = Some f -> server_typed f.
Proof.
  destruct v as [|c v]; [done |]. cbn. intros H.
  pose proof (untag_range 4 v) as H4. pose proof (untag_range 8 v) as H8.
  cbn in H4, H8. repeat case_match; simplify_eq; cbn; unfold is_u32, is_u64, u32_max, u64_max; try done; try lia.
  destruct (tag_reason _); [| done]. injection H as <-. cbn. unfold is_u32, u32_max. lia.
Qed.

Lemma toy_codec_laws : @FrameCodecLaws plain_base64 toy_codec.
Proof.
  constructor; [| | apply toy_parse_typed]; intros f Hf; destruct f; try destruct Hf as [Hf [v ->]]; try done;
    cbn in Hf; unfold is_u32, is_u64, u32_max, u64_max in Hf; eexists; (split; [reflexivity |]);
    unfold print_server, parse_server, parse_client, toy_codec, toy_parse_server,
      toy_parse_client, tagged, server_payload, client_payload;
    rewrite ?untag_tagged by (cbn; lia);
    (split; [try destruct reason; vm_compute bval; cbn; done |]);
    unfold zlen; cbn [length]; rewrite length_app, length_be_bytes; cbn [length b64_encode plain_base64]; lia.
Qed.
