(* ===== verification/Base64Url.v ===== *)
(** * Base64Url: an instance of the base64 interface

    The unpadded URL-safe alphabet of RFC 4648, group by group.  It satisfies
    every law the development asks of [base64::URL_SAFE_NO_PAD] at once; the
    witnesses of the owner connection use it. *)

From S2P Require Import Prelude Text Binary Secrets Wire.

Definition alphabet : bytes :=
  lit "ABCDEFGHIJKLMNOPQRSTUVWXYZabcdefghijklmnopqrstuvwxyz0123456789-_".
Definition sextet (n : Z) : byte := nth (Z.to_nat n) alphabet "000"%byte.
Definition sextet_value (c : byte) : option Z :=
  (fun p => Z.of_nat p.1) <$> list_find (eq c) alphabet.

Fixpoint encode64 (v : bytes) : bytes :=
  match v with
  | a :: b :: c :: rest =>
      sextet (bval a / 4) :: sextet (bval a mod 4 * 16 + bval b / 16)
      :: sextet (bval b mod 16 * 4 + bval c / 64) :: sextet (bval c mod 64) :: encode64 rest
  | [a; b] => [sextet (bval a / 4); sextet (bval a mod 4 * 16 + bval b / 16);
               sextet (bval b mod 16 * 4)]
  | [a] => [sextet (bval a / 4); sextet (bval a mod 4 * 16)]
  | [] => []
  end.

(** Trailing bits are not checked here: [decode_canonical_32] refuses what does
    not encode back to itself. *)
Fixpoint decode64 (v : bytes) : option bytes :=
  match v with
  | w :: x :: y :: z :: rest =>
      w ← sextet_value w; x ← sextet_value x; y ← sextet_value y; z ← sextet_value z;
      rest ← decode64 rest;
      Some (byte_of (w * 4 + x / 16) :: byte_of (x mod 16 * 16 + y / 4)
            :: byte_of (y mod 4 * 64 + z) :: rest)
  | [w; x; y] =>
      w ← sextet_value w; x ← sextet_value x; y ← sextet_value y;
      Some [byte_of (w * 4 + x / 16); byte_of (x mod 16 * 16 + y / 4)]
  | [w; x] => w ← sextet_value w; x ← sextet_value x; Some [byte_of (w * 4 + x / 16)]
  | [] => Some []
  | _ => None
  end.

Definition base64url : Base64 := {| b64_encode := encode64; b64_decode := decode64 |}.

(** The alphabet, checked by evaluation. *)
Definition sextet_ok (n : Z) : bool :=
  bool_decide (sextet_value (sextet n) = Some n) && (bval (sextet n) <? 128).
Lemma sextet_spec n : 0 <= n < 64 -> sextet_value (sextet n) = Some n /\ bval (sextet n) < 128.
Proof.
  intros Hn. assert (forallb sextet_ok (map Z.of_nat (seq 0 64)) = true) as Hall
    by (vm_compute; reflexivity).
  rewrite forallb_forall in Hall. specialize (Hall n). unfold sextet_ok in Hall.
  destruct (andb_prop _ _ (Hall ltac:(apply in_map_iff; exists (Z.to_nat n);
    split; [lia | apply in_seq; lia]))). by split_bools.
Qed.

Lemma sextet_back n : 0 <= n < 64 -> sextet_value (sextet n) = Some n.
Proof. apply sextet_spec. Qed.

(** Induction three bytes at a time. *)
Lemma triples_ind (P : bytes -> Prop) :
  P [] -> (forall a, P [a]) -> (forall a b, P [a; b]) ->
  (forall a b c rest, P rest -> P (a :: b :: c :: rest)) -> forall v, P v.
Proof.
  intros H0 H1 H2 H3 v. enough (P v /\ (forall a, P (a :: v)) /\ forall a b, P (a :: b :: v)) by tauto.
  induction v as [|x v (IH0 & IH1 & IH2)]; [by split_and! |].
  split; [apply IH1 |]. split; [intros a; apply IH2 | intros a b; by apply H3].
Qed.

Lemma byte_of_eq n c : n = bval c -> byte_of n = c.
Proof. intros ->. apply byte_of_bval. Qed.

Lemma base64url_laws : @Base64Laws base64url.
Proof.
  constructor. intros v. cbn. induction v as [|a|a b|a b c rest IH] using triples_ind; [done | | |].
  all: pose proof (bval_range a); try pose proof (bval_range b); try pose proof (bval_range c).
  all: cbn [encode64 decode64];
    rewrite !sextet_back by (Z.div_mod_to_equations; lia); cbn [mbind option_bind]; try rewrite IH; cbn.
  all: repeat f_equal; apply byte_of_eq; Z.div_mod_to_equations; lia.
Qed.

Lemma base64url_length : @Base64Length base64url.
Proof.
  constructor. intros v. cbn. induction v as [|a|a b|a b c rest IH] using triples_ind;
    [done | done | done |]. cbn [encode64]. rewrite !zlen_cons. lia.
Qed.

Lemma base64url_ascii v : Forall (fun c => bval c < 128) (encode64 v).
Proof.
  induction v as [|a|a b|a b c rest IH] using triples_ind;
    [constructor | | |];
    pose proof (bval_range a); try pose proof (bval_range b); try pose proof (bval_range c);
    cbn [encode64]; repeat (apply Forall_cons; split); try done;
    first [apply sextet_spec; Z.div_mod_to_equations; lia | apply Forall_nil].
Qed.

(** The vectors of RFC 4648. *)
Example encode64_examples :
  map encode64 [lit "f"; lit "fo"; lit "foo"; lit "foob"; lit "fooba"; lit "foobar"]
  = [lit "Zg"; lit "Zm8"; lit "Zm9v"; lit "Zm9vYg"; lit "Zm9vYmE"; lit "Zm9vYmFy"].
Proof. vm_compute. reflexivity. Qed.
