(* ===== verification/Session.v ===== *)
(** * Session: the monad of a conversation over a websocket

    A session reads messages, writes frames and calls the rest of the program.
    Its script holds what the environment answers, in order: the outcome of
    every wait for a message and the fate of every frame written.  Running a
    session consumes the script and returns the log of what it did, so that a
    handler reads like the code and its theorems speak about the log. *)

From S2P Require Import Prelude Wire.

(** [None] in [inbox]: the wait timed out. *)
Record Script : Type := { inbox : list (option Incoming); fates : list SendFate }.

Definition session (Ev E A : Type) : Type := Script -> Script * list Ev * result E A.

Section monad.
Context {Ev E : Type}.

Global Instance session_ret : MRet (session Ev E) := fun A a s => (s, [], Ok a).
Global Instance session_bind : MBind (session Ev E) := fun A B f m s =>
  let '(s, log, r) := m s in
  match r with
  | Err e => (s, log, Err e)
  | Ok a => let '(s, log', r) := f a s in (s, log ++ log', r)
  end.

(** An early return with a value that is already a [Result]. *)
Definition lift {A} (r : result E A) : session Ev E A := fun s => (s, [], r).
Definition log (ev : Ev) : session Ev E unit := fun s => (s, [ev], Ok tt).
(** Run a session and keep its outcome as a value (no [?]). *)
Definition attempt {A} (m : session Ev E A) : session Ev E (result E A) := fun s =>
  let '(s, l, r) := m s in (s, l, Ok r).

(** The next wait: an empty script times out. *)
Definition wait : session Ev E (option Incoming) := fun s =>
  match inbox s with
  | [] => (s, [], Ok None)
  | i :: rest => ({| inbox := rest; fates := fates s |}, [], Ok i)
  end.
(** The fate of the next frame: an empty script delivers. *)
Definition next_fate : session Ev E SendFate := fun s =>
  match fates s with
  | [] => (s, [], Ok Delivered)
  | f :: rest => ({| inbox := inbox s; fates := rest |}, [], Ok f)
  end.

(** ** Reasoning about logs *)

(** [m] can log [l] and end with [r]. *)
Definition may {A} (m : session Ev E A) (l : list Ev) (r : result E A) : Prop :=
  exists s s', m s = (s', l, r).

Lemma may_run {A} (m : session Ev E A) s s' l r : m s = (s', l, r) -> may m l r.
Proof. intros H. by exists s, s'. Qed.

Lemma may_ret {A} (a : A) l r : may (mret a) l r -> l = [] /\ r = Ok a.
Proof. intros (s & s' & [= _ <- <-]). done. Qed.

Lemma may_lift {A} (x : result E A) l r : may (lift x) l r -> l = [] /\ r = x.
Proof. intros (s & s' & [= _ <- <-]). done. Qed.

Lemma may_log ev l r : may (log ev) l r -> l = [ev] /\ r = Ok tt.
Proof. intros (s & s' & [= _ <- <-]). done. Qed.

Lemma may_bind {A B} (m : session Ev E A) (f : A -> session Ev E B) l r :
  may (m ≫= f) l r ->
  (exists e, may m l (Err e) /\ r = Err e)
  \/ exists a l1 l2, may m l1 (Ok a) /\ may (f a) l2 r /\ l = l1 ++ l2.
Proof.
  intros (s & s' & H). unfold mbind, session_bind in H.
  destruct (m s) as [[s1 l1] [a|e]] eqn:Hm.
  - destruct (f a s1) as [[s2 l2] r2] eqn:Hf. injection H as <- <- <-.
    right. exists a, l1, l2. eauto using may_run.
  - injection H as <- <- <-. left. eauto using may_run.
Qed.

Lemma may_attempt {A} (m : session Ev E A) l r :
  may (attempt m) l r -> exists r', r = Ok r' /\ may m l r'.
Proof.
  intros (s & s' & H). unfold attempt in H. destruct (m s) as [[s1 l1] r1] eqn:Hm.
  injection H as <- <- <-. eauto using may_run.
Qed.

Lemma may_wait l r : may wait l r -> l = [] /\ exists i, r = Ok i.
Proof. intros ([[|i rest] f] & s' & H); injection H as _ <- <-; eauto. Qed.

Lemma may_fate l r : may next_fate l r -> l = [] /\ exists f, r = Ok f.
Proof. intros ([i [|f rest]] & s' & H); injection H as _ <- <-; eauto. Qed.

(** Errors never turn into values, and values never into errors. *)
Lemma may_bind_Ok {A B} (m : session Ev E A) (f : A -> session Ev E B) l b :
  may (m ≫= f) l (Ok b) ->
  exists a l1 l2, may m l1 (Ok a) /\ may (f a) l2 (Ok b) /\ l = l1 ++ l2.
Proof. intros [(e & _ & [=]) | H]%may_bind. done. Qed.

(** Steps that cannot fail. *)
Lemma may_log_bind {B} ev (f : unit -> session Ev E B) l r :
  may (log ev ≫= f) l r -> exists l', l = ev :: l' /\ may (f tt) l' r.
Proof.
  intros [(e & [_ [=]]%may_log & _) | ([] & l1 & l2 & [-> _]%may_log & H & ->)]%may_bind. eauto.
Qed.
Lemma may_ret_bind {A B} (a : A) (f : A -> session Ev E B) l r :
  may (mret a ≫= f) l r -> may (f a) l r.
Proof.
  by intros [(e & [_ [=]]%may_ret & _) | (a' & l1 & l2 & [-> [= ->]]%may_ret & H & ->)]%may_bind.
Qed.
Lemma may_lift_bind {A B} (x : result E A) (f : A -> session Ev E B) l r :
  may (lift x ≫= f) l r ->
  (exists a, x = Ok a /\ may (f a) l r) \/ exists e, x = Err e /\ l = [] /\ r = Err e.
Proof.
  intros [(e & [-> <-]%may_lift & ->) | (a & l1 & l2 & [-> <-]%may_lift & H & ->)]%may_bind;
    [right | left]; eauto.
Qed.
Lemma may_attempt_bind {A B} (m : session Ev E A) (f : result E A -> session Ev E B) l r :
  may (attempt m ≫= f) l r ->
  exists r1 l1 l2, may m l1 r1 /\ may (f r1) l2 r /\ l = l1 ++ l2.
Proof.
  intros [(e & (? & [=] & _)%may_attempt & _)
         | (r1 & l1 & l2 & (? & [= ->] & H1)%may_attempt & H & ->)]%may_bind. eauto 6.
Qed.

End monad.

(** A log with one event of a kind splits around it in one way. *)
Lemma split_at_unique {A} (P : A -> bool) l1 x l2 pre y post :
  P x = true -> Forall (fun z => P z = false) pre -> Forall (fun z => P z = false) post ->
  l1 ++ x :: l2 = pre ++ y :: post -> l1 = pre /\ x = y /\ l2 = post.
Proof.
  intros Hx Hpre Hpost. revert l1; induction Hpre as [|z pre Hz Hpre IH]; intros [|w l1] H;
    cbn in H; injection H as H0 H.
  - done.
  - subst post. apply Forall_app in Hpost as [_ [? _]%Forall_cons]. congruence.
  - congruence.
  - apply IH in H as (-> & -> & ->). by subst.
Qed.

(** Take one step of the session in a hypothesis [may _ _ _]. *)
Ltac session_step H :=
  lazymatch type of H with
  | may (_ ≫= _) ?l (Ok _) =>
      let a := fresh "a" in let l1 := fresh "l" in let l2 := fresh "l" in
      let H1 := fresh "Hs" in
      apply may_bind_Ok in H; destruct H as (a & l1 & l2 & H1 & H & ->)
  | may (_ ≫= _) ?l ?r =>
      let a := fresh "a" in let l1 := fresh "l" in let l2 := fresh "l" in
      let H1 := fresh "Hs" in
      let Hr := fresh in
      apply may_bind in H;
      destruct H as [(?e & H & Hr) | (a & l1 & l2 & H1 & H & ->)]; [simplify_eq |]
  | may (mret _) _ _ => apply may_ret in H; destruct H as [? ?]; simplify_eq
  | may (lift _) _ _ => apply may_lift in H; destruct H as [? ?]; simplify_eq
  | may (log _) _ _ => apply may_log in H; destruct H as [? ?]; simplify_eq
  | may (attempt _) _ _ =>
      let r := fresh "r" in let E := fresh "E" in
      apply may_attempt in H; destruct H as (r & E & H); simplify_eq
  | may wait _ _ =>
      let i := fresh "i" in apply may_wait in H; destruct H as [? [i ?]]; simplify_eq
  | may next_fate _ _ =>
      let f := fresh "f" in apply may_fate in H; destruct H as [? [f ?]]; simplify_eq
  end.
