(* ===== verification/RelayState.v ===== *)
(** * RelayState: the Relay's identity file

    Models [crates/owlmux-relay/src/state.rs].  [persist] works on one
    directory of a small file system that distinguishes what is visible from
    what a crash leaves: a file's contents survive a crash once it was synced,
    a directory entry once its directory was synced - which for the directory
    itself is the matter of its own parent.  The function returns every state
    it passes through, so that a crash can be placed anywhere. *)

From S2P Require Import Prelude Text Secrets RelayProtocol Wire.

Inductive StateError : Type := Io | Invalid | UnsafePermissions.
Global Instance StateError_eq_dec : EqDecision StateError.
Proof. solve_decision. Defined.

Record RelayState : Type := {
  protocol : Z; relay_id : Uuid; secret_key : bytes; target_account : bytes;
  deployment_id : option Uuid; machine_id : option Uuid; route_revision : option Z;
}.
Global Instance RelayState_eq_dec : EqDecision RelayState.
Proof. solve_decision. Defined.

(** [serde_json] on the state. *)
Class StateCodec : Type := {
  print_state : RelayState -> option bytes;
  parse_state : bytes -> option RelayState;
}.
Class StateCodecLaws `{StateCodec} : Prop := {
  state_roundtrip : forall s t, print_state s = Some t -> parse_state t = Some s;
}.

Definition MAX_STATE_BYTES : Z := 16 * 1024.

(** ** The file system *)

Inductive Kind : Type := RegularFile | Directory | SymlinkTo (target_exists : bool) | OtherKind.
Global Instance Kind_eq_dec : EqDecision Kind.
Proof. solve_decision. Defined.

Record Metadata : Type := { kind : Kind; mode : Z }.
Record File : Type := { meta : Metadata; content : bytes; synced : bool }.

(** One directory: its own entry, visible and as of the last sync of the
    directory above it (with several missing ancestors, of all of them), and
    its entries, visible and as of its own last sync. *)
Record Fs : Type := {
  parent : option Metadata; parent_disk : option Metadata;
  entries : gmap bytes File; disk : gmap bytes File;
}.
Definition set_entries (fs : Fs) (e : gmap bytes File) : Fs :=
  {| parent := parent fs; parent_disk := parent_disk fs; entries := e; disk := disk fs |}.
Definition set_parent (fs : Fs) (p : Metadata) : Fs :=
  {| parent := Some p; parent_disk := parent_disk fs; entries := entries fs; disk := disk fs |}.
Definition sync_directory (fs : Fs) : Fs :=
  {| parent := parent fs; parent_disk := parent_disk fs; entries := entries fs;
     disk := entries fs |}.

(** What may be found under a name after a crash: the directory is the visible
    one or the synced one, and with it everything it holds may be gone; the
    entry is the visible one or the synced one, and the contents of an
    unsynced file are lost. *)
Definition survives_entry (fs : Fs) (name : bytes) (found : option bytes) : Prop :=
  exists entry, (entry = entries fs !! name \/ entry = disk fs !! name)
  /\ match entry with
     | None => found = None
     | Some f => synced f = true -> found = Some (content f)
     end.
Definition survives (fs : Fs) (name : bytes) (found : option bytes) : Prop :=
  exists directory, (directory = parent fs \/ directory = parent_disk fs)
  /\ match directory with None => found = None | Some _ => survives_entry fs name found end.

(** [Path::exists] follows symbolic links. *)
Definition exists_path (m : option Metadata) : bool :=
  match m with
  | None => false
  | Some m => match kind m with SymlinkTo target => target | _ => true end
  end.

(** ** The state *)

Section state.
Context `{Hbase : Base64} `{Hstate : StateCodec}.

Definition validate_account (account : bytes) : result StateError unit :=
  if bool_decide (account = []) || (64 <? zlen account)
     || chars_any (fun c => is_whitespace c || is_control c) account
  then Err Invalid else Ok tt.

(** The 32 bytes of the signing key. *)
Definition signing_key (s : RelayState) : result StateError bytes :=
  decoded ← ok_or Invalid (b64_decode (secret_key s));
  if negb (zlen decoded =? 32) then Err Invalid
  else if negb (bool_decide (b64_encode decoded = secret_key s)) then Err Invalid
  else Ok decoded.

(** [symlink] is the answer of [symlink_metadata], [opened] what opening and
    reading the path yields at most 16 KiB and one byte of. *)
Definition load (symlink : option Metadata) (opened : option bytes)
    : result StateError RelayState :=
  metadata ← ok_or Io symlink;
  if negb (bool_decide (kind metadata = RegularFile)) || negb (Z.land (mode metadata) 511 =? 384)
  then Err UnsafePermissions
  else
    data ← ok_or Io opened;
    let data := take (Z.to_nat (MAX_STATE_BYTES + 1)) data in
    if MAX_STATE_BYTES <? zlen data then Err Invalid
    else
      state ← ok_or Invalid (parse_state data);
      if negb (protocol state =? 1) then Err Invalid
      else
        _ ← validate_account (target_account state);
        _ ← signing_key state;
        Ok state.

(** The answers of the operating system during [persist]. *)
Record PersistEnv : Type := {
  (* [mkdir_mode]: the mode a new directory gets; [written]: where [write_all] fails *)
  mkdir_mode : option Z; chmod_ok : bool; create_ok : bool; written : option nat; sync_ok : bool;
  rename_ok : bool; remove_ok : bool; sync_dir_ok : bool;
}.

Definition private_directory (m : Metadata) : bool :=
  bool_decide (kind m = Directory) && (Z.land (mode m) 63 =? 0).

(** [temporary_path]: [text] is the fresh UUID. *)
Definition temporary_path (name text : bytes) : bytes :=
  lit "." ++ name ++ lit "." ++ text ++ lit ".tmp".

Definition new_file (data : bytes) (done : bool) : File :=
  {| meta := {| kind := RegularFile; mode := 384 |}; content := data; synced := done |}.

(** The part of [persist] after the directory checks, on the temporary name. *)
Definition write_and_rename (fs : Fs) (name temporary : bytes) (s : RelayState) (env : PersistEnv)
    : list Fs * result StateError unit :=
  match entries fs !! temporary with
  | Some _ => ([], Err Io)
  | None =>
      if negb (create_ok env) then ([], Err Io)
      else
      let fs1 := set_entries fs (<[temporary := new_file [] false]> (entries fs)) in
      match print_state s with
      | None => ([fs1], Err Invalid)
      | Some encoded =>
          match written env with
          | Some n =>
              ([fs1; set_entries fs (<[temporary := new_file (take n encoded) false]> (entries fs))],
               Err Io)
          | None =>
          let fs2 := set_entries fs (<[temporary := new_file encoded false]> (entries fs)) in
          let fs3 := set_entries fs (<[temporary := new_file encoded true]> (entries fs)) in
          if negb (sync_ok env) then ([fs1; fs2], Err Io)
          else if negb (rename_ok env)
          then ([fs1; fs2; fs3; if remove_ok env then set_entries fs3 (delete temporary (entries fs3)) else fs3],
                Err Io)
          else
          let fs4 := set_entries fs3 (<[name := new_file encoded true]> (delete temporary (entries fs3))) in
          if negb (sync_dir_ok env) then ([fs1; fs2; fs3; fs4], Err Io)
          else ([fs1; fs2; fs3; fs4; sync_directory fs4], Ok tt)
          end
      end
  end.

(** [create_dir_all] and [set_permissions] when the parent is missing; nothing
    syncs the directory above, so [parent_disk] stays as it was. *)
Definition ensure_parent (fs : Fs) (env : PersistEnv) : list Fs * result StateError Fs :=
  if exists_path (parent fs) then ([], Ok fs)
  else match parent fs, mkdir_mode env with
  | None, Some m =>
      let fs1 := set_parent fs {| kind := Directory; mode := m |} in
      if negb (chmod_ok env) then ([fs1], Err Io)
      else let fs2 := set_parent fs {| kind := Directory; mode := 448 |} in ([fs1; fs2], Ok fs2)
  | _, _ => ([], Err Io)
  end.

Definition persist (fs : Fs) (name text : bytes) (s : RelayState) (env : PersistEnv)
    : list Fs * result StateError unit :=
  let '(made, r) := ensure_parent fs env in
  match r with
  | Err e => (fs :: made, Err e)
  | Ok fs' =>
      match parent fs' with
      | None => (fs :: made, Err Io)
      | Some m =>
          if negb (private_directory m) then (fs :: made, Err UnsafePermissions)
          else let '(steps, r) := write_and_rename fs' name (temporary_path name text) s env in
               (fs :: made ++ steps, r)
      end
  end.

(** The state the code goes on with is the last one of the list. *)
Definition final (fs : Fs) (steps : list Fs) : Fs := default fs (last steps).

Definition load_entry (f : option File) : result StateError RelayState :=
  load (meta <$> f) (content <$> f).

Definition fresh_state (id : Uuid) (secret account : bytes) : RelayState :=
  {| protocol := 1; relay_id := id; secret_key := b64_encode secret; target_account := account;
     deployment_id := None; machine_id := None; route_revision := None |}.

Definition load_or_create (fs : Fs) (name text account : bytes) (id : Uuid) (secret : bytes)
    (env : PersistEnv) : list Fs * result StateError RelayState :=
  let found := entries fs !! name in
  if exists_path (meta <$> found)
  then ([fs], state ← load_entry found;
              if negb (bool_decide (target_account state = account)) then Err Invalid
              else Ok state)
  else match validate_account account with
  | Err e => ([fs], Err e)
  | Ok _ =>
      let state := fresh_state id secret account in
      let '(steps, r) := persist fs name text state env in
      (steps, _ ← r; Ok state)
  end.

(** The in-memory state is replaced before it is written. *)
Definition reset_identity (fs : Fs) (name text : bytes) (s : RelayState) (id : Uuid)
    (secret : bytes) (env : PersistEnv) : RelayState * (list Fs * result StateError unit) :=
  let s := {| protocol := protocol s; relay_id := id; secret_key := b64_encode secret;
              target_account := target_account s; deployment_id := None; machine_id := None;
              route_revision := None |} in
  (s, persist fs name text s env).

(** ** Theorems *)

(** The file under [name] is durable in its directory: only with the directory
    can a crash take it away. *)
Definition durable (fs : Fs) (name : bytes) : Prop :=
  disk fs !! name = entries fs !! name
  /\ match entries fs !! name with
     | Some f => synced f = true /\ is_Some (parent fs)
     | None => True
     end.

Definition read (fs : Fs) (name : bytes) : option bytes := content <$> entries fs !! name.

Lemma survives_cases fs name found :
  survives fs name found ->
  found = None /\ (parent fs = None \/ parent_disk fs = None) \/ survives_entry fs name found.
Proof. intros (d & Hd & H). destruct d; [by right |]. left. naive_solver. Qed.

Lemma durable_survives fs name found :
  durable fs name -> survives fs name found ->
  found = read fs name \/ found = None /\ parent_disk fs = None.
Proof.
  intros [Hd Hs] H. unfold read. apply survives_cases in H as [[-> Hp] | (entry & He & Hf)].
  - destruct (entries fs !! name); [| by left]. destruct Hs as (_ & [? E]).
    right. split; [done |]. destruct Hp; congruence.
  - rewrite Hd in He. assert (entry = entries fs !! name) as -> by tauto.
    left. destruct (entries fs !! name); cbn; [by apply Hf, Hs | done].
Qed.

Lemma temporary_path_ne name text : temporary_path name text <> name.
Proof.
  intros H. apply (f_equal (@length byte)) in H. unfold temporary_path in H.
  rewrite !length_app in H. change (length (lit ".tmp")) with 4%nat in H. lia.
Qed.

(** A state of the directory in which [name] still is as it was, whatever
    happened to other names. *)
Definition same_at (name : bytes) (fs fs' : Fs) : Prop :=
  entries fs' !! name = entries fs !! name /\ disk fs' !! name = disk fs !! name
  /\ parent_disk fs' = parent_disk fs /\ (is_Some (parent fs) -> is_Some (parent fs')).

Lemma same_survives name fs fs' found :
  durable fs name -> same_at name fs fs' -> survives fs' name found ->
  found = read fs name \/ found = None /\ parent_disk fs = None.
Proof.
  intros [Hd Hf] (He & Hk & Hp & Hv) Hs. unfold read. rewrite <- He, <- Hp.
  apply durable_survives in Hs; [done |]. split; [congruence |]. rewrite He.
  destruct (entries fs !! name); naive_solver.
Qed.

Lemma ensure_parent_same fs env made r name :
  ensure_parent fs env = (made, r) ->
  Forall (same_at name fs) made /\ match r with Ok fs' => same_at name fs fs' | Err _ => True end.
Proof.
  unfold ensure_parent. intros H.
  assert (forall m, same_at name fs (set_parent fs m)) as Hs by (repeat split; eauto).
  assert (same_at name fs fs) by done.
  repeat case_match; simplify_eq; split; eauto using Forall_nil_2, Forall_cons_2.
Qed.

(** Writing under another name leaves [name] as it is. *)
Lemma insert_other_same name other fs f :
  other <> name -> same_at name fs (set_entries fs (<[other := f]> (entries fs))).
Proof. intros. repeat split; cbn; [by rewrite lookup_insert_ne | auto]. Qed.

Local Ltac all_stages Hsame :=
  split; [repeat (apply Forall_cons_2; [try apply Hsame |]); try apply Forall_nil_2 | try done].

(** Every state before the rename is as before at [name]; after it, [name] is
    either as before or the new file, and after the directory sync the new
    file alone. *)
Definition stage (name : bytes) (s : RelayState) (fs fs' : Fs) : Prop :=
  same_at name fs fs'
  \/ exists encoded, print_state s = Some encoded
     /\ entries fs' !! name = Some (new_file encoded true)
     /\ (disk fs' !! name = disk fs !! name \/ disk fs' !! name = Some (new_file encoded true))
     /\ parent_disk fs' = parent_disk fs /\ is_Some (parent fs').
Definition stored (name : bytes) (s : RelayState) (fs : Fs) (steps : list Fs) : Prop :=
  exists encoded fs', print_state s = Some encoded /\ last steps = Some fs'
  /\ entries fs' !! name = Some (new_file encoded true)
  /\ disk fs' !! name = Some (new_file encoded true)
  /\ parent_disk fs' = parent_disk fs /\ is_Some (parent fs').

Lemma same_stage name s fs fs' fs'' :
  same_at name fs fs' -> stage name s fs' fs'' -> stage name s fs fs''.
Proof.
  intros (He & Hd & Hp & Hv) [(He' & Hd' & Hp' & Hv') | (encoded & H1 & H2 & H3 & H4 & H5)].
  - left. repeat split; [congruence.. | auto].
  - right. exists encoded. rewrite <- Hd, <- Hp. auto.
Qed.

Lemma write_and_rename_states fs name temporary s env steps r :
  temporary <> name -> is_Some (parent fs) ->
  write_and_rename fs name temporary s env = (steps, r) ->
  Forall (stage name s fs) steps /\ (r = Ok tt -> stored name s fs steps).
Proof.
  intros Hne Hpar H. unfold write_and_rename in H.
  assert (forall f, stage name s fs (set_entries fs (<[temporary := f]> (entries fs)))) as Hsame
    by (intros; left; by apply insert_other_same).
  destruct (entries fs !! temporary); [injection H as <- <-; by split |].
  destruct (create_ok env); cbn [negb] in H; [| injection H as <- <-; by split].
  destruct (print_state s) as [encoded|] eqn:Hp; [| injection H as <- <-; all_stages Hsame].
  destruct (written env); [injection H as <- <-; all_stages Hsame |].
  destruct (sync_ok env); cbn [negb] in H; [| injection H as <- <-; all_stages Hsame].
  destruct (rename_ok env); cbn [negb] in H.
  2:{ injection H as <- <-. destruct (remove_ok env); all_stages Hsame. left. repeat split; cbn; [| done].
      by rewrite lookup_delete_ne, lookup_insert_ne. }
  destruct (sync_dir_ok env); cbn [negb] in H; injection H as <- <-; all_stages Hsame;
    try (right; exists encoded; cbn; rewrite ?lookup_insert_eq; by auto).
  intros _. eexists encoded, _. split_and!; try done; cbn; by rewrite lookup_insert_eq.
Qed.

(** What [persist] goes through, seen from the name it writes. *)
Lemma persist_states fs name text s env steps r :
  persist fs name text s env = (steps, r) ->
  Forall (stage name s fs) steps /\ (r = Ok tt -> stored name s fs steps).
Proof.
  unfold persist. intros H. destruct (ensure_parent fs env) as [made r0] eqn:Hp.
  apply (ensure_parent_same _ _ _ _ name) in Hp as [Hmade Hr0].
  assert (Forall (stage name s fs) (fs :: made)) as Hpre.
  { apply Forall_cons_2; [by left |]. eapply Forall_impl; [exact Hmade | by left]. }
  destruct r0 as [fs'|e]; [| injection H as <- <-; by split].
  destruct (parent fs') as [m|] eqn:Hm; [| injection H as <- <-; by split].
  destruct (private_directory m); cbn [negb] in H; [| injection H as <- <-; by split].
  destruct (write_and_rename fs' name (temporary_path name text) s env) as [rest r1] eqn:Hw.
  injection H as <- <-. apply write_and_rename_states in Hw as [Hrest Hok];
    [| apply temporary_path_ne | by eexists].
  change (fs :: made ++ rest) with ((fs :: made) ++ rest). split.
  - apply Forall_app. split; [exact Hpre |]. eapply Forall_impl; [exact Hrest |].
    intros fs1. by apply same_stage.
  - intros ->. destruct (Hok eq_refl) as (encoded & fs1 & Hpr & Hlast & He & Hd & Hk & Hv).
    destruct Hr0 as (_ & _ & Hpd & _).
    exists encoded, fs1. rewrite <- Hpd. split_and!; try done. by rewrite last_app, Hlast.
Qed.

(** C39. Writing the identity file is atomic, and as durable as its directory:
    whatever fails, and wherever a crash is placed, the name holds either
    exactly what it held before or exactly the new encoding; when [persist]
    returns [Ok], the file holds the new encoding with mode 0600, and a crash
    finds it.  All of this is up to the directory itself: if, and only if, it
    had never been synced into the one above it - as after [create_dir_all],
    in this call or in an earlier one -, a crash may take the file away
    together with its directory. *)
Theorem persist_atomic (fs : Fs) (name text : bytes) (s : RelayState) (env : PersistEnv)
    (Hdurable : durable fs name) :
  let '(steps, r) := persist fs name text s env in
  (forall fs' found, fs' ∈ steps -> survives fs' name found ->
     found = read fs name \/ found = print_state s \/ found = None /\ parent_disk fs = None)
  /\ (r = Ok tt ->
     exists encoded fs', print_state s = Some encoded /\ last steps = Some fs'
     /\ entries fs' !! name = Some (new_file encoded true)
     /\ durable fs' name /\ parent_disk fs' = parent_disk fs
     /\ forall found, survives fs' name found
          <-> found = Some encoded \/ found = None /\ parent_disk fs = None).
Proof.
  destruct (persist fs name text s env) as [steps r] eqn:H.
  apply persist_states in H as [Hall Hok]. split.
  - intros fs' found Hin Hs. rewrite Forall_forall in Hall.
    destruct (Hall fs' Hin) as [Hsame | (encoded & Hp & He & Hd & Hk & [m Hv])].
    { destruct (same_survives _ _ _ _ Hdurable Hsame Hs); auto. }
    destruct Hdurable as [Hdisk Hsync].
    apply survives_cases in Hs as [[-> [? | Hnone]] | (entry & Hentry & Hfound)]; [congruence | |].
    + right; right. split; congruence.
    + rewrite He in Hentry. destruct Hentry as [-> | ->].
      { right; left. rewrite Hp. by apply Hfound. }
      destruct Hd as [Hd | Hd]; rewrite Hd in Hfound; [left | right; left; rewrite Hp; by apply Hfound].
      rewrite Hdisk in Hfound. unfold read. destruct (entries fs !! name); cbn; [| done].
      by apply Hfound, Hsync.
  - intros ->. destruct (Hok eq_refl) as (encoded & fs' & Hp & Hlast & He & Hd & Hk & [m Hv]).
    exists encoded, fs'. split_and!; try done.
    { split; [congruence |]. rewrite He. by eauto. }
    intros found. split.
    + intros [[-> [? | ?]] | (entry & Hentry & Hfound)]%survives_cases; [congruence | right; split; congruence |].
      rewrite He, Hd in Hentry. assert (entry = Some (new_file encoded true)) as -> by tauto.
      left. by apply Hfound.
    + intros [-> | [-> Hnone]].
      * exists (Some m). split; [by left |]. exists (Some (new_file encoded true)).
        split; [by left | done].
      * exists None. split; [right; congruence | done].
Qed.

(** What was created is what is loaded: after a successful
    [load_or_create] of a new identity with a 32-byte secret, [load] reads the
    same state back from the visible file (when its encoding fits the limit),
    and its signing key is the secret. *)
Theorem create_then_load (fs : Fs) (name text account : bytes) (id : Uuid) (secret : bytes)
    (env : PersistEnv) (steps : list Fs) (s : RelayState)
    `{!Base64Laws} `{!StateCodecLaws}
    (Hnew : entries fs !! name = None) (Hsecret : zlen secret = 32)
    (Hfits : forall t, print_state (fresh_state id secret account) = Some t ->
             zlen t <= MAX_STATE_BYTES)
    (Hcreated : load_or_create fs name text account id secret env = (steps, Ok s)) :
  load_entry (entries (final fs steps) !! name) = Ok s
  /\ s = fresh_state id secret account /\ signing_key s = Ok secret.
Proof.
  unfold load_or_create in Hcreated. rewrite Hnew in Hcreated. cbn in Hcreated.
  destruct (validate_account account) as [u|] eqn:Hv; [| done].
  destruct (persist _ _ _ _ _) as [steps' r] eqn:Hp.
  destruct r as [[]|e]; [| done]. injection Hcreated as <- <-.
  apply persist_states in Hp as [_ Hok].
  destruct (Hok eq_refl) as (encoded & fs' & Hpr & Hlast & He & _).
  assert (signing_key (fresh_state id secret account) = Ok secret) as Hk.
  { unfold signing_key. cbn. rewrite b64_roundtrip. cbn. rewrite Hsecret. cbn.
    by rewrite bool_decide_eq_true_2. }
  split_and!; [| done..].
  unfold final. rewrite Hlast. cbn. rewrite He. unfold load_entry, load. cbn.
  rewrite take_ge by (specialize (Hfits _ Hpr); unfold zlen in Hfits; lia).
  destruct (Z.ltb_spec MAX_STATE_BYTES (zlen encoded)) as [Hlt |];
    [specialize (Hfits _ Hpr); lia |].
  rewrite (state_roundtrip _ _ Hpr). cbn. by rewrite Hv, Hk.
Qed.

End state.

(** ** A concrete codec and directory *)

(** A codec of freshly created states: identifier, secret, account. *)
Definition toy_print_state (s : RelayState) : option bytes :=
  if bool_decide (s = @fresh_state plain_base64 (relay_id s) (secret_key s) (target_account s))
     && (0 <=? relay_id s) && (relay_id s <=? 255) && bool_decide (length (secret_key s) = 32%nat)
  then Some (byte_of (relay_id s) :: secret_key s ++ target_account s) else None.
Definition toy_parse_state (v : bytes) : option RelayState :=
  match v with
  | [] => None
  | c :: v => Some (@fresh_state plain_base64 (bval c) (take 32 v) (drop 32 v))
  end.
Definition toy_state_codec : StateCodec :=
  {| print_state := toy_print_state; parse_state := toy_parse_state |}.

Lemma toy_state_codec_laws : @StateCodecLaws toy_state_codec.
Proof.
  constructor. intros s t H. cbn in *. unfold toy_print_state in H.
  destruct (_ && _) eqn:E; [| done]. split_bools. injection H as <-. cbn.
  rewrite bval_byte_of_small by lia. rewrite take_app_length', drop_app_length' by done.
  f_equal. by symmetry.
Qed.

Definition empty_directory : Fs :=
  {| parent := Some {| kind := Directory; mode := 448 |};
     parent_disk := Some {| kind := Directory; mode := 448 |}; entries := ∅; disk := ∅ |}.
Definition good_env : PersistEnv :=
  {| mkdir_mode := None; chmod_ok := true; create_ok := true; written := None; sync_ok := true;
     rename_ok := true; remove_ok := true; sync_dir_ok := true |}.
Definition sample_secret : bytes := repeat "007"%byte 32.
Definition sample_created : list Fs * result StateError RelayState :=
  @load_or_create plain_base64 toy_state_codec empty_directory (lit "state.json") (lit "1")
    (lit "owlmux") 9 sample_secret good_env.

(** The first run of a Relay: the directory does not exist yet. *)
Definition missing_directory : Fs :=
  {| parent := None; parent_disk := None; entries := ∅; disk := ∅ |}.
Definition mkdir_env : PersistEnv :=
  {| mkdir_mode := Some 493; chmod_ok := true; create_ok := true; written := None; sync_ok := true;
     rename_ok := true; remove_ok := true; sync_dir_ok := true |}.
Definition sample_state : RelayState := @fresh_state plain_base64 9 sample_secret (lit "owlmux").
Definition sample_text : bytes := "009"%byte :: sample_secret ++ lit "owlmux".

(** In a synced directory the file stays; in a new one a crash may take it. *)
Lemma persist_atomic_witness :
  (forall fs' found, fs' ∈ fst sample_created -> survives fs' (lit "state.json") found ->
     found = None \/ found = Some sample_text)
  /\ (forall found, survives (final empty_directory (fst sample_created)) (lit "state.json") found ->
        found = Some sample_text)
  /\ (let '(steps, r) := @persist toy_state_codec missing_directory (lit "state.json") (lit "1")
                           sample_state mkdir_env in
      r = Ok tt /\ survives (final missing_directory steps) (lit "state.json") None).
Proof.
  assert (durable empty_directory (lit "state.json")) as Hd by done.
  assert (durable missing_directory (lit "state.json")) as Hm by done.
  pose proof (persist_atomic (Hstate := toy_state_codec) empty_directory (lit "state.json") (lit "1")
    sample_state good_env Hd) as H.
  assert (@persist toy_state_codec empty_directory (lit "state.json") (lit "1") sample_state good_env
          = (fst sample_created, Ok tt)) as Hrun.
  { apply injective_projections; [| by vm_compute]. cbn [fst]. unfold sample_created, load_or_create.
    cbn [exists_path]. reflexivity. }
  rewrite Hrun in H.
  pose proof (persist_atomic (Hstate := toy_state_codec) missing_directory (lit "state.json") (lit "1")
    sample_state mkdir_env Hm) as H'.
  split.
  { intros fs' found Hin Hs. destruct (proj1 H fs' found Hin Hs) as [? | [? | [_ [=]]]]; [by left | by right]. }
  split.
  - destruct (proj2 H eq_refl) as (encoded & fs' & Hp & Hlast & _ & _ & _ & Hs). intros found Hf.
    assert (final empty_directory (fst sample_created) = fs') as Hfin.
    { unfold final. by rewrite Hlast. }
    rewrite Hfin in Hf. apply Hs in Hf as [-> | [_ [=]]]. symmetry. exact Hp.
  - assert (snd (@persist toy_state_codec missing_directory (lit "state.json") (lit "1") sample_state
                   mkdir_env) = Ok tt) as Hok by (by vm_compute).
    destruct (persist missing_directory _ _ _ _) as [steps r]. cbn [snd] in Hok. subst r.
    split; [done |]. destruct (proj2 H' eq_refl) as (encoded & fs' & _ & Hlast & _ & _ & _ & Hs).
    unfold final. rewrite Hlast. apply Hs. right. split; reflexivity.
Defined.

Lemma create_then_load_witness :
  let s := @fresh_state plain_base64 9 sample_secret (lit "owlmux") in
  snd sample_created = Ok s
  /\ @load_entry plain_base64 toy_state_codec
       (entries (final empty_directory (fst sample_created)) !! lit "state.json") = Ok s.
Proof.
  assert (snd sample_created = Ok (@fresh_state plain_base64 9 sample_secret (lit "owlmux")))
    as Hok by by vm_compute.
  split; [exact Hok |].
  assert (sample_created = (fst sample_created,
    Ok (@fresh_state plain_base64 9 sample_secret (lit "owlmux")))) as Hc
    by (rewrite <- Hok; apply surjective_pairing).
  eapply (create_then_load (Hbase := plain_base64) (Hstate := toy_state_codec)
    empty_directory (lit "state.json") (lit "1") (lit "owlmux") 9 sample_secret good_env).
  - apply plain_base64_laws.
  - apply toy_state_codec_laws.
  - done.
  - done.
  - intros t Ht. vm_compute in Ht. injection Ht as <-. by vm_compute.
  - exact Hc.
Defined.
