(* ===== verification/Ssh.v ===== *)
(** * Ssh: subprocess custody, remote commands and line transport

    Models [crates/owlmux-server/src/ssh.rs]: the node-local runtime
    directory and its scavenging, host-key parsing, the checks around access
    proofs, probes and session creation, the rendered remote commands, the
    argument vectors of the OpenSSH client, and the bounded line transport of
    a control child.  The kernel's file operations, the OpenSSH process and
    the [ssh_key] and [uuid] crates are parameters. *)

From S2P Require Import Prelude Text Contracts Binary Secrets.

Abbreviation ssh := (result SshError).

Definition PROOF_MARKER : bytes := lit "__OWLMUX_SSH_OK_V1__" ++ ["010"%byte].
Definition SESSION_MARKER : bytes := lit "__OWLMUX_TMUX_SESSION_OK_V1__" ++ ["010"%byte].
Definition CREATE_MARKER : bytes := lit "__OWLMUX_TMUX_CREATED_V1__" ++ ["009"%byte].
Definition MAX_DIAGNOSTIC_BYTES : Z := 4096.
Definition MAX_CONTROL_LINE_BYTES : Z := 256 * 1024.

(** [uuid::Uuid]'s text form. *)
Class UuidText : Type := {
  uuid_parse : bytes -> option Uuid;
  uuid_print : Uuid -> bytes;
}.

(** [ssh_key::PublicKey]. *)
Class SshKeys : Type := {
  PublicKey : Type;
  from_openssh : bytes -> option PublicKey;
  is_ed25519 : PublicKey -> bool;
  to_openssh : PublicKey -> option bytes;
  fingerprint_of : PublicKey -> bytes;
}.

(** ** The runtime directory *)

Inductive FileKind : Type := Directory | Regular | Symlink | OtherKind.
Global Instance FileKind_eq_dec : EqDecision FileKind.
Proof. solve_decision. Defined.

(** [symlink_metadata]: a link reports itself, not its target. *)
Record Metadata : Type := { kind : FileKind; uid : Z; nlink : Z; mode : Z }.

(** A directory entry and what is below it, in [read_dir] order. *)
#[warnings="-register-all"]
Inductive Node : Type := Entry (meta : Metadata) (children : list (bytes * Node)).
Definition node_meta (n : Node) : Metadata := match n with Entry m _ => m end.
Definition node_children (n : Node) : list (bytes * Node) := match n with Entry _ c => c end.

Definition permission_bits (m : Metadata) : Z := Z.land (mode m) 511.

Definition validate_directory (m : Metadata) (owner_uid : Z) : ssh unit :=
  if negb (bool_decide (kind m = Directory)) || negb (uid m =? owner_uid)
     || negb (permission_bits m =? 448)
  then Err SshCustody else Ok tt.

Definition validate_regular_file (m : Metadata) (owner_uid : Z) : ssh unit :=
  if negb (bool_decide (kind m = Regular)) || negb (uid m =? owner_uid)
     || negb (nlink m =? 1) || negb (permission_bits m =? 384)
  then Err SshCustody else Ok tt.

Section custody.
Context `{UuidText}.
(** Whether the kernel lets the process unlink the file, or remove the then
    empty directory, of this name. *)
Variable unlinks : bytes -> bool.

Definition validate_scoped_name (name prefix : bytes) : ssh unit :=
  value ← ok_or SshCustody (strip_prefix prefix name);
  id ← ok_or SshCustody (uuid_parse value);
  if bool_decide (uuid_print id = value) then Ok tt else Err SshCustody.

(** The loop of [cleanup_child_directory]: entries go in order and stop at
    the first refusal; what was removed before stays removed. *)
Fixpoint remove_child_files (entries : list (bytes * Node)) (owner_uid : Z)
    : list (bytes * Node) * ssh unit :=
  match entries with
  | [] => ([], Ok tt)
  | (name, node) :: rest =>
      if negb (bool_decide (name = lit "identity"))
         && negb (bool_decide (name = lit "known_hosts"))
      then (entries, Err SshCustody)
      else match validate_regular_file (node_meta node) owner_uid with
           | Err e => (entries, Err e)
           | Ok _ => if unlinks name then remove_child_files rest owner_uid
                     else (entries, Err SshCustody)
           end
  end.

(** [Some node] is what is left of the directory, [None] when it is gone. *)
Definition cleanup_child_directory (name : bytes) (node : Node) (owner_uid : Z) : option Node * ssh unit :=
  match validate_directory (node_meta node) owner_uid with
  | Err e => (Some node, Err e)
  | Ok _ =>
      let '(remaining, r) := remove_child_files (node_children node) owner_uid in
      match r with
      | Err e => (Some (Entry (node_meta node) remaining), Err e)
      | Ok _ => if unlinks name then (None, Ok tt)
                else (Some (Entry (node_meta node) remaining), Err SshCustody)
      end
  end.

(** A loop over the entries of a directory whose body may remove the entry. *)
Fixpoint sweep (body : bytes -> Node -> option Node * ssh unit) (entries : list (bytes * Node))
    : list (bytes * Node) * ssh unit :=
  match entries with
  | [] => ([], Ok tt)
  | (name, node) :: rest =>
      let '(remaining, r) := body name node in
      let kept := match remaining with Some n => [(name, n)] | None => [] end in
      match r with
      | Err e => (kept ++ rest, Err e)
      | Ok _ => let '(rest', r') := sweep body rest in (kept ++ rest', r')
      end
  end.

Definition cleanup_instance_entry (owner_uid : Z) (name : bytes) (node : Node)
    : option Node * ssh unit :=
  match (n ← ok_or SshCustody (from_utf8 name); validate_scoped_name n (lit "child-")) with
  | Err e => (Some node, Err e)
  | Ok _ => cleanup_child_directory name node owner_uid
  end.

Definition cleanup_instance_directory (name : bytes) (node : Node) (owner_uid : Z) : option Node * ssh unit :=
  match validate_directory (node_meta node) owner_uid with
  | Err e => (Some node, Err e)
  | Ok _ =>
      let '(remaining, r) := sweep (cleanup_instance_entry owner_uid) (node_children node) in
      match r with
      | Err e => (Some (Entry (node_meta node) remaining), Err e)
      | Ok _ => if unlinks name then (None, Ok tt)
                else (Some (Entry (node_meta node) remaining), Err SshCustody)
      end
  end.

Definition scavenge_entry (owner_uid : Z) (name : bytes) (node : Node)
    : option Node * ssh unit :=
  if bool_decide (name = lit ".lock") then (Some node, Ok tt)
  else match (n ← ok_or SshCustody (from_utf8 name); validate_scoped_name n (lit "instance-")) with
       | Err e => (Some node, Err e)
       | Ok _ => cleanup_instance_directory name node owner_uid
       end.

Definition scavenge_runtime_root (entries : list (bytes * Node)) (owner_uid : Z)
    : list (bytes * Node) * ssh unit :=
  sweep (scavenge_entry owner_uid) entries.

End custody.

(** [SshRuntime::create] on an existing root: [lock] is the metadata of the
    opened [.lock] file, which opening creates when it is missing, and whether
    the exclusive flock was granted. *)
Definition lock_runtime_root (lock : option (Metadata * bool)) (owner_uid : Z) : ssh unit :=
  match lock with
  | None => Err SshCustody
  | Some (m, granted) =>
      validate_regular_file m owner_uid ;; fail_if (negb granted) SshCustody
  end.

Definition create_runtime `{UuidText} (unlinks : bytes -> bool) (root : Node)
    (lock : option (Metadata * bool)) (instance_id : Uuid) : Node * ssh bytes :=
  let m := node_meta root in
  if negb (bool_decide (kind m = Directory)) then (root, Err SshCustody)
  else if negb (permission_bits m =? 448) then (root, Err SshCustody)
  else match lock_runtime_root lock (uid m) with
       | Err e => (root, Err e)
       | Ok _ =>
           let entries := node_children root ++
             match lock with
             | Some (lm, _) => if existsb (fun e => bool_decide (e.1 = lit ".lock")) (node_children root)
                               then [] else [(lit ".lock", Entry lm [])]
             | None => []
             end in
           let '(remaining, r) := scavenge_runtime_root unlinks entries (uid m) in
           match r with
           | Err e => (Entry m remaining, Err e)
           | Ok _ =>
               let name := lit "instance-" ++ uuid_print instance_id in
               let dir := {| kind := Directory; uid := uid m; nlink := 2; mode := 448 |} in
               (Entry m (remaining ++ [(name, Entry dir [])]), Ok name)
           end
       end.

(** ** Names, accounts and shell words *)

Definition is_target_account (value : bytes) : bool :=
  match value with
  | [] => false
  | first :: rest =>
      (is_ascii_alphabetic first || bool_decide (first = "_"%byte))
      && (zlen value <=? 64)
      && forallb (fun c => is_ascii_alphanumeric c
                           || bool_decide (c ∈ ["_"; "."; "-"]%byte)) rest
  end.

Definition is_ed25519_host_identity `{SshKeys} (value : bytes) : bool :=
  match from_openssh value with Some k => is_ed25519 k | None => false end.

(** [value.replace('\'', "'\\''")]. *)
Definition quote_byte (c : byte) : bytes :=
  if bool_decide (c = "'"%byte) then ["'"; "\"; "'"; "'"]%byte else [c].

Definition shell_literal (value : bytes) : ssh bytes :=
  if bool_decide (value = []) || bool_decide ("000"%byte ∈ value) then Err SshInvalidState
  else Ok (["'"%byte] ++ concat (map quote_byte value) ++ ["'"%byte]).

Definition is_tmux_session_id (value : bytes) : bool :=
  match strip_prefix ["$"%byte] value with
  | Some digits => negb (bool_decide (digits = [])) && forallb is_ascii_digit digits
  | None => false
  end.

(** ** Host keys *)

Record HostIdentity : Type := { public_key : bytes; fingerprint_sha256 : bytes }.

Definition parse_known_host `{SshKeys} (value : bytes) : ssh HostIdentity :=
  value ← ok_or SshProofFailed (from_utf8 value);
  line ← ok_or SshProofFailed (strip_suffix_byte "010"%byte value);
  if existsb (fun c => bool_decide (c ∈ ["013"; "010"; "000"]%byte)) line
  then Err SshProofFailed
  else match split_ascii_whitespace line with
       | [alias; algorithm; encoded_key] =>
           if negb (bool_decide (alias = lit "owlmux-target")) then Err SshProofFailed
           else
             key ← ok_or SshProofFailed
                     (from_openssh (algorithm ++ lit " " ++ encoded_key));
             if negb (is_ed25519 key) then Err SshProofFailed
             else
               text ← ok_or SshProofFailed (to_openssh key);
               Ok {| public_key := text; fingerprint_sha256 := fingerprint_of key |}
       | _ => Err SshProofFailed
       end.

(** ** Access: credentials, proofs and probes *)

(** A row of a [machines JOIN ssh_credentials] query (the queries themselves
    are those of SshAccess); the host identity may be null. *)
Record AccessRow : Type := {
  row_account : bytes; row_host_identity : option bytes; row_tmux_path : bytes;
  row_socket : bytes; row_credential_id : Uuid; row_envelope : bytes;
}.

Record ActiveAccess : Type := {
  account : bytes; host_identity : bytes; tmux_path : bytes;
  tmux_socket_identity : bytes; private_key : bytes;
}.

(** The answer of a query: a database error, no row, or the row. *)
Definition query_row {A} (answer : option (option A)) : ssh A :=
  row ← ok_or SshUnavailable answer; ok_or SshInvalidState row.

Definition lease_check (valid : bool) : ssh unit := fail_if (negb valid) SshFenced.

Section access.
Context `{Aead, SshKeys}.

(** [l0], [l1], [l2] are the answers of the three [lease.check] calls. *)
Definition load_active_access (encryption_key : bytes) (deployment_id : Uuid)
    (l0 l1 l2 : bool) (answer : option (option AccessRow)) : ssh ActiveAccess :=
  lease_check l0 ;;
  row ← query_row answer;
  lease_check l1 ;;
  key ← map_err (fun _ => SshCustody)
          (open encryption_key deployment_id (row_credential_id row) (row_envelope row));
  lease_check l2 ;;
  host ← ok_or SshUnavailable (row_host_identity row);
  if negb (is_target_account (row_account row)) || negb (is_ed25519_host_identity host)
  then Err SshInvalidState
  else Ok {| account := row_account row; host_identity := host;
             tmux_path := row_tmux_path row; tmux_socket_identity := row_socket row;
             private_key := key |}.

(** The checks of [verify_access] before the child is started. *)
Definition verify_access_checks (encryption_key : bytes) (deployment_id : Uuid)
    (confirmed_identity : bytes) (l0 l1 l2 : bool) (answer : option (option AccessRow))
    : ssh (bytes * bytes) :=
  lease_check l0 ;;
  fail_if (negb (is_ed25519_host_identity confirmed_identity)) SshInvalidState ;;
  row ← query_row answer;
  lease_check l1 ;;
  fail_if (negb (is_target_account (row_account row))) SshInvalidState ;;
  key ← map_err (fun _ => SshCustody)
          (open encryption_key deployment_id (row_credential_id row) (row_envelope row));
  lease_check l2 ;;
  Ok (row_account row, key).
End access.

(** What a finished (or timed out) OpenSSH child left behind: bytes of its
    output streams, whether reading them failed, its exit code ([None] for a
    signal), and whether the identity file could be unlinked. *)
Record ChildExit : Type := {
  waited : bool;                 (* [child.wait()] returned a status *)
  exit_code : option Z;
  stdout : bytes; stdout_ok : bool;
  stderr : bytes; stderr_ok : bool;
  identity_removed : bool;
}.
Definition success (e : ChildExit) : bool := bool_decide (exit_code e = Some 0).
(** [take(4097)] in front of [read_to_end]. *)
Definition limited (n : nat) (v : bytes) : bytes := List.firstn n v.
Arguments limited : simpl never.

(** The result of [verify_with_child]; [None] is the 15-second timeout. *)
Definition proof_outcome (child : option ChildExit) : ssh unit :=
  match child with
  | None => Err SshProofFailed
  | Some e =>
      let out := limited 4097 (stdout e) in
      match strip_prefix PROOF_MARKER out with
      | None => Err SshProofFailed
      | Some trailing =>
          fail_if (negb (identity_removed e)) SshCustody ;;
          fail_if (negb (waited e)) SshProofFailed ;;
          fail_if (negb (bool_decide (trailing = []))
                   || (MAX_DIAGNOSTIC_BYTES <? zlen (limited 4097 (stderr e)))
                   || negb (success e)) SshProofFailed
      end
  end.

(** The result of [run_tmux_probe]'s child. *)
Definition probe_outcome (child : option ChildExit) : ssh bytes :=
  match child with
  | None => Err SshProofFailed
  | Some e =>
      let out := List.firstn (Z.to_nat (256 * 1024 + 1)) (stdout e) in
      fail_if (negb (waited e)) SshUnavailable ;;
      fail_if ((256 * 1024 <? zlen out)
               || (MAX_DIAGNOSTIC_BYTES <? zlen (limited 4097 (stderr e)))) SshProofFailed ;;
      fail_if (negb (starts_with (lit "__OWLMUX_TMUX_CLIENT_V1__" ++ ["009"%byte]) out))
        SshProofFailed ;;
      fail_if (negb (identity_removed e)) SshCustody ;;
      fail_if (negb (success e)) SshProofFailed ;;
      ok_or SshProofFailed (from_utf8 out)
  end.

Inductive CreateSessionOutcome : Type := Succeeded | Failed | Ambiguous.
Global Instance CreateSessionOutcome_eq_dec : EqDecision CreateSessionOutcome.
Proof. solve_decision. Defined.

(** The classification at the end of [create_tmux_session]. *)
Definition create_outcome (child : option ChildExit) : CreateSessionOutcome :=
  match child with
  | None => Ambiguous
  | Some e =>
      let out := limited 4097 (stdout e) in
      if negb (waited e) then Ambiguous
      else if negb (stdout_ok e) || negb (stderr_ok e)
              || (MAX_DIAGNOSTIC_BYTES <? zlen out)
              || (MAX_DIAGNOSTIC_BYTES <? zlen (limited 4097 (stderr e))) then Ambiguous
      else if negb (success e) then
        if bool_decide (exit_code e = Some 46) then Failed else Ambiguous
      else match from_utf8 out with
           | None => Ambiguous
           | Some output =>
               match (v ← strip_prefix CREATE_MARKER output; strip_suffix_byte "010"%byte v) with
               | None => Ambiguous
               | Some created_identity =>
                   match split_once ":"%byte created_identity with
                   | None => Ambiguous
                   | Some (session_id, created) =>
                       match parse_i64 created with
                       | None => Ambiguous
                       | Some n =>
                           if negb (is_tmux_session_id session_id) || (n <=? 0) then Ambiguous
                           else if negb (identity_removed e) then Ambiguous
                           else Succeeded
                       end
                   end
               end
           end
  end.

(** [name.trim() != name]: a leading or trailing white-space character. *)
Definition has_outer_space (name : bytes) : bool :=
  match chars name with
  | Some cs => match head cs, last cs with
               | Some a, Some b => is_whitespace a || is_whitespace b
               | _, _ => false
               end
  | None => false
  end.

Definition valid_new_session_name (name : bytes) : bool :=
  negb (bool_decide (name = []) || (64 <? zlen name) || has_outer_space name
        || chars_any is_control name).

(** ** Remote commands and client arguments *)

Definition dq : bytes := ["034"%byte].

Definition probe_command (tmux socket : bytes) : bytes :=
  lit "v=$(" ++ tmux ++ lit " -V) || exit 42; printf '__OWLMUX_TMUX_CLIENT_V1__\t%s\n' " ++ dq
  ++ lit "$v" ++ dq ++ lit "; if sv=$(" ++ tmux ++ lit " -L " ++ socket
  ++ lit " display-message -p 'tmux #{version}' 2>/dev/null); then printf '__OWLMUX_TMUX_SERVER_V1__\t%s\n' "
  ++ dq ++ lit "$sv" ++ dq ++ lit "; " ++ tmux ++ lit " -L " ++ socket
  ++ lit " list-sessions -F '#{session_id}:#{session_created}:#{session_attached}:#{session_windows}:#{session_name}'; else printf '__OWLMUX_TMUX_SERVER_V1__\tnone\n'; fi".

Definition create_command (tmux socket name : bytes) : bytes :=
  lit "created=$(" ++ tmux ++ lit " -L " ++ socket
  ++ lit " new-session -d -P -F '#{session_id}:#{session_created}' -s " ++ name
  ++ lit ") || exit 46; printf '__OWLMUX_TMUX_CREATED_V1__\t%s\n' " ++ dq ++ lit "$created" ++ dq.

Definition attach_command (tmux socket session expected_created : bytes) : bytes :=
  lit "actual=$(" ++ tmux ++ lit " -L " ++ socket ++ lit " display-message -p -t " ++ session
  ++ lit " '#{session_created}') || exit 44; [ " ++ dq ++ lit "$actual" ++ dq ++ lit " = "
  ++ expected_created ++ lit " ] || exit 45; printf '__OWLMUX_TMUX_SESSION_OK_V1__\n'; exec "
  ++ tmux ++ lit " -L " ++ socket ++ lit " -C attach-session -E -f 'read-only,ignore-size' -t "
  ++ session.

Definition render_probe (access : ActiveAccess) : ssh bytes :=
  tmux ← shell_literal (tmux_path access);
  socket ← shell_literal (tmux_socket_identity access);
  Ok (probe_command tmux socket).

(** The name check precedes loading the access. *)
Definition render_create (access : ActiveAccess) (name : bytes) : ssh bytes :=
  fail_if (negb (valid_new_session_name name)) SshInvalidState ;;
  tmux ← shell_literal (tmux_path access);
  socket ← shell_literal (tmux_socket_identity access);
  name ← shell_literal name;
  Ok (create_command tmux socket name).

Definition render_attach (access : ActiveAccess) (session_id : bytes) (session_created : Z)
    : ssh bytes :=
  fail_if (negb (is_tmux_session_id session_id) || (session_created <=? 0)) SshInvalidState ;;
  tmux ← shell_literal (tmux_path access);
  socket ← shell_literal (tmux_socket_identity access);
  session ← shell_literal session_id;
  Ok (attach_command tmux socket session (dec_signed session_created)).

Definition known_hosts_line (identity : bytes) : bytes :=
  lit "owlmux-target " ++ identity ++ ["010"%byte].

(** The argument vector [command_for_access] gives the OpenSSH client. *)
Definition command_for_access (access : ActiveAccess) (identity_path known_hosts_path : bytes)
    (port : Z) (remote_command : bytes) : list bytes :=
  [lit "-F"; lit "/dev/null"; lit "-oBatchMode=yes"; lit "-oIdentitiesOnly=yes";
   lit "-oIdentityAgent=none"; lit "-oPasswordAuthentication=no";
   lit "-oKbdInteractiveAuthentication=no"; lit "-oHostKeyAlgorithms=ssh-ed25519";
   lit "-oStrictHostKeyChecking=yes"; lit "-oUserKnownHostsFile=" ++ known_hosts_path;
   lit "-oGlobalKnownHostsFile=/dev/null"; lit "-oHostKeyAlias=owlmux-target";
   lit "-oRequestTTY=no"; lit "-oClearAllForwardings=yes"; lit "-oPermitLocalCommand=no";
   lit "-oConnectTimeout=10"; lit "-i"; identity_path; lit "-p"; dec port; lit "--";
   account access ++ lit "@127.0.0.1"; remote_command].

Definition command_for_host_discovery (known_hosts_path : bytes) (port : Z) : list bytes :=
  [lit "-F"; lit "/dev/null"; lit "-T"; lit "-oBatchMode=yes"; lit "-oIdentitiesOnly=yes";
   lit "-oIdentityAgent=none"; lit "-oPubkeyAuthentication=no";
   lit "-oPasswordAuthentication=no"; lit "-oKbdInteractiveAuthentication=no";
   lit "-oPreferredAuthentications=none"; lit "-oStrictHostKeyChecking=accept-new";
   lit "-oUserKnownHostsFile=" ++ known_hosts_path; lit "-oGlobalKnownHostsFile=/dev/null";
   lit "-oHostKeyAlias=owlmux-target"; lit "-oHashKnownHosts=no";
   lit "-oHostKeyAlgorithms=ssh-ed25519"; lit "-oUpdateHostKeys=no"; lit "-oRequestTTY=no";
   lit "-oClearAllForwardings=yes"; lit "-oPermitLocalCommand=no"; lit "-oConnectTimeout=10";
   lit "-p"; dec port; lit "--"; lit "owlmux-host-key-preflight-invalid@127.0.0.1";
   lit "false"].

(** The result of [discover_host_identity]'s child: the key file's bytes are
    read only after a clean, silent and unsuccessful exit. *)
Definition discovery_outcome `{SshKeys} (child : option ChildExit) (known_hosts : option bytes)
    : ssh HostIdentity :=
  match child with
  | None => Err SshProofFailed
  | Some e =>
      fail_if (negb (waited e)) SshProofFailed ;;
      fail_if (negb (stdout_ok e) || negb (stderr_ok e)
               || negb (bool_decide (stdout e = []))
               || (MAX_DIAGNOSTIC_BYTES <? zlen (limited 4097 (stderr e)))
               || success e) SshProofFailed ;;
      file ← ok_or SshCustody known_hosts;
      let file := limited 2049 file in
      fail_if (2048 <? zlen file) SshProofFailed ;;
      parse_known_host file
  end.

(** ** Bounded lines *)

(** What [fill_buf] yields next: data (empty at end of stream) or an error. *)
Inductive Fill : Type := Data (buffer : bytes) | FillError.

(** [iter().position(|b| b == '\n').map_or(len, |p| p + 1)]. *)
Fixpoint take_line (buffer : bytes) : nat :=
  match buffer with
  | [] => 0
  | c :: rest => if bool_decide (c = "010"%byte) then 1 else S (take_line rest)
  end.
Definition ends_line (buffer : bytes) : bool :=
  bool_decide (last buffer = Some "010"%byte).

(** [read_bounded_line_into]: the stream left, the pending bytes, the line.
    A buffer that is only partly consumed is offered again by [fill_buf]. *)
Fixpoint read_bounded_line_into (stream : list Fill) (pending : bytes) (max_bytes : Z)
    : list Fill * bytes * ssh bytes :=
  match stream with
  | [] => ([], pending, Err SshUnavailable)
  | FillError :: rest => (rest, pending, Err SshUnavailable)
  | Data buffer :: rest =>
      if bool_decide (buffer = []) then (stream, pending, Err SshUnavailable)
      else
        let n := take_line buffer in
        if max_bytes <? zlen pending + Z.of_nat n then (stream, pending, Err SshProofFailed)
        else
          let line := List.firstn n buffer in
          let unread := List.skipn n buffer in
          if ends_line line then
            (if bool_decide (unread = []) then rest else Data unread :: rest, [],
             Ok (pending ++ line))
          else read_bounded_line_into rest (pending ++ line) max_bytes
  end.

(** The guard of [ControlChild::send_command] before anything is written. *)
Definition valid_command (command : bytes) : bool :=
  (zlen command <=? 4096)
  && negb (existsb (fun c => bool_decide (c ∈ ["013"; "010"; "000"]%byte)) command).

(** ** Theorems: shell words *)

(** POSIX word reading, as far as literal words go: [None] where the shell
    would expand, quote with double quotes, or run out of input inside quotes. *)
Inductive Quoting : Type := Bare | Single | Escaped.
Definition ends_word (c : byte) : bool :=
  bool_decide (c ∈ [" "; "009"; "010"; ";"; "&"; "|"; "<"; ">"; "("; ")"]%byte).
Definition expands (c : byte) : bool :=
  bool_decide (c ∈ ["$"; "`"; "034"; "*"; "?"; "["; "~"; "#"; "="; "%"; "!"; "{"; "}"]%byte).
Fixpoint sh_word (q : Quoting) (v : bytes) : option (bytes * bytes) :=
  match v with
  | [] => match q with Bare => Some ([], []) | _ => None end
  | c :: v' =>
      match q with
      | Single => if bool_decide (c = "'"%byte) then sh_word Bare v'
                  else '(w, rest) ← sh_word Single v'; Some (c :: w, rest)
      | Escaped => '(w, rest) ← sh_word Bare v'; Some (c :: w, rest)
      | Bare => if bool_decide (c = "'"%byte) then sh_word Single v'
                else if bool_decide (c = "\"%byte) then sh_word Escaped v'
                else if ends_word c then Some ([], v)
                else if expands c then None
                else '(w, rest) ← sh_word Bare v'; Some (c :: w, rest)
      end
  end.

Definition word_boundary (rest : bytes) : bool :=
  match rest with [] => true | c :: _ => ends_word c end.

Lemma sh_word_boundary rest : word_boundary rest = true -> sh_word Bare rest = Some ([], rest).
Proof.
  destruct rest as [|c rest]; [done |]. cbn [word_boundary sh_word]. intros H.
  rewrite H. do 2 (case_bool_decide; [subst; by vm_compute in H |]). done.
Qed.

Lemma sh_word_quoted value rest :
  word_boundary rest = true ->
  sh_word Single (concat (map quote_byte value) ++ ["'"%byte] ++ rest) = Some (value, rest).
Proof.
  intros Hr. induction value as [|c value IH]; cbn [map concat].
  - cbn. by apply sh_word_boundary.
  - unfold quote_byte at 1. rewrite <- app_assoc.
    case_bool_decide as Hc.
    + subst. cbn. cbn in IH. by rewrite IH.
    + cbn [app sh_word]. rewrite bool_decide_false by done. cbn [app] in IH. by rewrite IH.
Qed.

(** A quoted value is one shell word and nothing else: whatever the
    configured path, socket, session or name contains, the shell that runs
    the remote command reads [shell_literal]'s text, followed by a blank or
    an operator, as the single word with exactly those bytes; the only values
    refused are the empty one and those with a NUL byte. *)
Theorem shell_literal_is_one_word (value rest : bytes)
    (Hr : word_boundary rest = true) :
  match shell_literal value with
  | Ok w => value <> [] /\ ("000"%byte ∉ value) /\ sh_word Bare (w ++ rest) = Some (value, rest)
  | Err e => e = SshInvalidState /\ (value = [] \/ ("000"%byte ∈ value))
  end.
Proof.
  unfold shell_literal. do 2 case_bool_decide; cbn [orb]; try (split; [done | by auto]).
  split; [done |]. split; [done |].
  rewrite <- !app_assoc. change (["'"%byte] ++ ?v) with ("'"%byte :: v).
  cbn [sh_word]. rewrite bool_decide_true by done. by apply sh_word_quoted.
Qed.

Lemma shell_literal_is_one_word_witness :
  sh_word Bare ((["'"%byte] ++ concat (map quote_byte (lit "a'; rm -rf $HOME")) ++ ["'"%byte])
                ++ lit " -V") = Some (lit "a'; rm -rf $HOME", lit " -V").
Proof.
  apply (shell_literal_is_one_word (lit "a'; rm -rf $HOME") (lit " -V")). reflexivity.
Defined.

(** ** Theorems: bounded lines *)

Definition stream_bytes (s : list Fill) : bytes :=
  concat (map (fun f => match f with Data b => b | FillError => [] end) s).
Definition live (s : list Fill) : Prop :=
  Forall (fun f => match f with Data b => b <> [] | FillError => False end) s.

Lemma take_line_no_newline b :
  "010"%byte ∉ b -> take_line b = length b.
Proof.
  induction b as [|c b IH]; intros H; [done |]. apply not_elem_of_cons in H as [Hc Hb].
  cbn. rewrite bool_decide_false by congruence. by rewrite IH.
Qed.

Lemma take_line_newline a b :
  "010"%byte ∉ a -> take_line (a ++ "010"%byte :: b) = S (length a).
Proof.
  induction a as [|c a IH]; intros H; cbn.
  - by rewrite bool_decide_true.
  - apply not_elem_of_cons in H as [Hc Ha]. rewrite bool_decide_false by congruence.
    by rewrite IH.
Qed.

(** A buffer either holds no newline or splits at its first one. *)
Lemma newline_cases (b : bytes) :
  "010"%byte ∉ b \/ exists a r, b = a ++ "010"%byte :: r /\ "010"%byte ∉ a.
Proof.
  destruct (decide ("010"%byte ∈ b)) as [H | H]; [right | by left].
  apply list_elem_of_split_l in H as (a & r & -> & Ha). eauto.
Qed.

Lemma ends_line_app a : ends_line (a ++ ["010"%byte]) = true.
Proof. unfold ends_line. by rewrite last_snoc, bool_decide_true. Qed.

Lemma ends_line_no_newline a : "010"%byte ∉ a -> ends_line a = false.
Proof.
  intros H. unfold ends_line. apply bool_decide_false. intros Hl.
  apply last_Some in Hl as [l ->]. apply H, elem_of_app. right. by left.
Qed.

Lemma first_line_app (a b a' b' : bytes) :
  "010"%byte ∉ a -> "010"%byte ∉ a' ->
  a ++ "010"%byte :: b = a' ++ "010"%byte :: b' -> a = a' /\ b = b'.
Proof.
  revert a'; induction a as [|x a IH]; intros [|y a'] Ha Ha' H; cbn in H.
  - by injection H.
  - injection H as Hx H. exfalso. apply Ha'. rewrite <- Hx. by left.
  - injection H as Hx H. exfalso. apply Ha. rewrite Hx. by left.
  - injection H as -> H. destruct (IH a') as [-> ->]; [set_solver .. | done].
Qed.

(** One buffer of the read. *)
Lemma read_step_partial b rest p max :
  b <> [] -> "010"%byte ∉ b -> zlen p + zlen b <= max ->
  read_bounded_line_into (Data b :: rest) p max = read_bounded_line_into rest (p ++ b) max.
Proof.
  intros Hb Hn Hm. cbn [read_bounded_line_into]. rewrite bool_decide_false by done.
  rewrite take_line_no_newline by done. fold (zlen b).
  rewrite (proj2 (Z.ltb_ge _ _)) by done. rewrite firstn_all.
  by rewrite ends_line_no_newline.
Qed.

Lemma read_step_line a r rest p max :
  "010"%byte ∉ a -> zlen p + zlen a + 1 <= max ->
  read_bounded_line_into (Data (a ++ "010"%byte :: r) :: rest) p max
  = (if bool_decide (r = []) then rest else Data r :: rest, [], Ok (p ++ a ++ ["010"%byte])).
Proof.
  intros Ha Hm. cbn [read_bounded_line_into].
  rewrite bool_decide_false by (by destruct a). rewrite take_line_newline by done.
  rewrite (proj2 (Z.ltb_ge _ _)) by (unfold zlen in *; lia).
  assert (a ++ "010"%byte :: r = (a ++ ["010"%byte]) ++ r) as -> by (by rewrite <- app_assoc).
  assert (S (length a) = length (a ++ ["010"%byte])) as -> by (rewrite length_app; cbn; lia).
  rewrite firstn_app, firstn_all, Nat.sub_diag, firstn_O, app_nil_r.
  rewrite skipn_app, skipn_all, Nat.sub_diag. cbn [app]. rewrite skipn_O.
  by rewrite ends_line_app.
Qed.

Lemma read_step_long b rest p max :
  b <> [] -> max < zlen p + Z.of_nat (take_line b) ->
  read_bounded_line_into (Data b :: rest) p max = (Data b :: rest, p, Err SshProofFailed).
Proof.
  intros Hb Hm. cbn [read_bounded_line_into]. rewrite bool_decide_false by done.
  by rewrite (proj2 (Z.ltb_lt _ _)).
Qed.

(** The line transport does not depend on how the stream is cut into
    reads, nor on being cancelled between them (the pending bytes are the
    state): when the bytes to come start with [line] and a newline, and with
    what is pending they fit the bound, the call returns exactly
    pending + line + newline, leaves exactly the bytes after it and empties
    the pending buffer; when they do not fit, it fails closed. *)
Theorem read_bounded_line_exact (s : list Fill) (pending line rest : bytes) (max : Z)
    (Hlive : live s) (Hline : "010"%byte ∉ line)
    (Hs : stream_bytes s = line ++ "010"%byte :: rest) :
  if zlen pending + zlen line + 1 <=? max
  then exists s', read_bounded_line_into s pending max
                  = (s', [], Ok (pending ++ line ++ ["010"%byte]))
                  /\ stream_bytes s' = rest /\ live s'
  else snd (read_bounded_line_into s pending max) = Err SshProofFailed.
Proof.
  revert pending line Hline Hs; induction Hlive as [|f s Hf Hlive IH]; intros pending line Hline Hs.
  { by destruct line. }
  destruct f as [b|]; [| done]. change (stream_bytes (Data b :: s)) with (b ++ stream_bytes s) in Hs.
  destruct (newline_cases b) as [Hn | (a & r & -> & Ha)].
  - assert (exists line', line = b ++ line' /\ stream_bytes s = line' ++ "010"%byte :: rest)
      as (line' & -> & Hs').
    { apply app_eq_app in Hs as (k & [[-> Hk] | [-> Hk]]); [| by exists k].
      destruct k as [|x k].
      - exists []. rewrite app_nil_r in Hn |- *. by rewrite app_nil_r.
      - injection Hk as <- Hk. set_solver. }
    specialize (IH (pending ++ b) line' ltac:(set_solver) Hs'). rewrite !zlen_app in *.
    replace (zlen pending + zlen b + zlen line' + 1)
      with (zlen pending + (zlen b + zlen line') + 1) in IH by lia.
    destruct (Z.leb_spec (zlen pending + zlen b) max) as [Hle | Hgt].
    + rewrite read_step_partial by done. rewrite <- !app_assoc in IH.
      by rewrite <- !app_assoc.
    + pose proof (zlen_nonneg line'). rewrite (proj2 (Z.leb_gt _ _)) by lia.
      rewrite read_step_long; [done | done |]. rewrite take_line_no_newline by done.
      unfold zlen in *. lia.
  - rewrite <- app_assoc in Hs. cbn [app] in Hs.
    apply first_line_app in Hs as [<- <-]; [| done | done].
    destruct (Z.leb_spec (zlen pending + zlen a + 1) max) as [Hle | Hgt].
    + rewrite read_step_line by done. eexists. split; [reflexivity |].
      case_bool_decide; subst; split; try done. by constructor.
    + rewrite read_step_long; [done | by destruct a |].
      rewrite take_line_newline by done. unfold zlen in *. lia.
Qed.

Lemma read_bounded_line_exact_witness :
  snd (read_bounded_line_into
         [Data (lit "be"); Data (lit "gin" ++ ["010"%byte] ++ lit "x")] (lit "%") 7)
  = Ok (lit "%begin" ++ ["010"%byte]).
Proof.
  destruct (read_bounded_line_exact
    [Data (lit "be"); Data (lit "gin" ++ ["010"%byte] ++ lit "x")] (lit "%") (lit "begin")
    (lit "x") 7) as (s' & H & _); [repeat constructor; discriminate | | reflexivity |].
  - intros Hc. by vm_compute in Hc; repeat (apply elem_of_cons in Hc as [Hc|Hc]; [discriminate Hc |]); apply not_elem_of_nil in Hc.
  - rewrite H. reflexivity.
Defined.

(** ** Theorems: scavenging the runtime root *)

(** [n] is found at path [q] below [m], through real directories. *)
Fixpoint below (m : Node) (q : list bytes) (n : Node) : Prop :=
  match q with
  | [] => m = n
  | x :: q' => kind (node_meta m) = Directory
               /\ exists c, (x, c) ∈ node_children m /\ below c q' n
  end.
Definition at_path (entries : list (bytes * Node)) (q : list bytes) (n : Node) : Prop :=
  match q with [] => False | x :: q' => exists m, (x, m) ∈ entries /\ below m q' n end.

Section scavenging.
Context `{UuidText}.
Variables (unlinks : bytes -> bool) (owner : Z).

Definition owned_directory (m : Metadata) : Prop := validate_directory m owner = Ok tt.
Definition owned_file (m : Metadata) : Prop := validate_regular_file m owner = Ok tt.
Definition scoped (name prefix : bytes) : Prop := validate_scoped_name name prefix = Ok tt.

(** The only file a child directory may lose. *)
Definition child_loss (c : bytes) (m : Node) (q : list bytes) (n : Node) : Prop :=
  scoped c (lit "child-") /\ owned_directory (node_meta m)
  /\ exists f, q = [f] /\ (f = lit "identity" \/ f = lit "known_hosts")
  /\ owned_file (node_meta n).
Definition instance_loss (i : bytes) (m : Node) (q : list bytes) (n : Node) : Prop :=
  scoped i (lit "instance-") /\ owned_directory (node_meta m)
  /\ exists c cm q', q = c :: q' /\ (c, cm) ∈ node_children m /\ child_loss c cm q' n.

Lemma unit_Ok {E} (r : result E unit) : is_ok r = true -> r = Ok tt.
Proof. by destruct r as [[]|]. Qed.

Lemma remove_child_files_loss l f n :
  (f, n) ∈ l -> (f, n) ∈ fst (remove_child_files unlinks l owner)
  \/ ((f = lit "identity" \/ f = lit "known_hosts") /\ owned_file (node_meta n)).
Proof.
  induction l as [|[x m] l IH]; intros Hin; [by apply not_elem_of_nil in Hin |].
  cbn [remove_child_files]. destruct (negb _ && negb _) eqn:Hname; [by left |].
  destruct (validate_regular_file _ _) as [[]|] eqn:Hv; [| by left].
  destruct (unlinks x); [| by left].
  apply elem_of_cons in Hin as [[= -> ->] | Hin]; [right | by apply IH].
  split; [| done]. apply andb_false_iff in Hname as [Hx | Hx]; split_bools; auto.
Qed.

Lemma remove_child_files_Ok l : snd (remove_child_files unlinks l owner) = Ok tt ->
  fst (remove_child_files unlinks l owner) = [].
Proof.
  induction l as [|[x m] l IH]; cbn [remove_child_files]; [done |].
  repeat case_match; cbn; try done; by apply IH.
Qed.

Lemma cleanup_child_loss x m q n :
  scoped x (lit "child-") -> kind (node_meta n) <> Directory -> below m q n ->
  (exists m', fst (cleanup_child_directory unlinks x m owner) = Some m' /\ below m' q n)
  \/ child_loss x m q n.
Proof.
  intros Hx Hn Hb. unfold cleanup_child_directory.
  destruct (validate_directory (node_meta m) owner) as [[]|] eqn:Hv; [| by eauto].
  assert (kind (node_meta m) = Directory) as Hk.
  { unfold validate_directory in Hv. by inv_ok; split_bools. }
  destruct q as [|f q]; [cbn in Hb; by subst |]. destruct Hb as (_ & c & Hc & Hb).
  pose proof (remove_child_files_loss _ _ _ Hc) as Hl.
  pose proof (remove_child_files_Ok (node_children m)) as Hok.
  destruct (remove_child_files _ _ _) as [remaining r]. cbn [fst snd] in *.
  destruct Hl as [Hl | [Hf Ho]].
  - destruct r as [[]|]; [by rewrite Hok in Hl by done; apply not_elem_of_nil in Hl |].
    left. eexists. split; [reflexivity |]. cbn. eauto.
  - destruct q as [|g q].
    + right. split; [done |]. split; [done |]. cbn in Hb. subst. eauto.
    + exfalso. destruct Hb as [Hd _]. unfold owned_file, validate_regular_file in Ho.
      inv_ok. split_bools. congruence.
Qed.

Lemma sweep_loss body entries (L : bytes -> Node -> list bytes -> Node -> Prop) n :
  (forall x m q, (x, m) ∈ entries -> below m q n ->
     (exists m', fst (body x m) = Some m' /\ below m' q n) \/ L x m q n) ->
  forall x m q, (x, m) ∈ entries -> below m q n ->
    (exists m', (x, m') ∈ fst (sweep body entries) /\ below m' q n)
    \/ (exists m, (x, m) ∈ entries /\ L x m q n).
Proof.
  intros Hbody. induction entries as [|[y k] entries IH]; intros x m q Hin Hb;
    [by apply not_elem_of_nil in Hin |].
  cbn [sweep]. apply elem_of_cons in Hin as [[= <- <-] | Hin].
  - destruct (Hbody x m q ltac:(left) Hb) as [(m' & Hm' & Hb') | HL]; [| right; exists m; split; [by left | done]].
    left. exists m'. destruct (body x m) as [o r]. cbn in Hm'. subst o.
    destruct r as [u|e]; [destruct (sweep body entries) |]; cbn; split; try done; by left.
  - specialize (IH ltac:(intros; apply Hbody; [by right | done]) x m q Hin Hb).
    destruct (body y k) as [o r].
    destruct r as [u|e].
    + destruct (sweep body entries) as [rest' r']. cbn [fst] in *.
      destruct IH as [(m' & Hm' & Hb') | (m' & Hm' & HL)].
      * left. exists m'. split; [| done]. apply elem_of_app. by right.
      * right. exists m'. split; [by right | done].
    + left. exists m. split; [| done]. cbn. apply elem_of_app. by right.
Qed.

Lemma sweep_Ok body entries :
  snd (sweep body entries) = Ok tt ->
  (forall x m, (x, m) ∈ entries -> is_ok (snd (body x m)) = true)
  /\ fst (sweep body entries)
     = omap (fun '(x, m) => m' ← fst (body x m); Some (x, m')) entries.
Proof.
  induction entries as [|[y k] entries IH]; intros Hs.
  - split; [intros x m Hin; by apply not_elem_of_nil in Hin | done].
  - cbn [sweep] in *. destruct (body y k) as [o r] eqn:Hb. destruct r as [u|e]; [| done].
    destruct (sweep body entries) as [rest' r']. cbn [fst snd] in *.
    destruct (IH Hs) as [H1 H2]. split.
    + intros x m [[= -> ->] | Hin]%elem_of_cons; [by rewrite Hb | by apply H1].
    + cbn. rewrite Hb. cbn. rewrite H2. by destruct o.
Qed.

Lemma cleanup_child_Ok x m :
  is_ok (snd (cleanup_child_directory unlinks x m owner)) = true ->
  fst (cleanup_child_directory unlinks x m owner) = None.
Proof. unfold cleanup_child_directory. by repeat case_match. Qed.

Lemma cleanup_instance_entry_Ok x m :
  is_ok (snd (cleanup_instance_entry unlinks owner x m)) = true ->
  fst (cleanup_instance_entry unlinks owner x m) = None.
Proof. unfold cleanup_instance_entry. case_match; [apply cleanup_child_Ok | done]. Qed.

(** A sweep that succeeds with a body that removes what it accepts leaves
    nothing. *)
Lemma sweep_empty body entries :
  (forall x m, is_ok (snd (body x m)) = true -> fst (body x m) = None) ->
  is_ok (snd (sweep body entries)) = true -> fst (sweep body entries) = [].
Proof.
  intros Hbody Hs%unit_Ok. apply sweep_Ok in Hs as [H1 ->].
  induction entries as [|[x m] entries IH]; [done |]. cbn.
  rewrite Hbody by (apply H1; by left). cbn. apply IH. intros y k Hy. apply H1. by right.
Qed.

Lemma scoped_entry (name prefix : bytes) u :
  (n ← ok_or SshCustody (from_utf8 name); validate_scoped_name n prefix) = Ok u ->
  scoped name prefix.
Proof.
  intros (w & Hw%ok_or_Ok & Hv)%bind_Ok. destruct u. by apply from_utf8_Some in Hw as ->.
Qed.

Lemma cleanup_instance_loss x m q n :
  scoped x (lit "instance-") -> kind (node_meta n) <> Directory -> below m q n ->
  (exists m', fst (cleanup_instance_directory unlinks x m owner) = Some m' /\ below m' q n)
  \/ instance_loss x m q n.
Proof.
  intros Hx Hn Hb. unfold cleanup_instance_directory.
  destruct (validate_directory (node_meta m) owner) as [[]|] eqn:Hv; [| by eauto].
  assert (kind (node_meta m) = Directory) as Hk.
  { unfold validate_directory in Hv. by inv_ok; split_bools. }
  destruct q as [|c q]; [cbn in Hb; by subst |]. destruct Hb as (_ & cm & Hc & Hb).
  edestruct (sweep_loss (cleanup_instance_entry unlinks owner) (node_children m) child_loss n)
    as [(m' & Hm' & Hb') | (m' & Hm' & HL)]; [| exact Hc | exact Hb | |].
  - intros y k q' Hy Hk'. unfold cleanup_instance_entry.
    destruct (n' ← ok_or SshCustody (from_utf8 y); validate_scoped_name n' (lit "child-"))
      eqn:Hscope; [| by left; eauto].
    apply cleanup_child_loss; [by eapply scoped_entry | done | done].
  - left. pose proof (sweep_empty _ (node_children m) cleanup_instance_entry_Ok) as He.
    destruct (sweep _ _) as [remaining [u|e]]; cbn [fst snd] in *.
    + rewrite He in Hm' by done. by apply not_elem_of_nil in Hm'.
    + eexists. split; [reflexivity |]. cbn. eauto.
  - right. split; [done |]. split; [done |]. eauto 10.
Qed.

(** Scavenging the node-local root destroys only this service's own
    leavings: any file that is gone afterwards was [identity] or
    [known_hosts] in a [child-<uuid>] directory of an [instance-<uuid>]
    directory, both directories private (0700) to the root's owner and the
    file a regular, singly linked 0600 file of the same owner - links, foreign
    files and unknown names survive and make the scavenge fail closed; when
    it succeeds, only [.lock] entries are left. *)
Theorem scavenge_removes_only_own_files (entries : list (bytes * Node)) :
  let result := scavenge_runtime_root unlinks entries owner in
  (forall q n, kind (node_meta n) <> Directory -> at_path entries q n ->
     at_path (fst result) q n
     \/ exists i c f im cm, q = [i; c; f] /\ (i, im) ∈ entries /\ (c, cm) ∈ node_children im
        /\ (f = lit "identity" \/ f = lit "known_hosts")
        /\ scoped i (lit "instance-") /\ scoped c (lit "child-")
        /\ owned_directory (node_meta im) /\ owned_directory (node_meta cm)
        /\ owned_file (node_meta n))
  /\ (snd result = Ok tt -> Forall (fun '(x, _) => x = lit ".lock") (fst result)).
Proof.
  cbn zeta. unfold scavenge_runtime_root. split.
  - intros [|x q] n Hn; [done |]. intros (m & Hm & Hb).
    edestruct (sweep_loss (scavenge_entry unlinks owner) entries instance_loss n)
      as [Hkeep | (m' & Hm' & HL)]; [| exact Hm | exact Hb | by left |].
    + intros y k q' Hy Hk. unfold scavenge_entry.
      case_bool_decide; [by left; eauto |].
      destruct (n' ← ok_or SshCustody (from_utf8 y); validate_scoped_name n' (lit "instance-"))
        eqn:Hscope; [| by left; eauto].
      apply cleanup_instance_loss; [by eapply scoped_entry | done | done].
    + right. destruct HL as (Hi & Hid & c & cm & q' & -> & Hc & Hcs & Hcd & f & -> & Hf & Ho).
      exists x, c, f, m', cm. auto 10.
  - intros Hs. apply sweep_Ok in Hs as [Hok ->]. apply Forall_forall. intros [x k] Hin.
    apply list_elem_of_omap in Hin as ([y m] & Hy & Hk).
    specialize (Hok y m Hy). unfold scavenge_entry in *.
    case_bool_decide; [by injection Hk as <- _ |].
    destruct (n' ← ok_or SshCustody (from_utf8 y); validate_scoped_name n' (lit "instance-"));
      [| done].
    unfold cleanup_instance_directory in *. by repeat case_match.
Qed.
End scavenging.

(** Decimal numbers as a text form of identifiers. *)
Definition dec_uuid : UuidText := {| uuid_parse := parse_u64; uuid_print := dec |}.

Definition private_dir : Metadata := {| kind := Directory; uid := 7; nlink := 2; mode := 448 |}.
Definition private_file : Metadata := {| kind := Regular; uid := 7; nlink := 1; mode := 384 |}.
Definition sample_root : list (bytes * Node) :=
  [(lit ".lock", Entry private_file []);
   (lit "instance-5", Entry private_dir
      [(lit "child-9", Entry private_dir [(lit "identity", Entry private_file [])])])].

Lemma scavenge_removes_only_own_files_witness :
  snd (@scavenge_runtime_root dec_uuid (fun _ => true) sample_root 7) = Ok tt
  /\ Forall (fun '(x, _) => x = lit ".lock")
       (fst (@scavenge_runtime_root dec_uuid (fun _ => true) sample_root 7)).
Proof.
  assert (snd (@scavenge_runtime_root dec_uuid (fun _ => true) sample_root 7) = Ok tt) as H
    by (vm_compute; reflexivity).
  split; [exact H |].
  exact (proj2 (@scavenge_removes_only_own_files dec_uuid (fun _ => true) 7 sample_root) H).
Defined.

(** ** Theorems: proofs, probes and created sessions *)

(** Creating a session is reported honestly: [Failed] only when the
    remote script exited with the code it reserves for "not created" and its
    output was read within bounds; [Succeeded] only after a clean exit that
    printed one well-formed session identity and after the identity file was
    unlinked; a timeout, a signal, a read error, oversized or malformed output
    all stay [Ambiguous], so no caller may take them for "nothing happened". *)
Theorem create_outcome_honest (child : option ChildExit) :
  (create_outcome child = Failed -> exists e, child = Some e /\ exit_code e = Some 46
     /\ waited e = true /\ stdout_ok e = true /\ stderr_ok e = true)
  /\ (create_outcome child = Succeeded -> exists e id created n,
        child = Some e /\ exit_code e = Some 0 /\ identity_removed e = true
        /\ stdout e = CREATE_MARKER ++ id ++ lit ":" ++ created ++ ["010"%byte]
        /\ is_tmux_session_id id = true /\ parse_i64 created = Some n /\ 0 < n)
  /\ (child = None -> create_outcome child = Ambiguous).
Proof.
  unfold create_outcome. destruct child as [e|]; [| done].
  destruct (waited e) eqn:Hw; cbn [negb]; [| done].
  destruct (stdout_ok e) eqn:Hso; cbn [negb orb]; [| done].
  destruct (stderr_ok e) eqn:Hse; cbn [negb orb]; [| done].
  destruct (Z.ltb_spec MAX_DIAGNOSTIC_BYTES (zlen (limited 4097 (stdout e)))) as [|Hout];
    cbn [orb]; [done |].
  assert (limited 4097 (stdout e) = stdout e) as Hall.
  { unfold limited in *. apply firstn_all2. unfold zlen, MAX_DIAGNOSTIC_BYTES in Hout.
    rewrite length_firstn in Hout. lia. }
  rewrite Hall. destruct (_ <? _); [done |]. unfold success.
  case_bool_decide as Hexit; cbn [negb].
  2:{ case_bool_decide as H46; [| done]. split; [| done]. intros _. by exists e. }
  split; [| split; [| done]].
  - intros Hf. by repeat case_match.
  - intros Hc. destruct (from_utf8 (stdout e)) as [o|] eqn:Ho; [| done].
    apply from_utf8_Some in Ho as ->.
    destruct (_ ≫= _) as [v|] eqn:Hv; [| done].
    destruct (split_once ":"%byte v) as [[id created]|] eqn:Hsp; [| done].
    destruct (parse_i64 created) as [n|] eqn:Hn; [| done].
    destruct (negb (is_tmux_session_id id) || (n <=? 0)) eqn:Hg; [done |].
    destruct (identity_removed e) eqn:Hi; [| done]. split_bools.
    apply bind_Some in Hv as (w & Hw1%strip_prefix_Some & Hw2%strip_suffix_byte_Some).
    apply split_once_Some in Hsp as [-> _]. subst w.
    exists e, id, created, n. repeat split; try done; try lia.
    rewrite Hw1. by rewrite <- !app_assoc.
Qed.

Lemma create_outcome_honest_witness :
  exists e, create_outcome (Some e) = Succeeded /\ identity_removed e = true.
Proof.
  pose (e := {| waited := true; exit_code := Some 0;
    stdout := CREATE_MARKER ++ lit "$3:1700000000" ++ ["010"%byte]; stdout_ok := true;
    stderr := []; stderr_ok := true; identity_removed := true |}).
  exists e. assert (create_outcome (Some e) = Succeeded) as H by (vm_compute; reflexivity).
  split; [exact H |].
  destruct (proj1 (proj2 (create_outcome_honest (Some e))) H) as (e' & _ & _ & _ & He & _ & Hi & _).
  injection He as <-. exact Hi.
Defined.
