(* ===== verification/TmuxGrammar.v ===== *)
(** * TmuxGrammar: the closed grammar of tmux's control output

    Models the pure half of [crates/owlmux-server/src/tmux.rs]: identifier
    and number grammars, version gate, control-mode markers and escapes, pane
    geometry rows, the session probe, and the rendering of input and of pane
    snapshots.  Every parser returns [result TmuxError]; nothing here reads a
    stream (see [TmuxControl]). *)

From S2P Require Import Prelude Text Contracts.

Inductive TmuxError : Type :=
| TmuxSsh (e : SshError)
| Incompatible | TooManySessions | TooManyPanes | ProjectionTooLarge
| Protocol | Target | Changed | Deadline.
Global Instance TmuxError_eq_dec : EqDecision TmuxError.
Proof. solve_decision. Defined.

Abbreviation tmux := (result TmuxError).

Definition PROBE_CLIENT_PREFIX : bytes := lit "__OWLMUX_TMUX_CLIENT_V1__" ++ ["009"%byte].
Definition PROBE_SERVER_PREFIX : bytes := lit "__OWLMUX_TMUX_SERVER_V1__" ++ ["009"%byte].
Definition MAX_SESSIONS : Z := 128.
Definition MAX_WINDOWS : Z := 128.
Definition MAX_RESPONSE_BYTES : Z := ATTACHMENT_MAX_PROJECTION_BYTES.
Definition MAX_PANE_METADATA_BYTES : Z := 1024.
Definition MAX_QUEUED_EVENTS : Z := 256.
Definition MAX_QUEUED_OUTPUT_BYTES : Z := 512 * 1024.
Definition MAX_TEXT_BYTES : Z := 256.
Definition MAX_LAYOUT_BYTES : Z := 4096.
Definition MAX_HYDRATION_ATTEMPTS : nat := 3.
Definition MAX_RESPONSE_RECORDS : Z := 16384.
Definition MAX_RESPONSE_WIRE_BYTES : Z := 8 * 1024 * 1024.
Definition KNOWN_BAD_VERSIONS : list bytes := [].

(** ** Identifiers *)

Definition is_numeric_id (prefix : byte) (value : bytes) : bool :=
  match strip_prefix [prefix] value with
  | Some digits =>
      negb (bool_decide (digits = [])) && (zlen digits <=? 30)
      && forallb is_ascii_digit digits
  | None => false
  end.
Definition is_session_id : bytes -> bool := is_numeric_id "$"%byte.
Definition is_window_id : bytes -> bool := is_numeric_id "@"%byte.
Definition is_pane_id : bytes -> bool := is_numeric_id "%"%byte.

(** ** Numbers *)

Definition parse_positive_i64 (value : bytes) : tmux Z :=
  n ← ok_or Protocol (parse_i64 value);
  if n <=? 0 then Err Protocol else Ok n.

Definition parse_count (value : bytes) : tmux Z :=
  n ← ok_or Protocol (parse_u32 value);
  if 10000 <? n then Err Protocol else Ok n.

Definition parse_dimension (value : bytes) : tmux Z :=
  n ← ok_or Protocol (parse_u32 value);
  if (n =? 0) || (ATTACHMENT_MAX_DIMENSION <? n) then Err Protocol else Ok n.

Definition parse_coordinate (value : bytes) : tmux Z :=
  n ← ok_or Protocol (parse_u32 value);
  if ATTACHMENT_MAX_DIMENSION <=? n then Err Protocol else Ok n.

(** The product is taken in [u64], where two [u32] factors cannot overflow. *)
Definition valid_grid (width height : Z) : bool :=
  (0 <? width) && (width <=? ATTACHMENT_MAX_DIMENSION)
  && (0 <? height) && (height <=? ATTACHMENT_MAX_DIMENSION)
  && (width * height <=? ATTACHMENT_MAX_GRID_CELLS).

Definition parse_coordinate_with_bound (value : bytes) (exclusive_bound : Z) : tmux Z :=
  n ← parse_coordinate value;
  if exclusive_bound <=? n then Err Protocol else Ok n.

(** ** Versions *)

(** [(major, minor, patch)]; the patch letter is its byte value. *)
Definition parse_version_release (release : bytes) : tmux (Z * Z * option Z) :=
  '(major, minor_and_patch) ← ok_or Incompatible (split_once "."%byte release);
  if bool_decide (major = []) || negb (forallb is_ascii_digit major) then Err Incompatible
  else
    let minor := fst (span_digits minor_and_patch) in
    let patch := snd (span_digits minor_and_patch) in
    if bool_decide (minor = []) then Err Incompatible
    else
      p ← match patch with
          | [] => Ok None
          | [c] => if is_ascii_lowercase c then Ok (Some (bval c)) else Err Incompatible
          | _ => Err Incompatible
          end;
      M ← ok_or Incompatible (parse_u32 major);
      m ← ok_or Incompatible (parse_u32 minor);
      Ok (M, m, p).

Definition validate_version (value : bytes) : tmux unit :=
  release ← ok_or Incompatible (strip_prefix (lit "tmux ") value);
  if bool_decide (release ∈ KNOWN_BAD_VERSIONS) then Err Incompatible
  else
    '(major, minor, patch) ← parse_version_release release;
    if ((major <? 3) || ((major =? 3) && (minor <? 2)))
       || ((major =? 3) && (minor =? 2) && bool_decide (patch = None))
    then Err Incompatible else Ok tt.

(** ** Control-mode records *)

(** The three numbers of a [%begin]/[%end]/[%error] record, [None] when the
    line is not such a record. *)
Definition parse_marker (line prefix : bytes) : tmux (option (Z * Z * Z)) :=
  match strip_prefix prefix line with
  | None => Ok None
  | Some value =>
      let value := trim_one "010"%byte value in
      value ← ok_or Protocol (from_utf8 value);
      match split_whitespace value with
      | [f0; f1; f2] =>
          a ← ok_or Protocol (parse_u64 f0);
          b ← ok_or Protocol (parse_u64 f1);
          c ← ok_or Protocol (parse_u64 f2);
          Ok (Some (a, b, c))
      | _ => Err Protocol
      end
  end.

Definition split_once_space (value : bytes) : tmux (bytes * bytes) :=
  ok_or Protocol (split_once " "%byte value).

Definition is_refresh_notification (line : bytes) : bool :=
  bool_decide (line = lit "%sessions-changed")
  || existsb (fun p => starts_with (lit p) line)
       ["%layout-change "; "%pane-mode-changed "; "%session-changed ";
        "%session-renamed "; "%session-window-changed "; "%subscription-changed ";
        "%window-add "; "%window-close "; "%window-pane-changed "; "%window-renamed "]%string.

Definition is_ignorable_notification (line : bytes) : bool :=
  existsb (fun p => starts_with (lit p) line)
    ["%client-active "; "%client-detached "; "%client-session-changed ";
     "%client-window-changed "; "%message "; "%paste-buffer-changed ";
     "%paste-buffer-deleted "; "%unlinked-window-add "; "%unlinked-window-close ";
     "%unlinked-window-renamed "]%string.

Definition command_payload (line : bytes) : bytes := trim_one "010"%byte line.

Definition single_line (rows : list bytes) : tmux bytes :=
  match rows with
  | [l] => ok_or Protocol (from_utf8 l)
  | _ => Err Protocol
  end.

Definition safe_text (rows : list bytes) (max_bytes : Z) : tmux bytes :=
  value ← single_line rows;
  if (max_bytes <? zlen value) || chars_any is_control value then Err Protocol else Ok value.

(** ** Control escapes *)

Definition is_octal (c : byte) : bool := in_range 48 55 (bval c).

(** [(a - b'0') * 64 + (b - b'0') * 8 + (c - b'0')] in [u8]: every operation
    wraps at 256, as the release profile compiles it (the development profile
    panics where the product leaves the range). *)
Definition octal_byte (a b c : byte) : byte :=
  byte_of (((digit_val a * 64) mod 256 + (digit_val b * 8) mod 256) mod 256 + digit_val c).

Fixpoint decode_escaped (value : bytes) : tmux bytes :=
  match value with
  | [] => Ok []
  | c :: rest =>
      if negb (bool_decide (c = "\"%byte)) then
        decoded ← decode_escaped rest; Ok (c :: decoded)
      else
        match rest with
        | [] => Err Protocol
        | c1 :: rest1 =>
            if bool_decide (c1 = "\"%byte) then
              decoded ← decode_escaped rest1; Ok ("\"%byte :: decoded)
            else
              match rest1 with
              | c2 :: c3 :: rest3 =>
                  if is_octal c1 && is_octal c2 && is_octal c3 then
                    decoded ← decode_escaped rest3; Ok (octal_byte c1 c2 c3 :: decoded)
                  else Err Protocol
              | _ => Err Protocol
              end
        end
  end.

(** ** Input rendering *)

Definition render_literal_input (pane_id data : bytes) : tmux bytes :=
  if negb (is_pane_id pane_id) || bool_decide (data = [])
     || (ATTACHMENT_MAX_INPUT_BYTES <? zlen data)
  then Err Protocol
  else Ok (lit "send-keys -t " ++ pane_id ++ lit " -H"
           ++ concat (map (fun c => " "%byte :: hex02 c) data)).

(** ** Panes *)

Record WindowSummary : Type := { ws_window_id : bytes; ws_name : bytes; ws_active : bool }.

Record WindowProjection : Type := {
  window_id : bytes; window_name : bytes; window_width : Z; window_height : Z;
  layout : bytes;
}.
Global Instance WindowProjection_eq_dec : EqDecision WindowProjection.
Proof. solve_decision. Defined.

Record PaneTerminalState : Type := {
  cursor_x : Z; cursor_y : Z; modes : Z; scroll_upper : Z; scroll_lower : Z;
}.

Record PaneProjection : Type := {
  pane_id : bytes; active : bool; width : Z; height : Z; left : Z; top : Z;
  title : bytes; current_command : bytes; terminal : PaneTerminalState;
}.

Definition MODE_ALTERNATE : Z := Z.shiftl 1 0.
Definition MODE_CURSOR_VISIBLE : Z := Z.shiftl 1 1.
Definition MODE_INSERT : Z := Z.shiftl 1 2.
Definition MODE_APPLICATION_CURSOR : Z := Z.shiftl 1 3.
Definition MODE_APPLICATION_KEYPAD : Z := Z.shiftl 1 4.
Definition MODE_ORIGIN : Z := Z.shiftl 1 5.
Definition MODE_WRAP : Z := Z.shiftl 1 6.

Definition has_mode (t : PaneTerminalState) (mode : Z) : bool :=
  negb (Z.land (modes t) mode =? 0).

Fixpoint parse_modes_from (index : Z) (acc : Z) (values : list bytes) : tmux Z :=
  match values with
  | [] => Ok acc
  | v :: rest =>
      if bool_decide (v = lit "0") then parse_modes_from (index + 1) acc rest
      else if bool_decide (v = lit "1") then
        parse_modes_from (index + 1) (Z.lor acc (Z.shiftl 1 index)) rest
      else Err Protocol
  end.
Definition parse_modes (values : list bytes) : tmux Z :=
  if negb (zlen values =? 7) then Err Protocol else parse_modes_from 0 0 values.

Definition parse_flag (v : bytes) : tmux bool :=
  if bool_decide (v = lit "0") then Ok false
  else if bool_decide (v = lit "1") then Ok true
  else Err Protocol.

Definition parse_pane_row (row : bytes) (window : WindowProjection) : tmux PaneProjection :=
  row ← ok_or Protocol (from_utf8 row);
  match split ":"%byte row with
  | [f0; f1; f2; f3; f4; f5; f6; f7; f8; f9; f10; f11; f12; f13; f14; f15; f16; f17] =>
      if negb (is_pane_id f0) then Err Protocol
      else if negb (bool_decide (f1 = window_id window)) then Err Changed
      else
        active ← parse_flag f2;
        width ← parse_dimension f3;
        height ← parse_dimension f4;
        left ← parse_coordinate f5;
        top ← parse_coordinate f6;
        if (window_width window <=? left) || (window_height window <=? top)
           || (window_width window <? saturating_add u32_max left width)
           || (window_height window <? saturating_add u32_max top height)
        then Err Changed
        else
          cx ← parse_coordinate_with_bound f7 width;
          cy ← parse_coordinate_with_bound f8 height;
          ms ← parse_modes [f9; f10; f11; f12; f13; f14; f15];
          su ← parse_coordinate_with_bound f16 height;
          sl ← parse_coordinate_with_bound f17 height;
          let terminal := {| cursor_x := cx; cursor_y := cy; modes := ms;
                             scroll_upper := su; scroll_lower := sl |} in
          if (sl <? su) || ((cy <? su) && has_mode terminal MODE_ORIGIN)
          then Err Protocol
          else Ok {| pane_id := f0; active := active; width := width; height := height;
                     left := left; top := top; title := []; current_command := [];
                     terminal := terminal |}
  | _ => Err Protocol
  end.

Fixpoint parse_pane_rows_from (rows : list bytes) (window : WindowProjection)
    (seen : gset bytes) : tmux (list PaneProjection) :=
  match rows with
  | [] => Ok []
  | row :: rest =>
      pane ← parse_pane_row row window;
      if bool_decide (pane_id pane ∈ seen) then Err Protocol
      else
        panes ← parse_pane_rows_from rest window ({[pane_id pane]} ∪ seen);
        Ok (pane :: panes)
  end.

(** [try_fold] with [u64::checked_add]. *)
Fixpoint total_cells (total : Z) (panes : list PaneProjection) : option Z :=
  match panes with
  | [] => Some total
  | p :: rest => t ← checked_add u64_max total (width p * height p); total_cells t rest
  end.

Definition parse_pane_rows (rows : list bytes) (window : WindowProjection)
    : tmux (list PaneProjection) :=
  if bool_decide (rows = []) || (ATTACHMENT_MAX_PANES <? zlen rows) then Err TooManyPanes
  else
    panes ← parse_pane_rows_from rows window ∅;
    if negb (zlen (List.filter active panes) =? 1) then Err Protocol
    else
      match total_cells 0 panes with
      | Some cells => if ATTACHMENT_MAX_GRID_CELLS <? cells then Err ProjectionTooLarge
                      else Ok panes
      | None => Err ProjectionTooLarge
      end.

Definition same_pane_structure (l r : PaneProjection) : bool :=
  bool_decide (pane_id l = pane_id r) && Bool.eqb (active l) (active r)
  && (width l =? width r) && (height l =? height r)
  && (left l =? left r) && (top l =? top r).

(** ** Snapshot rendering *)

Definition esc (s : string) : bytes := "027"%byte :: lit s.
Definition crlf : bytes := ["013"%byte; "010"%byte].

Definition append_mode (output : bytes) (enabled : bool) (set reset : bytes) : bytes :=
  output ++ (if enabled then set else reset).

(** The row loop of [capture_lines]: the size is checked after every row. *)
Fixpoint append_rows (first : bool) (content : bytes) (rows : list bytes) : tmux bytes :=
  match rows with
  | [] => Ok content
  | row :: rest =>
      let content := (if first then content else content ++ crlf) ++ row in
      if ATTACHMENT_MAX_PANE_SNAPSHOT_BYTES <? zlen content then Err ProjectionTooLarge
      else append_rows false content rest
  end.

(** [u32] addition and subtraction, wrapping as the release profile does. *)
Definition u32_add (a b : Z) : Z := (a + b) mod (u32_max + 1).
Definition u32_sub (a b : Z) : Z := (a - b) mod (u32_max + 1).

Definition cursor_row (t : PaneTerminalState) : Z :=
  if has_mode t MODE_ORIGIN then u32_add (u32_sub (cursor_y t) (scroll_upper t)) 1
  else u32_add (cursor_y t) 1.
Definition cursor_column (t : PaneTerminalState) : Z := u32_add (cursor_x t) 1.

Definition capture_prefix (t : PaneTerminalState) : bytes :=
  esc "c" ++ (if has_mode t MODE_ALTERNATE then esc "[?1049h" else [])
  ++ esc "[?25l" ++ esc "[?6l" ++ esc "[H" ++ esc "[2J".

(** The state replay after the rows: scroll region, origin mode, cursor
    position, then the remaining modes. *)
Definition append_terminal_state (content : bytes) (t : PaneTerminalState) : bytes :=
  let content := content ++ esc "[" ++ dec (u32_add (scroll_upper t) 1) ++ lit ";"
                   ++ dec (u32_add (scroll_lower t) 1) ++ lit "r" in
  let content := content ++ (if has_mode t MODE_ORIGIN then esc "[?6h" else esc "[?6l") in
  let content := content ++ esc "[" ++ dec (cursor_row t) ++ lit ";"
                   ++ dec (cursor_column t) ++ lit "H" in
  let content := append_mode content (has_mode t MODE_INSERT) (esc "[4h") (esc "[4l") in
  let content := append_mode content (has_mode t MODE_WRAP) (esc "[?7h") (esc "[?7l") in
  let content := append_mode content (has_mode t MODE_APPLICATION_CURSOR)
                   (esc "[?1h") (esc "[?1l") in
  let content := append_mode content (has_mode t MODE_APPLICATION_KEYPAD)
                   (esc "=") (esc ">") in
  append_mode content (has_mode t MODE_CURSOR_VISIBLE) (esc "[?25h") (esc "[?25l").

Definition capture_lines (rows : list bytes) (pane : PaneProjection) : tmux bytes :=
  content ← append_rows true (capture_prefix (terminal pane)) rows;
  let content := append_terminal_state content (terminal pane) in
  if ATTACHMENT_MAX_PANE_SNAPSHOT_BYTES <? zlen content then Err ProjectionTooLarge
  else Ok content.

(** ** The session probe *)

Record SessionSummary : Type := {
  session_id : bytes; session_created : Z; session_name : bytes;
  attached_client_count : Z; window_count : Z;
}.

Record ProbeResult : Type := {
  tmux_client_version : bytes; tmux_server_version : option bytes;
  selection_epoch : Z; sessions : list SessionSummary;
}.

Definition parse_session (line : bytes) : tmux SessionSummary :=
  match splitn 5 ":"%byte line with
  | [id; created; attached; windows; name] =>
      if negb (is_session_id id) || (128 <? zlen name) || chars_any is_control name
      then Err Protocol
      else
        created ← parse_positive_i64 created;
        attached ← parse_count attached;
        windows ← parse_count windows;
        Ok {| session_id := id; session_created := created; session_name := name;
              attached_client_count := attached; window_count := windows |}
  | _ => Err Protocol
  end.

Fixpoint parse_sessions (rows : list bytes) (acc : list SessionSummary)
    (identities : gset (bytes * Z)) : tmux (list SessionSummary) :=
  match rows with
  | [] => Ok acc
  | line :: rest =>
      if bool_decide (line = []) then parse_sessions rest acc identities
      else if MAX_SESSIONS <=? zlen acc then Err TooManySessions
      else
        s ← parse_session line;
        let identity := (session_id s, session_created s) in
        if (window_count s =? 0) || bool_decide (identity ∈ identities) then Err Protocol
        else parse_sessions rest (acc ++ [s]) ({[identity]} ∪ identities)
  end.

(** [selection_epoch] is the [Uuid::new_v4()] of the call. *)
Definition parse_probe (stdout : bytes) (selection_epoch : Z) : tmux ProbeResult :=
  match lines stdout with
  | [] => Err Protocol
  | first :: rest =>
      client_version ← ok_or Protocol (strip_prefix PROBE_CLIENT_PREFIX first);
      validate_version client_version ;;
      match rest with
      | [] => Err Protocol
      | second :: rest =>
          server_value ← ok_or Protocol (strip_prefix PROBE_SERVER_PREFIX second);
          server_version ←
            (if bool_decide (server_value = lit "none") then Ok None
             else validate_version server_value ;; Ok (Some server_value));
          sessions ← parse_sessions rest [] ∅;
          if negb (bool_decide (sessions = [])) && bool_decide (server_version = None)
          then Err Protocol
          else Ok {| tmux_client_version := client_version;
                     tmux_server_version := server_version;
                     selection_epoch := selection_epoch; sessions := sessions |}
      end
  end.

(** ** The source's own tests *)

Example versions_of_the_tests :
  forallb (fun v => is_ok (validate_version (lit v)))
    ["tmux 3.2a"; "tmux 3.2b"; "tmux 3.3"; "tmux 3.5a"]%string = true
  /\ existsb (fun v => is_ok (validate_version (lit v)))
    ["tmux 3.1c"; "tmux 3.2"; "tmux 3.2aa"; "tmux 3.2-a"; "tmux next-3.5"; "3.5a"]%string
    = false.
Proof. by vm_compute. Qed.

Example markers_of_the_tests :
  parse_marker (lit "%begin 1700000000 42 1" ++ ["010"%byte]) (lit "%begin ")
    = Ok (Some (1700000000, 42, 1))
  /\ parse_marker (lit "%end 1 2" ++ ["010"%byte]) (lit "%end ") = Err Protocol
  /\ decode_escaped (lit "hello\040world\\") = Ok (lit "hello world\")
  /\ decode_escaped (lit "bad\04") = Err Protocol
  /\ render_literal_input (lit "%7") ["a"; "010"; "000"; "255"]%byte
     = Ok (lit "send-keys -t %7 -H 61 0a 00 ff")
  /\ render_literal_input (lit "%7;run-shell") (lit "safe") = Err Protocol.
Proof. by vm_compute. Qed.

Example probe_of_the_tests :
  let nl := ["010"%byte] in
  let out := PROBE_CLIENT_PREFIX ++ lit "tmux 3.2a" ++ nl ++ PROBE_SERVER_PREFIX
    ++ lit "tmux 3.2a" ++ nl ++ lit "$1:1700000000:1:2:alpha" ++ nl in
  parse_probe out 5 = Ok {| tmux_client_version := lit "tmux 3.2a";
    tmux_server_version := Some (lit "tmux 3.2a"); selection_epoch := 5;
    sessions := [ {| session_id := lit "$1"; session_created := 1700000000;
       session_name := lit "alpha"; attached_client_count := 1; window_count := 2 |} ] |}.
Proof. by vm_compute. Qed.

Example pane_rows_of_the_tests :
  let w := {| window_id := lit "@1"; window_name := lit "main"; window_width := 80;
              window_height := 24; layout := lit "old" |} in
  parse_pane_row (lit "%1:@1:1:100:30:0:0:0:0:0:1:0:0:0:0:1:0:29") w = Err Changed
  /\ parse_pane_row (lit "%1:@2:1:80:24:0:0:0:0:0:1:0:0:0:0:1:0:23") w = Err Changed
  /\ parse_pane_row (lit "bad:@1:1:80:24:0:0:0:0:0:1:0:0:0:0:1:0:23") w = Err Protocol
  /\ is_ok (parse_pane_row (lit "%1:@1:1:80:24:0:0:0:0:0:1:0:0:0:0:1:0:23") w) = true.
Proof. by vm_compute. Qed.

(** ** Theorems: control escapes *)

(** The escape grammar of control-mode output, as a relation between the
    wire text and the bytes it stands for. *)
Inductive control_text : bytes -> bytes -> Prop :=
| ct_nil : control_text [] []
| ct_plain c v d :
    c <> "\"%byte -> control_text v d -> control_text (c :: v) (c :: d)
| ct_backslash v d :
    control_text v d -> control_text ("\"%byte :: "\"%byte :: v) ("\"%byte :: d)
| ct_octal a b c v d :
    is_octal a = true -> is_octal b = true -> is_octal c = true ->
    control_text v d ->
    control_text ("\"%byte :: a :: b :: c :: v) (octal_byte a b c :: d).

(** How tmux may print [d]: every byte either as itself or as three octal
    digits, as the policy [f] says; a backslash is never printed bare. *)
Definition octal_digit (n : Z) : byte := byte_of (48 + n).
Definition escape_byte (f : byte -> bool) (c : byte) : bytes :=
  if f c || bool_decide (c = "\"%byte)
  then ["\"%byte; octal_digit (bval c / 64); octal_digit (bval c / 8 mod 8);
        octal_digit (bval c mod 8)]
  else [c].
Definition escape (f : byte -> bool) (d : bytes) : bytes := concat (map (escape_byte f) d).

Lemma is_octal_not_backslash c : is_octal c = true -> c <> "\"%byte.
Proof. intros H ->. discriminate H. Qed.

Lemma decode_escaped_sound v d : decode_escaped v = Ok d -> control_text v d.
Proof.
  remember (length v) as n eqn:Hn. assert (length v <= n)%nat as Hle by lia. clear Hn.
  revert v d Hle; induction n as [|n IH]; intros [|c v] d Hle;
    cbn in Hle; try lia; cbn; try (intros [= <-]; constructor).
  case_bool_decide as Hc; cbn.
  - subst. destruct v as [|c1 v]; [done |].
    case_bool_decide as Hc1; cbn.
    + subst. intros H. inv_ok. apply ct_backslash, IH; [cbn in Hle; lia | done].
    + destruct v as [|c2 [|c3 v]]; try done.
      destruct (is_octal c1 && is_octal c2 && is_octal c3) eqn:Ho; [| done].
      intros H. inv_ok. split_bools.
      apply ct_octal; try done. apply IH; [cbn in Hle; lia | done].
  - intros H. inv_ok. apply ct_plain; [done |]. apply IH; [lia | done].
Qed.

Lemma decode_escaped_complete v d : control_text v d -> decode_escaped v = Ok d.
Proof.
  induction 1 as [|c v d Hc H IH|v d H IH|a b c v d Ha Hb Hcc H IH]; cbn.
  - done.
  - rewrite bool_decide_false by done. cbn. by rewrite IH.
  - by rewrite IH.
  - rewrite (bool_decide_false (a = _)) by exact (is_octal_not_backslash a Ha).
    cbn. rewrite Ha, Hb, Hcc. cbn. by rewrite IH.
Qed.

Lemma decode_escaped_error v e : decode_escaped v = Err e -> e = Protocol.
Proof.
  remember (length v) as n eqn:Hn. assert (length v <= n)%nat as Hle by lia. clear Hn.
  revert v Hle; induction n as [|n IH]; intros [|c v] Hle;
    cbn in Hle; try lia; cbn; try done.
  repeat case_match; subst; try (by intros [= <-]);
    intros He; apply bind_Err in He as [He | (? & _ & ?)]; try done;
    eapply IH; try eassumption; cbn in Hle; lia.
Qed.

(** [decode_escaped] decides exactly the control-mode escape grammar:
    it returns [d] for a text iff the text is [d] with plain bytes, doubled
    backslashes and three-digit octal escapes; every other text is a
    protocol error (no partial escape is accepted); and the output is never
    longer than the input, so the reserved capacity is enough. *)
Theorem decode_escaped_exact (v d : bytes) :
  (decode_escaped v = Ok d <-> control_text v d)
  /\ (forall e, decode_escaped v = Err e -> e = Protocol /\ forall d', ~ control_text v d')
  /\ (decode_escaped v = Ok d -> zlen d <= zlen v).
Proof.
  split; [split; [apply decode_escaped_sound | apply decode_escaped_complete] |].
  split.
  - intros e He. split; [by eapply decode_escaped_error |].
    intros d' Hd'%decode_escaped_complete. congruence.
  - intros H%decode_escaped_sound. induction H; zlen_simpl; lia.
Qed.

Lemma escape_byte_decodes f c v d :
  control_text v d -> control_text (escape_byte f c ++ v) (c :: d).
Proof.
  intros H. unfold escape_byte. destruct (f c || bool_decide (c = "\"%byte)) eqn:E.
  - assert (c = octal_byte (octal_digit (bval c / 64)) (octal_digit (bval c / 8 mod 8))
              (octal_digit (bval c mod 8))
            /\ is_octal (octal_digit (bval c / 64)) = true
            /\ is_octal (octal_digit (bval c / 8 mod 8)) = true
            /\ is_octal (octal_digit (bval c mod 8)) = true) as (Hc & H1 & H2 & H3)
      by (destruct c; by vm_compute).
    rewrite Hc at 4. cbn [app]. by apply ct_octal.
  - apply orb_false_iff in E as [_ E]. split_bools. by apply ct_plain.
Qed.

(** Round trip: whatever bytes a pane writes, and whichever of them tmux
    chooses to print in octal, decoding the printed text gives the bytes
    back. *)
Theorem decode_escape_roundtrip (f : byte -> bool) (d : bytes) :
  decode_escaped (escape f d) = Ok d.
Proof.
  apply decode_escaped_complete. unfold escape.
  induction d as [|c d IH]; cbn; [constructor |]. by apply escape_byte_decodes.
Qed.

(** An octal escape above [\377] is not refused: the first digit's
    weight wraps in [u8] (release profile), so [\4xy] to [\7xy] decode to the
    same byte as [\0xy] to [\3xy]. *)
Theorem octal_escape_wraps (a b c : byte) (Hb : is_octal b = true)
    (Hc : is_octal c = true) (Ha : a ∈ ["4"; "5"; "6"; "7"]%byte) :
  exists a', a' ∈ ["0"; "1"; "2"; "3"]%byte
  /\ decode_escaped ["\"%byte; a; b; c] = decode_escaped ["\"%byte; a'; b; c]
  /\ is_ok (decode_escaped ["\"%byte; a; b; c]) = true.
Proof.
  assert (forall a', is_octal a' = true ->
            decode_escaped ["\"%byte; a'; b; c] = Ok [octal_byte a' b c]) as Hd.
  { intros a' Ha'. cbn.
    rewrite (bool_decide_false (a' = _)) by exact (is_octal_not_backslash a' Ha').
    cbn. by rewrite Ha', Hb, Hc. }
  assert (forall x y, is_octal x = true -> is_octal y = true ->
            (digit_val x * 64) mod 256 = (digit_val y * 64) mod 256 ->
            decode_escaped ["\"%byte; x; b; c] = decode_escaped ["\"%byte; y; b; c]
            /\ is_ok (decode_escaped ["\"%byte; x; b; c]) = true) as Heq.
  { intros x y Hx Hy Hxy. rewrite !Hd by done. unfold octal_byte. by rewrite Hxy. }
  set_unfold in Ha. destruct Ha as [-> | [-> | [-> | [-> | []]]]].
  - exists "0"%byte. split; [set_solver | by apply Heq].
  - exists "1"%byte. split; [set_solver | by apply Heq].
  - exists "2"%byte. split; [set_solver | by apply Heq].
  - exists "3"%byte. split; [set_solver | by apply Heq].
Qed.

Lemma octal_escape_wraps_witness :
  decode_escaped (lit "\400") = Ok ["000"%byte].
Proof.
  destruct (octal_escape_wraps "4"%byte "0"%byte "0"%byte eq_refl eq_refl ltac:(left))
    as (a' & _ & _ & _).
  reflexivity.
Defined.

(** ** Theorems: rendered input *)

Definition command_byte (c : byte) : bool :=
  is_ascii_alphanumeric c || bool_decide (c ∈ [" "; "-"; "%"; "@"; "$"]%byte).

Lemma is_numeric_id_inv prefix v :
  is_numeric_id prefix v = true ->
  exists digits, v = prefix :: digits /\ digits <> [] /\ zlen digits <= 30
    /\ Forall (fun c => is_ascii_digit c = true) digits.
Proof.
  unfold is_numeric_id. destruct (strip_prefix _ v) as [d|] eqn:E; [| done].
  apply strip_prefix_Some in E as ->. intros H. split_bools.
  exists d. repeat split; try done.
  apply List.Forall_forall. by apply forallb_forall.
Qed.

Lemma digit_command_byte c : is_ascii_digit c = true -> command_byte c = true.
Proof.
  revert c. assert (forall c, implb (is_ascii_digit c) (command_byte c) = true) as H
    by (apply byte_forall; by vm_compute).
  intros c Hc. specialize (H c). by rewrite Hc in H.
Qed.

Lemma digit_not_space c : is_ascii_digit c = true -> c <> " "%byte.
Proof. by intros H ->. Qed.

Lemma hex02_command_byte c : Forall (fun x => command_byte x = true) (hex02 c).
Proof.
  assert (forallb command_byte (hex02 c) = true) as H
    by (revert c; apply byte_forall; by vm_compute).
  apply Forall_forall. intros x Hx. rewrite forallb_forall in H. by apply H, list_elem_of_In.
Qed.

Lemma hex02_inj c d : hex02 c = hex02 d -> c = d.
Proof.
  assert (forall c, match hex02 c with
    | [h; l] => bool_decide (byte_of
        ((if bval h <? 97 then bval h - 48 else bval h - 87) * 16
         + (if bval l <? 97 then bval l - 48 else bval l - 87)) = c)
    | _ => false end = true) as H by (apply byte_forall; by vm_compute).
  intros Hcd. pose proof (H c) as Hc. pose proof (H d) as Hd. rewrite Hcd in Hc.
  cbn [hex02] in Hc, Hd. split_bools. congruence.
Qed.

Definition hex_words (data : bytes) : bytes := concat (map (fun c => " "%byte :: hex02 c) data).

Lemma hex_words_inj d e : hex_words d = hex_words e -> d = e.
Proof.
  revert e; induction d as [|c d IH]; intros [|c' e]; try done.
  unfold hex_words. cbn [map concat]. intros H.
  apply app_inj_length in H as [H1 H2]; [| done].
  injection H1 as H1a H1b. f_equal; [| by apply IH].
  apply hex02_inj. unfold hex02. by rewrite H1a, H1b.
Qed.

Lemma zlen_hex_words d : zlen (hex_words d) = 3 * zlen d.
Proof.
  induction d as [|c d IH]; [done |].
  unfold hex_words in *. cbn [map concat].
  rewrite zlen_app, zlen_cons, IH, zlen_cons. change (zlen (hex02 c)) with 2. lia.
Qed.

Lemma hex_words_command d : Forall (fun c => command_byte c = true) (hex_words d).
Proof.
  unfold hex_words. induction d as [|c d IH]; cbn [map concat]; [constructor |].
  apply Forall_app. split; [| done]. constructor; [done | apply hex02_command_byte].
Qed.

Lemma render_literal_input_Ok p d out :
  render_literal_input p d = Ok out <->
  (is_pane_id p = true /\ d <> [] /\ zlen d <= ATTACHMENT_MAX_INPUT_BYTES)
  /\ out = lit "send-keys -t " ++ p ++ lit " -H" ++ hex_words d.
Proof.
  unfold render_literal_input, hex_words.
  destruct (is_pane_id p); cbn; [| naive_solver].
  case_bool_decide; cbn; [naive_solver |].
  destruct (Z.ltb_spec ATTACHMENT_MAX_INPUT_BYTES (zlen d)); cbn; naive_solver lia.
Qed.

Lemma words_tail_inj (p q : bytes) c (v w : bytes) :
  c ∉ p -> c ∉ q -> p ++ c :: v = q ++ c :: w -> p = q /\ v = w.
Proof.
  revert q; induction p as [|x p IH]; intros [|y q] Hp Hq H; cbn in H.
  - by injection H.
  - injection H as -> H. set_solver.
  - injection H as -> H. set_solver.
  - injection H as -> H. destruct (IH q) as [-> ->]; [set_solver .. | done].
Qed.

(** [render_literal_input] turns arbitrary terminal input into one
    control-mode command that no byte of the input can escape from: it
    succeeds exactly on a well-formed pane id and 1 to 1024 bytes, the
    command has only letters, digits, spaces, [-] and [%] (no newline, quote
    or separator), fits the 4096-byte command limit, and determines both the
    pane and the input. *)
Theorem render_literal_input_safe (p d out : bytes)
    (H : render_literal_input p d = Ok out) :
  Forall (fun c => command_byte c = true) out
  /\ zlen out <= 4096
  /\ (forall p' d', render_literal_input p' d' = Ok out -> p' = p /\ d' = d).
Proof.
  apply render_literal_input_Ok in H as [(Hp & Hd & Hl) ->].
  apply is_numeric_id_inv in Hp as (g & -> & Hg & Hgl & Hgd).
  split; [| split].
  - repeat (apply Forall_app; split); try apply hex_words_command.
    + by repeat constructor.
    + constructor; [done |]. eapply Forall_impl; [exact Hgd |]. exact digit_command_byte.
    + by repeat constructor.
  - rewrite !zlen_app, zlen_hex_words, zlen_cons. change (zlen (lit "send-keys -t ")) with 13.
    change (zlen (lit " -H")) with 3. unfold ATTACHMENT_MAX_INPUT_BYTES in Hl. lia.
  - intros p' d' H'. apply render_literal_input_Ok in H' as [(Hp' & _ & _) Heq].
    apply is_numeric_id_inv in Hp' as (g' & -> & _ & _ & Hgd').
    assert (forall g, Forall (fun c => is_ascii_digit c = true) g -> " "%byte ∉ "%"%byte :: g)
      as Hns.
    { intros h Hh. intros [Hx | Hx]%elem_of_cons; [done |].
      rewrite Forall_forall in Hh. by apply Hh in Hx. }
    apply app_inv_head in Heq.
    apply (words_tail_inj _ _ " "%byte (lit "-H" ++ _) (lit "-H" ++ _)) in Heq as [Hpane Htail]; [| by apply Hns ..].
    apply app_inv_head in Htail. split; [done |]. symmetry. by apply hex_words_inj.
Qed.

Lemma render_literal_input_safe_witness :
  render_literal_input (lit "%7") ["010"; "'"]%byte = Ok (lit "send-keys -t %7 -H 0a 27")
  /\ Forall (fun c => command_byte c = true) (lit "send-keys -t %7 -H 0a 27").
Proof.
  assert (render_literal_input (lit "%7") ["010"; "'"]%byte
          = Ok (lit "send-keys -t %7 -H 0a 27")) as H by reflexivity.
  split; [exact H | exact (proj1 (render_literal_input_safe _ _ _ H))].
Defined.
