(* ===== verification/TmuxPanes.v ===== *)
(** * TmuxPanes: pane geometry, snapshots and the session probe

    Theorems about the structured half of [TmuxGrammar]: accepted pane rows
    lie inside their window, rows round trip, snapshot replay never leaves
    [u32] or its size bound, and the probe's list is well formed. *)

From S2P Require Import Prelude Text Contracts TmuxGrammar.

(** ** Accepted panes *)

(** What every accepted pane satisfies with respect to its window. *)
Record pane_in_window (w : WindowProjection) (p : PaneProjection) : Prop := {
  piw_id : is_pane_id (pane_id p) = true;
  piw_width : 1 <= width p <= ATTACHMENT_MAX_DIMENSION;
  piw_height : 1 <= height p <= ATTACHMENT_MAX_DIMENSION;
  piw_left : 0 <= left p /\ left p + width p <= window_width w;
  piw_top : 0 <= top p /\ top p + height p <= window_height w;
  piw_cursor_x : 0 <= cursor_x (terminal p) < width p;
  piw_cursor_y : 0 <= cursor_y (terminal p) < height p;
  piw_modes : 0 <= modes (terminal p) < 128;
  piw_scroll : 0 <= scroll_upper (terminal p) <= scroll_lower (terminal p)
               /\ scroll_lower (terminal p) < height p;
  piw_origin : has_mode (terminal p) MODE_ORIGIN = true ->
               scroll_upper (terminal p) <= cursor_y (terminal p);
}.

Lemma parse_u32_range v n : parse_u32 v = Some n -> 0 <= n <= u32_max.
Proof. apply parse_unsigned_range. unfold u32_max. lia. Qed.

Lemma parse_dimension_Ok v n :
  parse_dimension v = Ok n -> 1 <= n <= ATTACHMENT_MAX_DIMENSION.
Proof.
  unfold parse_dimension. intros H. inv_ok. split_bools.
  apply parse_u32_range in H0. lia.
Qed.

Lemma parse_coordinate_Ok v n :
  parse_coordinate v = Ok n -> 0 <= n < ATTACHMENT_MAX_DIMENSION.
Proof.
  unfold parse_coordinate. intros H. inv_ok. split_bools.
  apply parse_u32_range in H0. lia.
Qed.

Lemma parse_coordinate_with_bound_Ok v b n :
  parse_coordinate_with_bound v b = Ok n -> 0 <= n < b.
Proof.
  unfold parse_coordinate_with_bound. intros H. inv_ok. split_bools.
  apply parse_coordinate_Ok in H0. lia.
Qed.

Lemma lor_bit_range i acc :
  0 <= i -> 0 <= acc < 2 ^ i -> 0 <= Z.lor acc (Z.shiftl 1 i) < 2 ^ (i + 1).
Proof.
  intros Hi Ha. assert (2 ^ (i + 1) = 2 * 2 ^ i) as Hp by (rewrite Z.add_1_r, Z.pow_succ_r; lia).
  rewrite Z.shiftl_1_l. pose proof (Z.add_lor_land acc (2 ^ i)) as Hal.
  assert (Z.land acc (2 ^ i) = 0) as Hz; [| rewrite Hz in Hal; lia].
  apply Z.bits_inj'. intros k Hk. rewrite Z.land_spec, Z.bits_0.
  destruct (decide (k = i)) as [-> |].
  - assert (Z.testbit acc i = false) as ->; [| done].
    apply Z.testbit_false; [lia |]. by rewrite Z.div_small by lia.
  - rewrite Z.pow2_bits_false by lia. apply andb_false_r.
Qed.

Lemma parse_modes_from_range i acc vs m :
  0 <= i -> 0 <= acc < 2 ^ i -> parse_modes_from i acc vs = Ok m ->
  0 <= m < 2 ^ (i + zlen vs).
Proof.
  revert i acc; induction vs as [|v vs IH]; intros i acc Hi Ha H; cbn [parse_modes_from] in H.
  - inv_ok. change (zlen (@nil bytes)) with 0. by rewrite Z.add_0_r.
  - rewrite zlen_cons, Z.add_assoc. pose proof (lor_bit_range i acc Hi Ha).
    case_bool_decide.
    { apply IH in H; [done | lia |]. rewrite Z.add_1_r, Z.pow_succ_r; lia. }
    case_bool_decide; [| done]. apply IH in H; [done | lia | done].
Qed.

Lemma parse_modes_range vs m : parse_modes vs = Ok m -> 0 <= m < 128.
Proof.
  unfold parse_modes. intros H. inv_ok. split_bools.
  apply parse_modes_from_range in H; [| lia | done].
  replace (zlen vs) with 7 in H by lia. done.
Qed.

Lemma parse_pane_row_sound row w p :
  parse_pane_row row w = Ok p -> pane_in_window w p.
Proof.
  unfold parse_pane_row. intros H. inv_ok.
  repeat match type of H1 with
         | (match ?l with _ => _ end) = _ =>
             match type of l with list _ => destruct l; try discriminate H1 end
         end.
  inv_ok. split_bools.
  repeat match goal with
  | H : parse_dimension _ = Ok _ |- _ => apply parse_dimension_Ok in H
  | H : parse_coordinate _ = Ok _ |- _ => apply parse_coordinate_Ok in H
  | H : parse_coordinate_with_bound _ _ = Ok _ |- _ =>
      apply parse_coordinate_with_bound_Ok in H
  | H : parse_modes _ = Ok _ |- _ => apply parse_modes_range in H
  end.
  unfold saturating_add, u32_max, ATTACHMENT_MAX_DIMENSION in *.
  constructor; cbn; try done; try lia.
  intros Ho. match goal with H : (_ <? _) && _ = false |- _ => revert H end.
  rewrite Ho, andb_true_r. intros; split_bools. lia.
Qed.

Lemma parse_pane_rows_from_sound rows w seen ps :
  parse_pane_rows_from rows w seen = Ok ps ->
  length ps = length rows
  /\ Forall (pane_in_window w) ps
  /\ NoDup (map pane_id ps) /\ (forall x, x ∈ map pane_id ps -> x ∉ seen).
Proof.
  revert seen ps; induction rows as [|row rows IH]; intros seen ps H; cbn in H.
  - inv_ok. repeat split; try constructor. intros x Hx. by apply not_elem_of_nil in Hx.
  - inv_ok. split_bools.
    match goal with H : parse_pane_rows_from _ _ _ = _ |- _ => apply IH in H end.
    destruct_and!. cbn. repeat split.
    + by f_equal.
    + constructor; [by eapply parse_pane_row_sound | done].
    + constructor; [| done]. intros Hx. set_solver.
    + intros x [-> | Hx]%elem_of_cons; [done |]. set_solver.
Qed.

Definition sum_cells (ps : list PaneProjection) : Z :=
  foldr (fun p n => width p * height p + n) 0 ps.

Lemma total_cells_Some t ps n : total_cells t ps = Some n -> n = t + sum_cells ps.
Proof.
  revert t; induction ps as [|p ps IH]; intros t H; cbn [total_cells] in H.
  - injection H as ->. cbn. lia.
  - change (sum_cells (p :: ps)) with (width p * height p + sum_cells ps).
    destruct (checked_add _ _ _) as [c|] eqn:E; [| done]. cbn in H.
    apply checked_add_Some in E as [-> _]. apply IH in H. lia.
Qed.

(** Every projection the server accepts from tmux is one it can draw:
    1 to 32 panes with distinct well-formed ids, exactly one of them active,
    each inside the observed window with its cursor and scroll region inside
    the pane, and at most two million cells in all (the sum taken without
    overflow). *)
Theorem parse_pane_rows_sound (rows : list bytes) (w : WindowProjection)
    (ps : list PaneProjection) (H : parse_pane_rows rows w = Ok ps) :
  1 <= zlen ps <= ATTACHMENT_MAX_PANES /\ zlen ps = zlen rows
  /\ NoDup (map pane_id ps)
  /\ length (List.filter active ps) = 1%nat
  /\ Forall (pane_in_window w) ps
  /\ sum_cells ps <= ATTACHMENT_MAX_GRID_CELLS.
Proof.
  unfold parse_pane_rows in H. inv_ok. split_bools.
  destruct (total_cells 0 _) as [c|] eqn:E; [| done]. inv_ok. split_bools.
  apply total_cells_Some in E.
  match goal with H : parse_pane_rows_from _ _ _ = _ |- _ =>
    apply parse_pane_rows_from_sound in H end.
  destruct_and!. assert (zlen ps = zlen rows) as Hz by (by apply zlen_eq_length).
  assert (zlen rows <> 0) by (by rewrite zlen_zero).
  pose proof (zlen_nonneg rows). repeat split; try done; try lia.
  unfold zlen in *. lia.
Qed.

Definition sample_window : WindowProjection :=
  {| window_id := lit "@1"; window_name := lit "main"; window_width := 80;
     window_height := 24; layout := lit "l" |}.
Definition sample_rows : list bytes :=
  [lit "%1:@1:1:40:24:0:0:3:5:0:1:0:0:0:1:1:2:23"; lit "%2:@1:0:39:24:41:0:0:0:0:1:0:0:0:0:1:0:23"].

Lemma parse_pane_rows_sound_witness :
  exists ps, parse_pane_rows sample_rows sample_window = Ok ps
  /\ map pane_id ps = [lit "%1"; lit "%2"] /\ sum_cells ps <= ATTACHMENT_MAX_GRID_CELLS.
Proof.
  eexists. split; [vm_compute; reflexivity |]. split; [vm_compute; reflexivity |].
  eapply (parse_pane_rows_sound sample_rows sample_window). vm_compute. reflexivity.
Defined.

(** ** Row round trip *)

(** The row tmux prints for a pane, per [PANE_FORMAT]. *)
Definition flag (b : bool) : bytes := if b then lit "1" else lit "0".
Definition mode_flags (m : Z) : list bytes :=
  map (fun i => flag (Z.testbit m i)) [0; 1; 2; 3; 4; 5; 6].
Definition pane_fields (w : WindowProjection) (p : PaneProjection) : list bytes :=
  [pane_id p; window_id w; flag (active p); dec (width p); dec (height p);
   dec (left p); dec (top p); dec (cursor_x (terminal p)); dec (cursor_y (terminal p))]
  ++ mode_flags (modes (terminal p))
  ++ [dec (scroll_upper (terminal p)); dec (scroll_lower (terminal p))].
Definition pane_row (w : WindowProjection) (p : PaneProjection) : bytes :=
  join ":"%byte (pane_fields w p).

Lemma mode_flags_parse m : 0 <= m < 128 -> parse_modes (mode_flags m) = Ok m.
Proof.
  intros H. assert (forallb (fun n => bool_decide (parse_modes (mode_flags (Z.of_nat n))
              = Ok (Z.of_nat n))) (seq 0 128) = true) as Hall by (by vm_compute).
  rewrite forallb_forall in Hall. specialize (Hall (Z.to_nat m)).
  rewrite Z2Nat.id in Hall by lia. apply bool_decide_eq_true in Hall; [done |].
  apply in_seq. lia.
Qed.

Lemma flag_parse b : parse_flag (flag b) = Ok b.
Proof. by destruct b. Qed.

Lemma parse_u32_dec n : 0 <= n <= u32_max -> parse_u32 (dec n) = Some n.
Proof. apply parse_unsigned_dec. Qed.

Lemma parse_dimension_dec n :
  1 <= n <= ATTACHMENT_MAX_DIMENSION -> parse_dimension (dec n) = Ok n.
Proof.
  intros H. unfold parse_dimension, ATTACHMENT_MAX_DIMENSION in *.
  rewrite parse_u32_dec by (unfold u32_max; lia). cbn.
  rewrite (proj2 (Z.eqb_neq n 0)), (proj2 (Z.ltb_ge 10000 n)) by lia. done.
Qed.

Lemma parse_coordinate_dec n :
  0 <= n < ATTACHMENT_MAX_DIMENSION -> parse_coordinate (dec n) = Ok n.
Proof.
  intros H. unfold parse_coordinate, ATTACHMENT_MAX_DIMENSION in *.
  rewrite parse_u32_dec by (unfold u32_max; lia). cbn.
  by rewrite (proj2 (Z.leb_gt 10000 n)) by lia.
Qed.

Lemma parse_bounded_dec n b :
  0 <= n < b -> b <= ATTACHMENT_MAX_DIMENSION ->
  parse_coordinate_with_bound (dec n) b = Ok n.
Proof.
  intros H Hb. unfold parse_coordinate_with_bound.
  rewrite parse_coordinate_dec by lia. cbn. by rewrite (proj2 (Z.leb_gt b n)) by lia.
Qed.

Definition row_byte (c : byte) : Prop := c ∈ ["%"; "@"]%byte \/ is_ascii_digit c = true.

Lemma row_byte_plain c : row_byte c -> c <> ":"%byte /\ bval c < 128.
Proof.
  assert (forall c, implb (bool_decide (c ∈ ["%"; "@"]%byte) || is_ascii_digit c)
            (negb (bool_decide (c = ":"%byte)) && (bval c <? 128)) = true) as H
    by (apply byte_forall; by vm_compute).
  intros Hc. specialize (H c).
  assert (bool_decide (c ∈ ["%"; "@"]%byte) || is_ascii_digit c = true) as Ht.
  { apply orb_true_iff. destruct Hc as [? | ?]; [left | by right]. by apply bool_decide_true. }
  rewrite Ht in H. cbn in H. by split_bools.
Qed.

Lemma digits_row_bytes v : forallb is_ascii_digit v = true -> Forall row_byte v.
Proof.
  intros H. apply Forall_forall. intros c Hc. right.
  rewrite forallb_forall in H. by apply H, list_elem_of_In.
Qed.

Lemma dec_row_bytes n : 0 <= n -> Forall row_byte (dec n).
Proof. intros H. apply digits_row_bytes. by apply dec_spec. Qed.

Lemma id_row_bytes c v : c ∈ ["%"; "@"]%byte -> is_numeric_id c v = true -> Forall row_byte v.
Proof.
  intros Hc (d & -> & _ & _ & Hd)%is_numeric_id_inv.
  constructor; [by left |]. eapply Forall_impl; [exact Hd |]. by right.
Qed.

Lemma flag_row_bytes b : Forall row_byte (flag b).
Proof. apply digits_row_bytes. by destruct b. Qed.

Lemma pane_fields_row_bytes w p :
  is_window_id (window_id w) = true -> pane_in_window w p ->
  Forall (Forall row_byte) (pane_fields w p).
Proof.
  intros Hw []. unfold pane_fields, mode_flags. cbn [map app].
  repeat (constructor;
    [first [apply flag_row_bytes | (apply dec_row_bytes; lia)
           | (eapply id_row_bytes; [| eassumption]; set_solver)] |]).
  constructor.
Qed.

Lemma join_forall (P : byte -> Prop) c l :
  P c -> Forall (Forall P) l -> Forall P (join c l).
Proof.
  intros Hc H. induction H as [|x l Hx Hl IH]; [constructor |].
  destruct l as [|y l]; [done |]. rewrite join_cons by done.
  apply Forall_app. split; [done | by constructor].
Qed.

Lemma pane_row_utf8 w p :
  is_window_id (window_id w) = true -> pane_in_window w p ->
  from_utf8 (pane_row w p) = Some (pane_row w p).
Proof.
  intros Hw Hp. apply from_utf8_ascii, join_forall; [done |].
  eapply Forall_impl; [by apply pane_fields_row_bytes |].
  intros f Hf. eapply Forall_impl; [exact Hf |]. intros c Hc. by apply row_byte_plain.
Qed.

Lemma pane_row_split w p :
  is_window_id (window_id w) = true -> pane_in_window w p ->
  split ":"%byte (pane_row w p) = pane_fields w p.
Proof.
  intros Hw Hp. apply split_join; [done |].
  eapply Forall_impl; [by apply pane_fields_row_bytes |].
  intros f Hf Hc. rewrite Forall_forall in Hf. apply Hf in Hc.
  by apply row_byte_plain in Hc as [? _].
Qed.

(** Round trip of a pane row: any pane that lies inside the observed
    window, printed the way the requested [list-panes] format prints it, is
    parsed back to exactly that pane (its title and command, which are read by
    later queries, still empty). *)
Theorem parse_pane_row_roundtrip (w : WindowProjection) (p : PaneProjection)
    (Hw : is_window_id (window_id w) = true)
    (Hgrid : valid_grid (window_width w) (window_height w) = true)
    (Hp : pane_in_window w p) (Ht : title p = []) (Hc : current_command p = []) :
  parse_pane_row (pane_row w p) w = Ok p.
Proof.
  unfold parse_pane_row. rewrite (pane_row_utf8 w p Hw Hp). cbn [ok_or mbind result_bind].
  rewrite (pane_row_split w p Hw Hp). pose proof (mode_flags_parse _ (piw_modes _ _ Hp)) as Hm.
  unfold pane_fields, mode_flags in *. cbn [map app] in *.
  destruct Hp, p as [id ac wd hg lf tp ti cc [cx cy ms su sl]].
  cbn [pane_id active width height left top title current_command terminal
       cursor_x cursor_y modes scroll_upper scroll_lower] in *.
  subst. unfold valid_grid, ATTACHMENT_MAX_DIMENSION in Hgrid. split_bools.
  rewrite piw_id0, bool_decide_true by done. cbn [negb].
  rewrite flag_parse. cbn [mbind result_bind].
  rewrite !parse_dimension_dec, !parse_coordinate_dec
    by (unfold ATTACHMENT_MAX_DIMENSION; lia).
  cbn [mbind result_bind].
  unfold saturating_add, u32_max, ATTACHMENT_MAX_DIMENSION in *.
  rewrite (proj2 (Z.leb_gt _ lf)), (proj2 (Z.leb_gt _ tp)), !Z.min_r,
    (proj2 (Z.ltb_ge _ (lf + wd))), (proj2 (Z.ltb_ge _ (tp + hg))) by lia.
  cbn [orb].
  rewrite !parse_bounded_dec by (unfold ATTACHMENT_MAX_DIMENSION; lia).
  cbn [mbind result_bind]. rewrite Hm. cbn [mbind result_bind].
  rewrite (proj2 (Z.ltb_ge sl su)) by lia. cbn [orb].
  destruct (has_mode _ MODE_ORIGIN) eqn:Ho; [| by rewrite andb_false_r].
  rewrite (proj2 (Z.ltb_ge cy su)); [done |]. by apply piw_origin0.
Qed.

Definition sample_pane : PaneProjection :=
  {| pane_id := lit "%1"; active := true; width := 40; height := 24; left := 0; top := 0;
     title := []; current_command := [];
     terminal := {| cursor_x := 3; cursor_y := 5; modes := 97; scroll_upper := 2;
                    scroll_lower := 23 |} |}.

Lemma sample_pane_in_window : pane_in_window sample_window sample_pane.
Proof. constructor; cbn; unfold ATTACHMENT_MAX_DIMENSION; try done; lia. Qed.

Lemma parse_pane_row_roundtrip_witness :
  parse_pane_row (pane_row sample_window sample_pane) sample_window = Ok sample_pane.
Proof.
  apply (parse_pane_row_roundtrip sample_window sample_pane); try reflexivity.
  exact sample_pane_in_window.
Defined.

(** ** Snapshots *)

(** The rows joined by CR LF, without the size checks. *)
Fixpoint crlf_rows (first : bool) (rows : list bytes) : bytes :=
  match rows with
  | [] => []
  | row :: rest => (if first then [] else crlf) ++ row ++ crlf_rows false rest
  end.

Lemma append_rows_spec first content rows :
  zlen content <= ATTACHMENT_MAX_PANE_SNAPSHOT_BYTES ->
  append_rows first content rows =
    if ATTACHMENT_MAX_PANE_SNAPSHOT_BYTES <? zlen (content ++ crlf_rows first rows)
    then Err ProjectionTooLarge else Ok (content ++ crlf_rows first rows).
Proof.
  revert first content; induction rows as [|row rows IH]; intros first content Hc.
  - cbn. rewrite app_nil_r. by rewrite (proj2 (Z.ltb_ge _ _)) by lia.
  - cbn [append_rows crlf_rows].
    set (content' := (if first then content else content ++ crlf) ++ row).
    assert (content ++ (if first then [] else crlf) ++ row ++ crlf_rows false rows
            = content' ++ crlf_rows false rows) as ->.
    { unfold content'. destruct first; cbn [app]; by rewrite !app_assoc. }
    destruct (Z.ltb_spec ATTACHMENT_MAX_PANE_SNAPSHOT_BYTES (zlen content')) as [Hlt | Hge].
    + rewrite (proj2 (Z.ltb_lt _ _)); [done |]. rewrite zlen_app.
      pose proof (zlen_nonneg (crlf_rows false rows)). lia.
    + by apply IH.
Qed.

Lemma append_terminal_state_app c t :
  append_terminal_state c t = c ++ append_terminal_state [] t.
Proof. unfold append_terminal_state, append_mode. by rewrite <- !app_assoc. Qed.

Lemma capture_prefix_small t :
  zlen (capture_prefix t) <= ATTACHMENT_MAX_PANE_SNAPSHOT_BYTES.
Proof. unfold capture_prefix. destruct (has_mode t MODE_ALTERNATE); by vm_compute. Qed.

(** The cursor address of a pane that lies in its window needs no wrap and
    stays on the screen. *)
Lemma cursor_address_exact w p :
  pane_in_window w p ->
  cursor_row (terminal p) =
    cursor_y (terminal p) + 1
    - (if has_mode (terminal p) MODE_ORIGIN then scroll_upper (terminal p) else 0)
  /\ 1 <= cursor_row (terminal p) <= height p
  /\ cursor_column (terminal p) = cursor_x (terminal p) + 1
  /\ 1 <= cursor_column (terminal p) <= width p.
Proof.
  intros []. unfold cursor_row, cursor_column, u32_add, u32_sub, u32_max,
    ATTACHMENT_MAX_DIMENSION in *.
  destruct (has_mode _ MODE_ORIGIN); [specialize (piw_origin0 eq_refl) |];
    rewrite ?Z.mod_small; try lia; rewrite ?Z.mod_small; lia.
Qed.

(** The snapshot of a pane: for a pane inside its window the replay is
    the reset prefix, the captured rows joined by CR LF and the terminal
    state, refused iff that exceeds 256 KiB (the check after every row only
    stops earlier); the cursor is addressed inside the pane, relative to the
    scroll region in origin mode, and no [u32] operation wraps. *)
Theorem capture_lines_exact (rows : list bytes) (w : WindowProjection)
    (p : PaneProjection) (Hp : pane_in_window w p) :
  let t := terminal p in
  let out := capture_prefix t ++ crlf_rows true rows ++ append_terminal_state [] t in
  capture_lines rows p =
    (if ATTACHMENT_MAX_PANE_SNAPSHOT_BYTES <? zlen out
     then Err ProjectionTooLarge else Ok out)
  /\ (cursor_row t = cursor_y t + 1 - (if has_mode t MODE_ORIGIN then scroll_upper t else 0)
      /\ 1 <= cursor_row t <= height p
      /\ cursor_column t = cursor_x t + 1 /\ 1 <= cursor_column t <= width p)
  /\ u32_add (scroll_upper t) 1 = scroll_upper t + 1
  /\ u32_add (scroll_lower t) 1 = scroll_lower t + 1.
Proof.
  cbn zeta. split; [| split; [by eapply cursor_address_exact |]].
  - unfold capture_lines. rewrite append_rows_spec by apply capture_prefix_small.
    destruct (Z.ltb_spec ATTACHMENT_MAX_PANE_SNAPSHOT_BYTES
      (zlen (capture_prefix (terminal p) ++ crlf_rows true rows))) as [Hlt | Hge];
      cbn [mbind result_bind].
    + rewrite (proj2 (Z.ltb_lt _ _)); [done |]. rewrite app_assoc, zlen_app.
      pose proof (zlen_nonneg (append_terminal_state [] (terminal p))). lia.
    + by rewrite append_terminal_state_app, <- app_assoc.
  - destruct Hp. unfold u32_add, u32_max, ATTACHMENT_MAX_DIMENSION in *.
    rewrite !Z.mod_small by lia. done.
Qed.

Lemma capture_lines_exact_witness :
  is_ok (capture_lines [lit "one"; lit "two"] sample_pane) = true
  /\ cursor_row (terminal sample_pane) = 4.
Proof.
  destruct (capture_lines_exact [lit "one"; lit "two"] sample_window sample_pane
              sample_pane_in_window) as (H1 & (H2 & _) & _).
  split; [by rewrite H1; vm_compute | by rewrite H2].
Defined.

(** ** The version gate *)

(** The release string of a version. *)
Definition release_text (M m : Z) (patch : option byte) : bytes :=
  dec M ++ lit "." ++ dec m ++ match patch with Some c => [c] | None => [] end.

(** Lexicographically at least 3.2a. *)
Definition at_least_3_2a (M m : Z) (patch : option byte) : bool :=
  (3 <? M) || ((M =? 3) && ((2 <? m) || ((m =? 2) && bool_decide (patch <> None)))).

Lemma span_digits_app d v :
  forallb is_ascii_digit d = true ->
  match v with [] => True | c :: _ => is_ascii_digit c = false end ->
  span_digits (d ++ v) = (d, v).
Proof.
  intros Hd Hv. induction d as [|c d IH]; cbn in *.
  - destruct v as [|c v]; cbn; [done |]. by rewrite Hv.
  - split_bools. match goal with H : is_ascii_digit c = true |- _ => rewrite H end.
    by rewrite IH.
Qed.

Lemma dec_digits n : 0 <= n -> forallb is_ascii_digit (dec n) = true /\ dec n <> [].
Proof. intros H. by destruct (dec_spec n H) as (? & _ & ?). Qed.

Lemma parse_version_release_text M m patch :
  0 <= M <= u32_max -> 0 <= m <= u32_max ->
  match patch with Some c => is_ascii_lowercase c = true | None => True end ->
  parse_version_release (release_text M m patch) = Ok (M, m, bval <$> patch).
Proof.
  intros HM Hm Hp. unfold parse_version_release, release_text.
  destruct (dec_digits M) as [HMd HMn]; [lia |]. destruct (dec_digits m) as [Hmd Hmn]; [lia |].
  change (lit ".") with ["."%byte]. cbn [app].
  erewrite (proj2 (split_once_Some "."%byte _ (dec M) (dec m ++ _))).
  2:{ split; [done |]. by apply digits_not_elem. }
  cbn [ok_or mbind result_bind]. rewrite HMd, bool_decide_false by done. cbn [negb orb].
  rewrite span_digits_app; [| done |].
  2:{ destruct patch as [c|]; [| done].
      pose proof (byte_forall (fun c => implb (is_ascii_lowercase c) (negb (is_ascii_digit c)))
        ltac:(by vm_compute) c) as Hc. cbn in Hc. rewrite Hp in Hc. by destruct (is_ascii_digit c). }
  cbn [fst snd]. rewrite bool_decide_false by done.
  rewrite !parse_u32_dec by done.
  destruct patch as [c|]; cbn; [by rewrite Hp | done].
Qed.

(** The version gate: of the releases tmux prints ([M.m] with an
    optional letter), [validate_version] accepts exactly those that are
    3.2a or later in the order major, minor, letter; every other one is
    [Incompatible]. *)
Theorem validate_version_gate (M m : Z) (patch : option byte)
    (HM : 0 <= M <= u32_max) (Hm : 0 <= m <= u32_max)
    (Hp : match patch with Some c => is_ascii_lowercase c = true | None => True end) :
  validate_version (lit "tmux " ++ release_text M m patch) =
    if at_least_3_2a M m patch then Ok tt else Err Incompatible.
Proof.
  unfold validate_version. rewrite strip_prefix_app. cbn [ok_or mbind result_bind].
  rewrite bool_decide_false by (unfold KNOWN_BAD_VERSIONS; set_solver).
  rewrite parse_version_release_text by done. cbn [mbind result_bind].
  unfold at_least_3_2a.
  destruct (Z.ltb_spec M 3), (Z.eqb_spec M 3), (Z.ltb_spec 3 M), (Z.ltb_spec m 2),
    (Z.eqb_spec m 2), (Z.ltb_spec 2 m), patch; try lia; done.
Qed.

Lemma validate_version_gate_witness :
  validate_version (lit "tmux 3.2a") = Ok tt /\ validate_version (lit "tmux 3.2") = Err Incompatible.
Proof.
  split.
  - apply (validate_version_gate 3 2 (Some "a"%byte)); [by vm_compute .. | reflexivity].
  - apply (validate_version_gate 3 2 None); [by vm_compute .. | exact I].
Defined.

(** ** The session probe *)

Record session_wf (s : SessionSummary) : Prop := {
  swf_id : is_session_id (session_id s) = true;
  swf_name : zlen (session_name s) <= 128;
  swf_control : chars_any is_control (session_name s) = false;
  swf_created : 1 <= session_created s <= i64_max;
  swf_attached : 0 <= attached_client_count s <= 10000;
  swf_windows : 1 <= window_count s <= 10000;
}.

Lemma parse_count_Ok v n : parse_count v = Ok n -> 0 <= n <= 10000.
Proof. unfold parse_count. intros H. inv_ok. split_bools. apply parse_u32_range in H0. lia. Qed.

Lemma parse_i64_le v n : parse_i64 v = Some n -> n <= i64_max.
Proof.
  unfold parse_i64. destruct v as [|c v]; [done |]. case_decide.
  - destruct (parse_nonempty _ v) as [k|] eqn:E; [| done]. intros [= <-].
    assert (parse_unsigned (- i64_min) ("+"%byte :: v) = Some k) as Hk by done.
    apply parse_unsigned_range in Hk; unfold i64_min, i64_max in *; lia.
  - intros Hu%parse_unsigned_range; unfold i64_max in *; lia.
Qed.

Lemma parse_session_sound line s :
  parse_session line = Ok s -> window_count s <> 0 -> session_wf s.
Proof.
  unfold parse_session. intros H Hw.
  repeat match type of H with
         | (match ?l with _ => _ end) = _ =>
             match type of l with list _ => destruct l; try discriminate H end
         end.
  inv_ok. split_bools. unfold parse_positive_i64 in *. inv_ok. split_bools.
  repeat match goal with
  | H : parse_count _ = Ok _ |- _ => apply parse_count_Ok in H
  | H : parse_i64 _ = Some _ |- _ => apply parse_i64_le in H
  end.
  constructor; cbn in *; try done; lia.
Qed.

Lemma parse_sessions_sound rows acc ids ss :
  Forall session_wf acc -> zlen acc <= MAX_SESSIONS ->
  NoDup (map (fun s => (session_id s, session_created s)) acc) ->
  (forall i, i ∈ map (fun s => (session_id s, session_created s)) acc <-> i ∈ ids) ->
  parse_sessions rows acc ids = Ok ss ->
  Forall session_wf ss /\ zlen ss <= MAX_SESSIONS
  /\ NoDup (map (fun s => (session_id s, session_created s)) ss).
Proof.
  revert acc ids; induction rows as [|l rows IH]; intros acc ids Hwf Hlen Hnd Hids H;
    cbn [parse_sessions] in H; [by inv_ok |].
  case_bool_decide; [by eapply IH |]. inv_ok. split_bools.
  match goal with H : parse_sessions _ _ _ = _ |- _ => eapply IH in H; [done | | | |] end.
  - apply Forall_app. split; [done |]. constructor; [| constructor].
    eapply parse_session_sound; [eassumption | lia].
  - rewrite zlen_app, zlen_cons. change (zlen (@nil SessionSummary)) with 0. lia.
  - rewrite map_app. apply NoDup_app. split; [done |]. split; [| apply NoDup_singleton].
    intros i Hi Hin. cbn in Hin. apply list_elem_of_singleton in Hin as ->.
    by apply Hids in Hi.
  - intros i. rewrite map_app, elem_of_app. cbn. rewrite list_elem_of_singleton.
    rewrite Hids. set_solver.
Qed.

(** What the chooser is shown: an accepted probe has a client (and, when
    it reports sessions, a server) that passed the version gate, at most 128
    sessions, each with a well-formed id, a name of at most 128 bytes without
    control characters and sane counts, and no two sessions with the same
    (id, creation time) identity. *)
Theorem parse_probe_sound (stdout : bytes) (epoch : Z) (r : ProbeResult)
    (H : parse_probe stdout epoch = Ok r) :
  validate_version (tmux_client_version r) = Ok tt
  /\ (forall v, tmux_server_version r = Some v -> validate_version v = Ok tt)
  /\ (sessions r <> [] -> is_Some (tmux_server_version r))
  /\ zlen (sessions r) <= MAX_SESSIONS
  /\ Forall session_wf (sessions r)
  /\ NoDup (map (fun s => (session_id s, session_created s)) (sessions r))
  /\ selection_epoch r = epoch.
Proof.
  unfold parse_probe in H. destruct (lines stdout) as [|first rest]; [done |]. inv_ok.
  destruct rest as [|second rest]; [done |]. inv_ok.
  match goal with H : parse_sessions _ _ _ = _ |- _ =>
    apply parse_sessions_sound in H as (Hwf & Hlen & Hnd) end;
    [| constructor | by unfold MAX_SESSIONS | constructor | set_solver].
  match goal with H : validate_version v = Ok ?u |- _ => destruct u end.
  repeat split; cbn; try done.
  - intros v' ->. match goal with
      H : (if bool_decide (_ = lit "none") then _ else _) = _ |- _ =>
        destruct (bool_decide (_ = lit "none")) in H end; inv_ok; try done.
    match goal with H : validate_version _ = Ok ?u |- _ => by destruct u end.
  - intros Hne. destruct v2; [done |]. exfalso.
    match goal with H : negb _ && _ = false |- _ =>
      apply andb_false_iff in H as [H | H]; split_bools end; done.
Qed.

Definition sample_probe : bytes :=
  PROBE_CLIENT_PREFIX ++ lit "tmux 3.4" ++ ["010"%byte] ++ PROBE_SERVER_PREFIX
  ++ lit "tmux 3.4" ++ ["010"%byte] ++ lit "$1:1700000000:1:2:alpha" ++ ["010"%byte]
  ++ lit "$2:1700000000:0:1:a:b" ++ ["010"%byte].

Lemma parse_probe_sound_witness :
  exists r, parse_probe sample_probe 7 = Ok r
  /\ map session_name (sessions r) = [lit "alpha"; lit "a:b"]
  /\ zlen (sessions r) <= MAX_SESSIONS.
Proof.
  eexists. split; [vm_compute; reflexivity |]. split; [vm_compute; reflexivity |].
  eapply (parse_probe_sound sample_probe 7). vm_compute. reflexivity.
Defined.
