(* ===== verification/TmuxControl.v ===== *)
(** * TmuxControl: the control-mode adapter

    Models the stateful half of [crates/owlmux-server/src/tmux.rs]
    ([ControlAdapter]) over the line transport of [ssh.rs]
    ([ControlChild::next_line], [send_command]): the notification queue with
    its bounds, guarded responses, mutating commands, and the hydration of one
    workspace projection.

    The outside world is a script the state carries: [wire], what the child
    delivers next, where [Elapse] is the response deadline firing while the
    adapter waits; and [writes], the fate of the coming writes.  An exhausted
    [wire] is the end of the stream. *)

From S2P Require Import Prelude Text Contracts Ssh TmuxGrammar.

(** ** The control child *)

Inductive WireRecord : Type :=
| Line (line : bytes) | LineError (e : SshError) | Elapse.
Inductive WriteFate : Type := Delivered | LeaseLost | WriteFailed.

(** [identity_path] is [Some removable] until the identity file is taken. *)
Record ControlChild : Type := {
  wire : list WireRecord; writes : list WriteFate;
  identity_path : option bool; sent : list bytes;
}.

(** The identity is unlinked at the first [%begin] record. *)
Definition on_line (unlink : option bool) (line : bytes)
    : option bool * result SshError bytes :=
  if starts_with (lit "%begin ") line then
    match unlink with
    | Some removable => (None, if removable then Ok line else Err SshCustody)
    | None => (None, Ok line)
    end
  else (unlink, Ok line).

(** [next_line] with no deadline running: time passing changes nothing. *)
Fixpoint next_line_from (wire : list WireRecord) (unlink : option bool)
    : list WireRecord * option bool * result SshError bytes :=
  match wire with
  | [] => ([], unlink, Err SshUnavailable)
  | Elapse :: rest => next_line_from rest unlink
  | LineError e :: rest => (rest, unlink, Err e)
  | Line line :: rest => let '(unlink, r) := on_line unlink line in (rest, unlink, r)
  end.

Definition send_command (c : ControlChild) (command : bytes) : ControlChild * ssh unit :=
  let fate := default Delivered (head (writes c)) in
  let c := {| wire := wire c; writes := tail (writes c);
              identity_path := identity_path c; sent := sent c |} in
  match fate with
  | LeaseLost => (c, Err SshFenced)
  | _ =>
      if negb (valid_command command) then (c, Err SshInvalidState)
      else match fate with
           | WriteFailed => (c, Err SshUnavailable)
           | _ => ({| wire := wire c; writes := writes c; identity_path := identity_path c;
                      sent := sent c ++ [command] |}, Ok tt)
           end
  end.

(** ** The event queue *)

Inductive ControlEvent : Type :=
| Output (output_pane : bytes) (data : bytes) | Refresh | Exit.
Global Instance ControlEvent_eq_dec : EqDecision ControlEvent.
Proof. solve_decision. Defined.

Record Queue : Type := { events : list ControlEvent; queued_output_bytes : Z }.
Definition empty_queue : Queue := {| events := []; queued_output_bytes := 0 |}.

Definition queue_event (q : Queue) (e : ControlEvent) : Queue * tmux unit :=
  if MAX_QUEUED_EVENTS <=? zlen (events q) then (q, Err Protocol)
  else ({| events := events q ++ [e]; queued_output_bytes := queued_output_bytes q |}, Ok tt).

(** [slice::chunks]: the fuel is the length of the slice. *)
Fixpoint chunks_from (fuel n : nat) (v : bytes) : list bytes :=
  match fuel with
  | O => []
  | S fuel => match v with
              | [] => []
              | _ => take n v :: chunks_from fuel n (drop n v)
              end
  end.
Definition chunks (n : nat) (v : bytes) : list bytes := chunks_from (length v) n v.

Fixpoint queue_chunks (q : Queue) (pane : bytes) (parts : list bytes) : Queue * tmux unit :=
  match parts with
  | [] => (q, Ok tt)
  | chunk :: rest =>
      match checked_add usize_max (queued_output_bytes q) (zlen chunk) with
      | None => (q, Err Protocol)
      | Some n =>
          let q := {| events := events q; queued_output_bytes := n |} in
          if MAX_QUEUED_OUTPUT_BYTES <? n then (q, Err Protocol)
          else match queue_event q (Output pane chunk) with
               | (q, Err e) => (q, Err e)
               | (q, Ok _) => queue_chunks q pane rest
               end
      end
  end.

Definition queue_output (q : Queue) (pane encoded : bytes) : Queue * tmux unit :=
  match from_utf8 pane with
  | None => (q, Err Protocol)
  | Some pane =>
      if negb (is_pane_id pane) then (q, Err Protocol)
      else match decode_escaped encoded with
           | Err e => (q, Err e)
           | Ok decoded =>
               queue_chunks q pane
                 (chunks (Z.to_nat ATTACHMENT_MAX_TERMINAL_CHUNK_BYTES) decoded)
           end
  end.

Definition pop_event (q : Queue) : Queue * option ControlEvent :=
  match events q with
  | [] => (q, None)
  | e :: rest =>
      ({| events := rest;
          queued_output_bytes :=
            match e with
            | Output _ data => saturating_sub (queued_output_bytes q) (zlen data)
            | _ => queued_output_bytes q
            end |}, Some e)
  end.

Definition is_output_of (pane : bytes) (e : ControlEvent) : bool :=
  match e with Output p _ => bool_decide (p = pane) | _ => false end.
Definition output_size (e : ControlEvent) : Z :=
  match e with Output _ data => zlen data | _ => 0 end.
Fixpoint output_bytes (events : list ControlEvent) : Z :=
  match events with [] => 0 | e :: rest => output_size e + output_bytes rest end.

Definition discard_pre_capture_output (events : list ControlEvent) (pane : bytes)
    : list ControlEvent * Z :=
  let kept := List.filter (fun e => negb (is_output_of pane e)) events in
  (kept, output_bytes kept).

Definition discard_captured_output (q : Queue) (pane : bytes) : Queue :=
  let '(kept, n) := discard_pre_capture_output (events q) pane in
  {| events := kept; queued_output_bytes := n |}.

(** [require_stable_cutover] pops until the queue is empty or an exit. *)
Fixpoint drain_cutover (fuel : nat) (q : Queue) (changed : bool) : Queue * tmux unit :=
  match fuel with
  | O => (q, Err Protocol)
  | S fuel =>
      match pop_event q with
      | (q, None) => (q, if changed then Err Changed else Ok tt)
      | (q, Some (Output _ _)) => drain_cutover fuel q changed
      | (q, Some Refresh) => drain_cutover fuel q true
      | (q, Some Exit) => (q, Err Target)
      end
  end.
Definition require_stable_cutover (q : Queue) : Queue * tmux unit :=
  drain_cutover (S (length (events q))) q false.

Definition require_live_cutover (q : Queue) : tmux unit :=
  if existsb (fun e => bool_decide (e = Exit)) (events q) then Err Target
  else if existsb (fun e => bool_decide (e = Refresh)) (events q) then Err Changed
  else Ok tt.

Definition ingest_notification (q : Queue) (line : bytes) : Queue * tmux unit :=
  let line := trim_one "010"%byte line in
  match strip_prefix (lit "%output ") line with
  | Some rest =>
      match split_once_space rest with
      | Ok (pane, data) => queue_output q pane data
      | Err e => (q, Err e)
      end
  | None =>
  match strip_prefix (lit "%extended-output ") line with
  | Some rest =>
      match split_once " "%byte rest with
      | None => (q, Err Protocol)
      | Some (pane, remaining) =>
          match split_sub (lit " : ") remaining with
          | None => (q, Err Protocol)
          | Some (age, data) =>
              if bool_decide (age = []) || negb (forallb is_ascii_digit age)
              then (q, Err Protocol) else queue_output q pane data
          end
      end
  | None =>
  if bool_decide (line = lit "%exit") || starts_with (lit "%exit ") line
  then queue_event q Exit
  else
  match strip_prefix (lit "%pause ") line with
  | Some pane =>
      match from_utf8 pane with
      | Some p => if is_pane_id p then queue_event q Refresh else (q, Err Protocol)
      | None => (q, Err Protocol)
      end
  | None =>
  match strip_prefix (lit "%continue ") line with
  | Some pane =>
      match from_utf8 pane with
      | Some p => (q, if is_pane_id p then Ok tt else Err Protocol)
      | None => (q, Err Protocol)
      end
  | None =>
  if is_refresh_notification line then queue_event q Refresh
  else if is_ignorable_notification line then (q, Ok tt)
  else (q, Err Protocol)
  end end end end.

(** ** Guarded responses *)

Record ResponseBudget : Type := { records : Z; wire_bytes : Z }.
Definition new_budget : ResponseBudget := {| records := 0; wire_bytes := 0 |}.

Definition observe (b : ResponseBudget) (line : bytes) : tmux ResponseBudget :=
  records ← ok_or Protocol (checked_add usize_max (records b) 1);
  wire_bytes ← ok_or Protocol (checked_add usize_max (wire_bytes b) (zlen line));
  if (MAX_RESPONSE_RECORDS <? records) || (MAX_RESPONSE_WIRE_BYTES <? wire_bytes)
  then Err Protocol
  else Ok {| records := records; wire_bytes := wire_bytes |}.

(** The loop variables of [read_response_with_limit_inner]. *)
Record Reading : Type := {
  marker : option (Z * Z * Z); size : Z; budget : ResponseBudget; rows : list bytes;
}.
Definition start_reading : Reading :=
  {| marker := None; size := 0; budget := new_budget; rows := [] |}.

Inductive ReadStep : Type := Continue (s : Reading) | Return (r : tmux (list bytes)).

(** The loop body after a line has been read and budgeted, inside a guard. *)
Definition guarded_line (max_bytes : Z) (s : Reading) (opened : Z * Z * Z) (line : bytes)
    : ReadStep :=
  match parse_marker line (lit "%end ") with
  | Err e => Return (Err e)
  | Ok (Some closing) => Return (if bool_decide (opened = closing) then Ok (rows s) else Err Protocol)
  | Ok None =>
  match parse_marker line (lit "%error ") with
  | Err e => Return (Err e)
  | Ok (Some closing) => Return (if bool_decide (opened = closing) then Err Target else Err Protocol)
  | Ok None =>
  if starts_with (lit "%begin ") line then Return (Err Protocol)
  else
    let payload := command_payload line in
    match checked_add usize_max (size s) (zlen payload) with
    | None => Return (Err Protocol)
    | Some n =>
        if max_bytes <? n then Return (Err ProjectionTooLarge)
        else Continue {| marker := marker s; size := n; budget := budget s;
                         rows := rows s ++ [payload] |}
    end
  end end.

Definition read_step (max_bytes : Z) (q : Queue) (s : Reading) (line : bytes)
    : Queue * ReadStep :=
  match observe (budget s) line with
  | Err e => (q, Return (Err e))
  | Ok b =>
      let s := {| marker := marker s; size := size s; budget := b; rows := rows s |} in
      match marker s with
      | Some opened => (q, guarded_line max_bytes s opened line)
      | None =>
          match parse_marker line (lit "%begin ") with
          | Err e => (q, Return (Err e))
          | Ok (Some m) => (q, Continue {| marker := Some m; size := size s; budget := b;
                                           rows := rows s |})
          | Ok None => match ingest_notification q line with
                       | (q, Err e) => (q, Return (Err e))
                       | (q, Ok _) => (q, Continue s)
                       end
          end
      end
  end.

Fixpoint read_response_from (wire : list WireRecord) (unlink : option bool) (q : Queue)
    (max_bytes : Z) (s : Reading)
    : list WireRecord * option bool * Queue * tmux (list bytes) :=
  match wire with
  | [] => ([], unlink, q, Err (TmuxSsh SshUnavailable))
  | Elapse :: rest => (rest, unlink, q, Err Deadline)
  | LineError e :: rest => (rest, unlink, q, Err (TmuxSsh e))
  | Line line :: rest =>
      match on_line unlink line with
      | (unlink, Err e) => (rest, unlink, q, Err (TmuxSsh e))
      | (unlink, Ok line) =>
          match read_step max_bytes q s line with
          | (q, Continue s) => read_response_from rest unlink q max_bytes s
          | (q, Return r) => (rest, unlink, q, r)
          end
      end
  end.

(** ** The adapter *)

Record Adapter : Type := { child : ControlChild; queue : Queue }.

(** An operation on [&mut self]: the state survives an error. *)
Definition M (A : Type) : Type := Adapter -> Adapter * tmux A.
Global Instance M_ret : MRet M := fun A a s => (s, Ok a).
Global Instance M_bind : MBind M := fun A B f m s =>
  match m s with
  | (s, Ok a) => f a s
  | (s, Err e) => (s, Err e)
  end.
Definition lift {A} (r : tmux A) : M A := fun s => (s, r).
Definition on_queue {A} (f : Queue -> Queue * tmux A) : M A := fun s =>
  let '(q, r) := f (queue s) in ({| child := child s; queue := q |}, r).

Definition send (command : bytes) : M unit := fun s =>
  let '(c, r) := send_command (child s) command in
  ({| child := c; queue := queue s |}, map_err TmuxSsh r).

Definition read_response_with_limit (max_bytes : Z) : M (list bytes) := fun s =>
  let c := child s in
  let '(w, unlink, q, r) :=
    read_response_from (wire c) (identity_path c) (queue s) max_bytes start_reading in
  ({| child := {| wire := w; writes := writes c; identity_path := unlink; sent := sent c |};
      queue := q |}, r).

Definition clear_events : M unit := on_queue (fun _ => (empty_queue, Ok tt)).

Definition command (text : bytes) (max_bytes : Z) : M (list bytes) :=
  send text ;; read_response_with_limit max_bytes.

Definition next_line : M bytes := fun s =>
  let c := child s in
  let '(w, unlink, r) := next_line_from (wire c) (identity_path c) in
  ({| child := {| wire := w; writes := writes c; identity_path := unlink; sent := sent c |};
      queue := queue s |}, map_err TmuxSsh r).

Definition pump_event : M unit :=
  line ← next_line; on_queue (fun q => ingest_notification q line).

(** [next_event]: the fuel bounds the lines that are still to come. *)
Fixpoint next_event_loop (fuel : nat) : M ControlEvent :=
  match fuel with
  | O => lift (Err (TmuxSsh SshUnavailable))
  | S fuel => fun s =>
      match pop_event (queue s) with
      | (q, Some e) => ({| child := child s; queue := q |}, Ok e)
      | (q, None) => (pump_event ;; next_event_loop fuel) {| child := child s; queue := q |}
      end
  end.
Definition next_event : M ControlEvent := fun s =>
  next_event_loop (S (S (length (wire (child s))))) s.

Definition start_flags : bytes := lit "refresh-client -f 'read-only,ignore-size,pause-after=1'".
Definition start_subscription : bytes :=
  lit "refresh-client -B 'owlmux-pane-v1:%*:#{pane_title}|#{pane_current_command}|#{pane_active}|#{pane_width}|#{pane_height}|#{pane_left}|#{pane_top}'".

(** [ControlAdapter::start]. *)
Definition start : M unit :=
  read_response_with_limit MAX_RESPONSE_BYTES ;;
  command start_flags MAX_RESPONSE_BYTES ;;
  command start_subscription MAX_RESPONSE_BYTES ;;
  clear_events.

(** ** Mutating commands *)

Inductive MutationOutcome : Type := Succeeded | Failed | Ambiguous.
Global Instance MutationOutcome_eq_dec : EqDecision MutationOutcome.
Proof. solve_decision. Defined.

Definition mutating_command (text : bytes) : Adapter -> Adapter * MutationOutcome := fun s =>
  match send text s with
  | (s, Err _) => (s, Ambiguous)
  | (s, Ok _) =>
      match read_response_with_limit MAX_RESPONSE_BYTES s with
      | (s, Ok _) => (s, Succeeded)
      | (s, Err Target) => (s, Failed)
      | (s, Err _) => (s, Ambiguous)
      end
  end.

(** Two mutations in a row; the second runs only after the first succeeded. *)
Definition then_mutate (first second : bytes) (s : Adapter) : Adapter * MutationOutcome :=
  match mutating_command first s with
  | (s, Succeeded) => mutating_command second s
  | (s, outcome) => (s, outcome)
  end.

Definition set_writer (writer : bool) (s : Adapter) : Adapter * MutationOutcome :=
  if writer
  then then_mutate (lit "switch-client -r") (lit "refresh-client -f '!ignore-size,pause-after=1'") s
  else then_mutate (lit "refresh-client -f 'ignore-size,pause-after=1'") (lit "switch-client -r") s.

(** A guarded operation: refused before anything is sent, or one mutation. *)
Definition guarded_mutation (guard : bool) (text : bytes) (s : Adapter)
    : Adapter * tmux MutationOutcome :=
  if guard then let '(s, o) := mutating_command text s in (s, Ok o) else (s, Err Protocol).

Definition resize (columns rows : Z) : Adapter -> Adapter * tmux MutationOutcome :=
  guarded_mutation (valid_grid columns rows)
    (lit "refresh-client -C " ++ dec columns ++ lit "x" ++ dec rows).

Definition send_literal (pane data : bytes) (s : Adapter) : Adapter * tmux MutationOutcome :=
  match render_literal_input pane data with
  | Err e => (s, Err e)
  | Ok text => let '(s, o) := mutating_command text s in (s, Ok o)
  end.

Definition select_window (window : bytes) : Adapter -> Adapter * tmux MutationOutcome :=
  guarded_mutation (is_window_id window) (lit "select-window -t " ++ window).

Definition select_pane (pane : bytes) : Adapter -> Adapter * tmux MutationOutcome :=
  guarded_mutation (is_pane_id pane) (lit "select-pane -t " ++ pane).

(** ** Observing a workspace *)

Definition PANE_FORMAT : bytes :=
  lit "#{pane_id}:#{window_id}:#{pane_active}:#{pane_width}:#{pane_height}:#{pane_left}:#{pane_top}:#{cursor_x}:#{cursor_y}:#{alternate_on}:#{cursor_flag}:#{insert_flag}:#{keypad_cursor_flag}:#{keypad_flag}:#{origin_flag}:#{wrap_flag}:#{scroll_region_upper}:#{scroll_region_lower}".

(** One row of [observe_windows]. *)
Definition parse_window_row (row : bytes) (identities : gset bytes) : tmux WindowSummary :=
  row ← ok_or Protocol (from_utf8 row);
  match splitn 3 ":"%byte row with
  | [window_id; active; name] =>
      active ← parse_flag active;
      if negb (is_window_id window_id) || bool_decide (window_id ∈ identities)
         || (128 <? zlen name) || chars_any is_control name
      then Err Protocol
      else Ok {| ws_window_id := window_id; ws_name := name; ws_active := active |}
  | _ => Err Protocol
  end.

Fixpoint parse_window_rows (rows : list bytes) (identities : gset bytes)
    : tmux (list WindowSummary) :=
  match rows with
  | [] => Ok []
  | row :: rest =>
      w ← parse_window_row row identities;
      ws ← parse_window_rows rest ({[ws_window_id w]} ∪ identities);
      Ok (w :: ws)
  end.

Definition parse_windows (rows : list bytes) : tmux (list WindowSummary) :=
  if bool_decide (rows = []) || (MAX_WINDOWS <? zlen rows) then Err Protocol
  else
    windows ← parse_window_rows rows ∅;
    if negb (zlen (List.filter ws_active windows) =? 1) then Err Protocol else Ok windows.

Definition observe_windows (session : bytes) : M (list WindowSummary) :=
  if negb (is_session_id session) then lift (Err Protocol)
  else
    rows ← command (lit "list-windows -t " ++ session
                    ++ lit " -F '#{window_id}:#{window_active}:#{window_name}'")
             MAX_RESPONSE_BYTES;
    lift (parse_windows rows).

(** The first answer of [observe_window]: id, width, height and layout. *)
Definition parse_window_response (response : list bytes) (session : bytes) (created : Z)
    : tmux (bytes * Z * Z * bytes) :=
  line ← single_line response;
  match splitn 6 ":"%byte line with
  | [observed_session; observed_created; window_id; width; height; layout] =>
      observed_created ← parse_positive_i64 observed_created;
      width ← parse_dimension width;
      height ← parse_dimension height;
      if negb (valid_grid width height) then Err ProjectionTooLarge
      else if negb (bool_decide (observed_session = session))
              || negb (observed_created =? created) || negb (is_window_id window_id)
              || bool_decide (layout = []) || (MAX_LAYOUT_BYTES <? zlen layout)
              || negb (forallb is_ascii_graphic layout)
      then Err Changed
      else Ok (window_id, width, height, layout)
  | _ => Err Protocol
  end.

Definition observe_window (session : bytes) (created : Z) : M WindowProjection :=
  if negb (is_session_id session) || (created <=? 0) then lift (Err Protocol)
  else
    response ← command (lit "display-message -p -t " ++ session
      ++ lit " '#{session_id}:#{session_created}:#{window_id}:#{window_width}:#{window_height}:#{window_layout}'")
      MAX_RESPONSE_BYTES;
    '(id, w, h, lay) ← lift (parse_window_response response session created);
    name ← command (lit "display-message -p -t " ++ id ++ lit " '#{window_name}'")
             MAX_RESPONSE_BYTES;
    name ← lift (safe_text name 128);
    mret {| window_id := id; window_name := name; window_width := w; window_height := h;
            layout := lay |}.

Definition observe_panes (window : WindowProjection) : M (list PaneProjection) :=
  rows ← command (lit "list-panes -t " ++ window_id window ++ lit " -F '" ++ PANE_FORMAT
                  ++ lit "'") MAX_RESPONSE_BYTES;
  lift (parse_pane_rows rows window).

Definition set_labels (p : PaneProjection) (t c : bytes) : PaneProjection :=
  {| pane_id := pane_id p; active := active p; width := width p; height := height p;
     left := left p; top := top p; title := t; current_command := c;
     terminal := terminal p |}.
Definition set_terminal (p : PaneProjection) (t : PaneTerminalState) : PaneProjection :=
  {| pane_id := pane_id p; active := active p; width := width p; height := height p;
     left := left p; top := top p; title := title p; current_command := current_command p;
     terminal := t |}.

(** A pane whose labels are only partly read is never used: the error leaves
    [hydrate_once]. *)
Fixpoint observe_pane_labels (panes : list PaneProjection) : M (list PaneProjection) :=
  match panes with
  | [] => mret []
  | p :: rest =>
      t ← command (lit "display-message -p -t " ++ pane_id p ++ lit " '#{pane_title}'")
            MAX_RESPONSE_BYTES;
      t ← lift (safe_text t MAX_TEXT_BYTES);
      c ← command (lit "display-message -p -t " ++ pane_id p
                   ++ lit " '#{pane_current_command}'") MAX_RESPONSE_BYTES;
      c ← lift (safe_text c MAX_TEXT_BYTES);
      ps ← observe_pane_labels rest;
      mret (set_labels p t c :: ps)
  end.

Fixpoint each_pane (action : bytes) (panes : list PaneProjection) : M unit :=
  match panes with
  | [] => mret tt
  | p :: rest =>
      command (lit "refresh-client -A '" ++ pane_id p ++ lit ":" ++ action ++ lit "'")
        MAX_RESPONSE_BYTES ;;
      each_pane action rest
  end.
Definition pause_panes : list PaneProjection -> M unit := each_pane (lit "pause").
Definition continue_panes : list PaneProjection -> M unit := each_pane (lit "continue").

Record PaneSnapshot : Type := { snapshot_pane_id : bytes; content : bytes }.

(** [events.iter().skip(boundary)]. *)
Definition output_since (boundary : nat) (pane : bytes) (q : Queue) : bool :=
  existsb (is_output_of pane) (drop boundary (events q)).

Definition get_queue : M Queue := fun s => (s, Ok (queue s)).

Definition capture_barrier (pane : bytes) : M (bytes * list bytes) :=
  send (lit "capture-pane -p -e -N -t " ++ pane ++ lit " ; display-message -p -t " ++ pane
        ++ lit " '" ++ PANE_FORMAT ++ lit "'") ;;
  lines ← read_response_with_limit ATTACHMENT_MAX_PANE_SNAPSHOT_BYTES;
  before ← get_queue;
  metadata ← read_response_with_limit MAX_PANE_METADATA_BYTES;
  after ← get_queue;
  if output_since (length (events before)) pane after then lift (Err Changed)
  else metadata ← lift (single_line metadata); mret (metadata, lines).

(** [capture_panes]: the panes with their final terminal state, and the
    snapshots; [total] is [projection_bytes]. *)
Fixpoint capture_panes (window : WindowProjection) (panes : list PaneProjection) (total : Z)
    : M (list PaneProjection * list PaneSnapshot) :=
  match panes with
  | [] => mret ([], [])
  | p :: rest =>
      '(metadata, lines) ← capture_barrier (pane_id p);
      final_pane ← lift (parse_pane_row metadata window);
      if negb (same_pane_structure p final_pane) then lift (Err Changed)
      else
        let p := set_terminal p (terminal final_pane) in
        text ← lift (capture_lines lines p);
        total ← lift (ok_or Protocol (checked_add usize_max total (zlen text)));
        if ATTACHMENT_MAX_PROJECTION_BYTES <? total then lift (Err ProjectionTooLarge)
        else
          on_queue (fun q => (discard_captured_output q (pane_id p), Ok tt)) ;;
          '(ps, ss) ← capture_panes window rest total;
          mret (p :: ps, {| snapshot_pane_id := pane_id p; content := text |} :: ss)
  end.

(** [windows.iter().find(active).is_none_or(|w| w.window_id != id)]. *)
Definition active_differs (windows : list WindowSummary) (window : WindowProjection) : bool :=
  match List.find ws_active windows with
  | Some w => negb (bool_decide (ws_window_id w = window_id window))
  | None => true
  end.

Definition same_structures (observed expected : list PaneProjection) : bool :=
  (zlen observed =? zlen expected)
  && forallb (fun '(o, e) => same_pane_structure o e) (combine observed expected).

Definition revalidate_projection (session : bytes) (created : Z)
    (expected_window : WindowProjection) (expected_panes : list PaneProjection) : M unit :=
  windows ← observe_windows session;
  window ← observe_window session created;
  if negb (bool_decide (window = expected_window)) || active_differs windows window
  then lift (Err Changed)
  else
    panes ← observe_panes window;
    if negb (same_structures panes expected_panes) then lift (Err Changed) else mret tt.

Record WorkspaceProjection : Type := {
  wp_windows : list WindowSummary; wp_window : WindowProjection;
  wp_panes : list PaneProjection; wp_snapshots : list PaneSnapshot;
}.

Definition hydrate_once (session : bytes) (created : Z) : M WorkspaceProjection :=
  windows ← observe_windows session;
  window ← observe_window session created;
  if active_differs windows window then lift (Err Changed)
  else
    panes ← observe_panes window;
    panes ← observe_pane_labels panes;
    pause_panes panes ;;
    on_queue require_stable_cutover ;;
    continue_panes panes ;;
    '(panes, snapshots) ← capture_panes window panes 0;
    revalidate_projection session created window panes ;;
    on_queue (fun q => (q, require_live_cutover q)) ;;
    mret {| wp_windows := windows; wp_window := window; wp_panes := panes;
            wp_snapshots := snapshots |}.

Fixpoint hydrate_attempts (attempts : nat) (session : bytes) (created : Z)
    : M WorkspaceProjection :=
  match attempts with
  | O => lift (Err Changed)
  | S attempts => fun s =>
      match (clear_events ;; hydrate_once session created) s with
      | (s, Err Changed) => hydrate_attempts attempts session created s
      | (s, r) => (s, r)
      end
  end.
Definition hydrate : bytes -> Z -> M WorkspaceProjection :=
  hydrate_attempts MAX_HYDRATION_ATTEMPTS.
