(* ===== verification/TmuxSafety.v ===== *)
(** * TmuxSafety: what the control adapter guarantees

    Theorems about [TmuxControl]: the bounds and accounting of the event
    queue, the framing of guarded responses, the meaning of a mutation's
    outcome, an invariant of every adapter operation, and what a hydrated
    projection is known to satisfy. *)

From S2P Require Import Prelude Text Contracts Ssh TmuxGrammar TmuxPanes TmuxControl.

(** ** The event queue *)

Definition event_ok (e : ControlEvent) : Prop :=
  match e with
  | Output p d => is_pane_id p = true /\ 1 <= zlen d <= ATTACHMENT_MAX_TERMINAL_CHUNK_BYTES
  | _ => True
  end.

(** Bounds that hold whatever happened, errors included. *)
Record queue_ok (q : Queue) : Prop := {
  qo_events : zlen (events q) <= MAX_QUEUED_EVENTS;
  qo_bytes : output_bytes (events q) <= MAX_QUEUED_OUTPUT_BYTES;
  qo_counted : output_bytes (events q) <= queued_output_bytes q;
  qo_each : Forall event_ok (events q);
}.
(** The byte count is the sum over the queue. *)
Definition queue_exact (q : Queue) : Prop := queued_output_bytes q = output_bytes (events q).

Lemma output_bytes_app l k : output_bytes (l ++ k) = output_bytes l + output_bytes k.
Proof. induction l as [|x l IH]; cbn [app output_bytes]; lia. Qed.

Lemma output_size_nonneg e : 0 <= output_size e.
Proof. destruct e; cbn; [apply zlen_nonneg | lia | lia]. Qed.

Lemma output_bytes_nonneg l : 0 <= output_bytes l.
Proof.
  induction l as [|x l IH]; cbn; [lia |]. pose proof (output_size_nonneg x). lia.
Qed.

Lemma empty_queue_ok : queue_ok empty_queue.
Proof. constructor; cbn; try done; constructor. Qed.

Lemma chunks_from_spec fuel n v :
  (n <> 0)%nat -> (length v <= fuel)%nat ->
  concat (chunks_from fuel n v) = v
  /\ Forall (fun c => 1 <= zlen c <= Z.of_nat n) (chunks_from fuel n v).
Proof.
  intros Hn. revert v; induction fuel as [|fuel IH]; intros v Hl.
  { destruct v; [done | cbn in Hl; lia]. }
  destruct v as [|c v]; [done |]. cbn [chunks_from].
  destruct (IH (drop n (c :: v))) as [H1 H2].
  { rewrite length_drop. cbn in *. lia. }
  split; [cbn [concat]; by rewrite H1, take_drop |].
  constructor; [| done]. unfold zlen. rewrite length_take. cbn [length]. lia.
Qed.

Lemma chunks_spec n v :
  (n <> 0)%nat ->
  concat (chunks n v) = v /\ Forall (fun c => 1 <= zlen c <= Z.of_nat n) (chunks n v).
Proof. intros H. by apply chunks_from_spec. Qed.

Lemma queue_event_ok q e q' r :
  queue_event q e = (q', r) -> event_ok e ->
  (output_size e + output_bytes (events q) <= MAX_QUEUED_OUTPUT_BYTES) ->
  output_size e + output_bytes (events q) <= queued_output_bytes q ->
  queue_ok q -> queue_ok q' /\ (r = Ok tt -> events q' = events q ++ [e]
                                 /\ queued_output_bytes q' = queued_output_bytes q).
Proof.
  intros H He Hb Hc [].
  unfold queue_event in H. destruct (Z.leb_spec MAX_QUEUED_EVENTS (zlen (events q)));
    injection H as <- <-; [by split; [constructor |] |].
  split; [| done]. constructor; cbn [events queued_output_bytes].
  - rewrite zlen_app, zlen_cons. change (zlen (@nil ControlEvent)) with 0. lia.
  - rewrite output_bytes_app. cbn. lia.
  - rewrite output_bytes_app. cbn. lia.
  - apply Forall_app. split; [done | by constructor].
Qed.

Lemma queue_chunks_ok pane parts q q' r :
  queue_chunks q pane parts = (q', r) -> is_pane_id pane = true ->
  Forall (fun c => 1 <= zlen c <= ATTACHMENT_MAX_TERMINAL_CHUNK_BYTES) parts ->
  queue_ok q ->
  queue_ok q' /\ (r = Ok tt -> queue_exact q -> queue_exact q').
Proof.
  intros H Hp Hparts. revert q H; induction Hparts as [|c parts Hc Hparts IH];
    intros q H Hq; cbn [queue_chunks] in H.
  { by injection H as <- <-. }
  destruct (checked_add _ _ _) as [n|] eqn:En; [| by injection H as <- <-].
  apply checked_add_Some in En as [-> _]. destruct Hq as [He Hb Hk Ho] eqn:Eq.
  destruct (Z.ltb_spec MAX_QUEUED_OUTPUT_BYTES (queued_output_bytes q + zlen c)).
  { injection H as <- <-. split; [constructor; cbn; try done; lia | done]. }
  destruct (queue_event _ _) as [q1 [[]|e]] eqn:E1.
  - eapply queue_event_ok in E1 as [Hq1 Hr1]; cbn in *; try lia; try done;
      [| constructor; cbn; try done; lia].
    destruct (Hr1 eq_refl) as [He1 Hb1]. destruct (IH _ H Hq1) as [Hq' Hx'].
    split; [done |]. intros Hr Hx. apply Hx'; [done |].
    unfold queue_exact in *. rewrite He1, Hb1, output_bytes_app. cbn. lia.
  - injection H as <- <-. split; [| done].
    eapply queue_event_ok in E1 as [Hq1 _]; cbn in *; try lia; try done.
    constructor; cbn; try done; lia.
Qed.

Lemma queue_output_ok q pane enc q' r :
  queue_output q pane enc = (q', r) -> queue_ok q ->
  queue_ok q' /\ (r = Ok tt -> queue_exact q -> queue_exact q').
Proof.
  unfold queue_output. intros H Hq.
  destruct (from_utf8 pane); [| by injection H as <- <-].
  destruct (is_pane_id _) eqn:Hp; cbn [negb] in H; [| by injection H as <- <-].
  destruct (decode_escaped enc); [| by injection H as <- <-].
  pose proof (chunks_spec (Z.to_nat ATTACHMENT_MAX_TERMINAL_CHUNK_BYTES) value) as Hc.
  rewrite Z2Nat.id in Hc by (unfold ATTACHMENT_MAX_TERMINAL_CHUNK_BYTES; lia).
  eapply queue_chunks_ok; [exact H | done | | done].
  apply Hc. unfold ATTACHMENT_MAX_TERMINAL_CHUNK_BYTES. lia.
Qed.

Lemma queue_signal_ok q e q' r :
  queue_event q e = (q', r) -> output_size e = 0 -> event_ok e -> queue_ok q ->
  queue_ok q' /\ (r = Ok tt -> queue_exact q -> queue_exact q').
Proof.
  intros H He Ho Hq. pose proof Hq as [].
  eapply queue_event_ok in H as [Hq' Hr]; [| done | lia | lia | done].
  split; [done |]. intros Hok. destruct (Hr Hok) as [He' Hb']. unfold queue_exact.
  rewrite He', Hb', output_bytes_app. cbn. lia.
Qed.

Lemma ingest_notification_ok q line q' r :
  ingest_notification q line = (q', r) -> queue_ok q ->
  queue_ok q' /\ (r = Ok tt -> queue_exact q -> queue_exact q').
Proof.
  unfold ingest_notification. intros H Hq.
  repeat case_match; try (by injection H as <- <-);
    first [by eapply queue_output_ok | by eapply queue_signal_ok].
Qed.

Lemma pop_event_ok q q' e :
  pop_event q = (q', e) -> queue_ok q ->
  queue_ok q' /\ (queue_exact q -> queue_exact q').
Proof.
  unfold pop_event. intros H Hq. pose proof Hq as [He Hb Hc Ho].
  destruct (events q) as [|x l] eqn:E; injection H as <- <-; [done |].
  rewrite zlen_cons in He. inversion Ho; subst. cbn [output_bytes] in *.
  pose proof (output_size_nonneg x). pose proof (output_bytes_nonneg l).
  unfold queue_exact. rewrite E.
  cbn [events queued_output_bytes output_bytes].
  split; [constructor; cbn [events queued_output_bytes]; try done; try lia |];
    destruct x as [p d| |]; cbn [output_size] in *; unfold saturating_sub in *;
    rewrite ?Z.max_r; lia.
Qed.

Lemma discard_captured_output_ok q pane :
  queue_ok q ->
  queue_ok (discard_captured_output q pane) /\ queue_exact (discard_captured_output q pane).
Proof.
  intros [He Hb Hc Ho]. unfold discard_captured_output, discard_pre_capture_output.
  split; [| done]. set (f := fun e => negb (is_output_of pane e)).
  assert (zlen (List.filter f (events q)) <= zlen (events q)
          /\ output_bytes (List.filter f (events q)) <= output_bytes (events q)) as [H1 H2].
  { clear. induction (events q) as [|x l [IH1 IH2]]; [done |].
    pose proof (output_size_nonneg x). cbn [List.filter].
    destruct (f x); cbn [output_bytes]; rewrite ?zlen_cons; lia. }
  constructor; cbn [events queued_output_bytes]; try lia.
  apply List.Forall_forall. intros x Hx%List.filter_In. destruct Hx as [Hx _].
  rewrite List.Forall_forall in Ho. by apply Ho.
Qed.

Lemma drain_cutover_ok fuel q b q' r :
  drain_cutover fuel q b = (q', r) -> queue_ok q -> queue_ok q' /\ (queue_exact q -> queue_exact q').
Proof.
  revert q b; induction fuel as [|fuel IH]; intros q b H Hq; cbn in H;
    [by injection H as <- <- |].
  destruct (pop_event q) as [q1 e] eqn:Ep. apply pop_event_ok in Ep as [Hq1 Hx1]; [| done].
  destruct e as [[p d| |]|]; try (injection H as <- <-; by split);
    destruct (IH _ _ H Hq1); by auto.
Qed.

(** The fuel of [require_stable_cutover] is never used up: the loop ends at
    the first exit or with an empty queue. *)
Lemma drain_cutover_result fuel q b :
  (length (events q) < fuel)%nat ->
  exists q', drain_cutover fuel q b =
    (q', if existsb (fun e => bool_decide (e = Exit)) (events q) then Err Target
         else if b || existsb (fun e => bool_decide (e = Refresh)) (events q)
         then Err Changed else Ok tt).
Proof.
  revert q b; induction fuel as [|fuel IH]; intros q b Hf; [lia |].
  cbn [drain_cutover]. unfold pop_event. destruct (events q) as [|x l] eqn:E.
  - cbn. rewrite orb_false_r. eauto.
  - cbn [length] in Hf. destruct x as [p d| |]; cbn [existsb].
    + rewrite !bool_decide_false by done. cbn [orb]. apply (IH {| events := l |}). cbn. lia.
    + rewrite bool_decide_false by done. rewrite bool_decide_true by done.
      cbn [orb]. rewrite orb_true_r. cbn.
      destruct (IH {| events := l; queued_output_bytes := queued_output_bytes q |} true) as [q' Hq'];
        [cbn; lia |]. exists q'. exact Hq'.
    + rewrite bool_decide_true by done. cbn. eauto.
Qed.

(** ** Guarded responses *)

(** A payload line: none of the three guard records. *)
Definition opaque (line : bytes) : Prop :=
  starts_with (lit "%begin ") line = false /\ starts_with (lit "%end ") line = false
  /\ starts_with (lit "%error ") line = false.

Fixpoint ingest_all (q : Queue) (lines : list bytes) : option Queue :=
  match lines with
  | [] => Some q
  | l :: rest => match ingest_notification q l with
                 | (q, Ok _) => ingest_all q rest
                 | (_, Err _) => None
                 end
  end.

Fixpoint total_bytes (lines : list bytes) : Z :=
  match lines with [] => 0 | l :: rest => zlen l + total_bytes rest end.

Lemma total_bytes_app l k : total_bytes (l ++ k) = total_bytes l + total_bytes k.
Proof. induction l as [|x l IH]; cbn [app total_bytes]; lia. Qed.

Lemma total_bytes_nonneg l : 0 <= total_bytes l.
Proof.
  induction l as [|x l IH]; cbn [total_bytes]; [lia |]. pose proof (zlen_nonneg x). lia.
Qed.

(** One response on the wire: notifications (queued, turning [q] into [q']),
    then [%begin], the payload and the closing record with the same three
    numbers, all within the bounds. *)
Record response (closing : bytes) (q q' : Queue) (max_bytes : Z)
    (notes : list bytes) (opening : bytes) (body : list bytes) (ending : bytes) : Prop := {
  rsp_notes : Forall (fun l => starts_with (lit "%begin ") l = false) notes;
  rsp_queue : ingest_all q notes = Some q';
  rsp_stamp : exists stamp, parse_marker opening (lit "%begin ") = Ok (Some stamp)
                            /\ parse_marker ending closing = Ok (Some stamp);
  rsp_body : Forall opaque body;
  rsp_size : total_bytes (map command_payload body) <= max_bytes;
  rsp_records : zlen (notes ++ opening :: body ++ [ending]) <= MAX_RESPONSE_RECORDS;
  rsp_wire : total_bytes (notes ++ opening :: body ++ [ending]) <= MAX_RESPONSE_WIRE_BYTES;
}.

Lemma parse_marker_None l p : parse_marker l p = Ok None <-> starts_with p l = false.
Proof.
  unfold parse_marker, starts_with. destruct (strip_prefix p l); [| done].
  split; [| done]. intros H. inv_ok. by repeat case_match; inv_ok.
Qed.

Lemma parse_marker_Some l p m : parse_marker l p = Ok (Some m) -> starts_with p l = true.
Proof.
  intros H. destruct (starts_with p l) eqn:E; [done |].
  apply parse_marker_None in E. congruence.
Qed.

(** No line can start with two of the guard prefixes. *)
Lemma prefix_excl p1 p2 l :
  strip_prefix p1 p2 = None -> strip_prefix p2 p1 = None ->
  starts_with p1 l = true -> starts_with p2 l = false.
Proof.
  intros H1 H2 Hl. apply not_true_iff_false. intros Hl2.
  apply starts_with_spec in Hl as [r1 ->]. apply starts_with_spec in Hl2 as [r2 Hr].
  apply app_eq_app in Hr as (k & [[-> _] | [-> _]]).
  - by rewrite strip_prefix_app in H2.
  - by rewrite strip_prefix_app in H1.
Qed.

Lemma observe_Ok b l b' :
  observe b l = Ok b' <->
  b' = {| records := records b + 1; wire_bytes := wire_bytes b + zlen l |}
  /\ records b + 1 <= MAX_RESPONSE_RECORDS
  /\ wire_bytes b + zlen l <= MAX_RESPONSE_WIRE_BYTES.
Proof.
  unfold observe. split.
  - intros H. inv_ok. split_bools. apply checked_add_Some in H0 as [-> _].
    match goal with H : checked_add _ _ _ = Some _ |- _ => apply checked_add_Some in H as [-> _] end.
    done.
  - intros (-> & H1 & H2). unfold MAX_RESPONSE_RECORDS, MAX_RESPONSE_WIRE_BYTES in *.
    rewrite !checked_add_small by (unfold usize_max, u64_max; lia). cbn.
    rewrite (proj2 (Z.ltb_ge _ _)) by lia. by rewrite (proj2 (Z.ltb_ge _ _)) by lia.
Qed.

Lemma observe_fits b l :
  records b + 1 <= MAX_RESPONSE_RECORDS -> wire_bytes b + zlen l <= MAX_RESPONSE_WIRE_BYTES ->
  observe b l = Ok {| records := records b + 1; wire_bytes := wire_bytes b + zlen l |}.
Proof. intros. by apply observe_Ok. Qed.

Lemma observe_Err b l e : observe b l = Err e -> e = Protocol.
Proof.
  unfold observe. intros H.
  repeat (apply bind_Err in H as [H | (? & _ & H)]; [by apply ok_or_Err in H as [_ ->] |]).
  case_match; [by injection H | done].
Qed.

Lemma on_line_other u l : starts_with (lit "%begin ") l = false -> on_line u l = (u, Ok l).
Proof. intros H. unfold on_line. by rewrite H. Qed.

Lemma on_line_begin u l :
  u <> Some false -> starts_with (lit "%begin ") l = true -> on_line u l = (None, Ok l).
Proof. intros Hu H. unfold on_line. rewrite H. by destruct u as [[]|]. Qed.

Lemma on_line_Ok u l u' l' : on_line u l = (u', Ok l') -> l' = l.
Proof. unfold on_line. intros H. by repeat case_match; simplify_eq. Qed.

Lemma parse_marker_Err l p e : parse_marker l p = Err e -> e = Protocol.
Proof.
  unfold parse_marker. intros H. destruct (strip_prefix p l); [| done].
  apply bind_Err in H as [H | (w & _ & H)]; [by apply ok_or_Err in H as [_ ->] |].
  destruct (split_whitespace w) as [|f0 [|f1 [|f2 [|]]]]; try (by injection H).
  repeat (apply bind_Err in H as [H | (? & _ & H)]; [by apply ok_or_Err in H as [_ ->] |]).
  done.
Qed.

Lemma ingest_notification_Err q l q' e : ingest_notification q l = (q', Err e) -> e = Protocol.
Proof.
  assert (forall q ev q' e, queue_event q ev = (q', Err e) -> e = Protocol) as Hev.
  { unfold queue_event. intros. case_match; by simplify_eq. }
  assert (forall parts q p q' e, queue_chunks q p parts = (q', Err e) -> e = Protocol) as Hch.
  { induction parts as [|c parts IH]; intros q0 p q0' e0 H; cbn in H; [done |].
    repeat case_match; simplify_eq; try done; [by eapply IH | by eapply Hev]. }
  assert (forall q p d q' e, queue_output q p d = (q', Err e) -> e = Protocol) as Hout.
  { unfold queue_output. intros q0 p d q0' e0 H. repeat case_match; simplify_eq; try done.
    - by eapply Hch.
    - by eapply decode_escaped_error. }
  unfold ingest_notification, split_once_space. intros H.
  repeat case_match; simplify_eq; try done;
    first [by eapply Hout | by eapply Hev | idtac].
  match goal with H : ok_or _ _ = Err _ |- _ => by apply ok_or_Err in H as [_ ->] end.
Qed.

(** How the loop may end once the guard is open. *)
Definition closes_with (r : tmux (list bytes)) (closing : bytes) (expected : list bytes) : Prop :=
  (r = Ok expected /\ closing = lit "%end ") \/ (r = Err Target /\ closing = lit "%error ").
Definition settled (r : tmux (list bytes)) : Prop := is_ok r = true \/ r = Err Target.

Lemma guarded_line_closes max s m l r :
  guarded_line max s m l = Return r -> settled r ->
  exists closing, parse_marker l closing = Ok (Some m) /\ closes_with r closing (rows s).
Proof.
  unfold guarded_line, closes_with, settled. intros H Hr.
  destruct (parse_marker l (lit "%end ")) as [[c|]|e] eqn:E1.
  - injection H as <-. case_bool_decide; subst; [by eauto | naive_solver].
  - destruct (parse_marker l (lit "%error ")) as [[c|]|e] eqn:E2.
    + injection H as <-. case_bool_decide; subst; [by eauto | naive_solver].
    + repeat case_match; simplify_eq; naive_solver.
    + apply parse_marker_Err in E2 as ->. naive_solver.
  - apply parse_marker_Err in E1 as ->. naive_solver.
Qed.

Lemma guarded_line_continue max s m l s' :
  guarded_line max s m l = Continue s' <->
  opaque l /\ size s + zlen (command_payload l) <= max
  /\ size s + zlen (command_payload l) <= usize_max
  /\ s' = {| marker := marker s; size := size s + zlen (command_payload l);
             budget := budget s; rows := rows s ++ [command_payload l] |}.
Proof.
  unfold guarded_line, opaque. split.
  - intros H. destruct (parse_marker l (lit "%end ")) as [[c|]|e] eqn:E1; try done.
    destruct (parse_marker l (lit "%error ")) as [[c|]|e] eqn:E2; try done.
    apply parse_marker_None in E1, E2.
    destruct (starts_with (lit "%begin ") l) eqn:E3; [done |].
    destruct (checked_add _ _ _) as [n|] eqn:En; [| done].
    apply checked_add_Some in En as [-> Hn].
    destruct (Z.ltb_spec max (size s + zlen (command_payload l))); [done |].
    by injection H as <-.
  - intros ((H1 & H2%parse_marker_None & H3%parse_marker_None) & Hm & Hu & ->).
    rewrite H2, H3, H1, checked_add_small by done.
    by rewrite (proj2 (Z.ltb_ge _ _)) by lia.
Qed.

Lemma guarded_line_fits max s m l :
  opaque l -> size s + zlen (command_payload l) <= max -> max <= usize_max ->
  guarded_line max s m l =
    Continue {| marker := marker s; size := size s + zlen (command_payload l);
                budget := budget s; rows := rows s ++ [command_payload l] |}.
Proof. intros. apply guarded_line_continue. repeat split; try apply H; lia. Qed.

(** What is read from an open guard to its closing record. *)
Lemma read_guarded_sound w u q max s m w' u' q' r :
  marker s = Some m ->
  read_response_from w u q max s = (w', u', q', r) -> settled r ->
  exists body ending closing,
    w = map Line (body ++ [ending]) ++ w' /\ Forall opaque body
    /\ parse_marker ending closing = Ok (Some m) /\ q' = q
    /\ closes_with r closing (rows s ++ map command_payload body)
    /\ (size s <= max -> size s + total_bytes (map command_payload body) <= max)
    /\ records (budget s) + zlen (body ++ [ending]) <= MAX_RESPONSE_RECORDS
    /\ wire_bytes (budget s) + total_bytes (body ++ [ending]) <= MAX_RESPONSE_WIRE_BYTES.
Proof.
  revert u q s; induction w as [|[l|e|] w IH]; intros u q s Hm H Hr; cbn in H;
    try (injection H as <- <- <- <-; by destruct Hr).
  destruct (on_line u l) as [u1 [l1|e]] eqn:Eu;
    [| injection H as <- <- <- <-; by destruct Hr].
  apply on_line_Ok in Eu as Hl1. subst l1. unfold read_step in H.
  destruct (observe (budget s) l) as [b|e] eqn:Eb.
  2:{ apply observe_Err in Eb as ->. injection H as <- <- <- <-. by destruct Hr. }
  apply observe_Ok in Eb as (-> & Hrec & Hwire). cbn [marker] in H. rewrite Hm in H.
  match type of H with context [guarded_line max ?x m l] => set (s1 := x) in * end.
  destruct (guarded_line max s1 m l) as [s2|r2] eqn:Eg.
  - apply guarded_line_continue in Eg as (Ho & Hsz & _ & ->).
    apply IH in H as (body & e & closing & -> & Hb & He & -> & Hc & Hs & Hr' & Hw');
      [| done | done].
    exists (l :: body), e, closing. subst s1. cbn [size budget rows records wire_bytes] in *.
    specialize (Hs Hsz). cbn [app map]. rewrite <- app_assoc in Hc. rewrite !zlen_cons.
    cbn [total_bytes]. split; [done |]. split; [by constructor |].
    repeat split; try done; intros; lia.
  - injection H as <- <- <- <-. apply guarded_line_closes in Eg as (closing & He & Hc); [| done].
    exists [], l, closing. subst s1. cbn [rows] in Hc. cbn [app map total_bytes].
    rewrite app_nil_r. change (zlen [l]) with 1.
    repeat split; try done; intros; lia.
Qed.

(** The whole loop, from a state that waits for its guard. *)
Lemma read_waiting_sound w u q max s w' u' q' r :
  marker s = None -> rows s = [] -> size s = 0 -> 0 <= max ->
  read_response_from w u q max s = (w', u', q', r) -> settled r ->
  exists notes opening body ending closing stamp,
    w = map Line (notes ++ opening :: body ++ [ending]) ++ w'
    /\ Forall (fun l => starts_with (lit "%begin ") l = false) notes
    /\ ingest_all q notes = Some q'
    /\ parse_marker opening (lit "%begin ") = Ok (Some stamp)
    /\ parse_marker ending closing = Ok (Some stamp)
    /\ Forall opaque body /\ closes_with r closing (map command_payload body)
    /\ total_bytes (map command_payload body) <= max
    /\ records (budget s) + zlen (notes ++ opening :: body ++ [ending]) <= MAX_RESPONSE_RECORDS
    /\ wire_bytes (budget s) + total_bytes (notes ++ opening :: body ++ [ending])
       <= MAX_RESPONSE_WIRE_BYTES.
Proof.
  revert u q s; induction w as [|[l|e|] w IH]; intros u q s Hm Hrows Hsize Hmax H Hr;
    cbn in H; try (injection H as <- <- <- <-; by destruct Hr).
  destruct (on_line u l) as [u1 [l1|e]] eqn:Eu;
    [| injection H as <- <- <- <-; by destruct Hr].
  apply on_line_Ok in Eu as Hl1. subst l1. unfold read_step in H.
  destruct (observe (budget s) l) as [b|e] eqn:Eb.
  2:{ apply observe_Err in Eb as ->. injection H as <- <- <- <-. by destruct Hr. }
  apply observe_Ok in Eb as (-> & Hrec & Hwire). cbn [marker] in H. rewrite Hm in H.
  destruct (parse_marker l (lit "%begin ")) as [[m|]|e] eqn:Em.
  - eapply read_guarded_sound in H
      as (body & e & closing & -> & Hb & He & -> & Hc & Hs & Hr' & Hw'); [| reflexivity | done].
    cbn [size budget rows records wire_bytes] in *. rewrite Hrows in Hc. rewrite Hsize in Hs.
    specialize (Hs Hmax). exists [], l, body, e, closing, m.
    cbn [app total_bytes]. rewrite zlen_cons. repeat split; try done; lia.
  - destruct (ingest_notification q l) as [q1 [[]|e]] eqn:Ei.
    + apply IH in H as (notes & o & body & e & closing & m & -> & Hn & Hq & Ho & He & Hb & Hc
        & Hs & Hr' & Hw'); try done.
      cbn [budget records wire_bytes] in *.
      exists (l :: notes), o, body, e, closing, m.
      cbn [app total_bytes ingest_all]. rewrite zlen_cons, Ei.
      repeat split; try done; try lia. constructor; [by apply parse_marker_None | done].
    + apply ingest_notification_Err in Ei as ->. injection H as <- <- <- <-. by destruct Hr.
  - apply parse_marker_Err in Em as ->. injection H as <- <- <- <-. by destruct Hr.
Qed.

Lemma read_step_notes w u q q' max s notes :
  marker s = None -> Forall (fun l => starts_with (lit "%begin ") l = false) notes ->
  ingest_all q notes = Some q' ->
  records (budget s) + zlen notes <= MAX_RESPONSE_RECORDS ->
  wire_bytes (budget s) + total_bytes notes <= MAX_RESPONSE_WIRE_BYTES ->
  read_response_from (map Line notes ++ w) u q max s =
  read_response_from w u q' max
    {| marker := None; size := size s;
       budget := {| records := records (budget s) + zlen notes;
                    wire_bytes := wire_bytes (budget s) + total_bytes notes |};
       rows := rows s |}.
Proof.
  intros Hm Hn. revert q s Hm; induction Hn as [|l notes Hl Hn IH]; intros q s Hm Hq Hr Hw.
  { injection Hq as ->. cbn [map app]. cbn [total_bytes]. change (zlen (@nil bytes)) with 0. rewrite !Z.add_0_r.
    rewrite <- Hm. by destruct s as [? ? [? ?] ?]. }
  cbn [ingest_all] in Hq. destruct (ingest_notification q l) as [q1 [[]|e]] eqn:Ei; [| done].
  cbn [map app read_response_from total_bytes] in *. rewrite zlen_cons in *.
  pose proof (zlen_nonneg notes). pose proof (total_bytes_nonneg notes).
  rewrite on_line_other by done. unfold read_step.
  rewrite observe_fits by lia.
  cbn [marker]. rewrite Hm, (proj2 (parse_marker_None _ _)), Ei by done.
  rewrite IH; cbn [marker size budget rows records wire_bytes]; try done; try lia.
  do 3 f_equal; lia.
Qed.

Lemma read_guarded_body w u q max s m body :
  marker s = Some m -> Forall opaque body -> 0 <= size s -> max <= usize_max ->
  size s + total_bytes (map command_payload body) <= max ->
  records (budget s) + zlen body <= MAX_RESPONSE_RECORDS ->
  wire_bytes (budget s) + total_bytes body <= MAX_RESPONSE_WIRE_BYTES ->
  read_response_from (map Line body ++ w) u q max s =
  read_response_from w u q max
    {| marker := Some m; size := size s + total_bytes (map command_payload body);
       budget := {| records := records (budget s) + zlen body;
                    wire_bytes := wire_bytes (budget s) + total_bytes body |};
       rows := rows s ++ map command_payload body |}.
Proof.
  intros Hm Hb. revert s Hm; induction Hb as [|l body Hl Hb IH]; intros s Hm Hs Hmu Hmax Hr Hw.
  { cbn [map app total_bytes]. change (zlen (@nil bytes)) with 0. rewrite !Z.add_0_r, app_nil_r.
    rewrite <- Hm. by destruct s as [? ? [? ?] ?]. }
  cbn [map app read_response_from total_bytes] in *. rewrite zlen_cons in *.
  pose proof (zlen_nonneg body). pose proof (total_bytes_nonneg body).
  pose proof (total_bytes_nonneg (map command_payload body)).
  pose proof (zlen_nonneg (command_payload l)).
  rewrite on_line_other by apply Hl. unfold read_step.
  rewrite observe_fits by lia.
  cbn [marker]. rewrite Hm.
  rewrite guarded_line_fits by (done || cbn [size]; lia).
  rewrite IH; cbn [marker size budget rows records wire_bytes]; try done; try lia.
  rewrite <- app_assoc. cbn [app]. do 2 f_equal; [lia | f_equal; lia].
Qed.

Lemma read_guarded_end w u q max s m ending :
  marker s = Some m -> parse_marker ending (lit "%end ") = Ok (Some m) ->
  records (budget s) + 1 <= MAX_RESPONSE_RECORDS ->
  wire_bytes (budget s) + zlen ending <= MAX_RESPONSE_WIRE_BYTES ->
  read_response_from (Line ending :: w) u q max s = (w, u, q, Ok (rows s)).
Proof.
  intros Hm He Hr Hw. cbn [read_response_from].
  pose proof (parse_marker_Some _ _ _ He) as Hp.
  rewrite on_line_other by (by eapply prefix_excl; [| | exact Hp]).
  unfold read_step. rewrite observe_fits by done. cbn [marker]. rewrite Hm.
  unfold guarded_line. rewrite He. by rewrite bool_decide_true.
Qed.

(** C26. The framing of a response: reading returns [rows] and leaves the
    rest of the wire exactly when what comes next is a run of notifications
    (all queued), a [%begin] record, payload lines that are not guard records,
    and the [%end] record with the same three numbers, within the record, wire
    and payload bounds; the rows are the payload lines without their newline,
    in order, however they start. *)
Theorem read_response_exact (w w' : list WireRecord) (unlink : option bool) (q q' : Queue)
    (max : Z) (result : list bytes)
    (Hmax : 0 <= max <= usize_max) (Hunlink : unlink <> Some false) :
  (exists u', read_response_from w unlink q max start_reading = (w', u', q', Ok result))
  <-> (exists notes opening body ending,
         w = map Line (notes ++ opening :: body ++ [ending]) ++ w'
         /\ response (lit "%end ") q q' max notes opening body ending
         /\ result = map command_payload body).
Proof.
  split.
  - intros [u' H]. apply read_waiting_sound in H
      as (notes & o & body & e & closing & m & -> & Hn & Hq & Ho & He & Hb & Hc & Hs & Hr & Hw);
      [| done | done | done | lia | by left].
    destruct Hc as [[[= ->] ->] | [? _]]; [| done].
    exists notes, o, body, e. split; [done |]. split; [| done].
    cbn [start_reading budget records wire_bytes new_budget] in *. constructor; eauto; lia.
  - intros (notes & o & body & e & -> & [Hn Hq (m & Ho & He) Hb Hs Hr Hw] & ->).
    rewrite zlen_app, zlen_cons, zlen_app, zlen_cons, zlen_nil in Hr.
    rewrite total_bytes_app in Hw. cbn [total_bytes] in Hw.
    rewrite total_bytes_app in Hw. cbn [total_bytes] in Hw.
    pose proof (zlen_nonneg body). pose proof (zlen_nonneg e).
    pose proof (total_bytes_nonneg body).
    pose proof (zlen_nonneg notes). pose proof (zlen_nonneg o).
    exists None. rewrite map_app. cbn [map]. rewrite map_app, <- app_assoc.
    rewrite (read_step_notes _ _ _ q'); try done;
      try (cbn [start_reading budget records wire_bytes new_budget]; lia).
    cbn [start_reading size budget rows records wire_bytes new_budget app read_response_from].
    rewrite on_line_begin; [| done | exact (parse_marker_Some _ _ _ Ho)].
    unfold read_step. rewrite observe_fits by (cbn [budget records wire_bytes]; lia).
    cbn [marker budget records wire_bytes]. rewrite Ho, <- app_assoc.
    rewrite (read_guarded_body _ _ _ _ _ m)
      by (done || lia || cbn [size budget records wire_bytes]; lia).
    cbn [map app]. rewrite (read_guarded_end _ _ _ _ _ m); try done;
      cbn [size budget records wire_bytes]; lia.
Qed.

Definition nl (s : string) : bytes := lit s ++ ["010"%byte].
Definition sample_wire : list WireRecord :=
  [Line (nl "%sessions-changed"); Line (nl "%begin 1 2 3"); Line (nl "%output is text here");
   Line (nl "%end 1 2 3"); Line (nl "next")].

Lemma read_response_exact_witness :
  exists notes opening body ending,
    sample_wire = map Line (notes ++ opening :: body ++ [ending]) ++ [Line (nl "next")]
    /\ [lit "%output is text here"] = map command_payload body.
Proof.
  destruct (proj1 (read_response_exact sample_wire [Line (nl "next")] (Some true) empty_queue
    {| events := [Refresh]; queued_output_bytes := 0 |} 100 [lit "%output is text here"]
    ltac:(unfold usize_max, u64_max; lia) ltac:(discriminate)))
    as (notes & o & body & e & H1 & _ & H2).
  - eexists. vm_compute. reflexivity.
  - exists notes, o, body, e. split; [exact H1 | exact H2].
Defined.

(** ** Mutations *)

Lemma send_command_Ok c text c' u :
  send_command c text = (c', Ok u) ->
  valid_command text = true /\ sent c' = sent c ++ [text] /\ wire c' = wire c
  /\ identity_path c' = identity_path c.
Proof.
  unfold send_command. intros H. repeat case_match; simplify_eq; split_bools; done.
Qed.

Lemma send_command_Err c text c' e :
  send_command c text = (c', Err e) -> sent c' = sent c /\ wire c' = wire c.
Proof. unfold send_command. intros H. by repeat case_match; simplify_eq. Qed.

(** C27. A mutation's outcome tells what tmux did: unless the outcome is
    [Ambiguous], the command was a valid one-line command, it was delivered
    exactly once, and what the wire then held was one complete response -
    closed by [%end] for [Succeeded] and by [%error] for [Failed], with the
    numbers of its own [%begin]; a command that could not be sent is never
    reported as failed or done. *)
Theorem mutation_outcome_exact (s s' : Adapter) (text : bytes) (o : MutationOutcome)
    (H : mutating_command text s = (s', o)) (Ho : o <> Ambiguous) :
  valid_command text = true /\ sent (child s') = sent (child s) ++ [text]
  /\ exists notes opening body ending,
       wire (child s) = map Line (notes ++ opening :: body ++ [ending]) ++ wire (child s')
       /\ response (match o with Failed => lit "%error " | _ => lit "%end " end)
            (queue s) (queue s') MAX_RESPONSE_BYTES notes opening body ending.
Proof.
  unfold mutating_command, send in H.
  destruct (send_command (child s) text) as [c [u|e]] eqn:Es; cbn in H; [| by simplify_eq].
  apply send_command_Ok in Es as (Hv & Hsent & Hwire & _).
  unfold read_response_with_limit in H. cbn in H.
  destruct (read_response_from _ _ _ _ _) as [[[w u'] q] r] eqn:Er.
  assert (settled r /\ (o = Succeeded <-> is_ok r = true)
          /\ s' = {| child := {| wire := w; writes := writes c; identity_path := u';
                                 sent := sent c |}; queue := q |}) as (Hr & Hos & ->).
  { unfold settled. destruct r as [l|e]; [simplify_eq; by split_and!; auto |].
    destruct e; simplify_eq; split_and!; (done || by auto). }
  split; [done |]. split; [done |]. cbn [child wire queue].
  rewrite Hwire in Er. apply read_waiting_sound in Er
    as (notes & op & body & e & closing & m & Hw & Hn & Hq & Hop & He & Hb & Hc & Hs & Hre & Hwi);
    [| done | done | done | by vm_compute | done].
  exists notes, op, body, e. split; [done |].
  cbn [start_reading budget records wire_bytes new_budget] in *.
  assert (closing = match o with Failed => lit "%error " | _ => lit "%end " end) as <-.
  { destruct Hc as [[-> ->] | [-> ->]]; destruct o; naive_solver. }
  constructor; eauto; lia.
Qed.

Definition sample_adapter : Adapter :=
  {| child := {| wire := sample_wire; writes := []; identity_path := Some true; sent := [] |};
     queue := empty_queue |}.

Lemma mutation_outcome_exact_witness :
  exists s', mutating_command (lit "select-pane -t %1") sample_adapter = (s', Succeeded)
  /\ sent (child s') = [lit "select-pane -t %1"].
Proof.
  destruct (mutating_command (lit "select-pane -t %1") sample_adapter) as [s' o] eqn:E.
  assert (o = Succeeded) as -> by (vm_compute in E; injection E as _ <-; reflexivity).
  exists s'. split; [reflexivity |].
  exact (proj1 (proj2 (mutation_outcome_exact _ _ _ _ E ltac:(discriminate)))).
Defined.

(** ** An invariant of every adapter operation *)

Definition adapter_ok (s : Adapter) : Prop :=
  queue_ok (queue s) /\ Forall (fun text => valid_command text = true) (sent (child s)).

Definition preserving {A} (m : Adapter -> Adapter * A) : Prop :=
  forall s s' r, m s = (s', r) -> adapter_ok s -> adapter_ok s'.

Lemma preserving_lift {A} (r : tmux A) : preserving (lift r).
Proof. intros s s' r' [= <- <-]. done. Qed.

Lemma preserving_ret {A} (a : A) : preserving (mret a : M A).
Proof. intros s s' r' [= <- <-]. done. Qed.

Lemma preserving_bind {A B} (m : M A) (f : A -> M B) :
  preserving m -> (forall a, preserving (f a)) -> preserving (m ≫= f).
Proof.
  intros Hm Hf s s' r H Hs. unfold mbind, M_bind in H.
  destruct (m s) as [s1 [a|e]] eqn:E; [| injection H as <- <-; by eapply Hm].
  eapply Hf; [exact H |]. by eapply Hm.
Qed.

Lemma preserving_on_queue {A} (f : Queue -> Queue * tmux A) :
  (forall q q' r, f q = (q', r) -> queue_ok q -> queue_ok q') -> preserving (on_queue f).
Proof.
  intros Hf s s' r H [Hq Hs]. unfold on_queue in H. destruct (f (queue s)) as [q r1] eqn:E.
  injection H as <- <-. split; [by eapply Hf | done].
Qed.

Lemma preserving_send text : preserving (send text).
Proof.
  intros s s' r H [Hq Hs]. unfold send in H. destruct (send_command _ _) as [c [u|e]] eqn:E;
    injection H as <- <-; split; try done; cbn.
  - apply send_command_Ok in E as (Hv & -> & _ & _). apply Forall_app. split; [done |].
    by constructor.
  - by apply send_command_Err in E as [-> _].
Qed.

Lemma read_step_ok max q s l q' st :
  read_step max q s l = (q', st) -> queue_ok q -> queue_ok q'.
Proof.
  unfold read_step. intros H Hq. repeat case_match; simplify_eq; try done;
    by eapply ingest_notification_ok.
Qed.

Lemma read_response_from_ok w u q max s w' u' q' r :
  read_response_from w u q max s = (w', u', q', r) -> queue_ok q -> queue_ok q'.
Proof.
  revert u q s; induction w as [|[l|e|] w IH]; intros u q s H Hq; cbn in H;
    try (by simplify_eq).
  destruct (on_line u l) as [u1 [l1|e]]; [| by simplify_eq].
  destruct (read_step max q s l1) as [q1 [s1|r1]] eqn:E; apply read_step_ok in E; try done;
    [by eapply IH | by simplify_eq].
Qed.

Lemma preserving_read max : preserving (read_response_with_limit max).
Proof.
  intros s s' r H [Hq Hs]. unfold read_response_with_limit in H.
  destruct (read_response_from _ _ _ _ _) as [[[w u] q] r1] eqn:E. injection H as <- <-.
  split; [by eapply read_response_from_ok | done].
Qed.

Lemma preserving_next_line : preserving next_line.
Proof.
  intros s s' r H [Hq Hs]. unfold next_line in H.
  destruct (next_line_from _ _) as [[w u] r1]. by injection H as <- <-.
Qed.

Lemma preserving_get_queue : preserving get_queue.
Proof. intros s s' r [= <- <-]. done. Qed.

#[export] Hint Resolve preserving_lift preserving_ret preserving_bind preserving_send
  preserving_read preserving_next_line preserving_get_queue : owl.

Lemma preserving_if {A} (b : bool) (m1 m2 : M A) :
  preserving m1 -> preserving m2 -> preserving (if b then m1 else m2).
Proof. by destruct b. Qed.
#[export] Hint Resolve preserving_if : owl.

Lemma preserving_command text max : preserving (command text max).
Proof. unfold command. auto with owl. Qed.

Lemma preserving_clear : preserving clear_events.
Proof. apply preserving_on_queue. intros q q' r [= <- <-] _. apply empty_queue_ok. Qed.

Lemma preserving_pump : preserving pump_event.
Proof.
  apply preserving_bind; [auto with owl |]. intros l. apply preserving_on_queue.
  intros q q' r H Hq. by eapply ingest_notification_ok.
Qed.
#[export] Hint Resolve preserving_command preserving_clear preserving_pump : owl.

Lemma preserving_next_event_loop fuel : preserving (next_event_loop fuel).
Proof.
  induction fuel as [|fuel IH]; [apply preserving_lift |].
  intros s s' r H [Hq Hs]. cbn [next_event_loop] in H.
  destruct (pop_event (queue s)) as [q [e|]] eqn:E; apply pop_event_ok in E as [Hq' _]; try done.
  - injection H as <- <-. by split.
  - eapply preserving_bind; [exact preserving_pump | intros; exact IH | exact H |]. by split.
Qed.

Lemma preserving_observe_windows session : preserving (observe_windows session).
Proof. unfold observe_windows. auto with owl. Qed.

Lemma preserving_observe_window session created : preserving (observe_window session created).
Proof.
  unfold observe_window. apply preserving_if; [auto with owl |].
  apply preserving_bind; [auto with owl |]. intros a.
  apply preserving_bind; [auto with owl |]. intros [[[i w] h] l]. auto with owl.
Qed.

Lemma preserving_labels panes : preserving (observe_pane_labels panes).
Proof. induction panes as [|p panes IH]; cbn [observe_pane_labels]; auto 10 with owl. Qed.

Lemma preserving_each action panes : preserving (each_pane action panes).
Proof. induction panes as [|p panes IH]; cbn [each_pane]; auto with owl. Qed.

Lemma preserving_capture_panes window panes total :
  preserving (capture_panes window panes total).
Proof.
  revert total; induction panes as [|p panes IH]; intros total; cbn [capture_panes];
    [auto with owl |].
  apply preserving_bind.
  { unfold capture_barrier. auto 10 with owl. }
  intros [metadata lines]. apply preserving_bind; [auto with owl |]. intros fp.
  apply preserving_if; [auto with owl |]. cbv zeta.
  apply preserving_bind; [auto with owl |]. intros text.
  apply preserving_bind; [auto with owl |]. intros n.
  apply preserving_if; [auto with owl |]. apply preserving_bind.
  { apply preserving_on_queue. intros q q' r [= <- <-] Hq. by apply discard_captured_output_ok. }
  intros _. apply preserving_bind; [done |]. intros [ps ss]. auto with owl.
Qed.
#[export] Hint Resolve preserving_next_event_loop preserving_observe_windows
  preserving_observe_window preserving_labels preserving_each preserving_capture_panes : owl.

Lemma preserving_hydrate_once session created : preserving (hydrate_once session created).
Proof.
  unfold hydrate_once, pause_panes, continue_panes, revalidate_projection, observe_panes.
  repeat first [apply preserving_bind; [auto with owl; fail |]; intros
               | apply preserving_if; [auto with owl; fail |]].
  all: apply preserving_bind.
  1: { apply preserving_on_queue. intros q q' r H Hq. by eapply drain_cutover_ok. }
  intros _. apply preserving_bind; [auto with owl |]. intros _.
  apply preserving_bind; [auto with owl |]. intros [ps ss].
  apply preserving_bind; [auto 10 with owl |]. intros _.
  apply preserving_bind; [| auto with owl]. apply preserving_on_queue. by intros q q' r [= <- <-].
Qed.

Lemma preserving_hydrate session created n : preserving (hydrate_attempts n session created).
Proof.
  induction n as [|n IH]; [apply preserving_lift |].
  intros s s' r H Hs. cbn [hydrate_attempts] in H.
  destruct ((clear_events ;; hydrate_once session created) s) as [s1 r1] eqn:E.
  assert (adapter_ok s1) as Hs1.
  { eapply preserving_bind; [exact preserving_clear | intros; apply preserving_hydrate_once
      | exact E | done]. }
  destruct r1 as [wp|e]; [by simplify_eq |]. destruct e; try (by simplify_eq). by eapply IH.
Qed.

Lemma preserving_mutation text : preserving (mutating_command text).
Proof.
  intros s s' r H Hs. unfold mutating_command in H.
  destruct (send text s) as [s1 [u|e]] eqn:E; pose proof (preserving_send _ _ _ _ E Hs).
  2:{ by simplify_eq. }
  destruct (read_response_with_limit MAX_RESPONSE_BYTES s1) as [s2 r2] eqn:E2.
  pose proof (preserving_read _ _ _ _ E2 ltac:(done)). by repeat case_match; simplify_eq.
Qed.

(** The operations of [ControlAdapter], as its clients interleave them. *)
Inductive Operation : Type :=
| OpStart | OpHydrate (session : bytes) (created : Z) | OpPump | OpNext
| OpSetWriter (writer : bool) | OpResize (columns rows : Z)
| OpSendLiteral (pane data : bytes) | OpSelectWindow (window : bytes)
| OpSelectPane (pane : bytes).

Definition run (op : Operation) (s : Adapter) : Adapter :=
  match op with
  | OpStart => fst (start s)
  | OpHydrate session created => fst (hydrate session created s)
  | OpPump => fst (pump_event s)
  | OpNext => fst (next_event s)
  | OpSetWriter w => fst (set_writer w s)
  | OpResize c r => fst (resize c r s)
  | OpSendLiteral p d => fst (send_literal p d s)
  | OpSelectWindow w => fst (select_window w s)
  | OpSelectPane p => fst (select_pane p s)
  end.

(** The peer and the transport may do anything to what comes next. *)
Inductive adapter_step : Adapter -> Adapter -> Prop :=
| step_run op s : adapter_step s (run op s)
| step_world s w f :
    adapter_step s {| child := {| wire := w; writes := f;
                                  identity_path := identity_path (child s);
                                  sent := sent (child s) |}; queue := queue s |}.

Lemma preserving_fst {A} (m : Adapter -> Adapter * A) s :
  preserving m -> adapter_ok s -> adapter_ok (fst (m s)).
Proof. intros Hm Hs. destruct (m s) as [s' r] eqn:E. by eapply Hm. Qed.

Lemma preserving_guarded b text : preserving (guarded_mutation b text).
Proof.
  intros s s' r H Hs. unfold guarded_mutation in H. destruct b; [| by simplify_eq].
  destruct (mutating_command text s) as [s1 o] eqn:E. simplify_eq. by eapply preserving_mutation.
Qed.

Lemma preserving_then first second : preserving (then_mutate first second).
Proof.
  intros s s' r H Hs. unfold then_mutate in H.
  destruct (mutating_command first s) as [s1 o] eqn:E.
  pose proof (preserving_mutation _ _ _ _ E Hs) as Hs1.
  destruct o; try by simplify_eq. by eapply preserving_mutation.
Qed.

Lemma run_ok op s : adapter_ok s -> adapter_ok (run op s).
Proof.
  intros Hs. destruct op; cbn [run]; apply preserving_fst; try done.
  - unfold start. auto 10 with owl.
  - apply preserving_hydrate.
  - apply preserving_pump.
  - intros s0 s1 r H. by eapply preserving_next_event_loop.
  - unfold set_writer. destruct writer; intros ???; by eapply preserving_then.
  - apply preserving_guarded.
  - intros s0 s1 r H Hs0. unfold send_literal in H.
    destruct (render_literal_input pane data) as [text|e]; [| by simplify_eq].
    destruct (mutating_command text s0) as [s2 o] eqn:E. simplify_eq.
    by eapply preserving_mutation.
  - apply preserving_guarded.
  - apply preserving_guarded.
Qed.

(** C25. Whatever the target prints and however operations, failures and
    timeouts interleave, an adapter never holds more than 256 events or
    512 KiB of undelivered output (every chunk nonempty, at most 16 KiB and
    for a well-formed pane), and every command it ever put on the wire was a
    single line of at most 4096 bytes without CR, LF or NUL. *)
Theorem adapter_invariant (s0 s : Adapter)
    (Hnew : queue s0 = empty_queue) (Hsent : sent (child s0) = [])
    (Hsteps : rtc adapter_step s0 s) :
  zlen (events (queue s)) <= MAX_QUEUED_EVENTS
  /\ output_bytes (events (queue s)) <= MAX_QUEUED_OUTPUT_BYTES
  /\ Forall event_ok (events (queue s))
  /\ Forall (fun text => valid_command text = true) (sent (child s)).
Proof.
  assert (adapter_ok s) as [[] ?]; [| done].
  assert (adapter_ok s0) as H0.
  { split; [rewrite Hnew; apply empty_queue_ok | rewrite Hsent; constructor]. }
  clear Hnew Hsent. induction Hsteps as [|s0 s1 s2 Hstep _ IH]; [done |]. apply IH.
  destruct Hstep; [by apply run_ok | exact H0].
Qed.

Lemma adapter_invariant_witness :
  Forall (fun text => valid_command text = true)
    (sent (child (run (OpSelectPane (lit "%1")) sample_adapter)))
  /\ sent (child (run (OpSelectPane (lit "%1")) sample_adapter)) = [lit "select-pane -t %1"].
Proof.
  split; [| vm_compute; reflexivity].
  apply (adapter_invariant sample_adapter (run (OpSelectPane (lit "%1")) sample_adapter)
           eq_refl eq_refl).
  apply rtc_once. constructor.
Defined.

(** ** Hydration *)

Lemma M_bind_Ok {A B} (m : M A) (f : A -> M B) s s' b :
  (m ≫= f) s = (s', Ok b) <-> exists s1 a, m s = (s1, Ok a) /\ f a s1 = (s', Ok b).
Proof.
  unfold mbind, M_bind. destruct (m s) as [s1 [a|e]]; split; naive_solver.
Qed.

Lemma M_ret_Ok {A} (a b : A) s s' : (mret a : M A) s = (s', Ok b) <-> s' = s /\ b = a.
Proof. unfold mret, M_ret. split; [by intros [= <- <-] | by intros [-> ->]]. Qed.

Lemma lift_Ok {A} (r : tmux A) s s' a : lift r s = (s', Ok a) <-> s' = s /\ r = Ok a.
Proof. unfold lift. split; [by intros [= <- <-] | by intros [-> ->]]. Qed.

Lemma if_lift_Err {A} (b : bool) e (m : M A) s s' a :
  (if b then lift (Err e) else m) s = (s', Ok a) -> b = false /\ m s = (s', Ok a).
Proof. by destruct b. Qed.

Ltac inv_M :=
  repeat match goal with
  | H : (_ ≫= _) _ = (_, Ok _) |- _ =>
      let s := fresh "s" in let a := fresh "a" in let H1 := fresh "H" in
      apply M_bind_Ok in H; destruct H as (s & a & H1 & H)
  | H : mret _ _ = (_, Ok _) |- _ => apply M_ret_Ok in H; destruct H as [? ?]
  | H : lift _ _ = (_, Ok _) |- _ => apply lift_Ok in H; destruct H as [? H]
  | H : (if _ then lift (Err _) else _) _ = (_, Ok _) |- _ =>
      let Hb := fresh "Hb" in apply if_lift_Err in H; destruct H as [Hb H]
  | H : (let '(_, _) := ?x in _) _ = (_, Ok _) |- _ => destruct x
  end.

(** Same identity and geometry; the terminal state and labels may differ. *)
Lemma same_pane_structure_spec l r :
  same_pane_structure l r = true <->
  pane_id l = pane_id r /\ active l = active r /\ width l = width r
  /\ height l = height r /\ left l = left r /\ top l = top r.
Proof.
  unfold same_pane_structure. rewrite !andb_true_iff, bool_decide_eq_true, eqb_true_iff, !Z.eqb_eq.
  tauto.
Qed.

Lemma observe_pane_labels_sound panes s s' ps :
  observe_pane_labels panes s = (s', Ok ps) ->
  Forall2 (fun p q => same_pane_structure p q = true /\ terminal q = terminal p
             /\ zlen (title q) <= MAX_TEXT_BYTES /\ zlen (current_command q) <= MAX_TEXT_BYTES)
    panes ps.
Proof.
  revert s ps; induction panes as [|p panes IH]; intros s ps H; cbn [observe_pane_labels] in H.
  { inv_M. subst. constructor. }
  inv_M. subst.
  match goal with H : observe_pane_labels _ _ = _ |- _ => apply IH in H end.
  constructor; [| done]. cbn. rewrite same_pane_structure_spec. unfold safe_text in *.
  inv_ok. split_bools. repeat split; lia.
Qed.

Definition contents_bytes (ss : list PaneSnapshot) : Z := total_bytes (map content ss).

Lemma capture_panes_sound w panes total s s' ps ss :
  Forall (pane_in_window w) panes -> 0 <= total ->
  capture_panes w panes total s = (s', Ok (ps, ss)) ->
  Forall2 (fun p q => same_pane_structure p q = true) panes ps
  /\ Forall (pane_in_window w) ps
  /\ map title ps = map title panes /\ map current_command ps = map current_command panes
  /\ map snapshot_pane_id ss = map pane_id ps
  /\ (total <= ATTACHMENT_MAX_PROJECTION_BYTES ->
      total + contents_bytes ss <= ATTACHMENT_MAX_PROJECTION_BYTES)
  /\ Forall (fun x => zlen (content x) <= ATTACHMENT_MAX_PANE_SNAPSHOT_BYTES) ss.
Proof.
  intros Hw. revert total s ps ss; induction Hw as [|p panes Hp Hw IH];
    intros total s ps ss Ht H; cbn [capture_panes] in H.
  { inv_M. simplify_eq. unfold contents_bytes. cbn. repeat split; (constructor || lia). }
  inv_M. simplify_eq. cbv zeta in *. inv_M. simplify_eq.
  match goal with H : capture_panes _ _ _ _ = _ |- _ => apply IH in H end.
  2:{ match goal with H : ok_or _ _ = Ok _ |- _ =>
        apply ok_or_Ok, checked_add_Some in H as [-> _] end. unfold zlen. lia. }
  destruct_and!. split_bools.
  match goal with H : parse_pane_row _ _ = Ok _ |- _ => apply parse_pane_row_sound in H as Hf end.
  match goal with H : same_pane_structure _ _ = true |- _ =>
    pose proof H as Hsame; apply same_pane_structure_spec in Hsame end.
  match goal with H : capture_lines _ _ = Ok _ |- _ => unfold capture_lines in H; inv_ok end.
  match goal with H : checked_add _ _ _ = Some _ |- _ =>
    apply checked_add_Some in H as [-> _] end.
  split_bools. destruct_and!.
  split; [constructor; [by apply same_pane_structure_spec | done] |].
  split. { constructor; [| done]. destruct Hp, Hf. constructor; cbn; try done; try congruence; lia. }
  cbn [map set_terminal title current_command pane_id snapshot_pane_id].
  unfold contents_bytes in *. cbn [map total_bytes content].
  repeat split; try congruence; [intros; lia |]. by constructor.
Qed.

Lemma parse_windows_sound rows ws :
  parse_windows rows = Ok ws ->
  1 <= zlen ws <= MAX_WINDOWS /\ length (List.filter ws_active ws) = 1%nat
  /\ NoDup (map ws_window_id ws).
Proof.
  assert (forall rows ids ws, parse_window_rows rows ids = Ok ws ->
            length ws = length rows /\ NoDup (map ws_window_id ws)
            /\ forall i, i ∈ map ws_window_id ws -> i ∉ ids) as Hrows.
  { clear. induction rows as [|row rows IH]; intros ids ws H; cbn in H.
    { inv_ok. repeat split; [constructor |]. intros i Hi. by apply not_elem_of_nil in Hi. }
    inv_ok. match goal with H : parse_window_rows _ _ = _ |- _ =>
      apply IH in H as (Hl & Hnd & Hni) end.
    assert (ws_window_id v ∉ ids) as Hv.
    { unfold parse_window_row in H0. inv_ok.
      repeat match goal with H : (match ?l with _ => _ end) = _ |- _ =>
        match type of l with list _ => destruct l; try discriminate H end end.
      inv_ok. split_bools. by subst. }
    cbn. split; [by rewrite Hl |]. split.
    - constructor; [| done]. intros Hi%Hni. set_solver.
    - intros i [-> | Hi]%elem_of_cons; [done |]. apply Hni in Hi. set_solver. }
  unfold parse_windows. intros H. inv_ok. split_bools.
  match goal with H : parse_window_rows _ _ = _ |- _ => apply Hrows in H as (Hl & Hnd & _) end.
  assert (zlen ws = zlen rows) by (by apply zlen_eq_length).
  assert (zlen rows <> 0) by (by rewrite zlen_zero). pose proof (zlen_nonneg rows).
  repeat split; try done; try lia. unfold zlen in *. lia.
Qed.

Lemma observe_window_sound session created s s' w :
  observe_window session created s = (s', Ok w) ->
  is_window_id (window_id w) = true /\ valid_grid (window_width w) (window_height w) = true
  /\ zlen (window_name w) <= 128 /\ zlen (layout w) <= MAX_LAYOUT_BYTES
  /\ is_session_id session = true /\ 0 < created.
Proof.
  unfold observe_window. intros H. inv_M. subst. cbn. unfold parse_window_response, safe_text in *.
  split_bools. inv_ok. split_bools.
  repeat match goal with H : (match ?l with _ => _ end) = _ |- _ =>
    match type of l with list _ => destruct l; try discriminate H end end.
  inv_ok. split_bools. subst. repeat split; (done || lia).
Qed.

Lemma drained_queue q q' u : require_live_cutover q = Ok u -> q' = q ->
  forall e, e ∈ events q' -> exists p d, e = Output p d.
Proof.
  intros H -> e He. unfold require_live_cutover in H.
  destruct (existsb (fun e => bool_decide (e = Exit)) (events q)) eqn:E1; [done |].
  destruct (existsb (fun e => bool_decide (e = Refresh)) (events q)) eqn:E2; [done |].
  destruct e as [p d| |]; [by eauto | |]; exfalso.
  - rewrite <- not_true_iff_false in E2. apply E2, existsb_exists.
    eexists. split; [by apply list_elem_of_In | by apply bool_decide_true].
  - rewrite <- not_true_iff_false in E1. apply E1, existsb_exists.
    eexists. split; [by apply list_elem_of_In | by apply bool_decide_true].
Qed.

Lemma structures_transfer obs ps :
  Forall2 (fun p q => same_pane_structure p q = true) obs ps ->
  map pane_id ps = map pane_id obs
  /\ length (List.filter active ps) = length (List.filter active obs).
Proof.
  induction 1 as [|p q obs ps Hpq _ (IH1 & IH2)]; [done |].
  apply same_pane_structure_spec in Hpq. destruct_and!. cbn [map List.filter].
  split; [congruence |]. destruct (active p), (active q); cbn [length]; congruence.
Qed.

(** What a client may rely on in a projection it is given. *)
Record projection_ok (wp : WorkspaceProjection) : Prop := {
  pok_windows : 1 <= zlen (wp_windows wp) <= MAX_WINDOWS;
  pok_unique_windows : NoDup (map ws_window_id (wp_windows wp));
  pok_active_window : exists n, List.find ws_active (wp_windows wp) = Some n
                      /\ ws_window_id n = window_id (wp_window wp);
  pok_one_active : length (List.filter ws_active (wp_windows wp)) = 1%nat;
  pok_grid : valid_grid (window_width (wp_window wp)) (window_height (wp_window wp)) = true;
  pok_panes : Forall (pane_in_window (wp_window wp)) (wp_panes wp);
  pok_pane_count : 1 <= zlen (wp_panes wp) <= ATTACHMENT_MAX_PANES;
  pok_unique_panes : NoDup (map pane_id (wp_panes wp));
  pok_one_pane : length (List.filter active (wp_panes wp)) = 1%nat;
  pok_labels : Forall (fun p => zlen (title p) <= MAX_TEXT_BYTES
                                /\ zlen (current_command p) <= MAX_TEXT_BYTES) (wp_panes wp);
  pok_snapshots : map snapshot_pane_id (wp_snapshots wp) = map pane_id (wp_panes wp);
  pok_size : contents_bytes (wp_snapshots wp) <= ATTACHMENT_MAX_PROJECTION_BYTES;
  pok_snapshot : Forall (fun x => zlen (content x) <= ATTACHMENT_MAX_PANE_SNAPSHOT_BYTES)
                   (wp_snapshots wp);
}.

Lemma observe_windows_sound session s s' ws :
  observe_windows session s = (s', Ok ws) ->
  is_session_id session = true /\ exists rows, parse_windows rows = Ok ws.
Proof. unfold observe_windows. intros H. inv_M. split_bools. eauto. Qed.

Lemma observe_panes_sound w s s' ps :
  observe_panes w s = (s', Ok ps) -> exists rows, parse_pane_rows rows w = Ok ps.
Proof. unfold observe_panes. intros H. inv_M. eauto. Qed.

Lemma on_queue_Ok {A} (f : Queue -> Queue * tmux A) s s' a :
  on_queue f s = (s', Ok a) -> f (queue s) = (queue s', Ok a).
Proof. unfold on_queue. destruct (f (queue s)) as [q r]. by intros [= <- ->]. Qed.

Lemma labelled_in_window w panes ps :
  Forall2 (fun p q => same_pane_structure p q = true /\ terminal q = terminal p
             /\ zlen (title q) <= MAX_TEXT_BYTES /\ zlen (current_command q) <= MAX_TEXT_BYTES)
    panes ps ->
  Forall (pane_in_window w) panes ->
  Forall (pane_in_window w) ps
  /\ Forall (fun p => zlen (title p) <= MAX_TEXT_BYTES
               /\ zlen (current_command p) <= MAX_TEXT_BYTES) ps
  /\ Forall2 (fun p q => same_pane_structure p q = true) panes ps.
Proof.
  induction 1 as [|p q panes ps (Hs & Ht & Hl1 & Hl2) _ IH]; [by repeat constructor |].
  intros Hf. inversion Hf as [|? ? Hp Hps]; subst. destruct (IH Hps) as (H1 & H2 & H3).
  split; [| split; by constructor]. constructor; [| done].
  pose proof Hs as Hs'. apply same_pane_structure_spec in Hs'. destruct_and!.
  destruct Hp. constructor; rewrite ?Ht; try congruence; try lia.
  assumption.
Qed.

Lemma label_bounds_transfer ps qs :
  map title qs = map title ps -> map current_command qs = map current_command ps ->
  Forall (fun p => zlen (title p) <= MAX_TEXT_BYTES
            /\ zlen (current_command p) <= MAX_TEXT_BYTES) ps ->
  Forall (fun p => zlen (title p) <= MAX_TEXT_BYTES
            /\ zlen (current_command p) <= MAX_TEXT_BYTES) qs.
Proof.
  revert qs; induction ps as [|p ps IH]; intros [|q qs] Ht Hc Hf; cbn in *; try done.
  inversion Hf; subst. injection Ht as Ht1 Ht2. injection Hc as Hc1 Hc2.
  constructor; [by rewrite Ht1, Hc1 | by apply IH].
Qed.

Lemma hydrate_once_sound session created s s' wp :
  hydrate_once session created s = (s', Ok wp) ->
  projection_ok wp /\ is_session_id session = true /\ 0 < created
  /\ (forall e, e ∈ events (queue s') -> exists p d, e = Output p d).
Proof.
  unfold hydrate_once. intros H. inv_M. subst.
  repeat match goal with
  | H : observe_windows _ _ = _ |- _ => apply observe_windows_sound in H as (? & rows & Hws)
  | H : observe_window _ _ _ = _ |- _ =>
      apply observe_window_sound in H as (? & Hgrid & ? & ? & ? & ?)
  | H : observe_panes _ _ = _ |- _ => apply observe_panes_sound in H as (prows & Hps)
  | H : observe_pane_labels _ _ = _ |- _ => apply observe_pane_labels_sound in H as Hlab; clear H
  | H : on_queue (fun q => (q, require_live_cutover q)) _ = _ |- _ =>
      apply on_queue_Ok in H; injection H as Hq Hcut
  end.
  apply parse_windows_sound in Hws as (Hw1 & Hw2 & Hw3).
  apply parse_pane_rows_sound in Hps as (Hp1 & Hp2 & Hp3 & Hp4 & Hp5 & Hp6).
  destruct (labelled_in_window _ _ _ Hlab Hp5) as (Hin & Hlabels & Hstruct).
  match goal with H : capture_panes _ _ _ _ = _ |- _ =>
    apply capture_panes_sound in H as (Hst & Hin2 & Ht & Hc & Hsn & Hsz & Hsb); [| done | lia] end.
  destruct (structures_transfer _ _ Hstruct) as (Hid1 & Hac1).
  destruct (structures_transfer _ _ Hst) as (Hid2 & Hac2).
  apply Forall2_length in Hst, Hstruct.
  split; [| split; [done | split; [done |]]].
  - constructor; cbn [wp_windows wp_window wp_panes wp_snapshots]; try done.
    + unfold active_differs in Hb. destruct (List.find _ _) as [n|]; [| done].
      split_bools. eauto.
    + unfold zlen in *. lia.
    + by rewrite Hid2, Hid1.
    + by rewrite Hac2, Hac1.
    + by eapply label_bounds_transfer.
    + apply Hsz. unfold ATTACHMENT_MAX_PROJECTION_BYTES. lia.
  - eapply drained_queue; [exact Hcut | by symmetry].
Qed.

(** C28. A hydrated projection is consistent: when [hydrate] succeeds, the
    session is a valid, dated one; windows and panes are unique and within
    bounds with exactly one of each active, and the active window is the
    projected one; every pane lies in the window with its cursor; there is
    one snapshot per pane, at most 256 KiB each and 1 MiB in all; and nothing is left in the
    queue but output to be drawn on top of the snapshots - no pending change
    of layout and no exit.  It never tries more than three times. *)
Theorem hydrate_sound (session : bytes) (created : Z) (s s' : Adapter)
    (wp : WorkspaceProjection) (H : hydrate session created s = (s', Ok wp)) :
  projection_ok wp /\ is_session_id session = true /\ 0 < created
  /\ (forall e, e ∈ events (queue s') -> exists p d, e = Output p d).
Proof.
  unfold hydrate in H. revert s H. induction MAX_HYDRATION_ATTEMPTS as [|n IH]; intros s H.
  - discriminate H.
  - cbn [hydrate_attempts] in H.
    destruct ((clear_events ;; hydrate_once session created) s) as [s1 r] eqn:E.
    destruct r as [wp1|e].
    + injection H as <- <-. apply M_bind_Ok in E as (s2 & [] & _ & E).
      by apply hydrate_once_sound in E.
    + destruct e; try discriminate H. by apply IH in H.
Qed.

(** A target that answers one hydration of a single-pane session. *)
Definition answer (rows : list bytes) : list WireRecord :=
  [Line (nl "%begin 1 1 1")] ++ map (fun r => Line (r ++ ["010"%byte])) rows
  ++ [Line (nl "%end 1 1 1")].
Definition pane_line : bytes := lit "%1:@1:1:80:24:0:0:0:0:0:1:0:0:0:0:1:0:23".
Definition hydration_wire : list WireRecord :=
  let windows := answer [lit "@1:1:main"] in
  let window := answer [lit "$1:1700000000:@1:80:24:b25f,80x24,0,0,1"] ++ answer [lit "main"] in
  windows ++ window ++ answer [pane_line] ++ answer [lit "title"] ++ answer [lit "bash"]
  ++ answer [] ++ answer [] ++ answer [lit "hello"; lit "%output"] ++ answer [pane_line]
  ++ windows ++ window ++ answer [pane_line].
Definition hydration_adapter (w : list WireRecord) : Adapter :=
  {| child := {| wire := w; writes := []; identity_path := None; sent := [] |};
     queue := empty_queue |}.

Lemma hydrate_sound_witness :
  exists s' wp, hydrate (lit "$1") 1700000000 (hydration_adapter hydration_wire) = (s', Ok wp)
  /\ projection_ok wp /\ map pane_id (wp_panes wp) = [lit "%1"].
Proof.
  destruct (hydrate (lit "$1") 1700000000 (hydration_adapter hydration_wire))
    as [s' [wp|e]] eqn:E; [| vm_compute in E; discriminate E].
  exists s', wp. split; [reflexivity |]. split.
  - exact (proj1 (hydrate_sound _ _ _ _ _ E)).
  - vm_compute in E. injection E as _ <-. reflexivity.
Defined.
