(* ===== verification/Lease.v ===== *)
(** * Lease: node membership and the local authority fence

    Models [crates/owlmux-server/src/clock.rs] ([BootClock]) and
    [deployment.rs] ([NodeLease]), over the two tables they use.  Times are
    nanoseconds in [Z]: boot time for the local clock, database time for
    [clock_timestamp()].  A transaction's fate is an input: it may fail before
    commit, commit, or commit while the caller sees an error.

    The main theorem relates the two clocks: as long as they run apart by at
    most the safety margin, a successful [check] implies that the durable
    lease of the incarnation is still valid. *)

From S2P Require Import Prelude Text Contracts.

(** ** Tables *)

Inductive NodeState : Type := Serving | Draining.
Global Instance NodeState_eq_dec : EqDecision NodeState.
Proof. solve_decision. Defined.

Record NodeRow : Type := {
  node_state : NodeState; node_epoch : Z; node_build : bytes; node_url : option bytes;
  lease_until : Z;
}.

Inductive Profile : Type := SingleNode | Clustered.
Global Instance Profile_eq_dec : EqDecision Profile.
Proof. solve_decision. Defined.

Record DeploymentRow : Type := {
  dep_id : Uuid; dep_epoch : Z; dep_build : bytes; dep_protocol : Z; dep_profile : Profile;
  dep_proof : option bytes;
}.

Record Database : Type := { deployment : option DeploymentRow; nodes : gmap Z NodeRow }.
Definition set_nodes (db : Database) (n : gmap Z NodeRow) : Database :=
  {| deployment := deployment db; nodes := n |}.

(** What becomes of a transaction. *)
Inductive TxFate : Type := Committed | Failed | CommittedUnseen.

(** Run a body that returns the new tables; [e] is the error of a failed
    statement or commit. *)
Definition transact {E} (fate : TxFate) (e : E) (body : Database -> result E Database)
    (db : Database) : Database * result E unit :=
  match fate with
  | Failed => (db, Err e)
  | Committed => match body db with Ok db' => (db', Ok tt) | Err e' => (db, Err e') end
  | CommittedUnseen => match body db with Ok db' => (db', Err e) | Err e' => (db, Err e') end
  end.

(** ** Boot clock *)

Inductive ClockError : Type := Unavailable | MovedBackwards.
Global Instance ClockError_eq_dec : EqDecision ClockError.
Proof. solve_decision. Defined.

(** [BootClock::now] on a reading of the source ([None]: the read failed). *)
Definition clock_now (last : option Z) (reading : option Z)
    : option Z * result ClockError Z :=
  match reading with
  | None => (last, Err Unavailable)
  | Some current =>
      match last with
      | Some previous => if current <? previous then (last, Err MovedBackwards)
                         else (Some current, Ok current)
      | None => (Some current, Ok current)
      end
  end.

(** ** The lease *)

Inductive LeaseError : Type := Fenced | DatabaseError | ConfigurationMismatch.
Global Instance LeaseError_eq_dec : EqDecision LeaseError.
Proof. solve_decision. Defined.

Abbreviation lease_result := (result LeaseError).

(** The fixed half of [NodeLease]. *)
Record Identity : Type := {
  incarnation_id : Uuid; config_epoch : Z; build_id : bytes; profile : Profile;
  config_proof : option bytes; internal_wss_url : option bytes;
  ttl_seconds : Z; safety_margin : Z;
}.
Definition ttl (i : Identity) : Z := ttl_seconds i * 1000000000.

(** The mutable half; [fence_cancelled] is the token's state. *)
Record NodeLease : Type := {
  last_reading : option Z; hard_deadline_ns : Z; fenced : bool; fence_cancelled : bool;
  draining : bool; dependency_ready : bool;
}.

Definition new_lease : NodeLease :=
  {| last_reading := None; hard_deadline_ns := 0; fenced := false; fence_cancelled := false;
     draining := false; dependency_ready := true |}.

Definition set_last (l : NodeLease) (r : option Z) : NodeLease :=
  {| last_reading := r; hard_deadline_ns := hard_deadline_ns l; fenced := fenced l;
     fence_cancelled := fence_cancelled l; draining := draining l;
     dependency_ready := dependency_ready l |}.
Definition set_deadline (l : NodeLease) (d : Z) : NodeLease :=
  {| last_reading := last_reading l; hard_deadline_ns := d; fenced := fenced l;
     fence_cancelled := fence_cancelled l; draining := draining l;
     dependency_ready := dependency_ready l |}.
Definition set_draining (l : NodeLease) : NodeLease :=
  {| last_reading := last_reading l; hard_deadline_ns := hard_deadline_ns l;
     fenced := fenced l; fence_cancelled := fence_cancelled l; draining := true;
     dependency_ready := dependency_ready l |}.
Definition set_ready (l : NodeLease) (b : bool) : NodeLease :=
  {| last_reading := last_reading l; hard_deadline_ns := hard_deadline_ns l;
     fenced := fenced l; fence_cancelled := fence_cancelled l; draining := draining l;
     dependency_ready := b |}.

(** [fence]: the swap cancels the token the first time. *)
Definition fence (l : NodeLease) : NodeLease :=
  {| last_reading := last_reading l; hard_deadline_ns := hard_deadline_ns l; fenced := true;
     fence_cancelled := if fenced l then fence_cancelled l else true;
     draining := draining l; dependency_ready := dependency_ready l |}.

(** [u64::try_from(duration.as_nanos()).unwrap_or(u64::MAX)]. *)
Definition duration_ns (d : Z) : Z := Z.min d u64_max.

(** A clock read inside a lease operation: any clock error fences. *)
Definition now_or_fence (l : NodeLease) (reading : option Z) : NodeLease * lease_result Z :=
  let '(last, r) := clock_now (last_reading l) reading in
  let l := set_last l last in
  match r with
  | Ok n => (l, Ok n)
  | Err _ => (fence l, Err Fenced)
  end.

Definition check (l : NodeLease) (reading : option Z) : NodeLease * lease_result unit :=
  if fenced l then (l, Err Fenced)
  else match now_or_fence l reading with
       | (l, Err e) => (l, Err e)
       | (l, Ok now) =>
           if (hard_deadline_ns l =? 0) || (hard_deadline_ns l <=? duration_ns now)
           then (fence l, Err Fenced) else (l, Ok tt)
       end.

Definition is_ready (l : NodeLease) (reading : option Z) : NodeLease * bool :=
  if dependency_ready l && negb (draining l)
  then let '(l, r) := check l reading in (l, is_ok r)
  else (l, false).

(** The sum of two [Duration]s cannot overflow here: a reading is below 2^63
    seconds and the configured ttl is small. *)
Definition install_deadline (i : Identity) (l : NodeLease) (before : Z) (reading : option Z)
    : NodeLease * lease_result unit :=
  if fenced l then (l, Err Fenced)
  else
    let candidate := before + ttl i - safety_margin i in
    if candidate <? 0 then (fence l, Err Fenced)
    else match now_or_fence l reading with
         | (l, Err e) => (l, Err e)
         | (l, Ok now) =>
             let previous := hard_deadline_ns l in
             if (negb (previous =? 0) && (previous <=? duration_ns now)) || (candidate <=? now)
             then (fence l, Err Fenced)
             else (set_deadline l (duration_ns candidate), Ok tt)
         end.

(** ** Database operations *)

(** [validate_deployment]: the id of the locked row. *)
Definition validate_deployment (i : Identity) (db : Database) : lease_result Uuid :=
  match deployment db with
  | Some d =>
      if (dep_epoch d =? config_epoch i) && bool_decide (dep_build d = build_id i)
         && (dep_protocol d =? 1) && bool_decide (dep_profile d = profile i)
         && bool_decide (dep_proof d = config_proof i)
      then Ok (dep_id d) else Err ConfigurationMismatch
  | None => Err ConfigurationMismatch
  end.

(** A lease-valid node exists at database time [now]. *)
Definition another_valid (db : Database) (now : Z) : bool :=
  existsb (fun '(_, n) => now <? lease_until n) (map_to_list (nodes db)).

(** Inserting a second row for one incarnation violates the primary key. *)
Definition register_body (i : Identity) (now : Z) (db : Database) : lease_result Database :=
  validate_deployment i db ;;
  fail_if (bool_decide (profile i = SingleNode) && another_valid db now) ConfigurationMismatch ;;
  match nodes db !! incarnation_id i with
  | Some _ => Err DatabaseError
  | None =>
      Ok (set_nodes db (<[incarnation_id i :=
            {| node_state := Serving; node_epoch := config_epoch i; node_build := build_id i;
               node_url := internal_wss_url i; lease_until := now + ttl i |}]> (nodes db)))
  end.

(** The row a guarded UPDATE or DELETE of this incarnation matches. *)
Definition own_row (i : Identity) (state : NodeState) (db : Database) : option NodeRow :=
  n ← nodes db !! incarnation_id i;
  if bool_decide (node_state n = state) && (node_epoch n =? config_epoch i)
     && bool_decide (node_build n = build_id i)
  then Some n else None.

Definition renew_body (i : Identity) (now : Z) (db : Database) : lease_result Database :=
  validate_deployment i db ;;
  n ← ok_or Fenced (own_row i Serving db);
  Ok (set_nodes db (<[incarnation_id i :=
        {| node_state := node_state n; node_epoch := node_epoch n; node_build := node_build n;
           node_url := node_url n; lease_until := now + ttl i |}]> (nodes db))).

Definition drain_body (i : Identity) (now : Z) (db : Database) : lease_result Database :=
  validate_deployment i db ;;
  n ← ok_or Fenced (own_row i Serving db);
  fail_if (lease_until n <=? now) Fenced ;;
  Ok (set_nodes db (<[incarnation_id i :=
        {| node_state := Draining; node_epoch := node_epoch n; node_build := node_build n;
           node_url := node_url n; lease_until := lease_until n |}]> (nodes db))).

Definition release_body (i : Identity) (db : Database) : lease_result Database :=
  validate_deployment i db ;;
  _ ← ok_or Fenced (own_row i Draining db);
  Ok (set_nodes db (delete (incarnation_id i) (nodes db))).

(** A body that found its row changed fences before it returns. *)
Definition fence_if_fenced (l : NodeLease) (r : lease_result unit) : NodeLease :=
  match r with Err Fenced => fence l | _ => l end.

(** ** Operations over both states *)

Record System : Type := { lease : NodeLease; database : Database }.

(** [register]: [r0], [r1] are the clock readings around the transaction. *)
Definition register (i : Identity) (db : Database) (r0 r1 : option Z) (now : Z) (fate : TxFate)
    : System * lease_result unit :=
  match now_or_fence new_lease r0 with
  | (l, Err e) => ({| lease := l; database := db |}, Err e)
  | (l, Ok before) =>
      let '(db, r) := transact fate DatabaseError (register_body i now) db in
      match r with
      | Err e => ({| lease := l; database := db |}, Err e)
      | Ok _ => let '(l, r) := install_deadline i l before r1 in
                ({| lease := l; database := db |}, r)
      end
  end.

(** One turn of [run_renewals] after its sleep, in its three parts: what
    precedes the transaction (the instant before the request, or the loop
    ends), the transaction, and what follows it. *)
Definition renew_begin (l : NodeLease) (r0 r1 : option Z) : NodeLease * option Z :=
  match check l r0 with
  | (l, Err _) => (l, None)
  | (l, Ok _) =>
      if draining l then (l, None)
      else match now_or_fence l r1 with
           | (l, Err _) => (l, None)
           | (l, Ok before) => (l, Some before)
           end
  end.

Definition renew_commit (i : Identity) (s : System) (now : Z) (fate : TxFate)
    : System * lease_result unit :=
  let '(db, r) := transact fate DatabaseError (renew_body i now) (database s) in
  match r with
  | Ok _ => ({| lease := lease s; database := db |}, r)
  | Err _ => ({| lease := set_ready (fence_if_fenced (lease s) r) false; database := db |}, r)
  end.

(** [true] means that the loop goes on. *)
Definition renew_install (i : Identity) (l : NodeLease) (before : Z) (r2 : option Z)
    : NodeLease * bool :=
  match install_deadline i l before r2 with
  | (l, Err _) => (set_ready l false, false)
  | (l, Ok _) => (set_ready l true, true)
  end.

Definition renewal_turn (i : Identity) (s : System) (r0 r1 r2 : option Z) (now : Z)
    (fate : TxFate) : System * bool :=
  match renew_begin (lease s) r0 r1 with
  | (l, None) => ({| lease := l; database := database s |}, false)
  | (l, Some before) =>
      match renew_commit i {| lease := l; database := database s |} now fate with
      | (s, Err _) => (s, true)
      | (s, Ok _) => let '(l, continue) := renew_install i (lease s) before r2 in
                     ({| lease := l; database := database s |}, continue)
      end
  end.

Definition begin_drain (i : Identity) (s : System) (r0 : option Z) (now : Z) (fate : TxFate)
    : System * lease_result unit :=
  match check (set_draining (lease s)) r0 with
  | (l, Err e) => ({| lease := l; database := database s |}, Err e)
  | (l, Ok _) =>
      let '(db, r) := transact fate DatabaseError (drain_body i now) (database s) in
      ({| lease := fence_if_fenced l r; database := db |}, r)
  end.

(** The durable half of [release]; the local fence follows it. *)
Definition release_commit (i : Identity) (s : System) (fate : TxFate)
    : System * lease_result unit :=
  let '(db, r) := transact fate DatabaseError (release_body i) (database s) in
  ({| lease := lease s; database := db |}, r).
Definition release (i : Identity) (s : System) (fate : TxFate) : System * lease_result unit :=
  let '(s, r) := release_commit i s fate in
  ({| lease := fence (lease s); database := database s |}, r).

(** ** The node in time

    [boot] and [dbnow] are the two clocks at this instant, [pending] the
    instant a renewal in flight was requested and whether its transaction has
    committed, [released] whether the durable release has been attempted.
    Readers of the lease interleave with the three parts of a renewal. *)

Record World : Type := {
  sys : System; boot : Z; dbnow : Z; pending : option (Z * bool); released : bool;
}.

Section node_in_time.
Variables (i : Identity) (base : Z).

(** The clocks run apart by at most the safety margin. *)
Definition drift_ok (b d : Z) : Prop := base <= d - b <= base + safety_margin i.

(** The source returns the present instant or fails. *)
Definition reads (w : World) (r : option Z) : Prop := r = None \/ r = Some (boot w).

Definition with_lease (w : World) (l : NodeLease) : World :=
  {| sys := {| lease := l; database := database (sys w) |}; boot := boot w;
     dbnow := dbnow w; pending := pending w; released := released w |}.
Definition with_pending (w : World) (p : option (Z * bool)) : World :=
  {| sys := sys w; boot := boot w; dbnow := dbnow w; pending := p; released := released w |}.
Definition with_sys (w : World) (s : System) : World :=
  {| sys := s; boot := boot w; dbnow := dbnow w; pending := pending w; released := released w |}.

Inductive world_step : World -> World -> Prop :=
| ws_time w b d :
    boot w <= b -> drift_ok b d ->
    world_step w {| sys := sys w; boot := b; dbnow := d; pending := pending w;
                    released := released w |}
| ws_check w r : reads w r ->
    world_step w (with_lease w (fst (check (lease (sys w)) r)))
| ws_renew_begin w r0 r1 : pending w = None -> reads w r0 -> reads w r1 ->
    world_step w
      (let '(l, p) := renew_begin (lease (sys w)) r0 r1 in
       with_pending (with_lease w l) (option_map (fun before => (before, false)) p))
| ws_renew_commit w before fate : pending w = Some (before, false) ->
    world_step w
      (let '(s, r) := renew_commit i (sys w) (dbnow w) fate in
       with_pending (with_sys w s) (if is_ok r then Some (before, true) else None))
| ws_renew_install w before r2 : pending w = Some (before, true) -> reads w r2 ->
    world_step w
      (with_pending (with_lease w (fst (renew_install i (lease (sys w)) before r2))) None)
| ws_drain w r0 fate : reads w r0 ->
    world_step w (with_sys w (fst (begin_drain i (sys w) r0 (dbnow w) fate)))
| ws_release_commit w fate :
    world_step w
      {| sys := fst (release_commit i (sys w) fate); boot := boot w; dbnow := dbnow w;
         pending := pending w; released := true |}
| ws_fence w : world_step w (with_lease w (fence (lease (sys w))))
| ws_others w db :
    nodes db !! incarnation_id i = nodes (database (sys w)) !! incarnation_id i ->
    world_step w (with_sys w {| lease := lease (sys w); database := db |}).

(** A node that has just registered: the clock read before the request, the
    statement's instant and the clock read after it are in order. *)
Definition registered (w : World) : Prop :=
  exists db b0 bs d fate,
    b0 <= bs /\ bs <= boot w /\ drift_ok bs d /\ drift_ok (boot w) (dbnow w)
    /\ 0 <= b0
    /\ register i db (Some b0) (Some (boot w)) d fate = (sys w, Ok tt)
    /\ pending w = None /\ released w = false.

(** ** Theorems *)

(** What an operation may do to the lease besides moving the deadline. *)
Record evolves (l l' : NodeLease) (b : Z) : Prop := {
  ev_deadline : hard_deadline_ns l' = hard_deadline_ns l;
  ev_fenced : fenced l = true -> fenced l' = true;
  ev_last : forall x, last_reading l' = Some x -> last_reading l = Some x \/ x = b;
}.

Lemma evolves_refl l b : evolves l l b.
Proof. constructor; auto. Qed.

Lemma evolves_trans l1 l2 l3 b : evolves l1 l2 b -> evolves l2 l3 b -> evolves l1 l3 b.
Proof.
  intros [H1 H2 H3] [K1 K2 K3]. constructor; [congruence | auto |].
  intros x Hx. destruct (K3 x Hx); [by apply H3 | by right].
Qed.

Lemma evolves_fence l b : evolves l (fence l) b.
Proof. constructor; cbn; auto. Qed.

Lemma now_or_fence_spec l r b l' res :
  r = None \/ r = Some b -> now_or_fence l r = (l', res) ->
  evolves l l' b /\ (forall n, res = Ok n -> n = b /\ fenced l' = fenced l /\ draining l' = draining l).
Proof.
  intros Hr H. unfold now_or_fence, clock_now in H.
  destruct Hr as [-> | ->]; [simplify_eq; split; [constructor; cbn; auto | done] |].
  assert (evolves l (set_last l (last_reading l)) b /\ evolves l (set_last l (Some b)) b)
    as [Ho Hn] by (split; constructor; cbn; naive_solver).
  destruct (last_reading l) as [p|] eqn:El; [destruct (b <? p)|]; simplify_eq;
    (split; [| naive_solver]); [eapply evolves_trans; [exact Ho | apply evolves_fence] | done..].
Qed.

Lemma check_spec l r b l' res :
  r = None \/ r = Some b -> check l r = (l', res) ->
  evolves l l' b
  /\ (res = Ok tt -> hard_deadline_ns l <> 0 /\ duration_ns b < hard_deadline_ns l
                     /\ fenced l = false).
Proof.
  intros Hr H. unfold check in H. destruct (fenced l) eqn:Ef.
  { simplify_eq. split; [apply evolves_refl | done]. }
  destruct (now_or_fence l r) as [l1 [n|e]] eqn:En;
    destruct (now_or_fence_spec _ _ _ _ _ Hr En) as [Hev Hok]; [| by simplify_eq].
  destruct (Hok n eq_refl) as (-> & _ & _). pose proof (ev_deadline _ _ _ Hev) as Hd.
  destruct (_ || _) eqn:Hb; simplify_eq.
  - split; [| done]. eapply evolves_trans; [exact Hev | apply evolves_fence].
  - split; [done |]. intros _. split_bools. rewrite Hd in *. done.
Qed.

Lemma set_ready_evolves l x b : evolves l (set_ready l x) b.
Proof. constructor; auto. Qed.

Lemma renew_begin_spec l r0 r1 b l' p :
  r0 = None \/ r0 = Some b -> r1 = None \/ r1 = Some b ->
  renew_begin l r0 r1 = (l', p) -> evolves l l' b /\ (forall x, p = Some x -> x = b).
Proof.
  intros H0 H1 H. unfold renew_begin in H.
  destruct (check l r0) as [l1 [u|e]] eqn:Ec;
    destruct (check_spec _ _ _ _ _ H0 Ec) as [Hev _]; [| by simplify_eq].
  destruct (draining l1); [by simplify_eq |].
  destruct (now_or_fence l1 r1) as [l2 [n|e]] eqn:En;
    destruct (now_or_fence_spec _ _ _ _ _ H1 En) as [Hev2 Hn]; simplify_eq.
  - split; [by eapply evolves_trans |]. intros x [= <-]. by destruct (Hn n eq_refl).
  - split; [by eapply evolves_trans | done].
Qed.

(** A new deadline is installed only while the old one has not passed. *)
Lemma install_deadline_spec l before r b l' res :
  r = None \/ r = Some b -> install_deadline i l before r = (l', res) ->
  (evolves l l' b /\ res = Err Fenced)
  \/ (hard_deadline_ns l' = duration_ns (before + ttl i - safety_margin i)
      /\ (hard_deadline_ns l = 0 \/ duration_ns b < hard_deadline_ns l)
      /\ b < before + ttl i - safety_margin i
      /\ (fenced l = true -> fenced l' = true)
      /\ (forall x, last_reading l' = Some x -> last_reading l = Some x \/ x = b)).
Proof.
  intros Hr H. unfold install_deadline in H.
  destruct (fenced l) eqn:Ef; [simplify_eq; left; split; [apply evolves_refl | done] |].
  destruct (_ <? 0); [simplify_eq; left; split; [apply evolves_fence | done] |].
  destruct (now_or_fence l r) as [l1 [n|e]] eqn:En;
    destruct (now_or_fence_spec _ _ _ _ _ Hr En) as [Hev Hok].
  2:{ unfold now_or_fence in En. repeat case_match; simplify_eq. by left. }
  destruct (Hok n eq_refl) as (-> & _ & _). pose proof Hev as [Hd Hf Hl].
  destruct (_ || _) eqn:Hb; simplify_eq.
  - left. split; [| done]. eapply evolves_trans; [exact Hev | apply evolves_fence].
  - right. cbn. apply orb_false_iff in Hb as [Hb1 Hb2]. split_bools.
    split; [done |]. split; [| split; [done | split; [done | exact Hl]]].
    apply andb_false_iff in Hb1 as [Hb1 | Hb1]; split_bools; rewrite Hd in *; auto.
Qed.

(** The row backs every deadline that is installed or about to be. *)
Definition backed (w : World) (instant : Z) : Prop :=
  released w = false ->
  exists row, nodes (database (sys w)) !! incarnation_id i = Some row
              /\ base + instant + ttl i <= lease_until row.

Record world_ok (w : World) : Prop := {
  wo_boot : 0 <= boot w;
  wo_set : hard_deadline_ns (lease (sys w)) <> 0;
  wo_drift : drift_ok (boot w) (dbnow w);
  wo_last : forall x, last_reading (lease (sys w)) = Some x -> x <= boot w;
  wo_pending : forall b c, pending w = Some (b, c) -> b <= boot w;
  wo_width : hard_deadline_ns (lease (sys w)) <= u64_max;
  wo_reach : hard_deadline_ns (lease (sys w)) <> 0 ->
             hard_deadline_ns (lease (sys w)) <= boot w + ttl i - safety_margin i;
  wo_row : hard_deadline_ns (lease (sys w)) <> 0 ->
           backed w (hard_deadline_ns (lease (sys w)) - (ttl i - safety_margin i));
  wo_pending_row : forall b, pending w = Some (b, true) -> backed w b;
}.

(** Steps that keep the deadline and the row keep the invariant. *)
Lemma world_ok_evolves w l p :
  world_ok w -> evolves (lease (sys w)) l (boot w) ->
  (forall b c, p = Some (b, c) -> b <= boot w) ->
  (forall b, p = Some (b, true) -> backed w b) ->
  world_ok (with_pending (with_lease w l) p).
Proof.
  intros [] [Hd Hf Hl] Hp Hpr. constructor; cbn; rewrite ?Hd; auto.
  intros x Hx. destruct (Hl x Hx); [auto | lia].
Qed.

Lemma world_ok_lease w l :
  world_ok w -> evolves (lease (sys w)) l (boot w) -> world_ok (with_lease w l).
Proof.
  intros Hw Hev. pose proof Hw as [].
  destruct (world_ok_evolves w l (pending w) Hw Hev) as []; auto. by constructor.
Qed.

Lemma transact_cases {E} fate (e : E) body db db' r :
  transact fate e body db = (db', r) ->
  (db' = db /\ (r = Ok tt -> False)) \/ (body db = Ok db').
Proof. unfold transact. intros H. repeat case_match; simplify_eq; auto; left; by split. Qed.

Lemma transact_Ok {E} fate (e : E) body db db' u :
  transact fate e body db = (db', Ok u) -> body db = Ok db'.
Proof. unfold transact. intros H. by repeat case_match; simplify_eq. Qed.

Lemma renew_body_row now db db' :
  renew_body i now db = Ok db' ->
  exists row, nodes db' !! incarnation_id i = Some row /\ lease_until row = now + ttl i.
Proof.
  unfold renew_body. intros H. inv_ok. cbn. rewrite lookup_insert_eq. eauto.
Qed.

Lemma drain_body_row now db db' :
  drain_body i now db = Ok db' ->
  exists row row', nodes db !! incarnation_id i = Some row
    /\ nodes db' !! incarnation_id i = Some row' /\ lease_until row' = lease_until row.
Proof.
  unfold drain_body, own_row. intros H. inv_ok. cbn. rewrite lookup_insert_eq.
  destruct (nodes db !! incarnation_id i) as [row|]; [| done]. cbn in *.
  case_match; simplify_eq. eauto 10.
Qed.

Lemma fence_if_fenced_evolves l r b : evolves l (fence_if_fenced l r) b.
Proof. destruct r as [u|[]]; cbn; (apply evolves_refl || apply evolves_fence). Qed.

Lemma backed_same_nodes w s' x :
  nodes (database s') !! incarnation_id i = nodes (database (sys w)) !! incarnation_id i ->
  backed w x -> backed (with_sys w s') x.
Proof. unfold backed. cbn. by intros ->. Qed.

(** The parts of the invariant a change of the tables leaves alone. *)
Lemma world_ok_sys w s' p :
  world_ok w -> evolves (lease (sys w)) (lease s') (boot w) ->
  (forall x, backed w x -> x <= boot w -> backed (with_sys w s') x) ->
  (forall b c, p = Some (b, c) -> b <= boot w) ->
  (forall b, p = Some (b, true) -> backed (with_sys w s') b) ->
  world_ok (with_pending (with_sys w s') p).
Proof.
  intros [] [Hd Hf Hl] Hb Hp Hpr. constructor; cbn; rewrite ?Hd; auto.
  - intros x Hx. destruct (Hl x Hx); [auto | lia].
  - intros H0. apply (Hb _ (wo_row0 H0)). specialize (wo_reach0 H0). lia.
Qed.

Lemma renew_commit_ok w b fate s r :
  world_ok w -> pending w = Some (b, false) -> renew_commit i (sys w) (dbnow w) fate = (s, r) ->
  world_ok (with_pending (with_sys w s) (if is_ok r then Some (b, true) else None)).
Proof.
  intros Hw Hpend H. unfold renew_commit in H. pose proof Hw as [].
  destruct (transact _ _ _ _) as [db res] eqn:Et.
  assert (database s = db /\ r = res /\ evolves (lease (sys w)) (lease s) (boot w))
    as (<- & -> & Hev).
  { destruct res as [u|e]; simplify_eq; cbn; (split; [done | split; [done |]]);
      [apply evolves_refl |].
    eapply evolves_trans; [apply (fence_if_fenced_evolves _ (Err e)) | apply set_ready_evolves]. }
  assert (forall x, x <= boot w -> renew_body i (dbnow w) (database (sys w)) = Ok (database s) ->
            backed (with_sys w s) x) as Hnew.
  { intros x Hx Hren _. apply renew_body_row in Hren as (row & Hrow & Hl). exists row.
    split; [exact Hrow |]. rewrite Hl. destruct wo_drift0. lia. }
  apply world_ok_sys; [done | done | | |].
  - intros x Hb Hx. apply transact_cases in Et as [[Hsame _] | Hren].
    + by apply backed_same_nodes; [rewrite Hsame |].
    + by apply Hnew.
  - destruct res; cbn; [intros b' c [= <- <-]; eauto | done].
  - destruct res as [[]|]; cbn; [| done]. intros b' [= <-]. apply transact_Ok in Et.
    apply Hnew; eauto.
Qed.

Lemma drain_ok w r0 fate :
  world_ok w -> reads w r0 ->
  world_ok (with_sys w (fst (begin_drain i (sys w) r0 (dbnow w) fate))).
Proof.
  intros Hw Hr. pose proof Hw as []. unfold begin_drain.
  destruct (check (set_draining (lease (sys w))) r0) as [l [u|e]] eqn:Ec;
    destruct (check_spec _ _ _ _ _ Hr Ec) as [[Hd Hf Hl] _]; cbn in Hd, Hf, Hl.
  2:{ apply (world_ok_sys w _ (pending w)); cbn; auto; by constructor. }
  destruct (transact _ _ _ _) as [db res] eqn:Et. cbn [fst].
  assert (forall x, backed w x ->
    backed (with_sys w {| lease := fence_if_fenced l res; database := db |}) x) as Hkeep.
  { intros x Hb Hrel. destruct (Hb Hrel) as (row & Hrow & Hx).
    apply transact_cases in Et as [[-> _] | Hbody]; cbn; [by eauto |].
    apply drain_body_row in Hbody as (row1 & row2 & Hrow1 & Hrow2 & Heq).
    exists row2. split; [done |]. rewrite Heq. congruence. }
  apply (world_ok_sys w _ (pending w)); auto.
  eapply evolves_trans; [by constructor | apply fence_if_fenced_evolves].
Qed.

Lemma install_ok w b r :
  world_ok w -> pending w = Some (b, true) -> reads w r ->
  world_ok (with_pending (with_lease w (fst (renew_install i (lease (sys w)) b r))) None).
Proof.
  intros Hw Hp Hr. unfold renew_install.
  destruct (install_deadline i (lease (sys w)) b r) as [l res] eqn:Ei.
  assert (exists l', evolves l l' (boot w) /\ hard_deadline_ns l' = hard_deadline_ns l
            /\ l' = fst (match res with Err _ => (set_ready l false, false)
                         | Ok _ => (set_ready l true, true) end)) as (l' & Hev & Hdl & <-).
  { destruct res; eexists; (split; [apply set_ready_evolves | done]). }
  destruct (install_deadline_spec _ _ _ _ _ _ Hr Ei) as [[Hev1 _] | (Hd & _ & Hb & Hf & Hl)].
  - apply world_ok_evolves; [done | by eapply evolves_trans | done | done].
  - pose proof Hw as []. specialize (wo_pending0 _ _ Hp).
    assert (hard_deadline_ns l' <= b + ttl i - safety_margin i) as Hle
      by (rewrite Hdl, Hd; unfold duration_ns; lia).
    constructor; cbn; auto; try done.
    + rewrite Hdl, Hd. unfold duration_ns, u64_max. lia.
    + intros x Hx. destruct (ev_last _ _ _ Hev x Hx) as [Hx1 | ->]; [| lia].
      destruct (Hl x Hx1); [auto | lia].
    + rewrite Hdl, Hd. unfold duration_ns. lia.
    + intros _. lia.
    + intros _ Hrel. destruct (wo_pending_row0 _ Hp Hrel) as (row & Hrow & Hu).
      exists row. split; [exact Hrow | lia].
Qed.

Lemma world_step_ok w w' : world_ok w -> world_step w w' -> world_ok w'.
Proof.
  intros Hw Hstep. pose proof Hw as []. destruct Hstep.
  - constructor; cbn; auto; try lia.
    + intros x Hx. specialize (wo_last0 x Hx). lia.
    + intros b' c Hp. specialize (wo_pending0 b' c Hp). lia.
  - destruct (check (lease (sys w)) r) as [l res] eqn:E. apply world_ok_lease; [done |].
    by eapply check_spec.
  - destruct (renew_begin (lease (sys w)) r0 r1) as [l p] eqn:E.
    destruct (renew_begin_spec _ _ _ _ _ _ H0 H1 E) as [Hev Hp].
    apply world_ok_evolves; [done | done | |]; destruct p as [x|]; cbn; try done.
    intros b c [= <- <-]. by rewrite (Hp x eq_refl).
  - destruct (renew_commit i (sys w) (dbnow w) fate) as [s r] eqn:E.
    by eapply renew_commit_ok.
  - by apply install_ok.
  - by apply drain_ok.
  - unfold release_commit. destruct (transact _ _ _ _) as [db r].
    constructor; cbn; auto; done.
  - apply world_ok_lease; [done | apply evolves_fence].
  - apply (world_ok_sys w _ (pending w)); auto using evolves_refl, backed_same_nodes.
Qed.

Lemma registered_ok w : registered w -> world_ok w.
Proof.
  intros (db & b0 & bs & d & fate & H1 & H2 & Hds & Hdw & H0 & Hreg & Hp & Hrel).
  unfold register in Hreg.
  assert (now_or_fence new_lease (Some b0) = (set_last new_lease (Some b0), Ok b0)) as Hn
    by done.
  rewrite Hn in Hreg. destruct (transact _ _ _ db) as [db' r] eqn:Et.
  destruct r as [[]|]; [| done]. apply transact_Ok in Et.
  destruct (install_deadline i _ b0 _) as [l res] eqn:Ei. injection Hreg as Hs ->.
  assert (exists row, nodes db' !! incarnation_id i = Some row /\ lease_until row = d + ttl i)
    as (row & Hrow & Hlu).
  { unfold register_body in Et. inv_ok.
    eexists. cbn. by rewrite lookup_insert_eq. }
  destruct (install_deadline_spec _ b0 (Some (boot w)) (boot w) _ _ ltac:(by right) Ei)
    as [[_ ?] | (Hd & _ & Hb & Hf & Hl)]; cbn in *; [done |].
  - assert (hard_deadline_ns l <= b0 + ttl i - safety_margin i) as Hle
      by (rewrite Hd; unfold duration_ns; lia).
    constructor; rewrite <- ?Hs; cbn; rewrite ?Hp; try done; try lia.
    + rewrite Hd. unfold duration_ns, u64_max. lia.
    + intros x Hx. destruct (Hl x Hx) as [[= ->] | ->]; lia.
    + rewrite Hd. unfold duration_ns. lia.
    + intros _ _. rewrite <- Hs. cbn. exists row. split; [done |]. destruct Hds. lia.
Qed.

Lemma reachable_ok w0 w : registered w0 -> rtc world_step w0 w -> world_ok w.
Proof.
  intros H0%registered_ok H. induction H as [|w0 w1 w2 H1 _ IH]; [done |].
  apply IH. by eapply world_step_ok.
Qed.

Lemma world_ok_check w :
  world_ok w -> snd (check (lease (sys w)) (Some (boot w))) = Ok tt -> released w = false ->
  exists row, nodes (database (sys w)) !! incarnation_id i = Some row
              /\ dbnow w < lease_until row.
Proof.
  intros [] Hcheck Hrel.
  destruct (check (lease (sys w)) (Some (boot w))) as [l res] eqn:E. cbn in Hcheck. subst res.
  destruct (check_spec _ _ (boot w) _ _ ltac:(by right) E) as [_ Hok].
  destruct (Hok eq_refl) as (Hd & Hlt & _). destruct (wo_row0 Hd Hrel) as (row & Hrow & Hu).
  exists row. split; [done |]. unfold duration_ns in Hlt. destruct wo_drift0. lia.
Qed.

(** C19. The local fence is conservative.  In every history of a registered
    node - renewals interleaved with checks, draining, fencing, failed or
    unseen commits, and clocks that drift apart by at most the safety margin -
    a check that succeeds at some instant implies that at this instant the
    database still holds this incarnation's row with a lease that has not
    expired (unless this node itself has already released it). *)
Theorem check_implies_valid_lease (w0 w : World)
    (Hreg : registered w0) (Hsteps : rtc world_step w0 w)
    (Hcheck : snd (check (lease (sys w)) (Some (boot w))) = Ok tt)
    (Hrel : released w = false) :
  exists row, nodes (database (sys w)) !! incarnation_id i = Some row
              /\ dbnow w < lease_until row.
Proof.
  apply world_ok_check; [by eapply reachable_ok | done | done].
Qed.

(** Fenced, or past its own deadline. *)
Definition dead (w : World) : Prop :=
  fenced (lease (sys w)) = true
  \/ hard_deadline_ns (lease (sys w)) <= duration_ns (boot w).

Lemma dead_evolves w w' :
  dead w -> evolves (lease (sys w)) (lease (sys w')) (boot w) -> boot w <= boot w' -> dead w'.
Proof.
  intros [Hf | Hd] [Hd' Hf' _] Hb; [left; auto | right].
  rewrite Hd'. unfold duration_ns in *. lia.
Qed.

Lemma dead_step w w' : world_ok w -> dead w -> world_step w w' -> dead w'.
Proof.
  intros Hw Hdead Hstep. destruct Hstep.
  - eapply dead_evolves; [done | apply evolves_refl | done].
  - destruct (check (lease (sys w)) r) as [l res] eqn:E.
    eapply dead_evolves; [done | by eapply check_spec | done].
  - destruct (renew_begin (lease (sys w)) r0 r1) as [l p] eqn:E.
    destruct (renew_begin_spec _ _ _ _ _ _ H0 H1 E) as [Hev _].
    eapply dead_evolves; [done | exact Hev | done].
  - unfold renew_commit. destruct (transact _ _ _ _) as [db r].
    eapply dead_evolves; [done | | by destruct r].
    destruct r as [u|e]; cbn; [apply evolves_refl |].
    eapply evolves_trans; [apply (fence_if_fenced_evolves _ (Err e)) | apply set_ready_evolves].
  - unfold renew_install. destruct (install_deadline i (lease (sys w)) before r2) as [l res] eqn:E.
    destruct (install_deadline_spec _ _ _ _ _ _ H0 E) as [[Hev _] | (Hd & Hc & _ & Hf & _)].
    + destruct res; (eapply dead_evolves; [exact Hdead | | done]);
        (eapply evolves_trans; [exact Hev | apply set_ready_evolves]).
    + destruct Hdead as [Hfenced | Hpast].
      * left. destruct res; cbn; auto.
      * exfalso. destruct (wo_set _ Hw). destruct Hc; [done | lia].
  - unfold begin_drain. destruct (check (set_draining (lease (sys w))) r0) as [l [u|e]] eqn:E;
      destruct (check_spec _ _ _ _ _ H E) as [[H1 H2 H3] _];
      [destruct (transact _ _ _ _) as [db res] |].
    + eapply dead_evolves; [done | | done]. cbn.
      eapply evolves_trans; [| apply fence_if_fenced_evolves]. by constructor.
    + eapply dead_evolves; [done | | done]. by constructor.
  - unfold release_commit. destruct (transact _ _ _ _) as [db r].
    eapply dead_evolves; [done | apply evolves_refl | done].
  - eapply dead_evolves; [done | apply evolves_fence | done].
  - eapply dead_evolves; [done | apply evolves_refl | done].
Qed.

(** Lost authority never comes back: once the durable lease of an
    unreleased node has lapsed, or once it is fenced, every later check fails,
    whatever renewal was in flight and whatever it did to the row. *)
Theorem lapsed_lease_is_final (w0 w1 w2 : World)
    (Hreg : registered w0) (H01 : rtc world_step w0 w1) (H12 : rtc world_step w1 w2)
    (Hlost : fenced (lease (sys w1)) = true
       \/ (released w1 = false
           /\ forall row, nodes (database (sys w1)) !! incarnation_id i = Some row ->
                          lease_until row <= dbnow w1)) :
  snd (check (lease (sys w2)) (Some (boot w2))) = Err Fenced.
Proof.
  pose proof (reachable_ok _ _ Hreg H01) as Hw1.
  assert (dead w1) as Hdead.
  { destruct Hlost as [Hf | [Hrel Hrow]]; [by left | right]. destruct Hw1.
    destruct (wo_row0 wo_set0 Hrel) as (row & Hr & Hu). specialize (Hrow _ Hr).
    unfold duration_ns. destruct wo_drift0. lia. }
  assert (dead w2) as Hdead2.
  { clear Hlost. revert Hw1 Hdead. induction H12 as [|w1 w2 w3 Hstep _ IH]; [done |].
    intros Hw1 Hdead. apply IH; [by eapply rtc_r | by eapply world_step_ok
      | by eapply dead_step]. }
  destruct (check (lease (sys w2)) (Some (boot w2))) as [l res] eqn:E.
  destruct (check_spec _ _ (boot w2) _ _ ltac:(by right) E) as [_ Hok]. cbn.
  destruct res as [[]|e].
  - destruct (Hok eq_refl) as (_ & Hlt & Hf). destruct Hdead2; [congruence | lia].
  - unfold check, now_or_fence in E. by repeat case_match; simplify_eq.
Qed.
End node_in_time.

(** A single node with a 30-second lease and a 5-second margin. *)
Definition sample_identity : Identity :=
  {| incarnation_id := 77; config_epoch := 1; build_id := lit "build"; profile := SingleNode;
     config_proof := None; internal_wss_url := None; ttl_seconds := 30;
     safety_margin := 5000000000 |}.
Definition sample_database : Database :=
  {| deployment := Some {| dep_id := 1; dep_epoch := 1; dep_build := lit "build";
       dep_protocol := 1; dep_profile := SingleNode; dep_proof := None |}; nodes := ∅ |}.
Definition sample_world : World :=
  {| sys := fst (register sample_identity sample_database (Some 100) (Some 300) 1200 Committed);
     boot := 300; dbnow := 1400; pending := None; released := false |}.
Definition later_world : World :=
  {| sys := sys sample_world; boot := 40000000300; dbnow := 40000001300; pending := None;
     released := false |}.

Lemma sample_registered : registered sample_identity 1000 sample_world.
Proof.
  exists sample_database, 100, 200, 1200, Committed. unfold drift_ok.
  cbn [boot dbnow sample_world sample_identity safety_margin].
  repeat split; try lia.
Qed.

Lemma check_implies_valid_lease_witness :
  exists row, nodes (database (sys sample_world)) !! 77 = Some row /\ 1400 < lease_until row.
Proof.
  apply (check_implies_valid_lease sample_identity 1000 sample_world sample_world
           sample_registered (rtc_refl _ _)); vm_compute; reflexivity.
Defined.

Lemma lapsed_lease_is_final_witness :
  snd (check (lease (sys later_world)) (Some (boot later_world))) = Err Fenced.
Proof.
  apply (lapsed_lease_is_final sample_identity 1000 sample_world later_world later_world
           sample_registered).
  - apply rtc_once. apply (ws_time sample_identity 1000 sample_world); cbn; [lia |].
    unfold drift_ok. cbn. lia.
  - apply rtc_refl.
  - right. split; [reflexivity |]. intros row Hrow. vm_compute in Hrow. injection Hrow as <-.
    vm_compute. discriminate.
Defined.
