(* ===== verification/Config.v ===== *)
(** * Config: the settings of a server process

    Models [crates/owlmux-server/src/config.rs] and the identity that
    [NodeLease::register] of [deployment.rs] takes from it.  The process
    environment is a function from names to values; its values are arbitrary
    bytes ([OsString] on Unix), of which most settings must be UTF-8. *)

From S2P Require Import Prelude Text Contracts Binary Secrets Cluster Address Lease.

(** [url::Url], read through its accessors. *)
Record Url : Type := {
  scheme : bytes; host_str : option bytes; path : bytes; query : option bytes;
  fragment : option bytes; username : bytes; password : option bytes;
  port_or_known_default : option Z;
}.
Class UrlParser : Type := { url_parse : bytes -> option Url }.

Inductive ConfigError : Type := Missing (key : bytes) | Invalid (key : bytes).
Global Instance ConfigError_eq_dec : EqDecision ConfigError.
Proof. solve_decision. Defined.

Definition error_text (e : ConfigError) : bytes :=
  match e with
  | Missing key => lit "missing " ++ key
  | Invalid key => lit "invalid " ++ key
  end.

Definition DEFAULT_ADDRESS : bytes := lit "127.0.0.1:8080".
Definition DEFAULT_WEB_DIR : bytes := lit "apps/web/dist".
Definition DEFAULT_PUBLIC_ORIGIN : bytes := lit "http://127.0.0.1:8080".
Definition DEFAULT_SSH_RUNTIME_ROOT : bytes := lit "/tmp/owlmux-ssh".
Definition DEFAULT_SHUTDOWN_SECONDS : Z := 10.
Definition DEFAULT_LEASE_SECONDS : Z := 30.
Definition DEFAULT_LEASE_MARGIN_SECONDS : Z := 5.
Definition MAX_SHUTDOWN_SECONDS : Z := 60.

Record ClusterConfig : Type := {
  cl_key : bytes; cl_address : SocketAddr; advertised_url : bytes; tls_certificate : bytes;
  tls_private_key : bytes; tls_ca : bytes;
}.

(** Durations in seconds; [Profile] is that of the deployment row. *)
Record Config : Type := {
  cf_address : SocketAddr; web_dir : bytes; public_origin : bytes; database_url : bytes;
  api_key : bytes; encryption_key : bytes; ssh_runtime_root : bytes; epoch : Z;
  lease_ttl : Z; lease_safety_margin : Z; shutdown_timeout : Z; node_name : option bytes;
  cf_profile : Profile; cluster : option ClusterConfig;
}.

(** [env::var_os]. *)
Abbreviation environment := (bytes -> option bytes).

Definition optional_utf8 (read : environment) (key : bytes) : result ConfigError (option bytes) :=
  match read key with
  | Some value => Some <$> ok_or (Invalid key) (from_utf8 value)
  | None => Ok None
  end.

(** [Option::filter] on nonempty text. *)
Definition nonempty (value : option bytes) : option bytes :=
  match value with Some [] => None | _ => value end.

Definition required_utf8 (read : environment) (key : bytes) : result ConfigError bytes :=
  value ← optional_utf8 read key;
  ok_or (Missing key) (nonempty value).

Definition parse_number (parse : bytes -> option Z) (read : environment) (key : bytes)
    (default : Z) : result ConfigError Z :=
  value ← optional_utf8 read key;
  match value with
  | Some value => ok_or (Invalid key) (parse value)
  | None => Ok default
  end.

(** [Path::is_absolute] on Unix. *)
Definition is_absolute (path : bytes) : bool := starts_with (lit "/") path.

Definition INTERNAL_PATH : bytes := lit "/internal/v1/owner".

(** The check both [config.rs] and [internal.rs] make of an internal URL. *)
Definition is_internal_url (url : Url) : bool :=
  negb (negb (bool_decide (scheme url = lit "wss"))
        || bool_decide (host_str url = None)
        || negb (bool_decide (path url = INTERNAL_PATH))
        || bool_decide (is_Some (query url))
        || bool_decide (is_Some (fragment url))
        || negb (bool_decide (username url = []))
        || bool_decide (is_Some (password url))).

Definition validate_origin (origin : bytes) : result ConfigError unit :=
  let invalid := Invalid (lit "OWLMUX_PUBLIC_ORIGIN") in
  remainder ← ok_or invalid
    (match strip_prefix (lit "http://") origin with
     | Some r => Some r
     | None => strip_prefix (lit "https://") origin
     end);
  fail_if (bool_decide (remainder = []) || bool_decide ("/"%byte ∈ remainder)
           || bool_decide ("?"%byte ∈ remainder) || bool_decide ("#"%byte ∈ remainder)) invalid.

Section config.
Context `{Hbase : Base64} `{Hsha : Sha256} `{Hurl : UrlParser}.

Definition validate_internal_url (value : bytes) : result ConfigError unit :=
  let invalid := Invalid (lit "OWLMUX_INTERNAL_URL") in
  url ← ok_or invalid (url_parse value);
  fail_if (negb (is_internal_url url)) invalid.

(** [ApiKey], [EncryptionKey] and [ClusterKey] all digest their 32 bytes. *)
Definition configuration_digest (key : bytes) : bytes := sha256 key.

Definition cluster_names : list bytes :=
  map lit ["OWLMUX_CLUSTER_KEY"; "OWLMUX_INTERNAL_ADDR"; "OWLMUX_INTERNAL_URL";
           "OWLMUX_INTERNAL_TLS_CERT"; "OWLMUX_INTERNAL_TLS_KEY"; "OWLMUX_INTERNAL_TLS_CA"].

(** [collect::<Result<Vec<_>, _>>]. *)
Fixpoint read_all (read : environment) (names : list bytes)
    : result ConfigError (list (bytes * option bytes)) :=
  match names with
  | [] => Ok []
  | name :: rest =>
      value ← optional_utf8 read name;
      values ← read_all read rest;
      Ok ((name, value) :: values)
  end.

(** The closure [required]; the source indexes within the six values. *)
Definition required_value (values : list (bytes * option bytes)) (index : nat)
    : result ConfigError bytes :=
  match values !! index with
  | Some (name, value) => ok_or (Missing name) (nonempty value)
  | None => Err (Missing [])
  end.

Definition load_cluster_config (read : environment) (profile : Profile)
    (api_key encryption_key : bytes) : result ConfigError (option ClusterConfig) :=
  values ← read_all read cluster_names;
  match profile with
  | SingleNode =>
      match list_find (fun kv : bytes * option bytes => is_Some kv.2) values with
      | Some (_, (name, _)) => Err (Invalid name)
      | None => Ok None
      end
  | Clustered =>
      key ← required_value values 0;
      key ← map_err (fun _ => Invalid (lit "OWLMUX_CLUSTER_KEY")) (parse_cluster_key key);
      fail_if (bool_decide (configuration_digest key = configuration_digest api_key)
               || bool_decide (configuration_digest key = configuration_digest encryption_key))
        (Invalid (lit "OWLMUX_CLUSTER_KEY")) ;;
      address ← required_value values 1;
      address ← ok_or (Invalid (lit "OWLMUX_INTERNAL_ADDR")) (parse_socket_addr address);
      url ← required_value values 2;
      validate_internal_url url ;;
      certificate ← required_value values 3;
      private_key ← required_value values 4;
      ca ← required_value values 5;
      fail_if (negb (is_absolute certificate) || negb (is_absolute private_key)
               || negb (is_absolute ca)) (Invalid (lit "OWLMUX_INTERNAL_TLS_CERT")) ;;
      Ok (Some {| cl_key := key; cl_address := address; advertised_url := url;
                  tls_certificate := certificate; tls_private_key := private_key;
                  tls_ca := ca |})
  end.

(** A path setting: absent and empty both mean the default. *)
Definition path_setting (read : environment) (key default_path : bytes) : bytes :=
  default default_path (nonempty (read key)).

Definition name_refused (name : option bytes) : bool :=
  match name with
  | Some n => bool_decide (n = []) || (128 <? zlen n) || chars_any is_control n
  | None => false
  end.

Definition parse_profile (value : option bytes) : result ConfigError Profile :=
  match value with
  | None => Ok SingleNode
  | Some v => if bool_decide (v = lit "single-node") then Ok SingleNode
              else if bool_decide (v = lit "clustered") then Ok Clustered
              else Err (Invalid (lit "OWLMUX_PROFILE"))
  end.

Definition load (read : environment) : result ConfigError Config :=
  address ← optional_utf8 read (lit "OWLMUX_ADDR");
  address ← ok_or (Invalid (lit "OWLMUX_ADDR"))
              (parse_socket_addr (default DEFAULT_ADDRESS address));
  let web_dir := path_setting read (lit "OWLMUX_WEB_DIR") DEFAULT_WEB_DIR in
  origin ← optional_utf8 read (lit "OWLMUX_PUBLIC_ORIGIN");
  let origin := default DEFAULT_PUBLIC_ORIGIN origin in
  validate_origin origin ;;
  url ← required_utf8 read (lit "OWLMUX_DATABASE_URL");
  fail_if (negb (starts_with (lit "postgres://") url) && negb (starts_with (lit "postgresql://") url))
    (Invalid (lit "OWLMUX_DATABASE_URL")) ;;
  api ← required_utf8 read (lit "OWLMUX_API_KEY");
  api ← map_err (fun _ => Invalid (lit "OWLMUX_API_KEY")) (parse_api_key api);
  enc ← required_utf8 read (lit "OWLMUX_SSH_KEY_ENCRYPTION_KEY");
  enc ← map_err (fun _ => Invalid (lit "OWLMUX_SSH_KEY_ENCRYPTION_KEY"))
          (parse_encryption_key enc);
  let root := path_setting read (lit "OWLMUX_SSH_RUNTIME_ROOT") DEFAULT_SSH_RUNTIME_ROOT in
  fail_if (negb (is_absolute root)) (Invalid (lit "OWLMUX_SSH_RUNTIME_ROOT")) ;;
  epoch ← parse_number parse_i64 read (lit "OWLMUX_CONFIG_EPOCH") 1;
  fail_if (epoch <=? 0) (Invalid (lit "OWLMUX_CONFIG_EPOCH")) ;;
  ttl ← parse_number parse_u64 read (lit "OWLMUX_NODE_LEASE_TTL_SECONDS") DEFAULT_LEASE_SECONDS;
  margin ← parse_number parse_u64 read (lit "OWLMUX_NODE_LEASE_SAFETY_MARGIN_SECONDS")
             DEFAULT_LEASE_MARGIN_SECONDS;
  fail_if ((margin =? 0) || (ttl <=? margin) || (300 <? ttl))
    (Invalid (lit "OWLMUX_NODE_LEASE_SAFETY_MARGIN_SECONDS")) ;;
  shutdown ← parse_number parse_u64 read (lit "OWLMUX_SHUTDOWN_TIMEOUT_SECONDS")
               DEFAULT_SHUTDOWN_SECONDS;
  fail_if (negb (in_range 1 MAX_SHUTDOWN_SECONDS shutdown))
    (Invalid (lit "OWLMUX_SHUTDOWN_TIMEOUT_SECONDS")) ;;
  name ← optional_utf8 read (lit "OWLMUX_NODE_NAME");
  fail_if (name_refused name) (Invalid (lit "OWLMUX_NODE_NAME")) ;;
  profile ← optional_utf8 read (lit "OWLMUX_PROFILE");
  profile ← parse_profile profile;
  cluster ← load_cluster_config read profile api enc;
  Ok {| cf_address := address; web_dir := web_dir; public_origin := origin;
        database_url := url; api_key := api; encryption_key := enc; ssh_runtime_root := root;
        epoch := epoch; lease_ttl := ttl; lease_safety_margin := margin;
        shutdown_timeout := shutdown; node_name := name; cf_profile := profile;
        cluster := cluster |}.

Definition profile_database_value (c : Config) : bytes :=
  match cf_profile c with SingleNode => lit "single_node" | Clustered => lit "clustered" end.

Section proof.
Context `{Hhmac : Hmac}.
Variable BUILD_ID : bytes.

Definition configuration_input (c : Config) (deployment_id : Uuid) : ConfigurationInput :=
  {| ci_deployment_id := deployment_id; ci_config_epoch := epoch c;
     ci_server_build_id := BUILD_ID; ci_api_key_digest := configuration_digest (api_key c);
     ci_encryption_key_digest := configuration_digest (encryption_key c);
     ci_public_origin := public_origin c |}.

(** [Config::configuration_proof]; the inner option is the panic of
    [append_field]. *)
Definition config_proof (c : Config) (deployment_id : Uuid) : option (option bytes) :=
  (fun cl => configuration_proof (cl_key cl) (configuration_input c deployment_id)) <$> cluster c.

(** The fields of the lease that [NodeLease::register] fills in. *)
Definition register_identity (c : Config) (deployment_id incarnation : Uuid) : Identity :=
  {| incarnation_id := incarnation; config_epoch := epoch c; build_id := BUILD_ID;
     profile := cf_profile c; Lease.config_proof := mjoin (config_proof c deployment_id);
     internal_wss_url := advertised_url <$> cluster c;
     ttl_seconds := lease_ttl c; safety_margin := lease_safety_margin c * 1000000000 |}.
End proof.
End config.

(** ** What is accepted *)

(** The variable holds UTF-8 text, or is not set. *)
Definition text (read : environment) (key : bytes) (value : option bytes) : Prop :=
  read key = value /\ forall v, value = Some v -> from_utf8 v = Some v.
Definition required (read : environment) (key value : bytes) : Prop :=
  text read key (Some value) /\ value <> [].
Definition number (parse : bytes -> option Z) (read : environment) (key : bytes)
    (dflt n : Z) : Prop :=
  exists value, text read key value
    /\ match value with Some v => parse v = Some n | None => n = dflt end.

Lemma optional_utf8_Ok read key value :
  optional_utf8 read key = Ok value <-> text read key value.
Proof.
  unfold optional_utf8, text. destruct (read key) as [v|].
  - destruct (from_utf8 v) as [w|] eqn:E; cbn.
    + pose proof (from_utf8_Some _ _ E). subst w. naive_solver.
    + split; [done |]. intros [<- H]. rewrite (H v eq_refl) in E. done.
  - cbn. naive_solver.
Qed.

Lemma nonempty_Some value v : nonempty value = Some v <-> value = Some v /\ v <> [].
Proof. destruct value as [[|]|]; cbn; naive_solver. Qed.

Lemma required_utf8_Ok read key v : required_utf8 read key = Ok v <-> required read key v.
Proof.
  unfold required_utf8, required. rewrite bind_Ok. setoid_rewrite optional_utf8_Ok.
  setoid_rewrite ok_or_Ok. setoid_rewrite nonempty_Some. naive_solver.
Qed.

Lemma parse_number_Ok parse read key dflt n :
  parse_number parse read key dflt = Ok n <-> number parse read key dflt n.
Proof.
  unfold parse_number, number. rewrite bind_Ok. setoid_rewrite optional_utf8_Ok.
  f_equiv. intros [v|]; [by rewrite ok_or_Ok | naive_solver].
Qed.

Lemma number_u64_range read key dflt n :
  0 <= dflt <= u64_max -> number parse_u64 read key dflt n -> 0 <= n <= u64_max.
Proof. intros Hd ([v|] & _ & H); [by eapply parse_unsigned_range | by subst]. Qed.

(** Pass a step that succeeds. *)
Lemma bind_intro {A B} (m : result ConfigError A) (f : A -> result ConfigError B) a r :
  m = Ok a -> f a = r -> (m ≫= f) = r.
Proof. by intros ->. Qed.

Lemma required_value_Ok values i name value v :
  values !! i = Some (name, value) ->
  (required_value values i = Ok v) <-> (value = Some v /\ v <> []).
Proof. unfold required_value. intros ->. by rewrite ok_or_Ok, nonempty_Some. Qed.

Lemma read_all_Ok read names values :
  read_all read names = Ok values <->
  values = (fun n => (n, read n)) <$> names /\ Forall (fun n => text read n (read n)) names.
Proof.
  revert values; induction names as [|n names IH]; intros values; cbn.
  - naive_solver.
  - rewrite bind_Ok. setoid_rewrite bind_Ok. setoid_rewrite optional_utf8_Ok. setoid_rewrite IH.
    rewrite Forall_cons. split.
    + intros (v & Hv & vs & [-> Hn] & [= <-]). pose proof Hv as [<- _]. done.
    + intros [-> [Hv Hn]]. exists (read n). naive_solver.
Qed.

(** A usable public origin: a scheme, an authority, nothing after it. *)
Definition origin_ok (origin : bytes) : Prop :=
  exists s rest, s ∈ [lit "http://"; lit "https://"] /\ origin = s ++ rest /\ rest <> []
    /\ ("/"%byte ∉ rest) /\ ("?"%byte ∉ rest) /\ ("#"%byte ∉ rest).

Lemma validate_origin_Ok origin u : validate_origin origin = Ok u <-> origin_ok origin.
Proof.
  unfold validate_origin, origin_ok. rewrite bind_Ok. setoid_rewrite ok_or_Ok.
  setoid_rewrite fail_if_Ok. split.
  - intros (r & Hr & Hc). split_bools.
    destruct (strip_prefix (lit "http://") origin) as [x|] eqn:E.
    + injection Hr as ->. apply strip_prefix_Some in E as ->.
      exists (lit "http://"), r. split_and!; [left | done ..].
    + apply strip_prefix_Some in Hr as ->. exists (lit "https://"), r.
      split_and!; [right; left | done ..].
  - intros (s & r & Hs & -> & H1 & H2 & H3 & H4). exists r. split.
    + apply elem_of_cons in Hs as [-> | Hs%list_elem_of_singleton].
      * by rewrite strip_prefix_app.
      * subst s. change (strip_prefix (lit "http://") (lit "https://" ++ r)) with (@None bytes).
        cbv iota. by rewrite strip_prefix_app.
    + by rewrite !bool_decide_false.
Qed.

Lemma is_internal_url_true url :
  is_internal_url url = true <->
  scheme url = lit "wss" /\ is_Some (host_str url) /\ path url = INTERNAL_PATH
  /\ query url = None /\ fragment url = None /\ username url = [] /\ password url = None.
Proof.
  unfold is_internal_url. rewrite !negb_true_iff, !orb_false_iff, !negb_false_iff,
    !bool_decide_eq_true, !bool_decide_eq_false, <- !eq_None_not_Some, not_eq_None_Some.
  naive_solver.
Qed.

Section acceptance.
Context `{Hbase : Base64} `{Hlaws : !Base64Laws} `{Hsha : Sha256} `{Hurl : UrlParser}.

(** A 32-byte key under its one spelling. *)
Definition key_text (k text : bytes) : Prop := zlen k = 32 /\ text = b64_encode k.

Definition cluster_ok (read : environment) (profile : Profile) (api enc : bytes)
    (cl : option ClusterConfig) : Prop :=
  match profile with
  | SingleNode => cl = None /\ Forall (fun n => read n = None) cluster_names
  | Clustered =>
      exists key address url cert priv ca u t0 t1,
      cl = Some {| cl_key := key; cl_address := address; advertised_url := url;
                   tls_certificate := cert; tls_private_key := priv; tls_ca := ca |}
      /\ required read (lit "OWLMUX_CLUSTER_KEY") t0 /\ key_text key t0
      /\ sha256 key <> sha256 api /\ sha256 key <> sha256 enc
      /\ required read (lit "OWLMUX_INTERNAL_ADDR") t1 /\ parse_socket_addr t1 = Some address
      /\ required read (lit "OWLMUX_INTERNAL_URL") url /\ url_parse url = Some u
      /\ is_internal_url u = true
      /\ required read (lit "OWLMUX_INTERNAL_TLS_CERT") cert /\ is_absolute cert = true
      /\ required read (lit "OWLMUX_INTERNAL_TLS_KEY") priv /\ is_absolute priv = true
      /\ required read (lit "OWLMUX_INTERNAL_TLS_CA") ca /\ is_absolute ca = true
  end.

Record settings (read : environment) (c : Config) : Prop := {
  st_address : exists t, text read (lit "OWLMUX_ADDR") t
    /\ parse_socket_addr (default DEFAULT_ADDRESS t) = Some (cf_address c);
  st_web : web_dir c = default DEFAULT_WEB_DIR (nonempty (read (lit "OWLMUX_WEB_DIR")));
  st_origin : exists t, text read (lit "OWLMUX_PUBLIC_ORIGIN") t
    /\ public_origin c = default DEFAULT_PUBLIC_ORIGIN t /\ origin_ok (public_origin c);
  st_database : required read (lit "OWLMUX_DATABASE_URL") (database_url c)
    /\ (starts_with (lit "postgres://") (database_url c) = true
        \/ starts_with (lit "postgresql://") (database_url c) = true);
  st_api : exists t, required read (lit "OWLMUX_API_KEY") (API_KEY_PREFIX ++ t)
    /\ key_text (api_key c) t;
  st_encryption : exists t, required read (lit "OWLMUX_SSH_KEY_ENCRYPTION_KEY") t
    /\ key_text (encryption_key c) t;
  st_root : ssh_runtime_root c
      = default DEFAULT_SSH_RUNTIME_ROOT (nonempty (read (lit "OWLMUX_SSH_RUNTIME_ROOT")))
    /\ is_absolute (ssh_runtime_root c) = true;
  st_epoch : number parse_i64 read (lit "OWLMUX_CONFIG_EPOCH") 1 (epoch c) /\ 0 < epoch c;
  st_lease : number parse_u64 read (lit "OWLMUX_NODE_LEASE_TTL_SECONDS") 30 (lease_ttl c)
    /\ number parse_u64 read (lit "OWLMUX_NODE_LEASE_SAFETY_MARGIN_SECONDS") 5
         (lease_safety_margin c)
    /\ 0 < lease_safety_margin c /\ lease_safety_margin c < lease_ttl c /\ lease_ttl c <= 300;
  st_shutdown : number parse_u64 read (lit "OWLMUX_SHUTDOWN_TIMEOUT_SECONDS") 10
      (shutdown_timeout c) /\ 1 <= shutdown_timeout c <= 60;
  st_name : text read (lit "OWLMUX_NODE_NAME") (node_name c)
    /\ forall n, node_name c = Some n ->
       n <> [] /\ zlen n <= 128 /\ chars_any is_control n = false;
  st_profile : exists t, text read (lit "OWLMUX_PROFILE") t
    /\ (t = None /\ cf_profile c = SingleNode
        \/ t = Some (lit "single-node") /\ cf_profile c = SingleNode
        \/ t = Some (lit "clustered") /\ cf_profile c = Clustered);
  st_cluster : Forall (fun n => text read n (read n)) cluster_names
    /\ cluster_ok read (cf_profile c) (api_key c) (encryption_key c) (cluster c);
}.

Lemma parse_api_key_Ok text k :
  parse_api_key text = Ok k <-> exists t, text = API_KEY_PREFIX ++ t /\ key_text k t.
Proof.
  unfold parse_api_key, key_text. rewrite bind_Ok. setoid_rewrite ok_or_Ok.
  setoid_rewrite decode_canonical_32_exact. setoid_rewrite strip_prefix_Some. done.
Qed.

Lemma parse_profile_Ok t p :
  parse_profile t = Ok p <->
  t = None /\ p = SingleNode \/ t = Some (lit "single-node") /\ p = SingleNode
  \/ t = Some (lit "clustered") /\ p = Clustered.
Proof.
  unfold parse_profile. destruct t as [v|]; [| naive_solver].
  case_bool_decide as H1; [subst; naive_solver |].
  case_bool_decide as H2; [subst; naive_solver |]. naive_solver.
Qed.

Lemma name_refused_false name :
  name_refused name = false <->
  forall n, name = Some n -> n <> [] /\ zlen n <= 128 /\ chars_any is_control n = false.
Proof.
  destruct name as [n|]; cbn; [| naive_solver].
  rewrite !orb_false_iff, bool_decide_eq_false, Z.ltb_ge. split.
  - intros [[? ?] ?] m [= <-]. done.
  - intros H. destruct (H n eq_refl) as (? & ? & ?). done.
Qed.

Lemma validate_internal_url_Ok value x :
  validate_internal_url value = Ok x <->
  exists u, url_parse value = Some u /\ is_internal_url u = true.
Proof.
  unfold validate_internal_url. rewrite bind_Ok. setoid_rewrite ok_or_Ok.
  setoid_rewrite fail_if_Ok. by setoid_rewrite negb_false_iff.
Qed.

Lemma cluster_unset_Ok read (r : option ClusterConfig) :
  match list_find (fun kv : bytes * option bytes => is_Some kv.2)
          ((fun n => (n, read n)) <$> cluster_names) with
  | Some (_, (name, _)) => Err (Invalid name)
  | None => Ok None
  end = Ok r <-> r = None /\ Forall (fun n => read n = None) cluster_names.
Proof.
  destruct (list_find _ _) as [[i [name v]]|] eqn:E.
  - split; [done |]. intros [_ H]. apply list_find_Some in E as (Hi & Hv & _).
    apply list_lookup_fmap_Some in Hi as (n & [= -> ->] & Hn).
    rewrite Forall_lookup in H. cbn in Hv. rewrite (H i n Hn) in Hv. by destruct Hv.
  - apply list_find_None in E. split; [| by intros [-> _]].
    intros [= <-]. split; [done |]. apply Forall_forall. intros n Hn.
    rewrite Forall_forall in E. apply eq_None_not_Some. apply (E (n, read n)).
    by apply (list_elem_of_fmap_2 (fun n => (n, read n))).
Qed.

Lemma load_cluster_Ok read p api enc cl :
  load_cluster_config read p api enc = Ok cl <->
  Forall (fun n => text read n (read n)) cluster_names /\ cluster_ok read p api enc cl.
Proof.
  unfold load_cluster_config. rewrite bind_Ok. setoid_rewrite read_all_Ok. split.
  - intros (values & [-> Ht] & H). split; [exact Ht |]. destruct p; cbn [cluster_ok].
    + by apply cluster_unset_Ok in H.
    + inv_ok. unfold cluster_names in Ht. cbn [map] in Ht. rewrite !Forall_cons in Ht.
      destruct Ht as (T0 & T1 & T2 & T3 & T4 & T5 & _).
      repeat match goal with
      | H : required_value _ _ = Ok _ |- _ =>
          eapply required_value_Ok in H; [| reflexivity]; destruct H as [? ?]
      end.
      match goal with H : parse_cluster_key _ = _ |- _ => apply decode_canonical_32_exact in H end.
      match goal with H : validate_internal_url _ = _ |- _ =>
        apply validate_internal_url_Ok in H as (u & Hu & Hi) end.
      split_bools. unfold configuration_digest in *.
      eexists _, _, _, _, _, _, u, _, _.
      split_and!; try done; try (by split; [congruence |]); unfold required; split; done || congruence.
  - intros [Ht H]. eexists. split; [split; [reflexivity | exact Ht] |].
    destruct p; cbn [cluster_ok] in H.
    + by apply cluster_unset_Ok.
    + destruct H as (key & addr & url & cert & priv & ca & u & t0 & t1 & -> & R0 & K & D1 & D2 & R1
        & A & R2 & U & I & R3 & A3 & R4 & A4 & R5 & A5).
      assert (Hreq : forall i n v, cluster_names !! i = Some n -> required read n v ->
                required_value ((fun n => (n, read n)) <$> cluster_names) i = Ok v).
      { intros i n v Hi [[Hr _] Hv]. apply (required_value_Ok _ _ n (Some v)); [| done].
        rewrite list_lookup_fmap, Hi. cbn. by rewrite Hr. }
      rewrite (Hreq 0%nat _ t0), (Hreq 1%nat _ t1), (Hreq 2%nat _ url), (Hreq 3%nat _ cert),
        (Hreq 4%nat _ priv), (Hreq 5%nat _ ca) by done. cbn [mbind result_bind].
      unfold parse_cluster_key. rewrite (proj2 (decode_canonical_32_exact t0 key) K). cbn.
      unfold configuration_digest. rewrite !bool_decide_false by done. cbn. rewrite A. cbn.
      rewrite (proj2 (validate_internal_url_Ok url tt)) by eauto. cbn. by rewrite A3, A4, A5.
Qed.

Ltac accept :=
  repeat (eapply bind_intro;
    [ first [ apply optional_utf8_Ok; eassumption
            | apply required_utf8_Ok; eassumption
            | apply parse_number_Ok; eassumption
            | apply ok_or_Ok; eassumption
            | apply map_err_Ok; first [apply parse_api_key_Ok; eexists; split; [reflexivity | eassumption]
                                      | apply decode_canonical_32_exact; eassumption]
            | apply parse_profile_Ok; eassumption
            | apply (validate_origin_Ok _ tt); eassumption
            | apply load_cluster_Ok; eassumption
            | apply (fail_if_Ok _ _ tt); first [eassumption | lia] ]
    | cbv beta zeta ]).

(** C24. The loader accepts an environment exactly when every setting is
    acceptable on its own, and the configuration is then the one the settings
    describe: keys of 32 bytes in their one spelling, a lease of at most 300
    seconds with a positive margin below it, a shutdown time of 1 to 60
    seconds, an absolute runtime root, a bare public origin; a single node
    has none of the cluster settings, a clustered one has all of them, with an
    internal URL of the exact shape and a cluster key distinct from the other
    two. *)
Theorem config_exact (read : environment) (c : Config) :
  load read = Ok c <-> settings read c.
Proof.
  split.
  - intros H. unfold load in H. inv_ok.
    repeat match goal with
    | H : optional_utf8 _ _ = Ok _ |- _ => apply optional_utf8_Ok in H
    | H : required_utf8 _ _ = Ok _ |- _ => apply required_utf8_Ok in H
    | H : parse_number _ _ _ _ = Ok _ |- _ => apply parse_number_Ok in H
    | H : parse_encryption_key _ = Ok _ |- _ => apply decode_canonical_32_exact in H
    | H : parse_api_key _ = Ok _ |- _ => apply parse_api_key_Ok in H as (? & -> & ?)
    | H : parse_profile _ = Ok _ |- _ => apply parse_profile_Ok in H
    | H : validate_origin _ = Ok _ |- _ => apply validate_origin_Ok in H
    | H : load_cluster_config _ _ _ _ = Ok _ |- _ => apply load_cluster_Ok in H
    | H : name_refused _ = false |- _ => rewrite name_refused_false in H
    | H : negb _ && negb _ = false |- _ =>
        rewrite andb_false_iff, !negb_false_iff in H
    end.
    unfold in_range, MAX_SHUTDOWN_SECONDS in *. split_bools.
    assert (0 <= DEFAULT_LEASE_MARGIN_SECONDS <= u64_max) as Hdm by by vm_compute.
    match goal with H : number _ _ _ DEFAULT_LEASE_MARGIN_SECONDS _ |- _ =>
      pose proof (number_u64_range _ _ _ _ Hdm H) end.
    split; cbn; eauto; unfold key_text; eauto; repeat split; eauto; first [lia | tauto].
  - intros [A W O D K E R P L S N F C]. destruct c; cbn -[lit cluster_names] in *. unfold load.
    destruct A as (ta & Ha & Pa), O as (t_o & Ho & -> & Oo), D as [Hd Dd], K as (tk & Hk & Kk),
      E as (te & He & Ke), R as [-> Ra], P as [Hp Pp], L as (Lt & Lm & L1 & L2 & L3),
      S as [Hs Ss], N as [Hn Nn], F as (tf & Hf & Ff). subst web_dir0.
    assert (negb (starts_with (lit "postgres://") database_url0)
            && negb (starts_with (lit "postgresql://") database_url0) = false)
      by by rewrite andb_false_iff, !negb_false_iff.
    unfold path_setting, in_range, MAX_SHUTDOWN_SECONDS. apply negb_false_iff in Ra.
    apply name_refused_false in Nn. accept. reflexivity.
Qed.

(** ** Errors *)

Definition setting_names : list bytes :=
  map lit ["OWLMUX_ADDR"; "OWLMUX_PUBLIC_ORIGIN"; "OWLMUX_DATABASE_URL"; "OWLMUX_API_KEY";
           "OWLMUX_SSH_KEY_ENCRYPTION_KEY"; "OWLMUX_SSH_RUNTIME_ROOT"; "OWLMUX_CONFIG_EPOCH";
           "OWLMUX_NODE_LEASE_TTL_SECONDS"; "OWLMUX_NODE_LEASE_SAFETY_MARGIN_SECONDS";
           "OWLMUX_SHUTDOWN_TIMEOUT_SECONDS"; "OWLMUX_NODE_NAME"; "OWLMUX_PROFILE"]
  ++ cluster_names.

(** The error names a setting; a missing one is absent or empty. *)
Definition blames (read : environment) (e : ConfigError) : Prop :=
  match e with
  | Invalid k => k ∈ setting_names
  | Missing k => k ∈ setting_names /\ nonempty (read k) = None
  end.

Definition named (k : bytes) : bool := bool_decide (k ∈ setting_names).

Lemma named_blames read k : named k = true -> blames read (Invalid k).
Proof. intros Hk. by apply bool_decide_eq_true in Hk. Qed.

Lemma optional_utf8_blames read k e :
  named k = true -> optional_utf8 read k = Err e -> blames read e.
Proof.
  intros Hk%bool_decide_eq_true. unfold optional_utf8.
  destruct (read k) as [v|]; [| done]. destruct (from_utf8 v); [done |]. by intros [= <-].
Qed.

Lemma required_utf8_blames read k e :
  named k = true -> required_utf8 read k = Err e -> blames read e.
Proof.
  intros Hk. unfold required_utf8. rewrite bind_Err.
  intros [H | (v & [Hv _]%optional_utf8_Ok & [Hn ->]%ok_or_Err)].
  - by eapply optional_utf8_blames.
  - apply bool_decide_eq_true in Hk. cbn. by rewrite Hv.
Qed.

Lemma parse_number_blames parse read k dflt e :
  named k = true -> parse_number parse read k dflt = Err e -> blames read e.
Proof.
  intros Hk. unfold parse_number. rewrite bind_Err. intros [H | (v & _ & H)].
  - by eapply optional_utf8_blames.
  - destruct v; [| done]. apply ok_or_Err in H as [_ ->]. by apply bool_decide_eq_true in Hk.
Qed.

Lemma read_all_blames read names e :
  forallb named names = true -> read_all read names = Err e -> blames read e.
Proof.
  induction names as [|n names IH]; cbn; [done |]. intros [Hn Hr]%andb_true_iff.
  rewrite bind_Err. intros [H | (v & _ & H)]; [by eapply optional_utf8_blames |].
  apply bind_Err in H as [H | (vs & _ & [=])]. by apply IH.
Qed.

Lemma required_value_blames read names i e :
  forallb named names = true -> (i < length names)%nat ->
  required_value ((fun n => (n, read n)) <$> names) i = Err e -> blames read e.
Proof.
  intros Hn Hi. unfold required_value.
  destruct (lookup_lt_is_Some_2 names i Hi) as [n Hni]. rewrite list_lookup_fmap, Hni. cbn.
  intros [H ->]%ok_or_Err. split; [| done].
  rewrite forallb_forall in Hn. apply (bool_decide_eq_true (n ∈ setting_names)), Hn.
  apply list_elem_of_In. by eapply list_elem_of_lookup_2.
Qed.

(** Follow a failed chain to the step that failed. *)
Ltac blame :=
  repeat first
    [ match goal with H : _ ≫= _ = Err _ |- _ =>
        apply bind_Err in H as [H | (? & ? & H)]; cbv beta zeta in * end
    | progress (match goal with
      | H : fail_if _ _ = Err _ |- _ => apply fail_if_Err in H as [? ->]
      | H : ok_or _ _ = Err _ |- _ => apply ok_or_Err in H as [? ->]
      | H : map_err _ ?r = Err _ |- _ => destruct r; [discriminate H | injection H as <-]
      | H : Ok _ = Err _ |- _ => discriminate H
      end) ].

Lemma load_cluster_blames read p api enc e :
  load_cluster_config read p api enc = Err e -> blames read e.
Proof.
  unfold load_cluster_config. rewrite bind_Err.
  intros [H | (values & Hv & H)]; [by eapply read_all_blames; [| exact H] |].
  apply read_all_Ok in Hv as [-> _]. destruct p.
  - destruct (list_find _ _) as [[i [name v]]|] eqn:E; [| done]. injection H as <-.
    apply list_find_Some in E as (Hi & _). apply list_lookup_fmap_Some in Hi as (n & [= -> ->] & Hn).
    apply list_elem_of_lookup_2 in Hn. unfold blames, setting_names. apply elem_of_app. by right.
  - unfold validate_internal_url in H. blame;
      first [ by eapply (required_value_blames read cluster_names); [..| eassumption]; [| cbn; lia]
            | by apply named_blames ].
Qed.

(** A refused environment is refused for a setting of its own: the error
    carries the name of a setting and nothing of any value, and a setting is
    called missing only when it is absent or empty. *)
Theorem load_blames_setting (read : environment) (e : ConfigError)
    (H : load read = Err e) : blames read e.
Proof.
  unfold load, validate_origin, parse_profile in H. blame;
    first [ by eapply optional_utf8_blames; [| eassumption]
          | by eapply required_utf8_blames; [| eassumption]
          | by eapply parse_number_blames; [| eassumption]
          | by eapply load_cluster_blames
          | by apply named_blames
          | repeat case_match; simplify_eq; by apply named_blames ].
Qed.

(** ** The setting an error names *)

Definition TTL_NAME : bytes := lit "OWLMUX_NODE_LEASE_TTL_SECONDS".
Definition MARGIN_NAME : bytes := lit "OWLMUX_NODE_LEASE_SAFETY_MARGIN_SECONDS".

(** Set one variable. *)
Definition override (k v : bytes) (read : environment) : environment :=
  fun k' => if decide (k' = k) then Some v else read k'.

Lemma text_override n v read k t : k <> n -> text read k t -> text (override n v read) k t.
Proof. intros Hk [Hr Ht]. split; [| done]. unfold override. by rewrite decide_False. Qed.
Lemma required_override n v read k t :
  k <> n -> required read k t -> required (override n v read) k t.
Proof. intros Hk [Hr Ht]. split; [by apply text_override | done]. Qed.
Lemma number_override parse n v read k dflt x :
  k <> n -> number parse read k dflt x -> number parse (override n v read) k dflt x.
Proof. intros Hk (t & Ht & H). exists t. split; [by apply text_override | done]. Qed.

(** The error does not always name the setting that is at fault: with a
    lease time above 300 seconds in an otherwise accepted environment, the
    loader calls the safety margin invalid although it is what it was. *)
Theorem ttl_limit_blames_margin (read : environment) (c : Config) (v : bytes) (n : Z)
    (Hload : load read = Ok c) (Hutf8 : from_utf8 v = Some v) (Hparse : parse_u64 v = Some n)
    (Hlarge : 300 < n) :
  load (override TTL_NAME v read) = Err (Invalid MARGIN_NAME)
  /\ number parse_u64 (override TTL_NAME v read) MARGIN_NAME DEFAULT_LEASE_MARGIN_SECONDS
       (lease_safety_margin c)
  /\ 0 < lease_safety_margin c < n.
Proof.
  apply config_exact in Hload as [A W O D K E R P L S N F C]. destruct c.
  cbn -[lit cluster_names] in *.
  destruct A as (ta & Ha & Pa), O as (t_o & Ho & -> & Oo), D as [Hd Dd], K as (tk & Hk & Kk),
    E as (te & He & Ke), R as [-> Ra], P as [Hp Pp], L as (_ & Lm & L1 & L2 & L3).
  assert (Hne : forall k, bool_decide (k = TTL_NAME) = false -> k <> TTL_NAME)
    by (intros k; by rewrite bool_decide_eq_false).
  apply (text_override TTL_NAME v) in Ha, Ho; [| by apply Hne ..].
  apply (required_override TTL_NAME v) in Hd, Hk, He; [| by apply Hne ..].
  apply (number_override _ TTL_NAME v) in Hp, Lm; [| by apply Hne ..].
  assert (number parse_u64 (override TTL_NAME v read) TTL_NAME DEFAULT_LEASE_SECONDS n) as Lt.
  { exists (Some v). split; [| done]. split; [| by intros ? [= <-]].
    unfold override. by rewrite decide_True. }
  assert (override TTL_NAME v read (lit "OWLMUX_SSH_RUNTIME_ROOT")
          = read (lit "OWLMUX_SSH_RUNTIME_ROOT")) as Hr
    by (unfold override; by rewrite decide_False by by apply Hne).
  split; [| by split; [| lia]].
  assert (negb (starts_with (lit "postgres://") database_url0)
          && negb (starts_with (lit "postgresql://") database_url0) = false)
    by by rewrite andb_false_iff, !negb_false_iff.
  apply negb_false_iff in Ra. unfold load, path_setting. rewrite Hr. accept.
  unfold fail_if. by rewrite (proj2 (Z.ltb_lt 300 n)), orb_true_r.
Qed.

(** ** The identity a configuration registers *)

Context `{Hhmac : Hmac}.

Definition proof_ok (BUILD_ID : bytes) (c : Config) : Prop :=
  zlen BUILD_ID <= u32_max /\ zlen (public_origin c) <= u32_max
  /\ forall k, zlen (sha256 k) = 32.

Lemma configuration_fields_fit BUILD_ID c deployment :
  proof_ok BUILD_ID c ->
  Forall field_fits (configuration_fields (configuration_input BUILD_ID c deployment)).
Proof.
  intros (Hb & Ho & Hd). unfold configuration_fields, configuration_input. cbn.
  assert (forall k n, (k <= 16)%nat -> field_fits (be_bytes k n)) as Hbe
    by (intros k n Hk; unfold field_fits, zlen; rewrite length_be_bytes; unfold u32_max; lia).
  assert (forall k, field_fits (configuration_digest k)) as Hdig
    by (intros k; unfold field_fits, configuration_digest; rewrite Hd; by vm_compute).
  unfold uuid_bytes, i64_bytes.
  repeat (apply Forall_cons; split;
    [first [apply Hbe; lia | apply Hdig | exact Hb | exact Ho | by vm_compute] |]).
  by apply Forall_nil.
Qed.

Lemma loaded_epoch read c : load read = Ok c -> 0 < epoch c <= i64_max.
Proof.
  intros [_ _ _ _ _ _ _ [(t & _ & H) Hp] _ _ _ _ _]%config_exact. split; [done |].
  destruct t as [v|]; [| rewrite H; by vm_compute].
  apply parse_i64_range in H. lia.
Qed.

(** C37. The lease a loaded configuration registers is one the lease protocol
    can keep: the margin is positive and smaller than the time to live, which
    is at most 300 seconds, and the epoch is a positive [i64].  The identity
    carries a configuration proof and an internal URL exactly when it is
    clustered, and the URL is one its peers accept. *)
Theorem registered_identity_sound (BUILD_ID : bytes) (read : environment) (c : Config)
    (deployment incarnation : Uuid) (Hload : load read = Ok c) (Hproof : proof_ok BUILD_ID c) :
  let i := register_identity BUILD_ID c deployment incarnation in
  0 < safety_margin i /\ safety_margin i < ttl i /\ ttl i <= 300 * 1000000000
  /\ 0 < config_epoch i <= i64_max
  /\ (profile i = Clustered <-> is_Some (Lease.config_proof i))
  /\ (profile i = Clustered <-> is_Some (internal_wss_url i))
  /\ (forall url, internal_wss_url i = Some url ->
       exists u, url_parse url = Some u /\ is_internal_url u = true).
Proof.
  pose proof (loaded_epoch _ _ Hload) as He.
  pose proof (configuration_fields_fit BUILD_ID c deployment Hproof) as Hf.
  apply config_exact in Hload as [_ _ _ _ _ _ _ _ (_ & _ & L1 & L2 & L3) _ _ _ [_ C]].
  assert (forall k, is_Some (configuration_proof k (configuration_input BUILD_ID c deployment)))
    as Hp by (intros k; unfold configuration_proof, configuration_transcript;
              rewrite append_fields_spec by done; by eexists).
  unfold register_identity, ttl, config_proof. cbn -[configuration_proof].
  split_and!; try lia; destruct (cf_profile c); cbn in C.
  - destruct C as [-> _]. by split; [| intros [? [=]]].
  - destruct C as (? & ? & ? & ? & ? & ? & ? & ? & ? & -> & _). cbn. by split; eauto.
  - destruct C as [-> _]. by split; [| intros [? [=]]].
  - destruct C as (? & ? & ? & ? & ? & ? & ? & ? & ? & -> & _). cbn. by split; eauto.
  - destruct C as [-> _]. by intros ? [=].
  - destruct C as (? & ? & ? & ? & ? & ? & u & ? & ? & -> & ? & ? & ? & ? & ? & ? & ? & Hu & Hi & _).
    intros url [= <-]. by exists u.
Qed.

(** Two nodes whose configurations give the same proof transcript agree:
    on the deployment, the configuration epoch, the build, the public origin
    and the digests of the API and the encryption key. *)
Theorem equal_transcripts_agree (build build' : bytes) (read read' : environment)
    (c c' : Config) (d d' : Uuid) (t : bytes)
    (Hload : load read = Ok c) (Hload' : load read' = Ok c') (Hd : is_uuid d) (Hd' : is_uuid d')
    (Ht : configuration_transcript (configuration_input build c d) = Some t)
    (Ht' : configuration_transcript (configuration_input build' c' d') = Some t) :
  d = d' /\ epoch c = epoch c' /\ build = build' /\ public_origin c = public_origin c'
  /\ sha256 (api_key c) = sha256 (api_key c')
  /\ sha256 (encryption_key c) = sha256 (encryption_key c').
Proof.
  apply loaded_epoch in Hload, Hload'.
  pose proof (append_fields_inj _ _ _ _ Ht Ht') as Hf.
  unfold configuration_fields, configuration_input in Hf. cbn -[lit dec] in Hf. split_cons.
  split_and!; try done; [by apply uuid_bytes_inj |].
  apply i64_bytes_inj; [| | done]; unfold is_i64, i64_min; lia.
Qed.
End acceptance.

(** ** Concrete parsers, used by the witnesses *)

(** [scheme://authority/path], nothing else. *)
Definition toy_url_parse (v : bytes) : option Url :=
  '(s, rest) ← split_sub (lit "://") v;
  let '(authority, p) := default (rest, []) (split_once "/"%byte rest) in
  Some {| scheme := s; host_str := Some authority; path := "/"%byte :: p; query := None;
          fragment := None; username := []; password := None; port_or_known_default := Some 443 |}.
Definition toy_url : UrlParser := {| url_parse := toy_url_parse |}.

(** The first 32 bytes, padded. *)
Definition padded_sha256 : Sha256 :=
  {| sha256 := fun v => take 32 (v ++ repeat "000"%byte 32) |}.

Lemma padded_sha256_length v : zlen (@sha256 padded_sha256 v) = 32.
Proof.
  unfold zlen, sha256, padded_sha256. rewrite length_take, length_app, repeat_length. lia.
Qed.

Definition from_list (l : list (bytes * bytes)) : environment :=
  fun k => snd <$> (list_find (fun kv : bytes * bytes => kv.1 = k) l ≫= fun x => Some x.2).

Definition sample_settings : list (bytes * bytes) :=
  [(lit "OWLMUX_DATABASE_URL", lit "postgres://owlmux@127.0.0.1/owlmux");
   (lit "OWLMUX_API_KEY", lit "owlmux_sk_v1_" ++ hex_encode (repeat "007"%byte 32));
   (lit "OWLMUX_SSH_KEY_ENCRYPTION_KEY", hex_encode (repeat "009"%byte 32))].
Definition clustered_settings : list (bytes * bytes) :=
  sample_settings ++
  [(lit "OWLMUX_PROFILE", lit "clustered");
   (lit "OWLMUX_CLUSTER_KEY", hex_encode (repeat "011"%byte 32));
   (lit "OWLMUX_INTERNAL_ADDR", lit "127.0.0.1:9443");
   (lit "OWLMUX_INTERNAL_URL", lit "wss://node-a.example:9443/internal/v1/owner");
   (lit "OWLMUX_INTERNAL_TLS_CERT", lit "/run/owlmux/tls.crt");
   (lit "OWLMUX_INTERNAL_TLS_KEY", lit "/run/owlmux/tls.key");
   (lit "OWLMUX_INTERNAL_TLS_CA", lit "/run/owlmux/ca.crt")].

Definition sample_load (l : list (bytes * bytes)) : result ConfigError Config :=
  @load hex_base64 padded_sha256 toy_url (from_list l).

(** The cases of the tests of [config.rs]. *)
Example sample_defaults :
  (fun c => (cf_address c, lease_ttl c, lease_safety_margin c, cluster c)) <$>
    sample_load sample_settings = Ok (V4 [127; 0; 0; 1] 8080, 30, 5, None).
Proof. vm_compute. reflexivity. Qed.
Example sample_partial_cluster :
  sample_load (sample_settings ++ [(lit "OWLMUX_CLUSTER_KEY", hex_encode (repeat "011"%byte 32))])
  = Err (Invalid (lit "OWLMUX_CLUSTER_KEY")).
Proof. vm_compute. reflexivity. Qed.

Lemma config_exact_witness :
  exists c, @settings hex_base64 padded_sha256 toy_url (from_list clustered_settings) c.
Proof.
  destruct (sample_load clustered_settings) as [c|] eqn:E; [| vm_compute in E; discriminate E].
  exists c. by apply (@config_exact hex_base64 hex_base64_laws padded_sha256 toy_url).
Defined.

Lemma load_blames_setting_witness :
  blames (from_list (drop 1 sample_settings)) (Missing (lit "OWLMUX_DATABASE_URL")).
Proof.
  apply (@load_blames_setting hex_base64 padded_sha256 toy_url).
  vm_compute. reflexivity.
Defined.

Lemma ttl_limit_blames_margin_witness :
  @load hex_base64 padded_sha256 toy_url
    (override TTL_NAME (lit "301") (from_list sample_settings)) = Err (Invalid MARGIN_NAME).
Proof.
  destruct (sample_load sample_settings) as [c|] eqn:E; [| vm_compute in E; discriminate E].
  apply (@ttl_limit_blames_margin hex_base64 hex_base64_laws padded_sha256 toy_url
           (from_list sample_settings) c (lit "301") 301 E); [by vm_compute .. | lia].
Defined.

Lemma sample_proof_ok build c :
  zlen build <= u32_max -> zlen (public_origin c) <= u32_max -> @proof_ok padded_sha256 build c.
Proof. intros. split_and!; [done | done | apply padded_sha256_length]. Qed.

Lemma registered_identity_sound_witness :
  exists c, sample_load clustered_settings = Ok c
  /\ is_Some (internal_wss_url (@register_identity padded_sha256 toy_hmac (lit "1.0") c 1 2)).
Proof.
  assert (match sample_load clustered_settings with
          | Ok c => cf_profile c = Clustered /\ zlen (public_origin c) <= u32_max
          | Err _ => False end) as Hc by (vm_compute; repeat split; discriminate).
  destruct (sample_load clustered_settings) as [c|] eqn:E; [| destruct Hc].
  destruct Hc as [Hp Ho]. exists c. split; [reflexivity |].
  apply (@registered_identity_sound hex_base64 hex_base64_laws padded_sha256 toy_url toy_hmac
           (lit "1.0") (from_list clustered_settings) c 1 2 E
           (sample_proof_ok (lit "1.0") c ltac:(vm_compute; discriminate) Ho)).
  exact Hp.
Defined.

Lemma equal_transcripts_agree_witness :
  exists c t, sample_load clustered_settings = Ok c
  /\ configuration_transcript (@configuration_input padded_sha256 (lit "1.0") c 1) = Some t
  /\ epoch c = epoch c.
Proof.
  assert (match sample_load clustered_settings with
          | Ok c => match configuration_transcript
                            (@configuration_input padded_sha256 (lit "1.0") c 1) with
                    | Some _ => True | None => False end
          | Err _ => False end) as Hc by (vm_compute; exact I).
  destruct (sample_load clustered_settings) as [c|] eqn:E; [| destruct Hc].
  destruct (configuration_transcript _) as [t|] eqn:Et; [| destruct Hc].
  exists c, t. split; [reflexivity |]. split; [exact Et |].
  assert (is_uuid 1) as H1 by (split; [lia | by vm_compute]).
  apply (@equal_transcripts_agree hex_base64 hex_base64_laws padded_sha256 toy_url
           (lit "1.0") (lit "1.0") (from_list clustered_settings) (from_list clustered_settings)
           c c 1 1 t E E H1 H1 Et Et).
Defined.
