(* ===== verification/Tables.v ===== *)
(** * Tables: the durable rows of machines, owners, bindings and enrollments

    The tables of [crates/owlmux-server/migrations], the SQL forms the server
    uses on them (a guarded [UPDATE], [EXISTS], a lookup by a unique column)
    and the fates of a transaction.  Every transaction of the server locks the
    deployment row first, so transactions run one after the other; timestamps
    are nanoseconds in [Z]. *)

From S2P Require Import Prelude Text Contracts Lease.

(** ** Rows *)

Inductive Lifecycle : Type := Pending | Verifying | Active | Disabled.
Global Instance Lifecycle_eq_dec : EqDecision Lifecycle.
Proof. solve_decision. Defined.

Record Machine : Type := {
  ssh_credential_id : Uuid; alias : bytes; lifecycle : Lifecycle; route_revision : Z;
  credential_revision : Z; target_account : bytes; tmux_path : bytes;
  tmux_socket_identity : bytes; host_identity : option bytes;
}.

(** The incarnation and the connection of an owner are both null or both set
    (CHECK). *)
Record Owner : Type := {
  connection_epoch : Z; claimed : option (Uuid * Uuid); owner_revision : Z;
}.

Inductive EnrollmentStatus : Type := Issued | Consumed | Cancelled.
Global Instance EnrollmentStatus_eq_dec : EqDecision EnrollmentStatus.
Proof. solve_decision. Defined.

Record Enrollment : Type := {
  en_machine : Uuid; token_digest : bytes; token_expires_at : Z; en_status : EnrollmentStatus;
}.

Inductive AttemptStatus : Type := InProgress | Activated | AttemptFailed.
Global Instance AttemptStatus_eq_dec : EqDecision AttemptStatus.
Proof. solve_decision. Defined.

Record Attempt : Type := {
  at_machine : Uuid; at_enrollment : Uuid; executing : option Uuid; at_revision : Z;
  at_status : AttemptStatus; deadline : Z;
}.

Record Binding : Type := {
  bd_machine : Uuid; relay_id : Uuid; relay_public_key : bytes; bd_revision : Z;
  bd_active : bool;
}.

(** [credentials] maps a credential to whether its status is [active]. *)
Record Tables : Type := {
  base : Database; credentials : gmap Z bool; default_credential : Uuid;
  machines : gmap Z Machine; owners : gmap Z Owner; enrollments : gmap Z Enrollment;
  attempts : gmap Z Attempt; bindings : gmap Z Binding;
}.

Definition with_machines (t : Tables) (x : gmap Z Machine) : Tables :=
  {| base := base t; credentials := credentials t; default_credential := default_credential t;
     machines := x; owners := owners t; enrollments := enrollments t;
     attempts := attempts t; bindings := bindings t |}.
Definition with_owners (t : Tables) (x : gmap Z Owner) : Tables :=
  {| base := base t; credentials := credentials t; default_credential := default_credential t;
     machines := machines t; owners := x; enrollments := enrollments t;
     attempts := attempts t; bindings := bindings t |}.
Definition with_enrollments (t : Tables) (x : gmap Z Enrollment) : Tables :=
  {| base := base t; credentials := credentials t; default_credential := default_credential t;
     machines := machines t; owners := owners t; enrollments := x;
     attempts := attempts t; bindings := bindings t |}.
Definition with_attempts (t : Tables) (x : gmap Z Attempt) : Tables :=
  {| base := base t; credentials := credentials t; default_credential := default_credential t;
     machines := machines t; owners := owners t; enrollments := enrollments t;
     attempts := x; bindings := bindings t |}.
Definition with_bindings (t : Tables) (x : gmap Z Binding) : Tables :=
  {| base := base t; credentials := credentials t; default_credential := default_credential t;
     machines := machines t; owners := owners t; enrollments := enrollments t;
     attempts := attempts t; bindings := x |}.

Definition set_lifecycle (l : Lifecycle) (m : Machine) : Machine :=
  {| ssh_credential_id := ssh_credential_id m; alias := alias m; lifecycle := l;
     route_revision := route_revision m; credential_revision := credential_revision m;
     target_account := target_account m; tmux_path := tmux_path m;
     tmux_socket_identity := tmux_socket_identity m; host_identity := host_identity m |}.
Definition set_route_revision (r : Z) (m : Machine) : Machine :=
  {| ssh_credential_id := ssh_credential_id m; alias := alias m; lifecycle := lifecycle m;
     route_revision := r; credential_revision := credential_revision m;
     target_account := target_account m; tmux_path := tmux_path m;
     tmux_socket_identity := tmux_socket_identity m; host_identity := host_identity m |}.
Definition set_host_identity (h : option bytes) (m : Machine) : Machine :=
  {| ssh_credential_id := ssh_credential_id m; alias := alias m; lifecycle := lifecycle m;
     route_revision := route_revision m; credential_revision := credential_revision m;
     target_account := target_account m; tmux_path := tmux_path m;
     tmux_socket_identity := tmux_socket_identity m; host_identity := h |}.
Definition set_credential (c r : Z) (m : Machine) : Machine :=
  {| ssh_credential_id := c; alias := alias m; lifecycle := lifecycle m;
     route_revision := route_revision m; credential_revision := r;
     target_account := target_account m; tmux_path := tmux_path m;
     tmux_socket_identity := tmux_socket_identity m; host_identity := host_identity m |}.
Definition set_alias (a : bytes) (m : Machine) : Machine :=
  {| ssh_credential_id := ssh_credential_id m; alias := a; lifecycle := lifecycle m;
     route_revision := route_revision m; credential_revision := credential_revision m;
     target_account := target_account m; tmux_path := tmux_path m;
     tmux_socket_identity := tmux_socket_identity m; host_identity := host_identity m |}.
Definition set_en_status (s : EnrollmentStatus) (e : Enrollment) : Enrollment :=
  {| en_machine := en_machine e; token_digest := token_digest e;
     token_expires_at := token_expires_at e; en_status := s |}.
Definition set_at_status (s : AttemptStatus) (a : Attempt) : Attempt :=
  {| at_machine := at_machine a; at_enrollment := at_enrollment a; executing := executing a;
     at_revision := at_revision a; at_status := s; deadline := deadline a |}.
Definition set_executing (x : option Uuid) (a : Attempt) : Attempt :=
  {| at_machine := at_machine a; at_enrollment := at_enrollment a; executing := x;
     at_revision := at_revision a; at_status := at_status a; deadline := deadline a |}.
Definition revoke (b : Binding) : Binding :=
  {| bd_machine := bd_machine b; relay_id := relay_id b; relay_public_key := relay_public_key b;
     bd_revision := bd_revision b; bd_active := false |}.

(** ** SQL forms *)

Section sql.
Context {A : Type}.
Implicit Types (p : Z -> A -> bool) (m : gmap Z A).

(** The rows a predicate selects; [UPDATE ... WHERE]; [EXISTS]. *)
Definition select p m : list (Z * A) := filter (fun '(k, a) => p k a = true) (map_to_list m).
Definition affected p m : Z := zlen (select p m).
Definition exists_where p m : bool := existsb (fun '(k, a) => p k a) (map_to_list m).
Definition select_one p m : option (Z * A) := head (select p m).
Definition update_where p (f : A -> A) m : gmap Z A :=
  map_imap (fun k a => Some (if p k a then f a else a)) m.

Lemma select_elem p m k a : (k, a) ∈ select p m <-> m !! k = Some a /\ p k a = true.
Proof. unfold select. rewrite list_elem_of_filter, elem_of_map_to_list. naive_solver. Qed.

Lemma select_one_Some p m k a : select_one p m = Some (k, a) -> m !! k = Some a /\ p k a = true.
Proof.
  unfold select_one. intros H. apply select_elem.
  destruct (select p m); [done |]. simplify_eq/=. left.
Qed.

Lemma select_one_None p m k a : select_one p m = None -> m !! k = Some a -> p k a = false.
Proof.
  unfold select_one. intros H Hk. destruct (p k a) eqn:E; [| done].
  assert (Hin : (k, a) ∈ select p m) by by apply select_elem.
  destruct (select p m); [by apply not_elem_of_nil in Hin | done].
Qed.

Lemma select_one_unique p m k a :
  m !! k = Some a -> p k a = true ->
  (forall k' a', m !! k' = Some a' -> p k' a' = true -> k' = k) ->
  select_one p m = Some (k, a).
Proof.
  intros Hk Hp Hu. destruct (select_one p m) as [[k' a']|] eqn:E.
  - apply select_one_Some in E as [Hk' Hp']. pose proof (Hu k' a' Hk' Hp'). congruence.
  - rewrite (select_one_None _ _ _ _ E Hk) in Hp. done.
Qed.

Lemma exists_where_true p m :
  exists_where p m = true <-> exists k a, m !! k = Some a /\ p k a = true.
Proof.
  unfold exists_where. rewrite existsb_exists. split.
  - intros ([k a] & Hin & Hp). exists k, a. by rewrite <- elem_of_map_to_list, list_elem_of_In.
  - intros (k & a & Hk & Hp). exists (k, a). split; [| done].
    by rewrite <- list_elem_of_In, elem_of_map_to_list.
Qed.

Lemma exists_where_false p m :
  exists_where p m = false <-> forall k a, m !! k = Some a -> p k a = false.
Proof.
  rewrite <- not_true_iff_false, exists_where_true. split.
  - intros H k a Hk. apply not_true_is_false. naive_solver.
  - intros H (k & a & Hk & Hp). rewrite (H k a Hk) in Hp. done.
Qed.

Lemma update_where_lookup p f m k :
  update_where p f m !! k = (fun a => if p k a then f a else a) <$> m !! k.
Proof. unfold update_where. rewrite map_lookup_imap. by destruct (m !! k). Qed.

Lemma update_where_Some p f m k a' :
  update_where p f m !! k = Some a' <->
  exists a, m !! k = Some a /\ a' = if p k a then f a else a.
Proof. rewrite update_where_lookup, fmap_Some. naive_solver. Qed.

Lemma affected_nonneg p m : 0 <= affected p m.
Proof. apply zlen_nonneg. Qed.

Lemma affected_zero p m :
  affected p m = 0 <-> forall k a, m !! k = Some a -> p k a = false.
Proof.
  unfold affected. split.
  - intros H k a Hk. destruct (p k a) eqn:E; [| done].
    assert (Hin : (k, a) ∈ select p m) by by apply select_elem.
    unfold zlen in H. destruct (select p m); [by apply not_elem_of_nil in Hin | cbn in H; lia].
  - intros H. destruct (select p m) as [|[k a] l] eqn:E; [done |].
    assert (Hin : (k, a) ∈ select p m) by (rewrite E; left).
    apply select_elem in Hin as [Hk Hp]. rewrite (H k a Hk) in Hp. done.
Qed.

(** An update keyed by the primary key affects its row or nothing. *)
Lemma affected_key k0 (q : A -> bool) m :
  affected (fun k a => (k =? k0) && q a) m
  = match m !! k0 with Some a => if q a then 1 else 0 | None => 0 end.
Proof.
  set (p := fun k a => (k =? k0) && q a).
  assert (Hall : forall x, x ∈ select p m -> exists a, x = (k0, a) /\ m !! k0 = Some a /\ q a = true).
  { intros [k a] Hin. apply select_elem in Hin as [Hk Hp]. subst p. cbn in Hp. split_bools.
    subst. naive_solver. }
  destruct (m !! k0) as [a|] eqn:Ek; [destruct (q a) eqn:Eq |].
  - assert (Hin : (k0, a) ∈ select p m).
    { apply select_elem. split; [done |]. subst p. cbn. by rewrite Z.eqb_refl. }
    assert (Hnd : NoDup (select p m)) by (apply NoDup_filter, NoDup_map_to_list).
    unfold affected. destruct (select p m) as [|x [|y l]]; [by apply not_elem_of_nil in Hin | done |].
    destruct (Hall x ltac:(left)) as (b & -> & Hb & _).
    destruct (Hall y ltac:(right; left)) as (c & -> & Hc & _). simplify_eq.
    apply NoDup_cons in Hnd as [Hnd _]. destruct Hnd. left.
  - apply affected_zero. intros k a' Hk. subst p. cbn. destruct (k =? k0) eqn:E; [| done].
    split_bools. subst k. cbn. by simplify_eq.
  - apply affected_zero. intros k a' Hk. subst p. cbn. destruct (k =? k0) eqn:E; [| done].
    split_bools. subst k. by simplify_eq.
Qed.

Lemma update_where_key k0 (q : A -> bool) f m :
  update_where (fun k a => (k =? k0) && q a) f m = alter (fun a => if q a then f a else a) k0 m.
Proof.
  apply map_eq. intros k. rewrite update_where_lookup.
  destruct (decide (k = k0)) as [-> | Hne].
  - rewrite lookup_alter_eq, Z.eqb_refl. done.
  - rewrite lookup_alter_ne, (proj2 (Z.eqb_neq k k0) Hne) by done. by destruct (m !! k).
Qed.

Lemma update_where_nothing p f m : affected p m = 0 -> update_where p f m = m.
Proof.
  rewrite affected_zero. intros Hp. apply map_eq. intros k. rewrite update_where_lookup.
  destruct (m !! k) as [a|] eqn:E; [| done]. cbn. by rewrite Hp.
Qed.
End sql.

(** ** What becomes of a transaction *)

(** It commits; a statement fails (because of a constraint or of the
    connection) and everything is rolled back; the commit fails, having had no
    effect or all of it. *)
Inductive Fate : Type :=
| FateCommitted | StatementFailed (constraint : bool) | CommitLost | CommitUnseen.

Definition run {S E A} (fate : Fate) (failed : bool -> E) (ambiguous : E)
    (body : S -> result E (S * A)) (t : S) : S * result E A :=
  match fate with
  | StatementFailed c => (t, Err (failed c))
  | FateCommitted => match body t with Ok (t', a) => (t', Ok a) | Err e => (t, Err e) end
  | CommitLost => match body t with Ok _ => (t, Err ambiguous) | Err e => (t, Err e) end
  | CommitUnseen => match body t with Ok (t', _) => (t', Err ambiguous) | Err e => (t, Err e) end
  end.

(** Whatever the fate, the tables are the old ones or the committed ones. *)
Lemma run_tables {S E A} fate failed (amb : E) (body : S -> result E (S * A)) t :
  fst (run fate failed amb body t) = t
  \/ exists a, body t = Ok (fst (run fate failed amb body t), a).
Proof.
  destruct fate; cbn; auto; destruct (body t) as [[t' a]|e]; cbn; eauto.
Qed.

Lemma run_Ok {S E A} fate failed (amb : E) (body : S -> result E (S * A)) t t' a :
  run fate failed amb body t = (t', Ok a) -> fate = FateCommitted /\ body t = Ok (t', a).
Proof. destruct fate; cbn; try done; destruct (body t) as [[? ?]|?]; naive_solver. Qed.
