(* ===== verification/Authority.v ===== *)
(** * Authority: enrollment, activation and ownership transactions

    Models the transactions of [crates/owlmux-server/src/relay/mod.rs]
    (enrollment, activation, recovery, owner claim and release) and of
    [api/mod.rs] (machine lifecycle), and [owner.rs] (owner resolution).

    A body is the text of one transaction over [Tables]; [run] gives it its
    fate.  Inputs are the fresh identifiers, the instants of the statements
    that read the clock, and the answers of [lease.check] at the points where
    the code asks (see Lease for that check). *)

From stdpp Require Import sorting.
From S2P Require Import Prelude Text Contracts Secrets Ssh Lease Tables.

(** The server process: its lease identity and the deployment it is bound to. *)
Record Server : Type := { sv_identity : Identity; sv_deployment : Uuid }.
Definition sv_incarnation (sv : Server) : Uuid := incarnation_id (sv_identity sv).

(** ** relay/mod.rs *)

Module Relay.

Inductive RelayError : Type :=
| InvalidToken | InvalidState | ProofFailed | Protocol | Unavailable | Overloaded
| OwnerConflict | Conflict | Ambiguous | Fenced.
Global Instance RelayError_eq_dec : EqDecision RelayError.
Proof. solve_decision. Defined.

Definition code (e : RelayError) : bytes :=
  match e with
  | InvalidToken => lit "invalid_token"
  | InvalidState | Conflict => lit "invalid_state"
  | ProofFailed => lit "proof_failed"
  | Protocol => lit "protocol_error"
  | OwnerConflict => lit "owner_conflict"
  | Unavailable | Overloaded | Ambiguous | Fenced => lit "temporarily_unavailable"
  end.

Definition ENROLLMENT_ATTEMPT_SECONDS : Z := 120.
Definition ENROLLMENT_PREFIX : bytes := lit "owlmux_enroll_v1_".
Definition TOKEN_DOMAIN : bytes := lit "owlmux:relay-enrollment-token:v1" ++ ["000"%byte].

Definition token_digest_of `{Sha256} (token : bytes) : bytes := sha256 (TOKEN_DOMAIN ++ token).

Definition deployment_matches (sv : Server) (db : Database) : bool :=
  match deployment db with
  | Some d =>
      (dep_id d =? sv_deployment sv) && (dep_epoch d =? config_epoch (sv_identity sv))
      && bool_decide (dep_build d = build_id (sv_identity sv)) && (dep_protocol d =? 1)
      && bool_decide (dep_profile d = profile (sv_identity sv))
      && bool_decide (dep_proof d = config_proof (sv_identity sv))
  | None => false
  end.

Definition lock_deployment (sv : Server) (db : Database) : result RelayError unit :=
  if deployment_matches sv db then Ok tt else Err Fenced.

(** The own node row, in one of the given states, lease-valid at [now]. *)
Definition own_node_valid (sv : Server) (states : list NodeState) (now : Z) (db : Database)
    : bool :=
  match nodes db !! sv_incarnation sv with
  | Some n => bool_decide (node_state n ∈ states)
              && (node_epoch n =? config_epoch (sv_identity sv))
              && bool_decide (node_build n = build_id (sv_identity sv))
              && (now <? lease_until n)
  | None => false
  end.

Definition validate_node (sv : Server) (lease_ok : bool) (now : Z) (db : Database)
    : result RelayError unit :=
  if negb lease_ok then Err Fenced
  else if own_node_valid sv [Serving] now db then Ok tt else Err Fenced.

Definition validate_releasing_node (sv : Server) (lease_ok : bool) (now : Z) (db : Database)
    : result RelayError unit :=
  if negb lease_ok then Err Fenced
  else if own_node_valid sv [Serving; Draining] now db then Ok tt else Err Fenced.

Record AcceptedEnrollment : Type := {
  ae_deployment_id : Uuid; ae_machine_id : Uuid; ae_attempt_id : Uuid; ae_route_revision : Z;
  ae_target_account : bytes; ae_host_identity : option bytes;
}.

(** The instants of a body: the node check, the main query, the write. *)
Record Instants : Type := { t_node : Z; t_query : Z; t_write : Z }.

Definition is_issued (digest : bytes) (now : Z) (e : Enrollment) : bool :=
  bool_decide (token_digest e = digest) && bool_decide (en_status e = Issued)
  && (now <? token_expires_at e).

(** The joined row of [accept_token]; digests are unique. *)
Definition issued_row (digest : bytes) (now : Z) (t : Tables) : option (Z * Enrollment * Machine) :=
  '(eid, e) ← select_one (fun _ e => is_issued digest now e) (enrollments t);
  m ← machines t !! en_machine e;
  if bool_decide (lifecycle m = Pending) then Some (eid, e, m) else None.

Definition verifying_of (machine : Uuid) (a : Attempt) : bool :=
  (at_machine a =? machine) && bool_decide (at_status a = InProgress).

(** Constraints of the inserted attempt: its key, its enrollment, and one live
    attempt per machine. *)
Definition attempt_insertable (id : Uuid) (a : Attempt) (t : Tables) : bool :=
  bool_decide (attempts t !! id = None)
  && negb (exists_where (fun _ b => at_enrollment b =? at_enrollment a) (attempts t))
  && negb (exists_where (fun _ b => verifying_of (at_machine a) b) (attempts t)).

Definition accept_body (sv : Server) (lease_ok : bool) (ts : Instants) (attempt_id : Uuid)
    (digest : bytes) (t : Tables) : result RelayError (Tables * AcceptedEnrollment) :=
  lock_deployment sv (base t) ;;
  row ← ok_or InvalidToken (issued_row digest (t_query ts) t);
  validate_node sv lease_ok (t_node ts) (base t) ;;
  let '(eid, e, m) := row in
  let a := {| at_machine := en_machine e; at_enrollment := eid;
              executing := Some (sv_incarnation sv); at_revision := route_revision m;
              at_status := InProgress;
              deadline := t_write ts + ENROLLMENT_ATTEMPT_SECONDS * 1000000000 |} in
  let t := with_enrollments t (alter (set_en_status Consumed) eid (enrollments t)) in
  let t := with_machines t (alter (set_lifecycle Verifying) (en_machine e) (machines t)) in
  fail_if (negb (attempt_insertable attempt_id a t)) Unavailable ;;
  Ok (with_attempts t (<[attempt_id := a]> (attempts t)),
      {| ae_deployment_id := sv_deployment sv; ae_machine_id := en_machine e;
         ae_attempt_id := attempt_id; ae_route_revision := route_revision m;
         ae_target_account := target_account m; ae_host_identity := host_identity m |}).

Definition accept_token `{Sha256} (sv : Server) (fate : Fate) (lease_ok : bool) (ts : Instants)
    (attempt_id : Uuid) (token : bytes) (t : Tables)
    : Tables * result RelayError AcceptedEnrollment :=
  if negb (starts_with ENROLLMENT_PREFIX token) || (80 <? zlen token)
  then (t, Err InvalidToken)
  else run fate (fun _ => Unavailable) Ambiguous
         (accept_body sv lease_ok ts attempt_id (token_digest_of token)) t.

(** The EXISTS of [activate]. *)
Definition activation_valid (sv : Server) (acc : AcceptedEnrollment) (now : Z) (t : Tables)
    : bool :=
  match attempts t !! ae_attempt_id acc, machines t !! ae_machine_id acc with
  | Some a, Some m =>
      (at_machine a =? ae_machine_id acc) && bool_decide (at_status a = InProgress)
      && (now <? deadline a) && bool_decide (executing a = Some (sv_incarnation sv))
      && (at_revision a =? route_revision m) && bool_decide (lifecycle m = Verifying)
      && bool_decide (credentials t !! ssh_credential_id m = Some true)
  | _, _ => false
  end.

(** The guard of the UPDATE that pins the host key. *)
Definition pinnable (revision : Z) (host : bytes) (m : Machine) : bool :=
  bool_decide (lifecycle m = Verifying) && (route_revision m =? revision)
  && match host_identity m with Some h => bool_decide (h = host) | None => true end.

(** COALESCE. *)
Definition pin (host : bytes) (m : Machine) : Machine :=
  set_host_identity (Some (default host (host_identity m))) m.

Definition active_binding (machine : Uuid) (b : Binding) : bool :=
  (bd_machine b =? machine) && bd_active b.

(** The key and the three partial unique indexes of [relay_bindings]. *)
Definition binding_insertable (id : Uuid) (b : Binding) (t : Tables) : bool :=
  bool_decide (bindings t !! id = None)
  && negb (exists_where (fun _ c => active_binding (bd_machine b) c) (bindings t))
  && negb (exists_where (fun _ c => bd_active c && (relay_id c =? relay_id b)) (bindings t))
  && negb (exists_where (fun _ c => bd_active c
             && bool_decide (relay_public_key c = relay_public_key b)) (bindings t)).

Definition activate_body `{SshKeys} (sv : Server) (lease_ok : bool) (ts : Instants)
    (binding_id : Uuid) (acc : AcceptedEnrollment) (relay : Uuid) (public_key host : bytes)
    (t : Tables) : result RelayError (Tables * unit) :=
  lock_deployment sv (base t) ;;
  validate_node sv lease_ok (t_node ts) (base t) ;;
  fail_if (negb (activation_valid sv acc (t_query ts) t)
           || negb (is_ed25519_host_identity host)) InvalidState ;;
  let guard k m := (k =? ae_machine_id acc) && pinnable (ae_route_revision acc) host m in
  fail_if (negb (affected guard (machines t) =? 1)) InvalidState ;;
  let t := with_machines t (update_where guard (pin host) (machines t)) in
  let b := {| bd_machine := ae_machine_id acc; relay_id := relay;
              relay_public_key := public_key; bd_revision := ae_route_revision acc;
              bd_active := true |} in
  fail_if (negb (binding_insertable binding_id b t)) Conflict ;;
  let t := with_bindings t (<[binding_id := b]> (bindings t)) in
  Ok (with_attempts t (alter (set_at_status Activated) (ae_attempt_id acc) (attempts t)), tt).

(** A failed statement is [Unavailable]; a constraint violated by the binding
    is [Conflict] (another constraint is [Unavailable]: [conflicting] tells
    which statement failed). *)
Definition activate `{SshKeys} (sv : Server) (fate : Fate) (lease_ok : bool) (ts : Instants)
    (binding_id : Uuid) (acc : AcceptedEnrollment) (relay : Uuid) (public_key host : bytes)
    (t : Tables) : Tables * result RelayError unit :=
  run fate (fun conflicting => if conflicting then Conflict else Unavailable) Ambiguous
    (activate_body sv lease_ok ts binding_id acc relay public_key host) t.

(** ** Recovery of expired attempts *)

Definition deadline_le (x y : Z * Attempt) : Prop := deadline (snd x) <= deadline (snd y).
Global Instance deadline_le_dec x y : Decision (deadline_le x y).
Proof. unfold deadline_le. apply _. Defined.

(** Ordered by deadline, at most 128; rows with the same deadline may come in
    any order (here: the order of the table). *)
Definition expired_rows (machine : option Uuid) (now : Z) (t : Tables) : list (Z * Attempt) :=
  take 128 (merge_sort deadline_le
    (select (fun _ a => match machine with Some m => at_machine a =? m | None => true end
                        && bool_decide (at_status a = InProgress) && (deadline a <=? now))
       (attempts t))).

Definition fail_one (require_unbound : bool) (id machine : Uuid) (revision : Z) (t : Tables)
    : Tables :=
  let guard k a := (k =? id) && bool_decide (at_status a = InProgress) in
  let changed := affected guard (attempts t) in
  let t := with_attempts t (update_where guard (set_at_status AttemptFailed) (attempts t)) in
  if changed =? 1 then
    let bound := exists_where (fun _ b => active_binding machine b && (bd_revision b =? revision))
                   (bindings t) in
    with_machines t (update_where
      (fun k m => (k =? machine) && (bool_decide (lifecycle m = Verifying)
                  && (route_revision m =? revision) && negb (require_unbound && bound)))
      (set_lifecycle Pending) (machines t))
  else t.

Definition recover_body (sv : Server) (lease_ok : bool) (ts : Instants) (machine : option Uuid)
    (t : Tables) : result RelayError (Tables * unit) :=
  lock_deployment sv (base t) ;;
  validate_node sv lease_ok (t_node ts) (base t) ;;
  Ok (foldl (fun t '(id, a) => fail_one true id (at_machine a) (at_revision a) t) t
        (expired_rows machine (t_query ts) t), tt).

Definition recover_expired_attempts (sv : Server) (fate : Fate) (lease_ok : bool)
    (ts : Instants) (machine : option Uuid) (t : Tables) : Tables * result RelayError unit :=
  run fate (fun _ => Unavailable) Ambiguous (recover_body sv lease_ok ts machine) t.

(** Best effort: every error is swallowed, and a failed statement makes the
    commit a rollback. *)
Definition fail_body (sv : Server) (lease_ok : bool) (ts : Instants) (acc : AcceptedEnrollment)
    (t : Tables) : result RelayError (Tables * unit) :=
  lock_deployment sv (base t) ;;
  validate_node sv lease_ok (t_node ts) (base t) ;;
  Ok (fail_one false (ae_attempt_id acc) (ae_machine_id acc) (ae_route_revision acc) t, tt).
Definition fail_attempt (sv : Server) (fate : Fate) (lease_ok : bool) (ts : Instants)
    (acc : AcceptedEnrollment) (t : Tables) : Tables :=
  fst (run fate (fun _ => Unavailable) Ambiguous (fail_body sv lease_ok ts acc) t).

(** ** Ownership *)

Definition binding_of (machine : Uuid) (revision : Z) (b : Binding) : bool :=
  active_binding machine b && (bd_revision b =? revision).

(** [None]: the query failed. *)
Definition binding_key (answer : option Tables) (machine relay : Uuid) (revision : Z)
    : result RelayError bytes :=
  t ← ok_or Unavailable answer;
  '(_, b) ← ok_or InvalidState
      (select_one (fun _ b => binding_of machine revision b && (relay_id b =? relay)) (bindings t));
  if zlen (relay_public_key b) =? 32 then Ok (relay_public_key b) else Err InvalidState.

(** An incarnation that still has a lease, whatever its build. *)
Definition lease_valid (db : Database) (now : Z) (incarnation : Uuid) : bool :=
  match nodes db !! incarnation with Some n => now <? lease_until n | None => false end.

Definition owner_valid (db : Database) (now : Z) (o : Owner) : bool :=
  match claimed o with Some (incarnation, _) => lease_valid db now incarnation | None => false end.

(** The joined row of [claim_owner]. *)
Definition claim_row (machine : Uuid) (revision : Z) (t : Tables) : option Owner :=
  o ← owners t !! machine;
  m ← machines t !! machine;
  if (owner_revision o =? revision) && bool_decide (lifecycle m ∈ [Verifying; Active])
     && bool_decide (host_identity m <> None) && (route_revision m =? revision)
     && exists_where (fun _ b => binding_of machine revision b) (bindings t)
  then Some o else None.

Definition set_claim (epoch : Z) (c : option (Uuid * Uuid)) (o : Owner) : Owner :=
  {| connection_epoch := epoch; claimed := c; owner_revision := owner_revision o |}.

Definition claim_body (sv : Server) (lease_ok : bool) (ts : Instants)
    (machine connection : Uuid) (revision : Z) (t : Tables) : result RelayError (Tables * Z) :=
  lock_deployment sv (base t) ;;
  validate_node sv lease_ok (t_node ts) (base t) ;;
  o ← ok_or InvalidState (claim_row machine revision t);
  fail_if (owner_valid (base t) (t_query ts) o) OwnerConflict ;;
  epoch ← ok_or InvalidState (checked_add i64_max (connection_epoch o) 1);
  let t := with_owners t
             (alter (set_claim epoch (Some (sv_incarnation sv, connection))) machine (owners t)) in
  let t := with_machines t (update_where
             (fun k m => (k =? machine) && (bool_decide (lifecycle m = Verifying)
                                            && (route_revision m =? revision)))
             (set_lifecycle Active) (machines t)) in
  Ok (t, epoch).

(** [true]: the node is hard-fenced. *)
Definition claim_owner (sv : Server) (fate : Fate) (lease_ok : bool) (ts : Instants)
    (machine connection : Uuid) (revision : Z) (t : Tables)
    : Tables * result RelayError Z * bool :=
  let '(t, r) := run fate (fun _ => Unavailable) Ambiguous
                   (claim_body sv lease_ok ts machine connection revision) t in
  (t, r, bool_decide (r = Err Ambiguous)).

Definition release_guard (sv : Server) (machine connection : Uuid) (epoch : Z) (k : Z) (o : Owner)
    : bool :=
  (k =? machine)
  && (bool_decide (claimed o = Some (sv_incarnation sv, connection))
      && (connection_epoch o =? epoch)).

Definition release_body (sv : Server) (lease_ok : bool) (ts : Instants)
    (machine connection : Uuid) (epoch : Z) (t : Tables) : result RelayError (Tables * unit) :=
  lock_deployment sv (base t) ;;
  validate_releasing_node sv lease_ok (t_node ts) (base t) ;;
  let guard := release_guard sv machine connection epoch in
  fail_if (negb (affected guard (owners t) =? 1)) Fenced ;;
  Ok (with_owners t (update_where guard (fun o => set_claim (connection_epoch o) None o)
                       (owners t)), tt).

(** Any failure hard-fences the node. *)
Definition release_owner (sv : Server) (fate : Fate) (lease_ok : bool) (ts : Instants)
    (machine connection : Uuid) (epoch : Z) (t : Tables) : Tables * result RelayError unit * bool :=
  let '(t, r) := run fate (fun _ => Unavailable) Ambiguous
                   (release_body sv lease_ok ts machine connection epoch) t in
  (t, r, negb (is_ok r)).
End Relay.

(** ** owner.rs *)

Module OwnerRs.
Import Relay.

Inductive OwnerRoute : Type :=
| Local (route : RouteIdentity)
| Remote (route : RouteIdentity) (incarnation : Uuid) (internal_wss_url : bytes)
| NoValidOwner (revision : Z).

Inductive OwnerError : Type := Unavailable | DatabaseError | Invariant | Fenced | Unreachable.

(** A node of this configuration and build with a lease. *)
Definition current_node (sv : Server) (db : Database) (now : Z) (incarnation : Uuid)
    : option NodeRow :=
  n ← nodes db !! incarnation;
  if (node_epoch n =? config_epoch (sv_identity sv))
     && bool_decide (node_build n = build_id (sv_identity sv)) && (now <? lease_until n)
  then Some n else None.

(** The machine and owner rows both queries join: active, with an active
    binding, at one route revision. *)
Definition routed (machine : Uuid) (t : Tables) : option (Machine * Owner) :=
  m ← machines t !! machine;
  o ← owners t !! machine;
  if bool_decide (lifecycle m = Active) && (owner_revision o =? route_revision m)
     && exists_where (fun _ b => binding_of machine (route_revision m) b) (bindings t)
  then Some (m, o) else None.

(** The first query of [resolve]. *)
Definition owner_row (sv : Server) (machine : Uuid) (now : Z) (t : Tables)
    : option (Owner * Uuid * Uuid * NodeRow) :=
  '(m, o) ← routed machine t;
  '(incarnation, connection) ← claimed o;
  n ← current_node sv (base t) now incarnation;
  if 0 <? connection_epoch o then Some (o, incarnation, connection, n) else None.

(** The second query of [resolve]. *)
Definition ownerless_row (sv : Server) (machine : Uuid) (now : Z) (t : Tables) : option Z :=
  '(m, o) ← routed machine t;
  match claimed o with
  | Some (incarnation, _) =>
      match current_node sv (base t) now incarnation with
      | Some _ => None
      | None => Some (route_revision m)
      end
  | None => Some (route_revision m)
  end.

Definition guard_lease (ok : bool) : result OwnerError unit := if ok then Ok tt else Err Fenced.

(** [l0], [l1], [l2]: the lease checks; each query is answered on the tables
    it sees ([None]: it fails). *)
Definition resolve (sv : Server) (machine : Uuid) (l0 l1 l2 : bool) (q1 : option Tables)
    (now1 : Z) (q2 : option Tables) (now2 : Z) : result OwnerError OwnerRoute :=
  guard_lease l0 ;;
  t1 ← ok_or DatabaseError q1;
  guard_lease l1 ;;
  match owner_row sv machine now1 t1 with
  | None =>
      t2 ← ok_or DatabaseError q2;
      guard_lease l2 ;;
      revision ← ok_or Unavailable (ownerless_row sv machine now2 t2);
      Ok (NoValidOwner revision)
  | Some (o, incarnation, connection, n) =>
      let route := {| rt_revision := owner_revision o; rt_epoch := connection_epoch o;
                      rt_connection := connection |} in
      if incarnation =? sv_incarnation sv then Ok (Local route)
      else if negb (bool_decide (profile (sv_identity sv) = Clustered)) then Err Invariant
      else url ← ok_or Invariant (node_url n); Ok (Remote route incarnation url)
  end.
End OwnerRs.

(** ** api/mod.rs *)

Module Api.
Import Relay OwnerRs.

Definition TOKEN_TTL_SECONDS : Z := 900.
Definition MAX_MACHINES : Z := 1024.

(** The responses: their [code] and, for the two kinds that have several, the
    argument. *)
Inductive ApiError : Type :=
| Unauthenticated | BadRequest (code : bytes) | NotFound | ConflictWith (code : bytes)
| TemporarilyUnavailable | OwnerUnreachable | OperationAmbiguous | Internal.
Global Instance ApiError_eq_dec : EqDecision ApiError.
Proof. solve_decision. Defined.

Definition error_code (e : ApiError) : bytes :=
  match e with
  | Unauthenticated => lit "unauthenticated"
  | BadRequest c | ConflictWith c => c
  | NotFound => lit "not_found"
  | TemporarilyUnavailable => lit "temporarily_unavailable"
  | OwnerUnreachable => lit "owner_unreachable"
  | OperationAmbiguous => lit "operation_ambiguous"
  | Internal => lit "internal_error"
  end.
Definition is_ambiguous (e : ApiError) : bool :=
  bool_decide (error_code e = lit "operation_ambiguous").

(** [map_write]; [map_read] is always temporary. *)
Definition map_write (constraint : bool) : ApiError :=
  if constraint then ConflictWith (lit "conflict") else TemporarilyUnavailable.

Definition lock_current_deployment (sv : Server) (l0 l1 : bool) (now : Z) (db : Database)
    : result ApiError unit :=
  fail_if (negb (deployment_matches sv db) || negb l0) TemporarilyUnavailable ;;
  fail_if (negb (own_node_valid sv [Serving] now db) || negb l1) TemporarilyUnavailable.

(** The key, the digest and the one issued token per machine. *)
Definition insert_enrollment (id machine : Uuid) (digest : bytes) (now : Z) (t : Tables)
    : result ApiError Tables :=
  if bool_decide (enrollments t !! id = None)
     && negb (exists_where (fun _ e => bool_decide (token_digest e = digest)) (enrollments t))
     && negb (exists_where (fun _ e => (en_machine e =? machine)
                                       && bool_decide (en_status e = Issued)) (enrollments t))
  then Ok (with_enrollments t (<[id :=
             {| en_machine := machine; token_digest := digest;
                token_expires_at := now + TOKEN_TTL_SECONDS * 1000000000;
                en_status := Issued |}]> (enrollments t)))
  else Err (map_write true).

Definition issued_for (machine : Uuid) (e : Enrollment) : bool :=
  (en_machine e =? machine) && bool_decide (en_status e = Issued).
Definition cancel_issued (machine : Uuid) (t : Tables) : Tables :=
  with_enrollments t
    (update_where (fun _ => issued_for machine) (set_en_status Cancelled) (enrollments t)).

(** [validate_name] on UTF-8 text. *)
Definition validate_name (name : bytes) : result ApiError unit :=
  if bool_decide (name = []) || (64 <? zlen name) || has_outer_space name
     || chars_any is_control name
  then Err (BadRequest (lit "invalid_name")) else Ok tt.

Record CreateMachineInput : Type := {
  in_alias : bytes; in_target_account : bytes; in_tmux_path : bytes; in_socket : bytes;
  in_credential : option Uuid;
}.

Definition validate_machine (i : CreateMachineInput) : result ApiError unit :=
  validate_name (in_alias i) ;;
  fail_if (negb (is_target_account (in_target_account i)))
    (BadRequest (lit "invalid_target_account")) ;;
  fail_if (negb (starts_with (lit "/") (in_tmux_path i)) || (256 <? zlen (in_tmux_path i))
           || chars_any is_control (in_tmux_path i)) (BadRequest (lit "invalid_tmux_path")) ;;
  fail_if (bool_decide (in_socket i = []) || (128 <? zlen (in_socket i))
           || chars_any is_control (in_socket i)) (BadRequest (lit "invalid_tmux_socket")).

Record Ids : Type := { id_machine : Uuid; id_enrollment : Uuid }.

(** The unique alias index compares lower-cased names; its violation is a
    failed statement. *)
Definition create_body (sv : Server) (l0 l1 : bool) (ts : Instants) (ids : Ids)
    (input : CreateMachineInput) (digest : bytes) (t : Tables)
    : result ApiError (Tables * Uuid) :=
  lock_current_deployment sv l0 l1 (t_node ts) (base t) ;;
  fail_if (MAX_MACHINES <=? Z.of_nat (size (machines t))) (ConflictWith (lit "machine_limit")) ;;
  let credential := default (default_credential t) (in_credential input) in
  fail_if (negb (bool_decide (credentials t !! credential = Some true))) NotFound ;;
  fail_if (negb (bool_decide (machines t !! id_machine ids = None
                              /\ owners t !! id_machine ids = None))) (map_write true) ;;
  let m := {| ssh_credential_id := credential; alias := in_alias input; lifecycle := Pending;
              route_revision := 1; credential_revision := 1;
              target_account := in_target_account input; tmux_path := in_tmux_path input;
              tmux_socket_identity := in_socket input; host_identity := None |} in
  let o := {| connection_epoch := 0; claimed := None; owner_revision := 1 |} in
  let t := with_machines t (<[id_machine ids := m]> (machines t)) in
  let t := with_owners t (<[id_machine ids := o]> (owners t)) in
  t ← insert_enrollment (id_enrollment ids) (id_machine ids) digest (t_write ts) t;
  Ok (t, credential).

Definition create_machine (sv : Server) (fate : Fate) (l0 l1 : bool) (ts : Instants) (ids : Ids)
    (input : CreateMachineInput) (digest : bytes) (t : Tables)
    : Tables * result ApiError Uuid :=
  match validate_machine input with
  | Err e => (t, Err e)
  | Ok _ => run fate map_write OperationAmbiguous (create_body sv l0 l1 ts ids input digest) t
  end.

Definition rename_body (sv : Server) (l0 l1 : bool) (ts : Instants) (machine : Uuid)
    (name : bytes) (t : Tables) : result ApiError (Tables * unit) :=
  lock_current_deployment sv l0 l1 (t_node ts) (base t) ;;
  fail_if (bool_decide (machines t !! machine = None)) NotFound ;;
  Ok (with_machines t (alter (set_alias name) machine (machines t)), tt).
Definition rename_machine (sv : Server) (fate : Fate) (l0 l1 : bool) (ts : Instants)
    (machine : Uuid) (name : bytes) (t : Tables) : Tables * result ApiError unit :=
  match validate_name name with
  | Err e => (t, Err e)
  | Ok _ => run fate map_write OperationAmbiguous (rename_body sv l0 l1 ts machine name) t
  end.

Definition rebind_body (sv : Server) (l0 l1 : bool) (ts : Instants) (machine credential : Uuid)
    (t : Tables) : result ApiError (Tables * unit) :=
  lock_current_deployment sv l0 l1 (t_node ts) (base t) ;;
  m ← ok_or NotFound (machines t !! machine);
  fail_if (negb (bool_decide (lifecycle m = Active))) (ConflictWith (lit "invalid_lifecycle")) ;;
  fail_if (ssh_credential_id m =? credential) (ConflictWith (lit "conflict")) ;;
  next ← ok_or Internal (checked_add i64_max (credential_revision m) 1);
  fail_if (negb (bool_decide (credentials t !! credential = Some true))) NotFound ;;
  Ok (with_machines t (alter (set_credential credential next) machine (machines t)), tt).
Definition rebind_machine_credential (sv : Server) (fate : Fate) (l0 l1 : bool) (ts : Instants)
    (machine credential : Uuid) (t : Tables) : Tables * result ApiError unit :=
  run fate map_write OperationAmbiguous (rebind_body sv l0 l1 ts machine credential) t.

Definition re_enroll_disabled_body (sv : Server) (l0 l1 : bool) (ts : Instants) (machine : Uuid)
    (t : Tables) : result ApiError (Tables * unit) :=
  lock_current_deployment sv l0 l1 (t_node ts) (base t) ;;
  let guard k m := (k =? machine) && bool_decide (lifecycle m = Disabled) in
  fail_if (negb (affected guard (machines t) =? 1)) (ConflictWith (lit "invalid_lifecycle")) ;;
  Ok (with_machines t (update_where guard (set_lifecycle Pending) (machines t)), tt).
Definition re_enroll_disabled_machine (sv : Server) (fate : Fate) (l0 l1 : bool) (ts : Instants)
    (machine : Uuid) (t : Tables) : Tables * result ApiError unit :=
  run fate map_write OperationAmbiguous (re_enroll_disabled_body sv l0 l1 ts machine) t.

(** The second transaction of [issue_enrollment_token], after the recovery. *)
Definition issue_body (sv : Server) (l0 l1 : bool) (ts : Instants) (id machine : Uuid)
    (digest : bytes) (t : Tables) : result ApiError (Tables * unit) :=
  lock_current_deployment sv l0 l1 (t_node ts) (base t) ;;
  fail_if (negb (bool_decide (lifecycle <$> machines t !! machine = Some Pending)))
    (ConflictWith (lit "invalid_lifecycle")) ;;
  t ← insert_enrollment id machine digest (t_write ts) (cancel_issued machine t);
  Ok (t, tt).
Definition issue_enrollment_token (sv : Server) (fate0 fate : Fate) (lease_ok l0 l1 : bool)
    (ts0 ts : Instants) (id machine : Uuid) (digest : bytes) (t : Tables)
    : Tables * result ApiError unit :=
  match recover_expired_attempts sv fate0 lease_ok ts0 (Some machine) t with
  | (t, Err _) => (t, Err TemporarilyUnavailable)
  | (t, Ok _) => run fate map_write OperationAmbiguous (issue_body sv l0 l1 ts id machine digest) t
  end.

Definition cancel_body (sv : Server) (l0 l1 : bool) (ts : Instants) (machine : Uuid) (t : Tables)
    : result ApiError (Tables * unit) :=
  lock_current_deployment sv l0 l1 (t_node ts) (base t) ;;
  fail_if (bool_decide (machines t !! machine = None)) NotFound ;;
  fail_if (affected (fun _ => issued_for machine) (enrollments t) =? 0) NotFound ;;
  Ok (cancel_issued machine t, tt).
Definition cancel_enrollment_token (sv : Server) (fate : Fate) (l0 l1 : bool) (ts : Instants)
    (machine : Uuid) (t : Tables) : Tables * result ApiError unit :=
  run fate map_write OperationAmbiguous (cancel_body sv l0 l1 ts machine) t.

(** ** Leaving the active state *)

Inductive OwnerExpectation : Type :=
| Exact (incarnation : Uuid) (route : RouteIdentity)
| ExpectNoValidOwner (revision : Z).

Definition expected_revision (e : OwnerExpectation) : Z :=
  match e with Exact _ route => rt_revision route | ExpectNoValidOwner r => r end.

(** The owner of the row has a lease under this configuration and build. *)
Definition current_owner_valid (sv : Server) (db : Database) (now : Z) (o : Owner) : bool :=
  match claimed o with
  | Some (incarnation, _) => bool_decide (is_Some (current_node sv db now incarnation))
  | None => false
  end.

Definition owner_matches (sv : Server) (db : Database) (now : Z) (expected : OwnerExpectation)
    (o : Owner) : bool :=
  match expected with
  | Exact incarnation route =>
      bool_decide (claimed o = Some (incarnation, rt_connection route))
      && (connection_epoch o =? rt_epoch route)
  | ExpectNoValidOwner _ => negb (current_owner_valid sv db now o)
  end.

Definition set_owner_route (revision : Z) (o : Owner) : Owner :=
  {| connection_epoch := connection_epoch o; claimed := None; owner_revision := revision |}.

Definition transition_body (sv : Server) (l0 l1 : bool) (ts : Instants) (machine : Uuid)
    (target : Lifecycle) (expected : OwnerExpectation) (t : Tables)
    : result ApiError (Tables * unit) :=
  lock_current_deployment sv l0 l1 (t_node ts) (base t) ;;
  m ← ok_or (ConflictWith (lit "invalid_lifecycle")) (machines t !! machine);
  fail_if (negb (bool_decide (lifecycle m = Active))) (ConflictWith (lit "invalid_lifecycle")) ;;
  let revision := route_revision m in
  fail_if (negb (revision =? expected_revision expected)) TemporarilyUnavailable ;;
  o ← ok_or Internal (owners t !! machine);
  fail_if (negb ((owner_revision o =? revision)
                 && owner_matches sv (base t) (t_query ts) expected o)) TemporarilyUnavailable ;;
  next ← ok_or Internal (checked_add i64_max revision 1);
  let bound := fun (_ : Z) b => binding_of machine revision b in
  fail_if (negb (affected bound (bindings t) =? 1)) Internal ;;
  let t := with_bindings t (update_where bound revoke (bindings t)) in
  let t := with_attempts t (update_where (fun _ => verifying_of machine)
                              (set_at_status AttemptFailed) (attempts t)) in
  let t := cancel_issued machine t in
  let t := with_owners t (alter (set_owner_route next) machine (owners t)) in
  Ok (with_machines t (alter (fun m => set_lifecycle target (set_route_revision next m)) machine
                         (machines t)), tt).

Definition commit_active_machine_transition (sv : Server) (fate : Fate) (l0 l1 : bool)
    (ts : Instants) (machine : Uuid) (target : Lifecycle) (expected : OwnerExpectation)
    (t : Tables) : Tables * result ApiError unit :=
  run fate map_write OperationAmbiguous (transition_body sv l0 l1 ts machine target expected) t.

Inductive TransitionCompletion : Type :=
| TransitionCommitted | TransitionAborted (e : ApiError) | TransitionIndeterminate (e : ApiError).
Inductive TransitionObservation : Type :=
| ObservedCommitted | ObservedAborted | ObservedIndeterminate.

(** The binding the LEFT JOIN finds; a machine has one binding per revision
    (see Ownership), [None] stands for a null status. *)
Definition binding_status (machine : Uuid) (revision : Z) (t : Tables) : option bool :=
  '(_, b) ← select_one (fun _ b => (bd_machine b =? machine) && (bd_revision b =? revision))
              (bindings t);
  Some (bd_active b).

(** [answer]: the tables the query sees, [None] when it fails or times out. *)
Definition observe_machine_transition (sv : Server) (l0 l1 : bool) (answer : option Tables)
    (now : Z) (machine : Uuid) (target : Lifecycle) (expected : OwnerExpectation)
    : TransitionObservation :=
  let revision := expected_revision expected in
  match checked_add i64_max revision 1, answer with
  | Some next, Some t =>
      match machines t !! machine, owners t !! machine with
      | Some m, Some o =>
          if negb l0 || negb l1 then ObservedIndeterminate
          else if bool_decide (lifecycle m = target) && (route_revision m =? next)
                  && (owner_revision o =? next) && bool_decide (claimed o = None)
                  && bool_decide (binding_status machine revision t = Some false)
          then ObservedCommitted
          else if bool_decide (lifecycle m = Active) && (route_revision m =? revision)
                  && (owner_revision o =? revision)
                  && bool_decide (binding_status machine revision t = Some true)
                  && owner_matches sv (base t) now expected o
          then ObservedAborted else ObservedIndeterminate
      | _, _ => ObservedIndeterminate
      end
  | _, _ => ObservedIndeterminate
  end.

Definition settle_transition_commit (sv : Server) (l0 l1 : bool) (answer : option Tables)
    (now : Z) (machine : Uuid) (target : Lifecycle) (expected : OwnerExpectation)
    (r : result ApiError unit) : TransitionCompletion :=
  match r with
  | Ok _ => TransitionCommitted
  | Err e =>
      if negb (is_ambiguous e) then TransitionAborted e
      else match observe_machine_transition sv l0 l1 answer now machine target expected with
           | ObservedCommitted => TransitionCommitted
           | ObservedAborted => TransitionAborted TemporarilyUnavailable
           | ObservedIndeterminate => TransitionIndeterminate e
           end
  end.
End Api.
