(* ===== verification/Custody.v ===== *)
(** * Custody: SSH credentials, their envelopes and the audit log

    Models the credential endpoints of
    [crates/owlmux-server/src/api/mod.rs], [generate_credential] of
    [crypto.rs] and the audit functions of [storage.rs], over the credential
    rows of the database.  A [Store] is the tables of the machines with the
    full rows of [ssh_credentials], of which [Tables.credentials] is the
    projection to the status, and the audit events. *)

From stdpp Require Import sorting.
From S2P Require Import Prelude Text Contracts Secrets Lease Tables Authority.
Import Relay Api.

(** ** Rows *)

Record CredentialRow : Type := {
  cr_deployment : Uuid; cr_name : bytes; cr_public_key : bytes; cr_fingerprint : bytes;
  cr_envelope : bytes; cr_active : bool; cr_created : Z;
}.
Definition set_name (name : bytes) (c : CredentialRow) : CredentialRow :=
  {| cr_deployment := cr_deployment c; cr_name := name; cr_public_key := cr_public_key c;
     cr_fingerprint := cr_fingerprint c; cr_envelope := cr_envelope c;
     cr_active := cr_active c; cr_created := cr_created c |}.
Definition set_retired (c : CredentialRow) : CredentialRow :=
  {| cr_deployment := cr_deployment c; cr_name := cr_name c; cr_public_key := cr_public_key c;
     cr_fingerprint := cr_fingerprint c; cr_envelope := cr_envelope c;
     cr_active := false; cr_created := cr_created c |}.

Record AuditRow : Type := {
  au_deployment : Uuid; au_kind : bytes; au_machine : option Uuid; au_credential : option Uuid;
  au_action : bytes; au_outcome : bytes;
}.

(** [audit] has the latest event first. *)
Record Store : Type := {
  tables : Tables; rows : gmap Z CredentialRow; audit : list AuditRow;
}.

Definition with_default (t : Tables) (c : Uuid) : Tables :=
  {| base := base t; credentials := credentials t; default_credential := c;
     machines := machines t; owners := owners t; enrollments := enrollments t;
     attempts := attempts t; bindings := bindings t |}.
Definition with_credentials (t : Tables) (x : gmap Z bool) : Tables :=
  {| base := base t; credentials := x; default_credential := default_credential t;
     machines := machines t; owners := owners t; enrollments := enrollments t;
     attempts := attempts t; bindings := bindings t |}.

Definition put_tables (t : Tables) (s : Store) : Store :=
  {| tables := t; rows := rows s; audit := audit s |}.
Definition put_rows (x : gmap Z CredentialRow) (s : Store) : Store :=
  {| tables := with_credentials (tables s) (cr_active <$> x); rows := x; audit := audit s |}.

(** ** storage.rs: the audit log *)

Inductive StorageError : Type :=
| StorageUnavailable | Migration | StorageInvariant | StorageMismatch
| ConfigurationTransitionBlocked | CustodyFailed | StorageConflict | StorageAmbiguous
| StorageNotFound.
Global Instance StorageError_eq_dec : EqDecision StorageError.
Proof. solve_decision. Defined.

(** [constraint]: the error came from the database and not from the
    connection. *)
Definition classify_write (constraint : bool) : StorageError :=
  if constraint then StorageConflict else StorageUnavailable.

Definition storage_text (e : StorageError) : bytes :=
  match e with
  | StorageUnavailable => lit "PostgreSQL is unavailable"
  | Migration => lit "database migration failed"
  | StorageInvariant => lit "database invariant validation failed"
  | StorageMismatch => lit "Deployment configuration does not match"
  | ConfigurationTransitionBlocked =>
      lit "Deployment configuration transition is blocked by a valid node lease"
  | CustodyFailed => lit "SSH credential custody failed"
  | StorageConflict => lit "durable state conflict"
  | StorageAmbiguous => lit "database commit outcome is ambiguous"
  | StorageNotFound => lit "resource not found"
  end.

(** The CHECK constraints of [audit_events] after all migrations, and its
    references. *)
Definition machine_kinds : list bytes :=
  map lit ["machine"; "enrollment"; "relay_binding"; "machine_owner"].
Definition audit_kinds : list bytes :=
  map lit ["deployment"; "ssh_credential"; "server_node"] ++ machine_kinds.
Definition audit_insertable (a : AuditRow) (s : Store) : bool :=
  bool_decide (dep_id <$> deployment (base (tables s)) = Some (au_deployment a))
  && bool_decide (au_kind a ∈ audit_kinds)
  && in_range 1 64 (zlen (au_action a))
  && bool_decide (au_outcome a ∈ map lit ["success"; "rejected"; "ambiguous"])
  && (if bool_decide (au_kind a ∈ machine_kinds)
      then bool_decide (is_Some (au_machine a)) else true)
  && (if bool_decide (au_kind a = lit "ssh_credential")
      then bool_decide (is_Some (au_credential a)) else true)
  && match au_machine a with
     | Some m => bool_decide (is_Some (machines (tables s) !! m)) | None => true end
  && match au_credential a with
     | Some c => bool_decide (is_Some (rows s !! c)) | None => true end.

Definition insert_audit (deployment_id : Uuid) (kind : bytes) (machine credential : option Uuid)
    (action outcome : bytes) (s : Store) : result StorageError Store :=
  let a := {| au_deployment := deployment_id; au_kind := kind; au_machine := machine;
              au_credential := credential; au_action := action; au_outcome := outcome |} in
  fail_if (negb (audit_insertable a s)) (classify_write true) ;;
  Ok {| tables := tables s; rows := rows s; audit := a :: audit s |}.

Definition append_audit_outcome (deployment_id : Uuid) (kind : bytes)
    (machine credential : option Uuid) (action outcome : bytes) (s : Store)
    : result StorageError Store :=
  insert_audit deployment_id kind machine credential action outcome s.
Definition append_audit (deployment_id : Uuid) (kind : bytes) (machine credential : option Uuid)
    (action : bytes) (s : Store) : result StorageError Store :=
  append_audit_outcome deployment_id kind machine credential action (lit "success") s.

(** [record_audit] is one statement outside a transaction. *)
Definition record_audit (fate : Fate) (deployment_id : Uuid) (kind : bytes)
    (machine credential : option Uuid) (action outcome : bytes) (s : Store)
    : Store * result StorageError unit :=
  run fate classify_write StorageUnavailable
    (fun s => s ← insert_audit deployment_id kind machine credential action outcome s; Ok (s, tt)) s.

Definition map_storage (e : StorageError) : ApiError :=
  match e with
  | StorageConflict => ConflictWith (lit "conflict")
  | StorageAmbiguous => OperationAmbiguous
  | _ => TemporarilyUnavailable
  end.

(** The 200 latest events of the deployment ([None]: the query failed). *)
Definition list_audit_events (sv : Server) (answer : option Store)
    : result ApiError (list AuditRow) :=
  s ← ok_or TemporarilyUnavailable answer;
  Ok (take 200 (filter (fun a => au_deployment a = sv_deployment sv) (audit s))).

(** ** crypto.rs: a new credential *)

(** What [ssh_key] and the nonce source produce: the OpenSSH texts of a fresh
    Ed25519 key, its fingerprint and 24 random bytes. *)
Record KeyMaterial : Type := {
  km_private : bytes; km_public : bytes; km_fingerprint : bytes; km_nonce : bytes;
}.
Record GeneratedCredential : Type := {
  gc_public_key : bytes; gc_fingerprint : bytes; gc_envelope : bytes;
}.

(** [lower] of PostgreSQL, which the unique index on names applies. *)
Class Lower : Type := { lower : bytes -> bytes }.

Section custody.
Context `{Haead : Aead} `{Hlower : Lower}.

(** [material] is [None] when generating or printing the key fails. *)
Definition generate_credential (key : bytes) (deployment_id credential_id : Uuid)
    (material : option KeyMaterial) : result CryptoError GeneratedCredential :=
  m ← ok_or CryptoFailed material;
  envelope ← seal key deployment_id credential_id (km_nonce m) (km_private m);
  Ok {| gc_public_key := km_public m; gc_fingerprint := km_fingerprint m;
        gc_envelope := envelope |}.

(** The unique index on [(deployment_id, lower(name))]. *)
Definition name_taken (deployment_id id : Uuid) (name : bytes) (x : gmap Z CredentialRow) : bool :=
  exists_where (fun k c => negb (k =? id) && (cr_deployment c =? deployment_id)
                           && bool_decide (lower (cr_name c) = lower name)) x.

(** The primary key, the index and the CHECK constraints on lengths; those on
    the name hold of a validated one. *)
Definition credential_insertable (id deployment_id : Uuid) (name : bytes)
    (g : GeneratedCredential) (x : gmap Z CredentialRow) : bool :=
  bool_decide (x !! id = None) && negb (name_taken deployment_id id name x)
  && in_range 40 1024 (zlen (gc_public_key g)) && in_range 16 128 (zlen (gc_fingerprint g))
  && in_range 42 16384 (zlen (gc_envelope g)).

Definition insert_credential (id deployment_id : Uuid) (name : bytes) (g : GeneratedCredential)
    (now : Z) (s : Store) : option Store :=
  if credential_insertable id deployment_id name g (rows s)
  then Some (put_rows (<[id :=
         {| cr_deployment := deployment_id; cr_name := name; cr_public_key := gc_public_key g;
            cr_fingerprint := gc_fingerprint g; cr_envelope := gc_envelope g;
            cr_active := true; cr_created := now |}]> (rows s)) s)
  else None.

(** ** api/mod.rs: the credential endpoints *)

Record CredentialSummary : Type := {
  cs_id : Uuid; cs_name : bytes; cs_public_key : bytes; cs_fingerprint : bytes;
  cs_is_default : bool; cs_bound_machines : Z; cs_status : bytes;
}.

Definition bound_to (id : Uuid) (t : Tables) : Z :=
  affected (fun _ m => ssh_credential_id m =? id) (machines t).
Definition status_label (active : bool) : bytes :=
  if active then lit "active" else lit "retired".

(** One group of the query; the join with the deployment may drop it. *)
Definition summary_row (s : Store) (id : Uuid) (c : CredentialRow) : option CredentialSummary :=
  d ← deployment (base (tables s));
  if dep_id d =? cr_deployment c
  then Some {| cs_id := id; cs_name := cr_name c; cs_public_key := cr_public_key c;
               cs_fingerprint := cr_fingerprint c;
               cs_is_default := id =? default_credential (tables s);
               cs_bound_machines := bound_to id (tables s);
               cs_status := status_label (cr_active c) |}
  else None.

(** [ORDER BY c.created_at, c.id]. *)
Definition created_le (x y : Z * CredentialRow) : Prop :=
  cr_created x.2 < cr_created y.2 \/ cr_created x.2 = cr_created y.2 /\ x.1 <= y.1.
#[local] Instance created_le_dec : RelDecision created_le.
Proof. intros x y. unfold created_le. apply _. Defined.

Definition list_credentials (answer : option Store) : result ApiError (list CredentialSummary) :=
  s ← ok_or TemporarilyUnavailable answer;
  Ok (take 256 (omap (fun kc => summary_row s kc.1 kc.2)
                  (merge_sort created_le (map_to_list (rows s))))).

Definition credential_by_id (answer : option Store) (id : Uuid)
    : result ApiError CredentialSummary :=
  s ← ok_or TemporarilyUnavailable answer;
  c ← ok_or NotFound (rows s !! id);
  ok_or NotFound (summary_row s id c).

Definition MAX_CREDENTIALS : Z := 256.

Definition enforce_credential_limit (sv : Server) (s : Store) : result ApiError unit :=
  fail_if (MAX_CREDENTIALS <=? affected (fun _ c => cr_deployment c =? sv_deployment sv) (rows s))
    (ConflictWith (lit "credential_limit")).

(** [append_audit] with [map_storage]. *)
Definition audited (sv : Server) (credential : Uuid) (action : bytes) (s : Store)
    : result ApiError Store :=
  map_err map_storage
    (append_audit (sv_deployment sv) (lit "ssh_credential") None (Some credential) action s).

(** A name that its owner may give: validation, a fresh key sealed for the new
    identifier, and the transaction. *)
Definition create_credential_body (sv : Server) (l0 l1 : bool) (ts : Instants) (id : Uuid) (name : bytes)
    (g : GeneratedCredential) (s : Store) : result ApiError (Store * unit) :=
  lock_current_deployment sv l0 l1 (t_node ts) (base (tables s)) ;;
  enforce_credential_limit sv s ;;
  s ← ok_or (map_write true) (insert_credential id (sv_deployment sv) name g (t_write ts) s);
  s ← audited sv id (lit "create") s;
  Ok (s, tt).

Definition created_summary (id : Uuid) (name : bytes) (g : GeneratedCredential) (is_default : bool)
    : CredentialSummary :=
  {| cs_id := id; cs_name := name; cs_public_key := gc_public_key g;
     cs_fingerprint := gc_fingerprint g; cs_is_default := is_default; cs_bound_machines := 0;
     cs_status := lit "active" |}.

Definition create_credential (sv : Server) (key : bytes) (fate : Fate) (l0 l1 : bool)
    (ts : Instants) (id : Uuid) (material : option KeyMaterial) (name : bytes) (s : Store)
    : Store * result ApiError CredentialSummary :=
  match validate_name name,
        map_err (fun _ => Internal) (generate_credential key (sv_deployment sv) id material) with
  | Err e, _ | Ok _, Err e => (s, Err e)
  | Ok _, Ok g =>
      let '(s, r) := run fate map_write OperationAmbiguous (create_credential_body sv l0 l1 ts id name g) s in
      (s, r ;; Ok (created_summary id name g false))
  end.

(** [answer]: the state the last query sees. *)
Definition rename_credential_body (sv : Server) (l0 l1 : bool) (ts : Instants) (id : Uuid) (name : bytes)
    (s : Store) : result ApiError (Store * unit) :=
  lock_current_deployment sv l0 l1 (t_node ts) (base (tables s)) ;;
  c ← ok_or NotFound (rows s !! id);
  fail_if (name_taken (cr_deployment c) id name (rows s)) (map_write true) ;;
  s ← audited sv id (lit "rename") (put_rows (<[id := set_name name c]> (rows s)) s);
  Ok (s, tt).

Definition rename_credential (sv : Server) (fate : Fate) (l0 l1 : bool) (ts : Instants)
    (answer : option Store) (id : Uuid) (name : bytes) (s : Store)
    : Store * result ApiError CredentialSummary :=
  match validate_name name with
  | Err e => (s, Err e)
  | Ok _ =>
      let '(s, r) := run fate map_write OperationAmbiguous (rename_credential_body sv l0 l1 ts id name) s in
      (s, r ;; credential_by_id answer id)
  end.

Definition set_default_body (sv : Server) (l0 l1 : bool) (ts : Instants) (id : Uuid) (s : Store)
    : result ApiError (Store * unit) :=
  lock_current_deployment sv l0 l1 (t_node ts) (base (tables s)) ;;
  fail_if (negb (bool_decide (cr_active <$> rows s !! id = Some true))) NotFound ;;
  s ← audited sv id (lit "set_default") (put_tables (with_default (tables s) id) s);
  Ok (s, tt).
Definition set_default_credential (sv : Server) (fate : Fate) (l0 l1 : bool) (ts : Instants)
    (id : Uuid) (s : Store) : Store * result ApiError unit :=
  run fate map_write OperationAmbiguous (set_default_body sv l0 l1 ts id) s.

Definition reset_default_body (sv : Server) (l0 l1 : bool) (ts : Instants) (id : Uuid)
    (name : bytes) (g : GeneratedCredential) (s : Store) : result ApiError (Store * unit) :=
  lock_current_deployment sv l0 l1 (t_node ts) (base (tables s)) ;;
  enforce_credential_limit sv s ;;
  s ← ok_or (map_write true) (insert_credential id (sv_deployment sv) name g (t_write ts) s);
  s ← audited sv id (lit "reset_default") (put_tables (with_default (tables s) id) s);
  Ok (s, tt).
Definition reset_default_credential (sv : Server) (key : bytes) (fate : Fate) (l0 l1 : bool)
    (ts : Instants) (id : Uuid) (material : option KeyMaterial) (name : bytes) (s : Store)
    : Store * result ApiError CredentialSummary :=
  match validate_name name,
        map_err (fun _ => Internal) (generate_credential key (sv_deployment sv) id material) with
  | Err e, _ | Ok _, Err e => (s, Err e)
  | Ok _, Ok g =>
      let '(s, r) :=
        run fate map_write OperationAmbiguous (reset_default_body sv l0 l1 ts id name g) s in
      (s, r ;; Ok (created_summary id name g true))
  end.

(** The guard of the update: active, not the default, bound to no machine. *)
Definition retirable (id : Uuid) (c : CredentialRow) (t : Tables) : bool :=
  cr_active c
  && negb (bool_decide (is_Some (deployment (base t))) && (default_credential t =? id))
  && negb (exists_where (fun _ m => ssh_credential_id m =? id) (machines t)).
Definition retire_body (sv : Server) (l0 l1 : bool) (ts : Instants) (id : Uuid) (s : Store)
    : result ApiError (Store * unit) :=
  lock_current_deployment sv l0 l1 (t_node ts) (base (tables s)) ;;
  c ← ok_or NotFound (rows s !! id);
  fail_if (negb (retirable id c (tables s))) (ConflictWith (lit "credential_in_use")) ;;
  s ← audited sv id (lit "retire") (put_rows (<[id := set_retired c]> (rows s)) s);
  Ok (s, tt).
Definition retire_credential (sv : Server) (fate : Fate) (l0 l1 : bool) (ts : Instants)
    (id : Uuid) (s : Store) : Store * result ApiError unit :=
  run fate map_write OperationAmbiguous (retire_body sv l0 l1 ts id) s.
End custody.
