(* ===== verification/SshAccess.v ===== *)
(** * SshAccess: one OpenSSH child, from its private directory to its end

    Models the effectful half of [crates/owlmux-server/src/ssh.rs]: the child
    directories of [SshRuntime] and their permits, [write_exclusive],
    [discover_host_identity], [verify_access] with [verify_with_child],
    [spawn_access], [run_tmux_probe], [create_tmux_session] and
    [start_tmux_control], composed from the checks, renderings and
    classifications of [Ssh].  The kernel, the OpenSSH client, the lease and
    the database answer through an arbitrary environment indexed by the
    effects performed so far; every early return and every [Drop] is a branch
    of the model. *)

From S2P Require Import Prelude Text Contracts Binary Secrets Lease Tables Custody Ssh.

(** ** The instance directory *)

Record File : Type := { file_meta : Metadata; content : bytes }.
Record ChildDir : Type := { dir_meta : Metadata; files : list (bytes * File) }.

(** [SshRuntime]: [permits] are the free permits of [child_limit]. *)
Record Runtime : Type := {
  instance_dir : bytes; owner_uid : Z; child_dirs : list (bytes * ChildDir); permits : Z;
}.
Definition set_dirs (rt : Runtime) (l : list (bytes * ChildDir)) (p : Z) : Runtime :=
  {| instance_dir := instance_dir rt; owner_uid := owner_uid rt; child_dirs := l; permits := p |}.

(** [SshRuntime::create]: a missing root is made and secured first. *)
Definition create_ssh_runtime `{UuidText} (unlinks : bytes -> bool) (root : option Node)
    (made secured : bool) (euid umask : Z) (lock : option (Metadata * bool)) (instance_id : Uuid)
    : option Node * ssh bytes :=
  let dir m := Entry {| kind := Directory; uid := euid; nlink := 2; mode := m |} [] in
  match root with
  | Some root => let '(root, r) := create_runtime unlinks root lock instance_id in (Some root, r)
  | None =>
      if negb made then (None, Err SshCustody)
      else if negb secured then (Some (dir (Z.land 511 (Z.lnot umask))), Err SshCustody)
      else let '(root, r) := create_runtime unlinks (dir 448) lock instance_id in (Some root, r)
  end.

(** [Drop] of [SshRuntime]: what the cleanup of the instance directory leaves
    of the root. *)
Definition drop_runtime `{UuidText} (unlinks : bytes -> bool) (instance : bytes) (owner : Z)
    (root : Node) : Node :=
  Entry (node_meta root) (concat (map (fun '(name, node) =>
    if bool_decide (name = instance)
    then match fst (cleanup_instance_directory unlinks name node owner) with
         | Some node => [(name, node)]
         | None => []
         end
    else [(name, node)]) (node_children root))).

(** What an observer of the process sees: the local bridge that carries the
    relay stream, and each client that was started, with its arguments and the
    directory it could read at that instant. *)
Inductive Event : Type :=
| Bridged (port : Z) | BridgeAborted
| Spawned (at_step : nat) (argv : list bytes) (dir : ChildDir).

Record World : Type := { runtime : Runtime; step : nat; trace : list Event }.

(** A client that was started: what it leaves in the directory, how it ends
    ([None]: not within [SSH_TIMEOUT]), and, for a control client, the stream
    of its output ([None]: no line within five seconds). *)
Record Run : Type := {
  left_files : list (bytes * File); exits : option ChildExit; output : option (list Fill);
}.

Record Env : Type := {
  lease_valid : nat -> bool;       (* the lease check of this step *)
  allows : nat -> bool;            (* the file or socket call of this step succeeds *)
  secures : nat -> bool;           (* chmod, or lstat, of a directory just made *)
  unlinks : bytes -> bool;         (* removals, by name *)
  fresh_id : nat -> Uuid;          (* [Uuid::new_v4] *)
  torn : nat -> nat;               (* how much a failed write leaves behind *)
  bound_port : nat -> option Z;    (* [TcpListener::bind], [local_addr] *)
  client : nat -> list bytes -> list (bytes * File) -> option Run;
  euid : Z; umask : Z;
}.

(** [Display] of [SshError]: nothing of the failure's cause is shown. *)
Definition display_ssh_error (e : SshError) : bytes :=
  match e with
  | SshCustody => lit "SSH private runtime custody failed"
  | SshUnavailable => lit "SSH proof transport is unavailable"
  | SshInvalidState => lit "Machine is not ready for SSH proof"
  | SshProofFailed => lit "SSH access proof failed"
  | SshFenced => lit "Server incarnation is fenced"
  end.

(** Effects thread the world and may fail; what was done before stays done. *)
Definition act (A : Type) : Type := World -> World * ssh A.
Global Instance act_ret : MRet act := fun A a w => (w, Ok a).
Global Instance act_bind : MBind act := fun A B f m w =>
  match m w with (w, Ok a) => f a w | (w, Err e) => (w, Err e) end.
Definition lift {A} (r : ssh A) : act A := fun w => (w, r).
(** [Drop] at the end of a scope, and of a scope left by an error. *)
Definition finally {A} (cleanup : World -> World) (m : act A) : act A :=
  fun w => let '(w, r) := m w in (cleanup w, r).
Definition on_error {A} (cleanup : World -> World) (m : act A) : act A :=
  fun w => match m w with (w, Err e) => (cleanup w, Err e) | (w, Ok a) => (w, Ok a) end.

Definition advance (w : World) (rt : Runtime) : World :=
  {| runtime := rt; step := S (step w); trace := trace w |}.
Definition record (e : Event) (w : World) : World :=
  {| runtime := runtime w; step := step w; trace := trace w ++ [e] |}.

(** The entry of this name, changed in place. *)
Fixpoint alter_entry {A} (name : bytes) (f : A -> option A) (l : list (bytes * A))
    : list (bytes * A) :=
  match l with
  | [] => []
  | (x, a) :: l => if bool_decide (x = name)
                   then match f a with Some a => (x, a) :: l | None => l end
                   else (x, a) :: alter_entry name f l
  end.
Fixpoint find_entry {A} (name : bytes) (l : list (bytes * A)) : option A :=
  match l with
  | [] => None
  | (x, a) :: l => if bool_decide (x = name) then Some a else find_entry name l
  end.

Definition set_files (d : ChildDir) (l : list (bytes * File)) : ChildDir :=
  {| dir_meta := dir_meta d; files := l |}.
Definition alter_files (dir : bytes) (f : list (bytes * File) -> list (bytes * File))
    (rt : Runtime) : Runtime :=
  set_dirs rt (alter_entry dir (fun d => Some (set_files d (f (files d)))) (child_dirs rt))
    (permits rt).
Definition dir_files (dir : bytes) (rt : Runtime) : list (bytes * File) :=
  from_option files [] (find_entry dir (child_dirs rt)).

(** [with_removed e b]: the same exit, with [b] as the answer of the unlink. *)
Definition with_removed (e : ChildExit) (b : bool) : ChildExit :=
  {| waited := waited e; exit_code := exit_code e; stdout := stdout e; stdout_ok := stdout_ok e;
     stderr := stderr e; stderr_ok := stderr_ok e; identity_removed := b |}.

Definition join (path name : bytes) : bytes := path ++ lit "/" ++ name.

Section effects.
Context `{UuidText, Aead, SshKeys}.
Variable env : Env.

Definition check : act unit := fun w =>
  (advance w (runtime w), lease_check (lease_valid env (step w))).

(** ** Child directories *)

(** [SshRuntime::child_dir]: the permit is returned by every failure; a
    directory that could not be secured stays behind for the scavenger. *)
Definition child_dir : act bytes := fun w =>
  let rt := runtime w in
  if permits rt <=? 0 then (advance w rt, Err SshUnavailable)
  else
    let name := lit "child-" ++ uuid_print (fresh_id env (step w)) in
    if negb (allows env (step w)) || bool_decide (is_Some (find_entry name (child_dirs rt)))
    then (advance w rt, Err SshCustody)
    else
      let made m := child_dirs rt
        ++ [(name, {| dir_meta := {| kind := Directory; uid := euid env; nlink := 2; mode := m |};
                      files := [] |})] in
      if negb (secures env (step w))
      then (advance w (set_dirs rt (made (Z.land 511 (Z.lnot (umask env)))) (permits rt)),
            Err SshCustody)
      else
        let m := {| kind := Directory; uid := euid env; nlink := 2; mode := 448 |} in
        match (fail_if (negb (secures env (S (step w)))) SshCustody ;;
               validate_directory m (owner_uid rt)) with
        | Err e => (advance w (set_dirs rt (made 448) (permits rt)), Err e)
        | Ok _ => (advance w (set_dirs rt (made 448) (permits rt - 1)), Ok name)
        end.

Definition dir_node (d : ChildDir) : Node :=
  Entry (dir_meta d) (map (fun '(n, f) => (n, Entry (file_meta f) [])) (files d)).

(** [Drop] of a [ChildDirectory]: the cleanup's verdict is discarded, the
    permit is returned either way.  What a refused cleanup leaves is a suffix
    of the entries. *)
Definition drop_child_dir (dir : bytes) (w : World) : World :=
  let rt := runtime w in
  let clean d :=
    match fst (cleanup_child_directory (unlinks env) dir (dir_node d) (owner_uid rt)) with
    | None => None
    | Some node =>
        Some (set_files d (List.skipn (length (files d) - length (node_children node)) (files d)))
    end in
  advance w (set_dirs rt (alter_entry dir clean (child_dirs rt)) (permits rt + 1)).

Definition with_child_dir {A} (body : bytes -> act A) : act A :=
  dir ← child_dir; finally (drop_child_dir dir) (body dir).

(** [write_exclusive]: [create_new], the write, the sync. *)
Definition create_file (dir name : bytes) : act unit := fun w =>
  if negb (allows env (step w))
     || bool_decide (is_Some (find_entry name (dir_files dir (runtime w))))
  then (advance w (runtime w), Err SshCustody)
  else
    let m := {| kind := Regular; uid := euid env; nlink := 1;
                mode := Z.land 384 (Z.lnot (umask env)) |} in
    (advance w (alter_files dir (fun l => l ++ [(name, {| file_meta := m; content := [] |})])
                  (runtime w)), Ok tt).
Definition write_file (dir name value : bytes) : act unit := fun w =>
  let put v := alter_files dir
    (alter_entry name (fun f => Some {| file_meta := file_meta f; content := v |})) (runtime w) in
  if allows env (step w) then (advance w (put value), Ok tt)
  else (advance w (put (List.firstn (torn env (step w)) value)), Err SshCustody).
Definition sync_file : act unit := fun w =>
  (advance w (runtime w), fail_if (negb (allows env (step w))) SshCustody).
Definition write_exclusive (dir name value : bytes) : act unit :=
  create_file dir name ;; write_file dir name value ;; sync_file.

(** [tokio::fs::remove_file(..).await.is_ok()]. *)
Definition remove_identity (dir : bytes) : act bool := fun w =>
  if bool_decide (is_Some (find_entry (lit "identity") (dir_files dir (runtime w))))
     && unlinks env (lit "identity")
  then (advance w (alter_files dir (alter_entry (lit "identity") (fun _ => None)) (runtime w)),
        Ok true)
  else (advance w (runtime w), Ok false).
(** The deadline fell: the removal may or may not have taken place. *)
Definition expire (dir : bytes) : act unit := fun w =>
  if allows env (step w) then let '(w, _) := remove_identity dir w in (w, Ok tt)
  else (advance w (runtime w), Ok tt).

Definition listen : act Z := fun w =>
  (advance w (runtime w), ok_or SshUnavailable (bound_port env (step w))).
(** [spawn_abort_on_drop_bridge]; its handle aborts the task when dropped. *)
Definition bridge (port : Z) : act unit := fun w => (record (Bridged port) w, Ok tt).
Definition abort_bridge : World -> World := record BridgeAborted.

(** [Command::spawn] in a directory. *)
Definition spawn (dir : bytes) (argv : list bytes) : act Run := fun w =>
  let before := dir_files dir (runtime w) in
  match client env (step w) argv before with
  | None => (advance w (runtime w), Err SshUnavailable)
  | Some run =>
      let d := default {| dir_meta := {| kind := OtherKind; uid := 0; nlink := 0; mode := 0 |};
                          files := [] |} (find_entry dir (child_dirs (runtime w))) in
      (advance (record (Spawned (step w) argv d) w)
         (alter_files dir (fun _ => left_files run) (runtime w)), Ok run)
  end.

Definition path_of (dir name : bytes) (w : World) : bytes :=
  join (join (instance_dir (runtime w)) dir) name.
Definition get_path (dir name : bytes) : act bytes := fun w => (w, Ok (path_of dir name w)).

(** ** Host identity discovery *)

(** The key file as the client left it; opening or reading it may fail. *)
Definition read_known_hosts (dir : bytes) : act (option bytes) := fun w =>
  (advance w (runtime w),
   Ok (if allows env (step w)
       then content <$> find_entry (lit "known_hosts") (dir_files dir (runtime w)) else None)).

(** The key file is read only after a clean, silent and unsuccessful exit. *)
Definition discovery_reaches_file (e : ChildExit) : bool :=
  match discovery_outcome (Some e) None with Err SshCustody => true | _ => false end.

(** Inside the timeout: [Err] leaves the function at once, the inner result
    waits for the final lease check. *)
Definition discovery_result (dir : bytes) (run : Run) : act (ssh HostIdentity) :=
  match exits run with
  | None => lift (Err SshProofFailed)
  | Some e =>
      if discovery_reaches_file e
      then known ← read_known_hosts dir; mret (discovery_outcome (Some e) known)
      else mret (discovery_outcome (Some e) None)
  end.

Definition discover_host_identity : act HostIdentity :=
  check ;;
  with_child_dir (fun dir =>
    known ← get_path dir (lit "known_hosts");
    write_exclusive dir (lit "known_hosts") [] ;;
    port ← listen;
    bridge port ;;
    result ← finally abort_bridge
      (run ← spawn dir (command_for_host_discovery known port); discovery_result dir run);
    check ;;
    lift result).

(** ** Credentialed access *)

Variables (encryption_key : bytes) (deployment_id : Uuid).

(** The queries of [verify_access] and [load_active_access]: the machine in
    the given lifecycle, joined with its credential if that is active. *)
Definition access_query (state : Lifecycle) (machine : Uuid) (s : Store) : option AccessRow :=
  m ← machines (tables s) !! machine;
  c ← rows s !! ssh_credential_id m;
  if bool_decide (lifecycle m = state) && cr_active c
  then Some {| row_account := Tables.target_account m; row_host_identity := Tables.host_identity m;
               row_tmux_path := Tables.tmux_path m; row_socket := Tables.tmux_socket_identity m;
               row_credential_id := ssh_credential_id m; row_envelope := cr_envelope c |}
  else None.

(** Three lease checks surround the query and the opening of the envelope. *)
Definition checked_steps {A} (f : bool -> bool -> bool -> ssh A) : act A := fun w =>
  let n := step w in
  ({| runtime := runtime w; step := n + 3; trace := trace w |},
   f (lease_valid env n) (lease_valid env (n + 1)) (lease_valid env (n + 2))).

Definition PROOF_COMMAND : bytes := lit "printf '%s\n' '__OWLMUX_SSH_OK_V1__'".

(** [verify_with_child]'s client takes the arguments of [command_for_access]. *)
Definition proof_access (account host_identity key : bytes) : ActiveAccess :=
  {| Ssh.account := account; Ssh.host_identity := host_identity; tmux_path := [];
     tmux_socket_identity := []; private_key := key |}.

(** The identity and the pinned host key, in this order. *)
Definition write_access (dir : bytes) (access : ActiveAccess) : act unit :=
  write_exclusive dir (lit "identity") (private_key access) ;;
  write_exclusive dir (lit "known_hosts") (known_hosts_line (host_identity access)).

(** The identity is unlinked as soon as the marker has arrived. *)
Definition proof_result (dir : bytes) (run : Run) : act unit :=
  match exits run with
  | None => expire dir ;; lift (proof_outcome None)
  | Some e =>
      if starts_with PROOF_MARKER (limited 4097 (stdout e))
      then removed ← remove_identity dir; lift (proof_outcome (Some (with_removed e removed)))
      else lift (proof_outcome (Some e))
  end.

Definition verify_with_child (dir account host_identity key : bytes) : act unit :=
  let access := proof_access account host_identity key in
  check ;;
  identity ← get_path dir (lit "identity");
  known ← get_path dir (lit "known_hosts");
  write_access dir access ;;
  port ← listen;
  bridge port ;;
  finally abort_bridge
    (check ;;
     run ← spawn dir (command_for_access access identity known port PROOF_COMMAND);
     proof_result dir run).

Definition verify_access (host_identity : bytes) (answer : option (option AccessRow)) : act unit :=
  p ← checked_steps (fun l0 l1 l2 =>
        verify_access_checks encryption_key deployment_id host_identity l0 l1 l2 answer);
  with_child_dir (fun dir => verify_with_child dir (fst p) host_identity (snd p)).

Definition load_access (answer : option (option AccessRow)) : act ActiveAccess :=
  checked_steps (fun l0 l1 l2 =>
    load_active_access encryption_key deployment_id l0 l1 l2 answer).

Definition spawn_access (dir : bytes) (access : ActiveAccess) (remote_command : bytes) : act Run :=
  check ;;
  identity ← get_path dir (lit "identity");
  known ← get_path dir (lit "known_hosts");
  write_access dir access ;;
  port ← listen;
  bridge port ;;
  on_error abort_bridge
    (check ;; spawn dir (command_for_access access identity known port remote_command)).

(** The probe unlinks the identity once its output has the marker and fits;
    this is the only place where its outcome depends on the removal. *)
Definition probe_reaches_removal (e : ChildExit) : bool :=
  bool_decide (probe_outcome (Some (with_removed e false)) = Err SshCustody).
Definition probe_result (dir : bytes) (run : Run) : act bytes :=
  match exits run with
  | None => expire dir ;; lift (probe_outcome None)
  | Some e =>
      if probe_reaches_removal e
      then removed ← remove_identity dir; lift (probe_outcome (Some (with_removed e removed)))
      else lift (probe_outcome (Some e))
  end.

Definition run_tmux_probe (answer : option (option AccessRow)) : act bytes :=
  access ← load_access answer;
  remote_command ← lift (render_probe access);
  with_child_dir (fun dir =>
    run ← spawn_access dir access remote_command;
    finally abort_bridge (probe_result dir run)).

(** The removal is the last test before [Succeeded]. *)
Definition create_reaches_removal (e : ChildExit) : bool :=
  bool_decide (create_outcome (Some (with_removed e true)) = Succeeded).
Definition create_result (dir : bytes) (run : Run) : act CreateSessionOutcome :=
  match exits run with
  | None => expire dir ;; mret (create_outcome None)
  | Some e =>
      if create_reaches_removal e
      then removed ← remove_identity dir; mret (create_outcome (Some (with_removed e removed)))
      else mret (create_outcome (Some e))
  end.

Definition create_tmux_session (answer : option (option AccessRow)) (name : bytes)
    : act CreateSessionOutcome :=
  lift (fail_if (negb (valid_new_session_name name)) SshInvalidState) ;;
  access ← load_access answer;
  remote_command ← lift (render_create access name);
  with_child_dir (fun dir =>
    run ← spawn_access dir access remote_command;
    finally abort_bridge (create_result dir run)).

(** ** Control clients *)

(** What a [ControlChild] owns besides its pipes. *)
Record Control : Type := { control_dir : bytes; control_output : list Fill }.

Definition read_marker (run : Run) : ssh (list Fill) :=
  match output run with
  | None => Err SshInvalidState
  | Some stream =>
      let '(rest, _, line) := read_bounded_line_into stream [] (zlen SESSION_MARKER) in
      marker ← line;
      if bool_decide (marker = SESSION_MARKER) then Ok rest else Err SshInvalidState
  end.

(** On success the directory, the client and the bridge move into the
    [ControlChild]; every failure drops them. *)
Definition start_tmux_control (answer : option (option AccessRow)) (session_id : bytes)
    (session_created : Z) : act Control :=
  lift (fail_if (negb (is_tmux_session_id session_id) || (session_created <=? 0))
          SshInvalidState) ;;
  access ← load_access answer;
  remote_command ← lift (render_attach access session_id session_created);
  dir ← child_dir;
  on_error (drop_child_dir dir)
    (run ← spawn_access dir access remote_command;
     on_error abort_bridge
       (rest ← lift (read_marker run);
        mret {| control_dir := dir; control_output := rest |})).

Definition drop_control (c : Control) (w : World) : World :=
  drop_child_dir (control_dir c) (abort_bridge w).

(** ** Entries *)

Lemma alter_entry_snoc {A} name (f : A -> option A) l a :
  find_entry name l = None ->
  alter_entry name f (l ++ [(name, a)])
  = l ++ match f a with Some a => [(name, a)] | None => [] end.
Proof.
  induction l as [|[x b] l IH]; intros Hl; cbn in *.
  - rewrite bool_decide_true by done. by destruct (f a).
  - case_bool_decide; [done |]. by rewrite IH.
Qed.

Lemma find_entry_snoc {A} name (l : list (bytes * A)) a :
  find_entry name l = None -> find_entry name (l ++ [(name, a)]) = Some a.
Proof.
  induction l as [|[x b] l IH]; intros Hl; cbn in *; [by rewrite bool_decide_true |].
  case_bool_decide; [done | by apply IH].
Qed.

Lemma alter_entry_Forall {A} (P : bytes * A -> Prop) name f l :
  (forall x a b, P (x, a) -> f a = Some b -> P (x, b)) -> Forall P l -> Forall P (alter_entry name f l).
Proof.
  intros Hf. induction 1 as [|[x a] l Ha Hl IH]; cbn; [done |].
  case_bool_decide; [| by constructor]. destruct (f a) eqn:E; [| done].
  constructor; [| done]. by eapply Hf.
Qed.

(** ** The directory of a running operation *)

(** Files the cleanup of a child directory accepts. *)
Definition own_files (owner : Z) (l : list (bytes * File)) : Prop :=
  Forall (fun p => (p.1 = lit "identity" \/ p.1 = lit "known_hosts")
                   /\ validate_regular_file (file_meta p.2) owner = Ok tt) l.

(** The kernel secures and unlinks what the process made, for a process that
    owns the runtime root and whose umask leaves owners their access, and the
    client leaves no foreign file behind.  Any other call may still fail. *)
Record tidy (rt : Runtime) : Prop := {
  tidy_unlinks name : unlinks env name = true;
  tidy_secures n : secures env n = true;
  tidy_owner : euid env = owner_uid rt;
  tidy_umask : Z.land 384 (Z.lnot (umask env)) = 384;
  tidy_client n argv l run :
    client env n argv l = Some run -> own_files (owner_uid rt) l ->
    own_files (owner_uid rt) (left_files run);
}.

(** Bridges that were started and not yet aborted. *)
Definition open_bridges (t : list Event) : Z :=
  zlen (List.filter (fun e => match e with Bridged _ => true | _ => false end) t)
  - zlen (List.filter (fun e => match e with BridgeAborted => true | _ => false end) t).

Lemma open_bridges_snoc t e :
  open_bridges (t ++ [e])
  = open_bridges t + match e with Bridged _ => 1 | BridgeAborted => -1 | _ => 0 end.
Proof.
  unfold open_bridges. rewrite !List.filter_app, !zlen_app. destruct e; unfold zlen; cbn; lia.
Qed.

Definition private_meta : Metadata :=
  {| kind := Directory; uid := euid env; nlink := 2; mode := 448 |}.

Section inside.
Variables (rt0 : Runtime) (dir : bytes).
Hypothesis Hfresh : find_entry dir (child_dirs rt0) = None.
Hypothesis Howner : euid env = owner_uid rt0.

(** While an operation runs, the runtime differs from the one it found by
    this one private directory and this one permit. *)
Definition inside (w : World) : Prop :=
  exists l, runtime w = set_dirs rt0 (child_dirs rt0 ++ [(dir, {| dir_meta := private_meta; files := l |})])
                          (permits rt0 - 1)
            /\ (tidy rt0 -> own_files (owner_uid rt0) l).
Definition stays {A} (m : act A) : Prop := forall w, inside w -> inside (fst (m w)).

Lemma stays_ret {A} (a : A) : stays (mret a).
Proof. by intros w. Qed.
Lemma stays_lift {A} (r : ssh A) : stays (lift r).
Proof. by intros w. Qed.
Lemma stays_bind {A B} (m : act A) (f : A -> act B) :
  stays m -> (forall a, stays (f a)) -> stays (m ≫= f).
Proof.
  intros Hm Hf w Hw. specialize (Hm w Hw). unfold mbind, act_bind.
  destruct (m w) as [w' [a|e]]; [| done]. by apply Hf.
Qed.
Lemma stays_abort {A} (m : act A) : stays m -> stays (finally abort_bridge m).
Proof. intros Hm w Hw. specialize (Hm w Hw). unfold finally. by destruct (m w). Qed.
Lemma stays_on_error {A} (m : act A) : stays m -> stays (on_error abort_bridge m).
Proof. intros Hm w Hw. specialize (Hm w Hw). unfold on_error. by destruct (m w) as [? []]. Qed.

Lemma inside_advance w : inside w -> inside (advance w (runtime w)).
Proof. done. Qed.

Lemma inside_alter w f :
  inside w -> (tidy rt0 -> forall l, own_files (owner_uid rt0) l -> own_files (owner_uid rt0) (f l)) ->
  inside (advance w (alter_files dir f (runtime w))).
Proof.
  intros (l & Hl & Hown) Hf. exists (f l). split; [| by auto]. cbn. rewrite Hl.
  unfold alter_files, set_dirs. cbn. by rewrite alter_entry_snoc.
Qed.

Lemma stays_check : stays check. Proof. by intros w. Qed.
Lemma stays_listen : stays listen. Proof. by intros w. Qed.
Lemma stays_sync : stays sync_file. Proof. by intros w. Qed.
Lemma stays_bridge port : stays (bridge port). Proof. by intros w. Qed.
Lemma stays_path name : stays (get_path dir name). Proof. by intros w. Qed.
Lemma stays_read : stays (read_known_hosts dir). Proof. by intros w. Qed.

Lemma stays_create name :
  name = lit "identity" \/ name = lit "known_hosts" -> stays (create_file dir name).
Proof.
  intros Hn w Hw. unfold create_file. case_match; [by apply inside_advance |].
  cbn [fst]. apply inside_alter; [done |]. intros Ht l Hl. apply Forall_app. split; [done |].
  apply Forall_singleton. split; [done |]. cbn. rewrite (tidy_umask _ Ht), (tidy_owner _ Ht).
  unfold validate_regular_file, permission_bits. cbn. by rewrite Z.eqb_refl.
Qed.

Lemma stays_write name v : stays (write_file dir name v).
Proof.
  intros w Hw. unfold write_file. case_match; cbn [fst]; apply inside_alter; try done;
    intros _ l Hl; apply alter_entry_Forall; try done; intros x a b Ha [= <-]; done.
Qed.

Lemma stays_write_exclusive name v :
  name = lit "identity" \/ name = lit "known_hosts" -> stays (write_exclusive dir name v).
Proof.
  intros Hn. repeat (apply stays_bind; [| intros []]);
    [by apply stays_create | apply stays_write | apply stays_sync].
Qed.

Lemma stays_remove : stays (remove_identity dir).
Proof.
  intros w Hw. unfold remove_identity. case_match; [| by apply inside_advance].
  cbn [fst]. apply inside_alter; [done |]. intros _ l Hl. by apply alter_entry_Forall.
Qed.

Lemma stays_expire : stays (expire dir).
Proof.
  intros w Hw. unfold expire. case_match; [| by apply inside_advance].
  pose proof (stays_remove w Hw). by destruct (remove_identity dir w).
Qed.

Lemma inside_files w : inside w -> exists l, dir_files dir (runtime w) = l
  /\ (tidy rt0 -> own_files (owner_uid rt0) l).
Proof.
  intros (l & Hl & Hown). exists l. split; [| done]. rewrite Hl. unfold dir_files. cbn.
  by rewrite find_entry_snoc.
Qed.

Lemma stays_spawn argv : stays (spawn dir argv).
Proof.
  intros w Hw. destruct (inside_files w Hw) as (l & Hl & Hown). unfold spawn. rewrite Hl.
  destruct (client env (step w) argv l) as [run|] eqn:Hc; [| by apply inside_advance].
  cbn [fst]. apply (inside_alter (record _ w)); [done |]. intros Ht l' _.
  eapply tidy_client; [done | exact Hc | by apply Hown].
Qed.

(** *** Leaving the directory *)

Lemma remove_own_files owner l :
  (forall name, unlinks env name = true) -> own_files owner l ->
  remove_child_files (unlinks env) (map (fun '(n, f) => (n, Entry (file_meta f) [])) l) owner
  = ([], Ok tt).
Proof.
  intros Hu. induction 1 as [|[n f] l [Hn Hv] Hl IH]; [done |]. cbn [map remove_child_files].
  cbn in Hn, Hv. rewrite (proj2 (andb_false_iff _ _)).
  - cbn [node_meta]. by rewrite Hv, Hu, IH.
  - by destruct Hn as [-> | ->]; [left | right]; rewrite bool_decide_true.
Qed.

Lemma private_valid : validate_directory private_meta (owner_uid rt0) = Ok tt.
Proof.
  unfold validate_directory, permission_bits, private_meta. cbn. by rewrite Howner, Z.eqb_refl.
Qed.

Lemma inside_drop w :
  inside w ->
  let rt' := runtime (drop_child_dir dir w) in
  exists left, rt' = set_dirs rt0 (child_dirs rt0 ++ left) (permits rt0)
    /\ (length left <= 1)%nat /\ (tidy rt0 -> left = []).
Proof.
  intros (l & Hl & Hown). cbn. rewrite Hl. unfold set_dirs. cbn.
  rewrite alter_entry_snoc by done. eexists. split; [by rewrite Z.sub_add | split].
  - case_match; cbn; lia.
  - intros Ht. unfold cleanup_child_directory, dir_node. cbn [node_meta dir_meta node_children files].
    rewrite private_valid, remove_own_files by first [apply Ht | by apply Hown].
    by rewrite (tidy_unlinks _ Ht).
Qed.
End inside.

(** ** Whole operations *)

(** Nothing of the operation is left but, for an untidy kernel, its own
    directory. *)
Definition released (rt rt' : Runtime) : Prop :=
  exists left, rt' = set_dirs rt (child_dirs rt ++ left) (permits rt)
    /\ (length left <= 1)%nat /\ (tidy rt -> left = []).

Lemma released_refl rt : released rt rt.
Proof. exists []. destruct rt; unfold set_dirs; cbn. rewrite app_nil_r. auto. Qed.

(** A directory was made: the state the operation's body starts in. *)
Record opened (dir : bytes) (w w' : World) : Prop := {
  op_permits : 0 < permits (runtime w);
  op_fresh : find_entry dir (child_dirs (runtime w)) = None;
  op_owner : euid env = owner_uid (runtime w);
  op_runtime : runtime w' = set_dirs (runtime w)
    (child_dirs (runtime w) ++ [(dir, {| dir_meta := private_meta; files := [] |})])
    (permits (runtime w) - 1);
  op_trace : trace w' = trace w;
}.

Lemma opened_inside dir w w' : opened dir w w' -> inside (runtime w) dir w'.
Proof. intros Ho. exists []. split; [apply Ho | constructor]. Qed.

Lemma child_dir_cases w :
  match child_dir w with
  | (w', Ok dir) => opened dir w w'
  | (w', Err _) => released (runtime w) (runtime w') /\ trace w' = trace w
  end.
Proof.
  unfold child_dir. destruct (_ <=? 0) eqn:Hp.
  { split; [apply released_refl | done]. }
  destruct (_ || _) eqn:Ha; [split; [apply released_refl | done] |]. split_bools.
  assert (forall m : Metadata, (tidy (runtime w) -> False) ->
    released (runtime w) (set_dirs (runtime w) (child_dirs (runtime w)
      ++ [(lit "child-" ++ uuid_print (fresh_id env (step w)), {| dir_meta := m; files := [] |})])
      (permits (runtime w)))) as Hleft.
  { intros m Hm. eexists. split; [done |]. split; [done |]. intros Ht. by destruct (Hm Ht). }
  destruct (secures env (step w)) eqn:Hs; cbn [negb];
    [| split; [apply Hleft; intros Ht; by rewrite (tidy_secures _ Ht) in Hs | done]].
  destruct (_ ;; _) as [[]|e] eqn:Hv.
  - inv_ok. destruct v. unfold validate_directory in *. inv_ok. split_bools.
    constructor; [done | | by symmetry | done | done].
    by apply eq_None_not_Some.
  - split; [apply Hleft | done]. intros Ht. rewrite (tidy_secures _ Ht) in Hv.
    cbn [negb fail_if mbind result_bind] in Hv.
    pose proof (private_valid (runtime w) (tidy_owner _ Ht)) as Hok.
    unfold private_meta in Hok. by rewrite Hok in Hv.
Qed.

Lemma opened_drop dir w w0 w' :
  opened dir w w0 -> inside (runtime w) dir w' -> released (runtime w) (runtime (drop_child_dir dir w')).
Proof. intros Ho Hi. apply (inside_drop _ _ (op_fresh _ _ _ Ho) (op_owner _ _ _ Ho) _ Hi). Qed.

Lemma with_child_dir_released {A} (body : bytes -> act A) w :
  (forall dir rt0, find_entry dir (child_dirs rt0) = None -> stays rt0 dir (body dir)) ->
  released (runtime w) (runtime (fst (with_child_dir body w))).
Proof.
  intros Hb. unfold with_child_dir, mbind, act_bind. pose proof (child_dir_cases w) as Hc.
  destruct (child_dir w) as [w1 [dir|e]]; [| by destruct Hc]. unfold finally.
  pose proof (Hb dir _ (op_fresh _ _ _ Hc) w1 (opened_inside _ _ _ Hc)) as Hi.
  destruct (body dir w1) as [w2 r]. by eapply opened_drop.
Qed.

(** Walks the effects of an operation that runs in a directory. *)
Ltac stay Hf :=
  repeat first
    [ apply stays_ret | apply stays_lift | apply stays_check | apply stays_listen
    | apply stays_bridge | apply stays_path | apply stays_read | apply stays_sync
    | apply (stays_remove _ _ Hf) | apply (stays_expire _ _ Hf) | apply (stays_spawn _ _ Hf)
    | apply (stays_write_exclusive _ _ Hf); [by (left + right)]
    | apply stays_abort | apply stays_on_error
    | apply stays_bind; [| intros ?] ].

Section bodies.
Variables (rt0 : Runtime) (dir : bytes).
Hypothesis Hf : find_entry dir (child_dirs rt0) = None.

Lemma stays_spawn_access access remote : stays rt0 dir (spawn_access dir access remote).
Proof. unfold spawn_access, write_access. stay Hf. Qed.
Lemma stays_proof_result run : stays rt0 dir (proof_result dir run).
Proof. unfold proof_result. repeat case_match; stay Hf. Qed.
Lemma stays_verify account hid key : stays rt0 dir (verify_with_child dir account hid key).
Proof. unfold verify_with_child, write_access. stay Hf. apply stays_proof_result. Qed.
Lemma stays_probe_result run : stays rt0 dir (probe_result dir run).
Proof. unfold probe_result. repeat case_match; stay Hf. Qed.
Lemma stays_create_result run : stays rt0 dir (create_result dir run).
Proof. unfold create_result. repeat case_match; stay Hf. Qed.
Lemma stays_discovery_result run : stays rt0 dir (discovery_result dir run).
Proof. unfold discovery_result. repeat case_match; stay Hf. Qed.
End bodies.

(** ** What the bodies log *)

(** The directory's exact content. *)
Definition holds (rt0 : Runtime) (dir : bytes) (l : list (bytes * File)) (w : World) : Prop :=
  runtime w = set_dirs rt0 (child_dirs rt0 ++ [(dir, {| dir_meta := private_meta; files := l |})])
                (permits rt0 - 1).

Lemma holds_files rt0 dir l w :
  find_entry dir (child_dirs rt0) = None -> holds rt0 dir l w ->
  find_entry dir (child_dirs (runtime w)) = Some {| dir_meta := private_meta; files := l |}.
Proof. intros Hf ->. by apply find_entry_snoc. Qed.

Lemma holds_alter rt0 dir l f w :
  find_entry dir (child_dirs rt0) = None -> holds rt0 dir l w ->
  holds rt0 dir (f l) (advance w (alter_files dir f (runtime w))).
Proof.
  intros Hf Hl. unfold holds. cbn. rewrite Hl. unfold alter_files, set_dirs. cbn.
  by rewrite alter_entry_snoc.
Qed.

Definition file_of (value : bytes) : File :=
  {| file_meta := {| kind := Regular; uid := euid env; nlink := 1;
                     mode := Z.land 384 (Z.lnot (umask env)) |};
     content := value |}.

Lemma write_exclusive_exact rt0 dir l name v w :
  find_entry dir (child_dirs rt0) = None -> find_entry name l = None -> holds rt0 dir l w ->
  match write_exclusive dir name v w with
  | (w', Ok _) => holds rt0 dir (l ++ [(name, file_of v)]) w' /\ trace w' = trace w
  | (w', Err _) => trace w' = trace w
  end.
Proof.
  intros Hf Hn Hl. unfold write_exclusive, mbind, act_bind, create_file.
  destruct (negb (allows env (step w)) || _); [done |]. cbn [fst snd].
  pose proof (holds_alter rt0 dir l (fun l => l ++ [(name, file_of [])]) w Hf Hl) as Hw1.
  set (w1 := advance _ _) in *. unfold write_file.
  destruct (allows env (step w1)); [| done]. cbn zeta.
  pose proof (holds_alter _ _ _ (alter_entry name (fun f => Some {| file_meta := file_meta f; content := v |}))
                w1 Hf Hw1) as Hw2.
  rewrite alter_entry_snoc in Hw2 by done. set (w2 := advance w1 _) in *.
  unfold sync_file. destruct (allows env (step w2)); cbn [negb fail_if]; [| done].
  split; [exact Hw2 | done].
Qed.

(** The two files a credentialed client finds. *)
Definition access_files (access : ActiveAccess) : list (bytes * File) :=
  [(lit "identity", file_of (private_key access));
   (lit "known_hosts", file_of (known_hosts_line (host_identity access)))].

Lemma write_access_exact rt0 dir access w :
  find_entry dir (child_dirs rt0) = None -> holds rt0 dir [] w ->
  match write_access dir access w with
  | (w', Ok _) => holds rt0 dir (access_files access) w' /\ trace w' = trace w
  | (w', Err _) => trace w' = trace w
  end.
Proof.
  intros Hf Hl. unfold write_access, mbind, act_bind.
  pose proof (write_exclusive_exact rt0 dir [] (lit "identity") (private_key access) w Hf eq_refl Hl) as Hw1.
  destruct (write_exclusive dir (lit "identity") _ w) as [w1 [u|e]]; [| done].
  destruct Hw1 as [Hw1 Ht]. rewrite <- Ht.
  apply (write_exclusive_exact rt0 dir ([] ++ [(lit "identity", file_of (private_key access))]));
    [done | reflexivity | done].
Qed.

(** The event of a client started with these files and the lease checked in
    the step before. *)
Definition credentialed (rt : Runtime) (dir : bytes) (access : ActiveAccess) (remote : bytes)
    (run : Run) (n : nat) : Event -> Prop := fun e =>
  exists port,
  let path name := join (join (instance_dir rt) dir) name in
  let argv := command_for_access access (path (lit "identity")) (path (lit "known_hosts")) port remote in
  e = Spawned (S n) argv {| dir_meta := private_meta; files := access_files access |}
  /\ lease_valid env n = true
  /\ client env (S n) argv (access_files access) = Some run.

(** From the bridge on: the last lease check and the client's start. *)
Lemma launch_exact rt0 dir access remote port w :
  find_entry dir (child_dirs rt0) = None -> holds rt0 dir (access_files access) w ->
  let path name := join (join (instance_dir rt0) dir) name in
  match (check ;; spawn dir (command_for_access access (path (lit "identity"))
                               (path (lit "known_hosts")) port remote)) w with
  | (w', Ok run) => exists n e, trace w' = trace w ++ [e] /\ credentialed rt0 dir access remote run n e
  | (w', Err _) => trace w' = trace w
  end.
Proof.
  intros Hf Hl. unfold mbind, act_bind, check.
  destruct (lease_valid env (step w)) eqn:Hv; [| done]. cbn [negb fail_if lease_check].
  unfold spawn, dir_files. cbn [advance step runtime]. rewrite (holds_files _ _ _ _ Hf Hl).
  cbn [from_option files default].
  destruct (client _ _ _ _) as [run|] eqn:Hc; [| done].
  exists (step w). eexists. split; [reflexivity |]. exists port. auto.
Qed.

Lemma holds_path rt0 dir l name w :
  holds rt0 dir l w -> path_of dir name w = join (join (instance_dir rt0) dir) name.
Proof. intros Hl. unfold path_of. by rewrite Hl. Qed.

(** Everything up to the bridge. *)
Lemma prepare_exact {A} rt0 dir access (k : bytes -> bytes -> Z -> act A) w :
  find_entry dir (child_dirs rt0) = None -> holds rt0 dir [] w ->
  let path name := join (join (instance_dir rt0) dir) name in
  let run := (check ;;
    identity ← get_path dir (lit "identity");
    known ← get_path dir (lit "known_hosts");
    write_access dir access ;;
    port ← listen;
    bridge port ;;
    k identity known port) w in
  (exists w' e, run = (w', Err e) /\ trace w' = trace w)
  \/ exists w' port, run = k (path (lit "identity")) (path (lit "known_hosts")) port w'
       /\ holds rt0 dir (access_files access) w' /\ trace w' = trace w ++ [Bridged port].
Proof.
  intros Hf Hl. cbn zeta. unfold mbind, act_bind, check, lease_check.
  destruct (lease_valid env (step w)); cbn [negb fail_if]; [| left; eauto].
  unfold get_path. rewrite !(holds_path rt0 dir []) by done.
  set (w1 := advance w (runtime w)).
  pose proof (write_access_exact rt0 dir access w1 Hf Hl) as Hw.
  destruct (write_access dir access w1) as [w2 [u|e]]; [| left; eauto].
  destruct Hw as [Hw Ht]. unfold listen. destruct (bound_port env (step w2)) as [port|];
    cbn [ok_or]; [| left; eauto].
  right. eexists _, port. split; [reflexivity |]. split; [exact Hw |]. cbn. by rewrite Ht.
Qed.

Lemma spawn_access_log rt0 dir access remote w :
  find_entry dir (child_dirs rt0) = None -> holds rt0 dir [] w ->
  match spawn_access dir access remote w with
  | (w', Ok run) => exists port n e, trace w' = trace w ++ [Bridged port; e]
                                     /\ credentialed rt0 dir access remote run n e
  | (w', Err _) => trace w' = trace w
                   \/ exists port, trace w' = trace w ++ [Bridged port; BridgeAborted]
  end.
Proof.
  intros Hf Hl. unfold spawn_access.
  destruct (prepare_exact rt0 dir access (fun identity known port => on_error abort_bridge
    (check ;; spawn dir (command_for_access access identity known port remote))) w Hf Hl)
    as [(w' & e & -> & Ht) | (w' & port & -> & Hw & Ht)]; [by left |].
  unfold on_error. pose proof (launch_exact rt0 dir access remote port w' Hf Hw) as Hx.
  cbn zeta in Hx. destruct ((check ;; spawn dir (command_for_access _ _ _ _ _)) w') as [w2 [run|e]].
  - destruct Hx as (n & ev & Ht' & He). exists port, n, ev. split; [| done].
    by rewrite Ht', Ht, <- app_assoc.
  - right. exists port. cbn. by rewrite Hx, Ht, <- app_assoc.
Qed.

(** The log of an operation whose client has ended. *)
Definition client_log (rt : Runtime) (access : ActiveAccess) (remote : bytes) (run : option Run)
    (evs : list Event) : Prop :=
  match run with
  | None => evs = [] \/ exists port, evs = [Bridged port; BridgeAborted]
  | Some run => exists dir port n e, 0 < permits rt /\ find_entry dir (child_dirs rt) = None
      /\ evs = [Bridged port; e; BridgeAborted] /\ credentialed rt dir access remote run n e
  end.

Definition silent {A} (m : act A) : Prop := forall w, trace (fst (m w)) = trace w.

Lemma silent_bind {A B} (m : act A) (f : A -> act B) :
  silent m -> (forall a, silent (f a)) -> silent (m ≫= f).
Proof.
  intros Hm Hf w. specialize (Hm w). unfold mbind, act_bind.
  destruct (m w) as [w' [a|e]]; [| done]. by rewrite Hf.
Qed.
Lemma silent_remove dir : silent (remove_identity dir).
Proof. intros w. unfold remove_identity. by case_match. Qed.
Lemma silent_expire dir : silent (expire dir).
Proof.
  intros w. unfold expire. case_match; [| done]. pose proof (silent_remove dir w).
  by destruct (remove_identity dir w).
Qed.
Lemma silent_proof dir run : silent (proof_result dir run).
Proof.
  unfold proof_result. repeat case_match; try done;
    (apply silent_bind; [first [apply silent_expire | apply silent_remove] | done]).
Qed.
Lemma silent_probe dir run : silent (probe_result dir run).
Proof.
  unfold probe_result. repeat case_match; try done;
    (apply silent_bind; [first [apply silent_expire | apply silent_remove] | done]).
Qed.
Lemma silent_create dir run : silent (create_result dir run).
Proof.
  unfold create_result. repeat case_match; try done;
    (apply silent_bind; [first [apply silent_expire | apply silent_remove] | done]).
Qed.

(** How an operation with a client ends: what it logged, and which
    classification of the client's exit is its result. *)
Definition accessed {A} (rt : Runtime) (access : ActiveAccess) (remote : bytes)
    (result : bytes -> Run -> act A) (w : World) (p : World * ssh A) : Prop :=
  exists run evs, trace (fst p) = trace w ++ evs /\ client_log rt access remote run evs
  /\ match run with
     | None => exists e, snd p = Err e
     | Some run => exists dir w1, snd p = snd (result dir run w1)
     end.

(** The body of the probe and of session creation. *)
Lemma accessed_log {A} rt0 dir access remote (result : bytes -> Run -> act A) w :
  0 < permits rt0 -> find_entry dir (child_dirs rt0) = None -> holds rt0 dir [] w ->
  (forall dir run, silent (result dir run)) ->
  accessed rt0 access remote result w
    ((run ← spawn_access dir access remote; finally abort_bridge (result dir run)) w).
Proof.
  intros Hp Hf Hl Hq. unfold mbind, act_bind.
  pose proof (spawn_access_log rt0 dir access remote w Hf Hl) as Hs.
  destruct (spawn_access dir access remote w) as [w1 [run|e]].
  - destruct Hs as (port & n & ev & Ht & He). unfold finally. specialize (Hq dir run w1).
    destruct (result dir run w1) as [w2 r] eqn:Hr. cbn in Hq. exists (Some run). eexists.
    split; [cbn; by rewrite Hq, Ht, <- app_assoc |]. split; [cbn; eauto 10 |].
    exists dir, w1. by rewrite Hr.
  - exists None. destruct Hs as [Hs | [port Hs]].
    + exists []. rewrite app_nil_r. split; [done |]. split; [by left | by exists e].
    + eexists. split; [exact Hs |]. split; [right; by exists port | by exists e].
Qed.

Lemma verify_with_child_log rt0 dir account hid key w :
  0 < permits rt0 -> find_entry dir (child_dirs rt0) = None -> holds rt0 dir [] w ->
  accessed rt0 (proof_access account hid key) PROOF_COMMAND proof_result w
    (verify_with_child dir account hid key w).
Proof.
  intros Hp Hf Hl. unfold verify_with_child. set (access := proof_access account hid key).
  destruct (prepare_exact rt0 dir access (fun identity known port => finally abort_bridge
    (check ;; run ← spawn dir (command_for_access access identity known port PROOF_COMMAND);
     proof_result dir run)) w Hf Hl)
    as [(w' & e & -> & Ht) | (w' & port & -> & Hw & Ht)].
  { exists None, []. rewrite app_nil_r. split; [done |]. split; [by left | by exists e]. }
  pose proof (launch_exact rt0 dir access PROOF_COMMAND port w' Hf Hw) as Hx. cbn zeta in Hx.
  unfold finally, mbind, act_bind in *. destruct (check w') as [w2 [u|e]].
  - destruct (spawn dir _ w2) as [w3 [run|e]].
    + destruct Hx as (n & ev & Ht' & He). pose proof (silent_proof dir run w3) as Hq.
      destruct (proof_result dir run w3) as [w4 r] eqn:Hr. exists (Some run). eexists.
      split; [cbn in *; by rewrite Hq, Ht', Ht, <- !app_assoc |]. split; [cbn; eauto 10 |].
      exists dir, w3. by rewrite Hr.
    + exists None. eexists. split; [cbn; by rewrite Hx, Ht, <- app_assoc |].
      split; [right; by exists port | by exists e].
  - exists None. eexists. split; [cbn; by rewrite Hx, Ht, <- app_assoc |].
    split; [right; by exists port | by exists e].
Qed.

Lemma with_dir_accessed {A} access remote (result : bytes -> Run -> act A) (body : bytes -> act A) w :
  (forall dir w1, 0 < permits (runtime w) -> find_entry dir (child_dirs (runtime w)) = None ->
     holds (runtime w) dir [] w1 -> accessed (runtime w) access remote result w1 (body dir w1)) ->
  accessed (runtime w) access remote result w (with_child_dir body w).
Proof.
  intros Hb. unfold with_child_dir, mbind, act_bind. pose proof (child_dir_cases w) as Hc.
  destruct (child_dir w) as [w1 [dir|e]].
  - destruct Hc as [Hp Hf _ Hr Ht]. destruct (Hb dir w1 Hp Hf Hr) as (run & evs & Hl & Hlog & Hres).
    unfold finally. destruct (body dir w1) as [w2 r]. exists run, evs. rewrite <- Ht. done.
  - exists None, []. rewrite app_nil_r. split; [by destruct Hc |]. split; [by left | by exists e].
Qed.

(** ** The five operations *)

Inductive Operation : Type :=
| Discover | Verify (confirmed : bytes) | Probe | Create (name : bytes)
| Attach (session_id : bytes) (session_created : Z).
Inductive Reply : Type :=
| Discovered (identity : HostIdentity) | Verified | Probed (stdout : bytes)
| Created (outcome : CreateSessionOutcome) | Attached (control : Control).

(** [answer] is the database's, for the operations that ask it. *)
Definition perform (op : Operation) (answer : option (option AccessRow)) : act Reply :=
  match op with
  | Discover => x ← discover_host_identity; mret (Discovered x)
  | Verify confirmed => _ ← verify_access confirmed answer; mret Verified
  | Probe => x ← run_tmux_probe answer; mret (Probed x)
  | Create name => x ← create_tmux_session answer name; mret (Created x)
  | Attach session_id created => x ← start_tmux_control answer session_id created; mret (Attached x)
  end.

(** The answer to the operation's query on a database that shows the tables
    [db] ([None]: the query fails); discovery asks nothing. *)
Definition query_of (op : Operation) (machine : Uuid) (db : option Store)
    : option (option AccessRow) :=
  access_query (match op with Verify _ => Verifying | _ => Active end) machine <$> db.

(** A control child lives on until its owner drops it; its first [%begin]
    record, when there was one, has unlinked the identity. *)
Definition settle (used : bool) (p : World * ssh Reply) : World :=
  match p with
  | (w, Ok (Attached c)) =>
      drop_control c (if used then fst (remove_identity (control_dir c) w) else w)
  | (w, _) => w
  end.

(** What must hold of the database's answer before a key is written. *)
Definition cleared (op : Operation) (answer : option (option AccessRow)) (access : ActiveAccess)
    (remote : bytes) : Prop :=
  exists row, answer = Some (Some row)
  /\ open encryption_key deployment_id (row_credential_id row) (row_envelope row)
     = Ok (private_key access)
  /\ account access = row_account row /\ is_target_account (row_account row) = true
  /\ is_ed25519_host_identity (host_identity access) = true
  /\ match op with
     | Discover => False
     | Verify confirmed => host_identity access = confirmed /\ remote = PROOF_COMMAND
     | Probe => row_host_identity row = Some (host_identity access) /\ render_probe access = Ok remote
     | Create name =>
         row_host_identity row = Some (host_identity access) /\ render_create access name = Ok remote
     | Attach session_id created =>
         row_host_identity row = Some (host_identity access)
         /\ render_attach access session_id created = Ok remote
     end.

(** ... and what the tables then hold: the machine in the lifecycle the
    operation is for, bound to an active credential whose envelope opens. *)
Definition authorized (op : Operation) (machine : Uuid) (db : option Store) (access : ActiveAccess)
    (remote : bytes) : Prop :=
  exists s m c, db = Some s /\ machines (tables s) !! machine = Some m
  /\ rows s !! ssh_credential_id m = Some c /\ cr_active c = true
  /\ open encryption_key deployment_id (ssh_credential_id m) (cr_envelope c)
     = Ok (private_key access)
  /\ account access = Tables.target_account m
  /\ is_target_account (Tables.target_account m) = true
  /\ is_ed25519_host_identity (host_identity access) = true
  /\ match op with
     | Discover => False
     | Verify confirmed =>
         lifecycle m = Verifying /\ host_identity access = confirmed /\ remote = PROOF_COMMAND
     | Probe =>
         lifecycle m = Active /\ Tables.host_identity m = Some (host_identity access)
         /\ render_probe access = Ok remote
     | Create name =>
         lifecycle m = Active /\ Tables.host_identity m = Some (host_identity access)
         /\ render_create access name = Ok remote
     | Attach session_id created =>
         lifecycle m = Active /\ Tables.host_identity m = Some (host_identity access)
         /\ render_attach access session_id created = Ok remote
     end.

Lemma access_query_Some state machine s row :
  access_query state machine s = Some row ->
  exists m c, machines (tables s) !! machine = Some m /\ rows s !! ssh_credential_id m = Some c
  /\ lifecycle m = state /\ cr_active c = true
  /\ row = {| row_account := Tables.target_account m; row_host_identity := Tables.host_identity m;
              row_tmux_path := Tables.tmux_path m; row_socket := Tables.tmux_socket_identity m;
              row_credential_id := ssh_credential_id m; row_envelope := cr_envelope c |}.
Proof.
  unfold access_query. destruct (machines _ !! _) as [m|]; [| done]. cbn.
  destruct (rows s !! _) as [c|] eqn:Hc; [| done]. cbn.
  destruct (_ && _) eqn:Ha; [| done]. split_bools. intros [= <-]. by exists m, c.
Qed.

Lemma cleared_authorized op machine db access remote :
  cleared op (query_of op machine db) access remote -> authorized op machine db access remote.
Proof.
  intros (row & Hq & Hopen & Hacc & Hta & Hhost & Hop). unfold query_of in Hq.
  destruct db as [s|]; [| done]. injection Hq as Hq.
  apply access_query_Some in Hq as (m & c & Hm & Hc & Hl & Ha & ->). cbn in *.
  exists s, m, c. destruct op; cbn in Hl; naive_solver.
Qed.

Definition discovery_log (rt : Runtime) (evs : list Event) : Prop :=
  evs = [] \/ exists port, evs = [Bridged port; BridgeAborted]
  \/ exists dir n, 0 < permits rt /\ find_entry dir (child_dirs rt) = None
     /\ evs = [Bridged port;
               Spawned n (command_for_host_discovery
                            (join (join (instance_dir rt) dir) (lit "known_hosts")) port)
                 {| dir_meta := private_meta; files := [(lit "known_hosts", file_of [])] |};
               BridgeAborted].

(** What a reply says of the client that ran. *)
Definition faithful (run : option Run) (r : ssh Reply) : Prop :=
  match r with
  | Err _ => True
  | Ok (Discovered _) => True
  | Ok Verified => exists u e, run = Some u /\ exits u = Some e /\ exit_code e = Some 0
                     /\ limited 4097 (stdout e) = PROOF_MARKER
  | Ok (Probed out) => exists u e, run = Some u /\ exits u = Some e /\ exit_code e = Some 0
                         /\ out = stdout e
  | Ok (Created o) => exists u, run = Some u
      /\ match o with
         | Ambiguous => True
         | Failed => exists e, exits u = Some e /\ exit_code e = Some 46
         | Succeeded => exists e id created n, exits u = Some e /\ exit_code e = Some 0
             /\ stdout e = CREATE_MARKER ++ id ++ lit ":" ++ created ++ ["010"%byte]
             /\ is_tmux_session_id id = true /\ parse_i64 created = Some n /\ 0 < n
         end
  | Ok (Attached c) => exists u stream, run = Some u /\ output u = Some stream
      /\ stream_bytes stream = SESSION_MARKER ++ stream_bytes (control_output c)
  end.

Lemma proof_result_Ok dir run w u :
  snd (proof_result dir run w) = Ok u ->
  exists e, exits run = Some e /\ exit_code e = Some 0 /\ limited 4097 (stdout e) = PROOF_MARKER.
Proof.
  unfold proof_result. destruct (exits run) as [e|].
  2:{ unfold mbind, act_bind. destruct (expire dir w) as [w' [[]|]]; done. }
  intros Hr. exists e. split; [done |].
  assert (exists b, proof_outcome (Some (with_removed e b)) = Ok u) as [b Hb].
  { destruct (starts_with _ _).
    - unfold mbind, act_bind in Hr. destruct (remove_identity dir w) as [w' [b|]]; [| done]. by exists b.
    - exists (identity_removed e). by destruct e. }
  unfold proof_outcome in Hb. cbn [with_removed stdout] in Hb.
  destruct (strip_prefix _ _) as [t|] eqn:Ht; [| done]. apply strip_prefix_Some in Ht.
  inv_ok. split_bools. unfold success in *. cbn in *. split_bools. subst t.
  by rewrite app_nil_r in Ht.
Qed.

Lemma probe_result_Ok dir run w out :
  snd (probe_result dir run w) = Ok out ->
  exists e, exits run = Some e /\ exit_code e = Some 0 /\ out = stdout e.
Proof.
  unfold probe_result. destruct (exits run) as [e|].
  2:{ unfold mbind, act_bind. destruct (expire dir w) as [w' [[]|]]; done. }
  intros Hr. exists e. split; [done |].
  assert (exists b, probe_outcome (Some (with_removed e b)) = Ok out) as [b Hb].
  { destruct (probe_reaches_removal _).
    - unfold mbind, act_bind in Hr. destruct (remove_identity dir w) as [w' [b|]]; [| done]. by exists b.
    - exists (identity_removed e). by destruct e. }
  unfold probe_outcome in Hb. inv_ok. split_bools. unfold success in *. split_bools.
  split; [done |].
  match goal with Hu : from_utf8 _ = Some _ |- _ => apply from_utf8_Some in Hu as -> end. cbn [with_removed stdout] in *.
  apply firstn_all2. unfold zlen in *. rewrite length_firstn in *. lia.
Qed.

Lemma create_result_reply dir run w :
  exists o, snd (create_result dir run w) = Ok o /\ faithful (Some run) (Ok (Created o)).
Proof.
  unfold create_result. destruct (exits run) as [e|] eqn:He.
  2:{ unfold mbind, act_bind. exists Ambiguous. split; [| by exists run].
      unfold expire. destruct (allows env (step w)); [by destruct (remove_identity dir w) | done]. }
  assert (forall b, faithful (Some run) (Ok (Created (create_outcome (Some (with_removed e b))))))
    as Hb.
  { intros b. exists run. split; [done |].
    destruct (create_outcome_honest (Some (with_removed e b))) as (Hf & Hs & _).
    destruct (create_outcome _).
    - destruct (Hs eq_refl) as (e' & id & created & n & [= <-] & H4 & _ & H5 & H6 & H7 & H8).
      rewrite He. exists e, id, created, n. repeat split; done.
    - destruct (Hf eq_refl) as (e' & [= <-] & H4 & _). rewrite He. by exists e.
    - done. }
  destruct (create_reaches_removal e).
  - unfold mbind, act_bind. destruct (remove_identity dir w) as [w' [b|x]] eqn:Hr; [by eexists |].
    unfold remove_identity in Hr. by destruct (bool_decide _ && _).
  - eexists. split; [reflexivity |]. specialize (Hb (identity_removed e)). by destruct e.
Qed.

Lemma read_line_conserves s p m s' p' l :
  read_bounded_line_into s p m = (s', p', Ok l) -> p ++ stream_bytes s = l ++ stream_bytes s'.
Proof.
  revert p. induction s as [|[b|] s IH]; intros p; cbn [read_bounded_line_into]; [done | | done].
  change (stream_bytes (Data b :: s)) with (b ++ stream_bytes s).
  case_bool_decide; [done |]. destruct (_ <? _); [done |].
  destruct (newline_cases b) as [Hn | (a & r & -> & Ha)].
  - rewrite take_line_no_newline, firstn_all, ends_line_no_newline by done.
    intros Hr%IH. by rewrite <- Hr, <- app_assoc.
  - rewrite take_line_newline by done.
    replace (a ++ "010"%byte :: r) with ((a ++ ["010"%byte]) ++ r) by (by rewrite <- app_assoc).
    replace (S (length a)) with (length (a ++ ["010"%byte])) by (rewrite length_app; cbn; lia).
    rewrite firstn_app, firstn_all, Nat.sub_diag, firstn_O, app_nil_r, skipn_app, skipn_all,
      Nat.sub_diag, ends_line_app. intros [= <- _ <-]. rewrite <- !app_assoc. do 3 f_equal.
    clear IH. change (List.skipn 0 r) with r. by case_bool_decide; [subst |].
Qed.

(** *** Clearance *)

Lemma query_row_Ok (answer : option (option AccessRow)) row :
  query_row answer = Ok row -> answer = Some (Some row).
Proof. unfold query_row. destruct answer as [[r|]|]; cbn; naive_solver. Qed.

Lemma load_cleared l0 l1 l2 answer access :
  load_active_access encryption_key deployment_id l0 l1 l2 answer = Ok access ->
  exists row, answer = Some (Some row)
  /\ open encryption_key deployment_id (row_credential_id row) (row_envelope row)
     = Ok (private_key access)
  /\ account access = row_account row /\ is_target_account (row_account row) = true
  /\ is_ed25519_host_identity (host_identity access) = true
  /\ row_host_identity row = Some (host_identity access).
Proof.
  unfold load_active_access, lease_check. intros Hl. inv_ok. split_bools.
  match goal with Hq : query_row _ = Ok ?r |- _ => apply query_row_Ok in Hq; exists r end.
  repeat split; done.
Qed.

Lemma verify_cleared hid l0 l1 l2 answer account key :
  verify_access_checks encryption_key deployment_id hid l0 l1 l2 answer = Ok (account, key) ->
  cleared (Verify hid) answer (proof_access account hid key) PROOF_COMMAND.
Proof.
  unfold verify_access_checks, lease_check. intros Hl. inv_ok. split_bools. simplify_eq.
  match goal with Hq : query_row _ = Ok ?r |- _ => apply query_row_Ok in Hq; exists r end.
  repeat split; done.
Qed.

(** An operation either stops before any client is prepared, or runs one
    that its clearance covers. *)
Definition guarded {A} (op : Operation) (answer : option (option AccessRow))
    (result : bytes -> Run -> act A) (w : World) (p : World * ssh A) : Prop :=
  (trace (fst p) = trace w /\ exists e, snd p = Err e)
  \/ exists access remote, cleared op answer access remote
       /\ accessed (runtime w) access remote result w p.

Lemma verify_guarded hid answer w :
  guarded (Verify hid) answer proof_result w (verify_access hid answer w)
  /\ released (runtime w) (runtime (fst (verify_access hid answer w))).
Proof.
  unfold verify_access, mbind, act_bind, checked_steps.
  destruct (verify_access_checks _ _ _ _ _ _ _) as [[account key]|e] eqn:Hv.
  2:{ split; [left; eauto | apply released_refl]. }
  cbn [fst snd]. set (w1 := {| runtime := _ |}). split.
  - right. eexists _, _. split; [by eapply verify_cleared |].
    apply (with_dir_accessed _ _ _ _ w1). intros. by apply verify_with_child_log.
  - apply (with_child_dir_released _ w1). intros. by apply stays_verify.
Qed.

(** The probe and session creation after their name check. *)
Lemma rendered_guarded {A} op answer (render : ActiveAccess -> ssh bytes)
    (result : bytes -> Run -> act A) w :
  (forall access row remote, row_host_identity row = Some (host_identity access) ->
     render access = Ok remote -> match op with
     | Probe => render_probe access = Ok remote
     | Create name => render_create access name = Ok remote
     | _ => False
     end) ->
  (forall dir run, silent (result dir run)) ->
  (forall rt0 dir, find_entry dir (child_dirs rt0) = None ->
   forall run, stays rt0 dir (result dir run)) ->
  let p := (access ← load_access answer;
    remote ← lift (render access);
    with_child_dir (fun dir =>
      run ← spawn_access dir access remote; finally abort_bridge (result dir run))) w in
  guarded op answer result w p /\ released (runtime w) (runtime (fst p)).
Proof.
  intros Hop Hq Hst. cbn zeta.
  assert (forall B (k : ActiveAccess -> act B), (access ← load_access answer; k access) w
    = match load_active_access encryption_key deployment_id (lease_valid env (step w))
              (lease_valid env (step w + 1)) (lease_valid env (step w + 2)) answer with
      | Ok access => k access {| runtime := runtime w; step := step w + 3; trace := trace w |}
      | Err e => ({| runtime := runtime w; step := step w + 3; trace := trace w |}, Err e)
      end) as -> by done.
  destruct (load_active_access _ _ _ _ _ _) as [access|e] eqn:Hl.
  2:{ split; [left; eauto | apply released_refl]. }
  set (w1 := {| runtime := _ |}).
  assert (forall B (k : bytes -> act B), (remote ← lift (render access); k remote) w1
    = match render access with Ok remote => k remote w1 | Err e => (w1, Err e) end) as -> by done.
  destruct (render access) as [remote|e] eqn:Hr.
  2:{ split; [left; eauto | apply released_refl]. }
  split.
  - right. exists access, remote. split.
    + destruct (load_cleared _ _ _ _ _ Hl) as (row & Hrow & Hopen & Hacc & Hacct & Hed & Hid).
      exists row. specialize (Hop access row remote Hid Hr). destruct op; try done; repeat split; done.
    + apply (with_dir_accessed _ _ _ _ w1). intros. by apply accessed_log.
  - apply (with_child_dir_released _ w1). intros dir rt0 Hf. apply stays_bind.
    + by apply stays_spawn_access.
    + intros run. apply stays_abort. by apply Hst.
Qed.

Lemma discover_settled w :
  let p := discover_host_identity w in
  released (runtime w) (runtime (fst p))
  /\ exists evs, trace (fst p) = trace w ++ evs /\ discovery_log (runtime w) evs.
Proof.
  cbn zeta. unfold discover_host_identity.
  set (w1 := advance w (runtime w)).
  assert (forall B (k : act B), (check ;; k) w
    = if lease_valid env (step w) then k w1 else (w1, Err SshFenced)) as ->.
  { intros B k. unfold mbind, act_bind, check, lease_check. by destruct (lease_valid _ _). }
  destruct (lease_valid env (step w)).
  2:{ split; [apply released_refl |]. exists []. rewrite app_nil_r. split; [done | by left]. }
  set (body := fun dir => _). split.
  { apply (with_child_dir_released body w1). intros dir rt0 Hf. unfold body. stay Hf.
    by apply stays_discovery_result. }
  unfold with_child_dir. unfold mbind at 1, act_bind at 1.
  pose proof (child_dir_cases w1) as Hc. destruct (child_dir w1) as [w2 [dir|e]].
  2:{ exists []. rewrite app_nil_r. split; [by destruct Hc | by left]. }
  destruct Hc as [Hp Hf _ Hr Ht]. unfold finally, body. cbv beta.
  unfold mbind, act_bind, get_path. rewrite (holds_path (runtime w1) dir []) by done.
  pose proof (write_exclusive_exact (runtime w1) dir [] (lit "known_hosts") [] w2 Hf eq_refl Hr) as Hw.
  destruct (write_exclusive dir _ [] w2) as [w3 [u|e]].
  2:{ exists []. rewrite app_nil_r. cbn. rewrite Hw, Ht. split; [done | by left]. }
  destruct Hw as [Hw Ht3]. unfold listen.
  destruct (bound_port env (step w3)) as [port|]; cbn [ok_or].
  2:{ exists []. rewrite app_nil_r. cbn. rewrite Ht3, Ht. split; [done | by left]. }
  unfold finally, bridge, spawn, dir_files. cbn [advance record step runtime].
  rewrite (holds_files _ _ _ _ Hf Hw). cbn [from_option files default].
  destruct (client _ _ _ _) as [run|].
  2:{ eexists. split; [cbn; by rewrite Ht3, Ht, <- app_assoc | right; exists port; by left]. }
  set (w4 := advance _ _).
  assert (trace (fst (discovery_result dir run w4)) = trace w4) as Hq.
  { unfold discovery_result. destruct (exits run) as [e|]; [by destruct (discovery_reaches_file e) | done]. }
  destruct (discovery_result dir run w4) as [w5 r]. cbn in Hq.
  eexists [_; _; _]. split; cycle 1.
  { right. exists port. right. by exists dir, (S (step w3)). }
  destruct r as [r|e]; cbn; [destruct (lease_check _) |]; cbn;
    by rewrite Hq; cbn; rewrite Ht3, Ht, <- !app_assoc.
Qed.

Lemma settle_inside rt0 dir used w out :
  find_entry dir (child_dirs rt0) = None -> euid env = owner_uid rt0 -> inside rt0 dir w ->
  let w' := settle used (w, Ok (Attached {| control_dir := dir; control_output := out |})) in
  released rt0 (runtime w') /\ trace w' = trace w ++ [BridgeAborted].
Proof.
  intros Hf Ho Hi. cbn. set (w1 := if used then _ else _).
  assert (inside rt0 dir w1 /\ trace w1 = trace w) as [Hi1 Ht].
  { unfold w1. destruct used; [| done]. split; [by apply stays_remove | apply silent_remove]. }
  split; [| by rewrite <- Ht].
  by apply (inside_drop rt0 dir Hf Ho (abort_bridge w1)).
Qed.

(** The part of an attachment that owns a directory. *)
Definition attach_in (dir : bytes) (access : ActiveAccess) (remote : bytes) : act Control :=
  on_error (drop_child_dir dir)
    (run ← spawn_access dir access remote;
     on_error abort_bridge
       (rest ← lift (read_marker run);
        mret {| control_dir := dir; control_output := rest |})).

Definition attached (run : Run) (dir : bytes) : ssh Reply :=
  rest ← read_marker run; Ok (Attached {| control_dir := dir; control_output := rest |}).

Lemma attach_in_settled used w0 dir access remote w :
  opened dir w0 w ->
  let p := (x ← attach_in dir access remote; mret (Attached x)) w in
  let w' := settle used p in
  released (runtime w0) (runtime w')
  /\ exists run evs, trace w' = trace w0 ++ evs /\ client_log (runtime w0) access remote run evs
     /\ match run with
        | None => exists e, snd p = Err e
        | Some u => snd p = attached u dir
        end.
Proof.
  intros Hop. pose proof Hop as [Hp Hf Ho Hr Ht]. cbn zeta. unfold attach_in, on_error, mbind, act_bind.
  pose proof (spawn_access_log (runtime w0) dir access remote w Hf Hr) as Hs.
  pose proof (stays_spawn_access (runtime w0) dir Hf access remote w (opened_inside _ _ _ Hop)) as Hi.
  destruct (spawn_access dir access remote w) as [w1 [run|e]]; cbn [fst] in Hi.
  2:{ split; [by eapply opened_drop |]. exists None. cbn. rewrite <- Ht.
      destruct Hs as [Hs | [port Hs]]; eexists.
      - split; [by rewrite Hs, app_nil_r |]. split; [by left | by exists e].
      - split; [exact Hs |]. split; [right; by exists port | by exists e]. }
  destruct Hs as (port & n & ev & Hs & He). unfold lift.
  assert (client_log (runtime w0) access remote (Some run) [Bridged port; ev; BridgeAborted])
    as Hlog by (cbn; eauto 10).
  destruct (read_marker run) as [rest|e] eqn:Hm.
  - destruct (settle_inside (runtime w0) dir used w1 rest Hf Ho Hi) as [Hrel Htr].
    split; [exact Hrel |]. exists (Some run). eexists. split; [| split; [exact Hlog |]].
    + etransitivity; [exact Htr |]. by rewrite Hs, Ht, <- app_assoc.
    + unfold attached. by rewrite Hm.
  - split; [by eapply opened_drop |]. exists (Some run). eexists. split; [| split; [exact Hlog |]].
    + cbn. by rewrite Hs, Ht, <- app_assoc.
    + unfold attached. by rewrite Hm.
Qed.

Lemma attach_settled used sid created answer w :
  let op := Attach sid created in
  let p := perform op answer w in
  let w' := settle used p in
  released (runtime w) (runtime w')
  /\ ((trace w' = trace w /\ exists e, snd p = Err e)
      \/ exists access remote run evs, cleared op answer access remote
         /\ trace w' = trace w ++ evs /\ client_log (runtime w) access remote run evs
         /\ match run with
            | None => exists e, snd p = Err e
            | Some u => exists dir, snd p = attached u dir
            end).
Proof.
  cbn zeta. unfold perform, start_tmux_control.
  destruct (negb (is_tmux_session_id sid) || (created <=? 0)) eqn:Hg.
  { split; [apply released_refl | left; split; [done | by eexists]]. }
  unfold load_access, checked_steps.
  destruct (load_active_access encryption_key deployment_id (lease_valid env (step w))
              (lease_valid env (step w + 1)) (lease_valid env (step w + 2)) answer)
    as [access|e] eqn:Hl.
  2:{ unfold mbind, act_bind, lift, fail_if. rewrite Hl.
      split; [apply released_refl | left; split; [done | by eexists]]. }
  destruct (render_attach access sid created) as [remote|e] eqn:Hr.
  2:{ unfold mbind, act_bind, lift, fail_if. rewrite Hl, Hr.
      split; [apply released_refl | left; split; [done | by eexists]]. }
  assert (cleared (Attach sid created) answer access remote) as Hclear.
  { destruct (load_cleared _ _ _ _ _ Hl) as (row & Hrow & Hopen & Hacc & Hacct & Hed & Hid).
    by exists row. }
  set (w1 := {| runtime := runtime w; step := step w + 3; trace := trace w |}).
  unfold mbind, act_bind, lift, fail_if. rewrite Hl, Hr. fold w1.
  pose proof (child_dir_cases w1) as Hc. destruct (child_dir w1) as [w2 [dir|e]].
  2:{ destruct Hc as [Hc Ht]. split; [exact Hc | left; split; [exact Ht | by eexists]]. }
  destruct (attach_in_settled used w1 dir access remote w2 Hc) as [Hrel (run & evs & H5 & H6 & H7)].
  split; [exact Hrel |]. right. exists access, remote, run, evs.
  split; [exact Hclear |]. split; [exact H5 |]. split; [exact H6 |].
  destruct run; [exists dir; exact H7 | exact H7].
Qed.

(** *** All operations *)

(** The log and the result of a credentialed operation. *)
Definition ran (op : Operation) (answer : option (option AccessRow)) (rt : Runtime)
    (run : option Run) (evs : list Event) : Prop :=
  (evs = [] /\ run = None)
  \/ exists access remote, cleared op answer access remote
       /\ client_log rt access remote run evs.

Definition outcome_of (op : Operation) (run : option Run) (r : ssh Reply) : Prop :=
  faithful run r
  /\ match op with Create _ => is_ok r = bool_decide (is_Some run) | _ => True end.

Lemma guarded_settled {A} op answer (m : act A) result (g : A -> Reply) used w :
  guarded op answer result w (m w) -> released (runtime w) (runtime (fst (m w))) ->
  (forall a c, g a <> Attached c) ->
  (forall dir run w1, outcome_of op (Some run)
     (match snd (result dir run w1) with Ok a => Ok (g a) | Err e => Err e end)) ->
  let p := (x ← m; mret (g x)) w in
  let w' := settle used p in
  released (runtime w) (runtime w')
  /\ exists evs run, trace w' = trace w ++ evs /\ ran op answer (runtime w) run evs
     /\ outcome_of op run (snd p).
Proof.
  intros Hg Hrel Hna Hout. cbn zeta. unfold mbind, act_bind.
  assert (forall e, outcome_of op None (Err e)) as Herr by (intros e; split; [done | by destruct op]).
  destruct (m w) as [w' r]. cbn [fst] in Hrel.
  assert (settle used (match r with Ok a => (mret (g a) : act Reply) w' | Err e => (w', Err e) end) = w') as Hset.
  { destruct r as [a|e]; [| done]. cbn. specialize (Hna a). destruct (g a); naive_solver. }
  assert (snd (match r with Ok a => (mret (g a) : act Reply) w' | Err e => (w', Err e) end)
          = match r with Ok a => Ok (g a) | Err e => Err e end) as Hsnd by (by destruct r).
  split; [by rewrite Hset |]. rewrite Hset, Hsnd.
  destruct Hg as [[Ht [e He]] | (access & remote & Hc & run & evs & Ht & Hlog & Hres)]; cbn in *.
  - subst r. exists [], None. rewrite app_nil_r. split; [done |]. split; [by left | apply Herr].
  - exists evs, run. split; [done |]. split; [right; eauto |]. destruct run as [run|].
    + destruct Hres as (dir & w1 & ->). apply Hout.
    + destruct Hres as [e ->]. apply Herr.
Qed.

Lemma proof_outcome_of hid dir run w1 :
  outcome_of (Verify hid) (Some run)
    (match snd (proof_result dir run w1) with Ok _ => Ok Verified | Err e => Err e end).
Proof.
  split; [| done]. destruct (snd _) as [u|] eqn:Hr; [| done].
  apply proof_result_Ok in Hr as (e & H5 & H6 & H7). by exists run, e.
Qed.

Lemma probe_outcome_of dir run w1 :
  outcome_of Probe (Some run)
    (match snd (probe_result dir run w1) with Ok a => Ok (Probed a) | Err e => Err e end).
Proof.
  split; [| done]. destruct (snd _) as [u|] eqn:Hr; [| done].
  apply probe_result_Ok in Hr as (e & H5 & H6 & H7). by exists run, e.
Qed.

Lemma create_outcome_of name dir run w1 :
  outcome_of (Create name) (Some run)
    (match snd (create_result dir run w1) with Ok a => Ok (Created a) | Err e => Err e end).
Proof.
  destruct (create_result_reply dir run w1) as (o & -> & Ho). by split.
Qed.

Lemma attached_outcome_of sid created run dir :
  outcome_of (Attach sid created) (Some run) (attached run dir).
Proof.
  split; [| done]. unfold attached, read_marker. destruct (output run) as [stream|] eqn:Ho; [| done].
  destruct (read_bounded_line_into stream [] _) as [[rest p] [l|]] eqn:Hl; [| done]. cbn.
  case_bool_decide as Hm; [| done]. cbn. exists run, stream. split; [done |]. split; [done |].
  apply read_line_conserves in Hl. cbn in *. by rewrite Hl, Hm.
Qed.

Lemma perform_settled op answer used w :
  let p := perform op answer w in
  let w' := settle used p in
  released (runtime w) (runtime w')
  /\ exists evs run, trace w' = trace w ++ evs
     /\ match op with
        | Discover => discovery_log (runtime w) evs
        | _ => ran op answer (runtime w) run evs
        end
     /\ outcome_of op run (snd p).
Proof.
  destruct op as [|hid| |name|sid created].
  - cbn zeta. destruct (discover_settled w) as [Hrel (evs & Ht & Hlog)].
    unfold perform, mbind, act_bind. destruct (discover_host_identity w) as [w' [id|e]];
      (split; [exact Hrel |]; exists evs, None; repeat (split; [assumption |]); by split).
  - destruct (verify_guarded hid answer w) as [Hg Hrel].
    by apply (guarded_settled _ _ _ _ (fun _ => Verified) _ _ Hg Hrel); [| apply proof_outcome_of].
  - destruct (rendered_guarded Probe answer render_probe probe_result w) as [Hg Hrel];
      [done | apply silent_probe | apply stays_probe_result |].
    by apply (guarded_settled _ _ _ _ Probed _ _ Hg Hrel); [| apply probe_outcome_of].
  - apply (guarded_settled (Create name) answer (create_tmux_session answer name) create_result Created);
      [| | done | apply create_outcome_of];
      (unfold create_tmux_session; destruct (negb (valid_new_session_name name));
       [| destruct (rendered_guarded (Create name) answer (fun a => render_create a name)
                      create_result w) as [Hg Hrel];
          [done | apply silent_create | apply stays_create_result |]]).
    + left. split; [done | by eexists].
    + exact Hg.
    + apply released_refl.
    + exact Hrel.
  - destruct (attach_settled used sid created answer w)
      as [Hrel [[Ht [e He]] | (access & remote & run & evs & Hc & Ht & Hlog & Hres)]];
      (split; [exact Hrel |]).
    + exists [], None. rewrite app_nil_r, He. split; [exact Ht |]. split; [by left | done].
    + exists evs, run. split; [exact Ht |]. split; [right; eauto |]. destruct run as [run|].
      * destruct Hres as [dir ->]. apply attached_outcome_of.
      * by destruct Hres as [e ->].
Qed.

(** ** Theorems *)

Definition is_client (e : Event) : bool := match e with Spawned _ _ _ => true | _ => false end.
Definition clients (t : list Event) : list Event := List.filter is_client t.

Lemma clients_app a b : clients (a ++ b) = clients a ++ clients b.
Proof. apply List.filter_app. Qed.

Lemma open_bridges_app a b : open_bridges (a ++ b) = open_bridges a + open_bridges b.
Proof. unfold open_bridges. rewrite !List.filter_app, !zlen_app. lia. Qed.

(** What the log of a finished operation amounts to. *)
Lemma client_log_clients rt access remote run evs :
  client_log rt access remote run evs ->
  open_bridges evs = 0
  /\ match run with
     | None => clients evs = []
     | Some u => exists dir n e, 0 < permits rt /\ find_entry dir (child_dirs rt) = None
                   /\ clients evs = [e] /\ credentialed rt dir access remote u n e
     end.
Proof.
  destruct run as [u|]; cbn [client_log].
  - intros (dir & port & n & e & Hp & Hf & -> & He). split; [by destruct He as (? & -> & _) |]. exists dir, n, e.
    repeat split; [done | done | by destruct He as (? & -> & _) | done].
  - by intros [-> | [port ->]].
Qed.

Lemma ran_clients op answer rt run evs :
  ran op answer rt run evs ->
  open_bridges evs = 0
  /\ match run with
     | None => clients evs = []
     | Some u => exists access remote dir n e, cleared op answer access remote
                   /\ 0 < permits rt /\ find_entry dir (child_dirs rt) = None
                   /\ clients evs = [e] /\ credentialed rt dir access remote u n e
     end.
Proof.
  intros [[-> ->] | (access & remote & Hc & Hl%client_log_clients)]; [done |].
  destruct Hl as [Hb Hl]. split; [done |]. destruct run as [u|]; [| done].
  destruct Hl as (dir & n & e & Hl). by exists access, remote, dir, n, e.
Qed.

Lemma discovery_log_clients rt evs :
  discovery_log rt evs ->
  open_bridges evs = 0 /\ (permits rt <= 0 -> clients evs = []).
Proof.
  intros [-> | (port & [-> | (dir & n & Hp & _ & ->)])]; [done | done |]. split; [done | lia].
Qed.

(** C8. Custody ends with the operation.  Whatever the kernel, the lease, the
    database and the client answer - discovery, an access proof, a probe, a
    session creation, or a control attachment up to its drop -, afterwards
    every permit of [child_limit] is back, every bridge that was started is
    aborted, every other child directory is as it was, and at most one
    directory of the operation is left; with a kernel that secures and unlinks
    the process's own files, none is, so no private key stays on disk.  With
    no permit free, no client is started. *)
Theorem ssh_operation_released (op : Operation) (answer : option (option AccessRow)) (used : bool)
    (w : World) :
  let w' := settle used (perform op answer w) in
  permits (runtime w') = permits (runtime w)
  /\ open_bridges (trace w') = open_bridges (trace w)
  /\ (exists left, child_dirs (runtime w') = child_dirs (runtime w) ++ left /\ (length left <= 1)%nat)
  /\ (tidy (runtime w) -> runtime w' = runtime w)
  /\ (permits (runtime w) <= 0 -> clients (trace w') = clients (trace w)).
Proof.
  cbn zeta. destruct (perform_settled op answer used w)
    as [(left & Hrt & Hlen & Htidy) (evs & run & Ht & Hlog & _)].
  rewrite Hrt, Ht, open_bridges_app, clients_app.
  assert (open_bridges evs = 0 /\ (permits (runtime w) <= 0 -> clients evs = [])) as [Hb Hc].
  { destruct op; [by apply discovery_log_clients |..];
      (destruct (ran_clients _ _ _ _ _ Hlog) as [Hb Hc]; split; [done |]; intros Hp;
       destruct run; [destruct Hc as (? & ? & ? & ? & ? & _ & ? & _); lia | done]). }
  split; [done |]. split; [lia |]. split; [by exists left |]. split.
  - intros Hy. rewrite (Htidy Hy), app_nil_r. by destruct (runtime w).
  - intros Hp. by rewrite (Hc Hp), app_nil_r.
Qed.

Lemma spawned_client n argv d evs : Spawned n argv d ∈ evs -> Spawned n argv d ∈ clients evs.
Proof. intros Hd. by apply list_elem_of_In, filter_In; split; [apply list_elem_of_In |]. Qed.

(** No group or other bit survives [mode(0o600)]. *)
Lemma file_mode v : Z.land (mode (file_meta (file_of v))) 63 = 0.
Proof.
  unfold file_of. cbn [file_meta mode]. rewrite <- Z.land_assoc, (Z.land_comm (Z.lnot _)), Z.land_assoc.
  by rewrite Z.land_0_l.
Qed.

Lemma access_modes access : Forall (fun p => Z.land (mode (file_meta (p.2))) 63 = 0) (access_files access).
Proof. repeat (constructor; [apply file_mode |]). constructor. Qed.

(** C10. Every client is authorized.  An operation starts at most one OpenSSH
    client.  Discovery's client finds an empty key file and no identity.  Any
    other client is started only when the lease was valid in the step before
    and the tables its query saw held the machine in the lifecycle the
    operation is for - verifying for an access proof, active otherwise - with
    its account, bound to an active credential whose envelope opened; its
    private directory holds exactly that key and a [known_hosts] line that
    pins an Ed25519 identity - the confirmed one for an access proof, the
    registered one otherwise -, both files without any permission for group
    or others; and its arguments are those of [command_for_access] with the
    operation's own rendered command, so the key is never among them. *)
Theorem ssh_clients_authorized (op : Operation) (machine : Uuid) (db : option Store) (used : bool)
    (w : World) :
  let w' := settle used (perform op (query_of op machine db) w) in
  exists evs, trace w' = trace w ++ evs /\ (length (clients evs) <= 1)%nat
  /\ forall at_step argv d, Spawned at_step argv d ∈ evs ->
     Forall (fun p => Z.land (mode (file_meta (p.2))) 63 = 0) (files d)
     /\ mode (dir_meta d) = 448
     /\ match op with
        | Discover => map (fun p => (p.1, content (p.2))) (files d) = [(lit "known_hosts", [])]
          /\ exists port dir, argv = command_for_host_discovery
            (join (join (instance_dir (runtime w)) dir) (lit "known_hosts")) port
        | _ => lease_valid env (pred at_step) = true
          /\ exists access remote dir port, authorized op machine db access remote
          /\ map (fun p => (p.1, content (p.2))) (files d)
             = [(lit "identity", private_key access);
                (lit "known_hosts", known_hosts_line (host_identity access))]
          /\ argv = command_for_access access
               (join (join (instance_dir (runtime w)) dir) (lit "identity"))
               (join (join (instance_dir (runtime w)) dir) (lit "known_hosts")) port remote
        end.
Proof.
  cbn zeta. set (answer := query_of op machine db).
  destruct (perform_settled op answer used w) as [_ (evs & run & Ht & Hlog & _)].
  exists evs. split; [exact Ht |].
  assert (forall at_step argv d, Spawned at_step argv d ∈ evs -> Spawned at_step argv d ∈ clients evs)
    as Hin by (intros ???; by apply spawned_client).
  assert (op = Discover \/ op <> Discover) as [-> | Hop] by (destruct op; first [by left | by right]).
  - destruct Hlog as [-> | (port & [-> | (dir & n & _ & _ & ->)])];
      (split; [cbn; lia | intros at_step argv d Hd%Hin]; cbn in Hd); [set_solver | set_solver |].
    apply list_elem_of_singleton in Hd as [= -> -> ->]. cbn.
    split; [apply Forall_singleton, file_mode |]. split; [done |]. split; [done |]. by exists port, dir.
  - assert (ran op answer (runtime w) run evs) as Hran by (by destruct op).
    apply ran_clients in Hran as [_ Hc]. destruct run as [u|].
    2:{ rewrite Hc in *. split; [cbn; lia | intros at_step argv d Hd%Hin; set_solver]. }
    destruct Hc as (access & remote & dir & n & e & Hclear%cleared_authorized & _ & _ & Hc & port & -> & Hlease & _).
    rewrite Hc in *. split; [cbn; lia |]. intros at_step argv d Hd%Hin.
    apply list_elem_of_singleton in Hd as [= -> -> ->].
    split; [by apply access_modes |]. split; [done |].
    destruct op; [done |..]; (split; [done |]; by exists access, remote, dir, port).
Qed.

(** C17. Replies tell the truth about the client that ran.  A verified access means
    a client that printed exactly the proof marker and exited with 0; a probe's
    text is the whole output of a client that exited with 0; a created session
    was named by the client's output, a session reported as not created comes
    from the exit code reserved for that; an attachment's stream is what
    follows the session marker.  Session creation fails with an error exactly
    when no client was started: once the remote command may have run, the
    reply is one of the three outcomes, so an error is safe to retry. *)
Theorem ssh_replies_honest (op : Operation) (answer : option (option AccessRow)) (used : bool)
    (w : World) :
  let p := perform op answer w in
  exists evs run, trace (settle used p) = trace w ++ evs
  /\ match op with
     | Discover => True
     | _ => match run with
            | None => clients evs = []
            | Some u => exists n argv d, clients evs = [Spawned n argv d]
                          /\ client env n argv (files d) = Some u
            end
     end
  /\ faithful run (snd p)
  /\ match op with Create _ => is_ok (snd p) = bool_decide (is_Some run) | _ => True end.
Proof.
  cbn zeta. destruct (perform_settled op answer used w) as [_ (evs & run & Ht & Hlog & Hout & Hcr)].
  exists evs, run. split; [exact Ht |]. split; [| split; [exact Hout | exact Hcr]].
  assert (op = Discover \/ op <> Discover) as [-> | Hop] by (destruct op; first [by left | by right]).
  { done. }
  assert (ran op answer (runtime w) run evs) as Hran by (by destruct op).
  apply ran_clients in Hran as [_ Hc]. destruct run as [u|]; [| by destruct op].
  destruct Hc as (access & remote & dir & n & e & _ & _ & _ & Hc & port & -> & _ & Hrun).
  destruct op; [done |..]; by eexists _, _, _.
Qed.
End effects.

(** ** A verified machine *)

#[local] Instance sample_ssh_keys : SshKeys :=
  {| PublicKey := bytes; from_openssh := fun v => strip_prefix (lit "ssh-ed25519 ") v;
     is_ed25519 := fun _ => true; to_openssh := Some; fingerprint_of := fun v => v |}.
#[local] Existing Instance dec_uuid.
#[local] Existing Instance toy_aead.

Definition sample_nonce : bytes := repeat "001"%byte 24.
Definition sample_access_row : AccessRow :=
  {| row_account := lit "dev"; row_host_identity := Some (lit "ssh-ed25519 HOST"); row_tmux_path := lit "tmux";
     row_socket := lit "owl"; row_credential_id := 9;
     row_envelope := match seal sample_key 5 9 sample_nonce (lit "PRIVATE") with Ok v => v | Err _ => [] end |}.

(** The tables that yield this row for machine 3. *)
Definition sample_store : Store :=
  {| tables := {| base := {| deployment := None; nodes := ∅ |}; credentials := {[ 9 := true ]};
       default_credential := 9;
       machines := {[ 3 := {| ssh_credential_id := 9; alias := lit "box"; lifecycle := Verifying;
         Tables.route_revision := 1; credential_revision := 1; Tables.target_account := lit "dev";
         Tables.tmux_path := lit "tmux"; Tables.tmux_socket_identity := lit "owl";
         Tables.host_identity := Some (lit "ssh-ed25519 HOST") |} ]};
       owners := ∅; enrollments := ∅; attempts := ∅; bindings := ∅ |};
     rows := {[ 9 := {| cr_deployment := 5; cr_name := lit "Default"; cr_public_key := [];
       cr_fingerprint := []; cr_envelope := row_envelope sample_access_row; cr_active := true;
       cr_created := 0 |} ]};
     audit := [] |}.

(** A client that answers each remote command as a healthy target does, and
    leaves the directory alone. *)
Definition healthy_client (out : bytes) (n : nat) (argv : list bytes) (l : list (bytes * File))
    : option Run :=
  Some {| left_files := l;
          exits := Some {| waited := true; exit_code := Some 0; stdout := out; stdout_ok := true;
                           stderr := []; stderr_ok := true; identity_removed := true |};
          output := Some [Data (SESSION_MARKER ++ lit "%begin")] |}.
Definition sample_env (out : bytes) : Env :=
  {| lease_valid := fun _ => true; allows := fun _ => true; secures := fun _ => true;
     unlinks := fun _ => true; fresh_id := fun n => 100 + Z.of_nat n; torn := fun _ => 0%nat;
     bound_port := fun _ => Some 40000; client := healthy_client out; euid := 1000; umask := 18 |}.
Definition sample_runtime : Runtime :=
  {| instance_dir := lit "/run/owlmux/instance-1"; owner_uid := 1000; child_dirs := []; permits := 32 |}.
Definition sample_start : World := {| runtime := sample_runtime; step := 0; trace := [] |}.

Lemma sample_tidy out : tidy (sample_env out) sample_runtime.
Proof. constructor; try done. intros n argv l run [= <-]. done. Qed.

Definition sample_verify : World * ssh Reply :=
  perform (sample_env PROOF_MARKER) sample_key 5 (Verify (lit "ssh-ed25519 HOST"))
    (Some (Some sample_access_row)) sample_start.

Lemma settle_verified env used p : snd p = Ok Verified -> settle env used p = fst p.
Proof. destruct p as [w r]. cbn. by intros ->. Qed.

Lemma sample_verified : snd sample_verify = Ok Verified.
Proof. vm_compute. reflexivity. Qed.

Lemma ssh_operation_released_witness :
  snd sample_verify = Ok Verified /\ runtime (settle (sample_env PROOF_MARKER) false sample_verify) = sample_runtime
  /\ length (clients (trace (fst sample_verify))) = 1%nat.
Proof.
  split; [exact sample_verified |]. split; [| vm_compute; reflexivity].
  apply (ssh_operation_released (sample_env PROOF_MARKER) sample_key 5 (Verify (lit "ssh-ed25519 HOST"))
           (Some (Some sample_access_row)) false sample_start). apply sample_tidy.
Defined.

Lemma sample_query :
  query_of (Verify (lit "ssh-ed25519 HOST")) 3 (Some sample_store) = Some (Some sample_access_row).
Proof. vm_compute. reflexivity. Qed.

Lemma ssh_clients_authorized_witness :
  exists n argv d, trace (fst sample_verify) = [Bridged 40000; Spawned n argv d; BridgeAborted]
  /\ mode (dir_meta d) = 448
  /\ exists access remote,
       authorized sample_key 5 (Verify (lit "ssh-ed25519 HOST")) 3 (Some sample_store) access remote.
Proof.
  pose proof (ssh_clients_authorized (sample_env PROOF_MARKER) sample_key 5
    (Verify (lit "ssh-ed25519 HOST")) 3 (Some sample_store) false sample_start) as Hauth.
  cbv zeta in Hauth. rewrite sample_query in Hauth. fold sample_verify in Hauth.
  rewrite settle_verified in Hauth by apply sample_verified.
  destruct Hauth as (evs & Ht & _ & Hd). cbn [trace sample_start app] in Ht. subst evs.
  destruct (trace (fst sample_verify)) as [|[port| |] [|[| |n argv d] [|[| |] [|]]]] eqn:E;
    try (vm_compute in E; discriminate E).
  exists n, argv, d. split; [f_equal; vm_compute in E; by injection E as <- |].
  destruct (Hd n argv d) as (_ & Hm & _ & access & remote & _ & _ & Ha & _); [right; by left |].
  split; [exact Hm | by exists access, remote].
Defined.

Lemma ssh_replies_honest_witness :
  exists run, snd (perform (sample_env (lit "no session")) sample_key 5 (Create (lit "work"))
                     (Some (Some sample_access_row)) sample_start) = Ok (Created Ambiguous)
  /\ is_Some run
  /\ faithful run (snd (perform (sample_env (lit "no session")) sample_key 5 (Create (lit "work"))
                     (Some (Some sample_access_row)) sample_start)).
Proof.
  destruct (ssh_replies_honest (sample_env (lit "no session")) sample_key 5 (Create (lit "work"))
    (Some (Some sample_access_row)) false sample_start) as (evs & run & _ & _ & Hf & Hs).
  exists run. split; [vm_compute; reflexivity |]. split; [| exact Hf].
  destruct run as [u|]; [by exists u |]. vm_compute in Hs. discriminate Hs.
Defined.
