(* ===== verification/Storage.v ===== *)
(** * Storage: the one-time bootstrap of a deployment

    Models [crates/owlmux-server/src/storage.rs]: what a starting node does
    before it serves.  It initializes an empty database, or checks that it
    holds every active credential and that its configuration is the stored
    one, or moves the deployment to the next configuration epoch.  The
    migrations and the pools are inputs; the whole check is one transaction
    under an advisory lock. *)

From S2P Require Import Prelude Text Contracts Binary Secrets Cluster Config Lease Tables Authority Custody.

(** The fresh identifiers and key material of a first start. *)
Record FirstStart : Type := {
  fs_deployment : Uuid; fs_credential : Uuid; fs_material : option KeyMaterial;
}.

Section storage.
Context `{Haead : Aead} `{Hlower : Lower} `{Hsha : Sha256} `{Hhmac : Hmac}.
Variable BUILD_ID : bytes.

Definition expected_proof (c : Config) (deployment_id : Uuid) : option bytes :=
  mjoin (Config.config_proof BUILD_ID c deployment_id).

Definition expected_row (c : Config) (deployment_id : Uuid) : DeploymentRow :=
  {| dep_id := deployment_id; dep_epoch := epoch c; dep_build := BUILD_ID; dep_protocol := 1;
     dep_profile := cf_profile c; dep_proof := expected_proof c deployment_id |}.

Definition put_deployment (d : DeploymentRow) (s : Store) : Store :=
  let t := tables s in
  {| tables := {| base := {| deployment := Some d; nodes := nodes (base t) |};
                  credentials := credentials t; default_credential := default_credential t;
                  machines := machines t; owners := owners t; enrollments := enrollments t;
                  attempts := attempts t; bindings := bindings t |};
     rows := rows s; audit := audit s |}.

(** ** [validate_credential_custody] *)

(** No reference to a credential that is not active; a reference to a missing
    row joins with nothing. *)
Definition references_active (s : Store) : bool :=
  let inactive id := bool_decide (cr_active <$> rows s !! id = Some false) in
  negb (bool_decide (is_Some (deployment (base (tables s))))
        && inactive (default_credential (tables s)))
  && negb (exists_where (fun _ m => inactive (ssh_credential_id m)) (machines (tables s))).

Definition active_rows (deployment_id : Uuid) (s : Store) : list (Z * CredentialRow) :=
  select (fun _ c => (cr_deployment c =? deployment_id) && cr_active c) (rows s).

(** The loop over the rows; its order does not matter to its result. *)
Fixpoint open_all (key : bytes) (deployment_id : Uuid) (l : list (Z * CredentialRow))
    : result StorageError unit :=
  match l with
  | [] => Ok tt
  | (id, c) :: l =>
      map_err (fun _ => CustodyFailed) (Secrets.open key deployment_id id (cr_envelope c)) ;;
      open_all key deployment_id l
  end.

Definition validate_credential_custody (c : Config) (deployment_id : Uuid) (s : Store)
    : result StorageError unit :=
  fail_if (negb (references_active s)) StorageInvariant ;;
  let l := take 257 (active_rows deployment_id s) in
  fail_if (bool_decide (l = []) || (256 <? zlen l)) StorageInvariant ;;
  open_all (encryption_key c) deployment_id l.

(** ** [initialize_or_validate] *)

(** [stored_epoch + 1] overflows only at [i64::MAX], which no configured epoch
    exceeds. *)
Definition validate_body (c : Config) (now : Z) (d : DeploymentRow) (s : Store)
    : result StorageError (Store * Uuid) :=
  validate_credential_custody c (dep_id d) s ;;
  if dep_epoch d =? epoch c then
    fail_if (negb (bool_decide (dep_build d = BUILD_ID))
             || negb (bool_decide (dep_profile d = cf_profile c))
             || negb (bool_decide (dep_proof d = expected_proof c (dep_id d)))) StorageMismatch ;;
    Ok (s, dep_id d)
  else if epoch c =? dep_epoch d + 1 then
    fail_if (another_valid (base (tables s)) now) ConfigurationTransitionBlocked ;;
    let d' := {| dep_id := dep_id d; dep_epoch := epoch c; dep_build := BUILD_ID;
                 dep_protocol := dep_protocol d; dep_profile := cf_profile c;
                 dep_proof := expected_proof c (dep_id d) |} in
    s ← append_audit (dep_id d) (lit "deployment") None None (lit "configuration_transition")
          (put_deployment d' s);
    Ok (s, dep_id d)
  else Err StorageMismatch.

(** The default credential is inserted after the deployment that refers to
    it (its foreign key is deferred). *)
Definition initialize_body (c : Config) (now : Z) (fresh : FirstStart) (s : Store)
    : result StorageError (Store * Uuid) :=
  let d := fs_deployment fresh in
  let id := fs_credential fresh in
  g ← map_err (fun _ => CustodyFailed)
        (generate_credential (encryption_key c) d id (fs_material fresh));
  let s := put_deployment (expected_row c d) s in
  let s := put_tables (with_default (tables s) id) s in
  s ← ok_or (classify_write true) (insert_credential id d (lit "Default") g now s);
  s ← append_audit d (lit "deployment") None None (lit "initialize") s;
  s ← append_audit d (lit "ssh_credential") None (Some id) (lit "create_default") s;
  Ok (s, d).

Definition initialize_or_validate (c : Config) (fate : Fate) (now : Z) (fresh : FirstStart)
    (s : Store) : Store * result StorageError Uuid :=
  run fate classify_write StorageAmbiguous
    (fun s => match deployment (base (tables s)) with
              | Some d => validate_body c now d s
              | None => initialize_body c now fresh s
              end) s.

(** [Database::bootstrap]: the migrations and the two pools come first. *)
Definition bootstrap (c : Config) (migrated : result StorageError unit) (critical ordinary : bool)
    (fate : Fate) (now : Z) (fresh : FirstStart) (s : Store) : Store * result StorageError Uuid :=
  match migrated with
  | Err e => (s, Err e)
  | Ok _ => if negb critical || negb ordinary then (s, Err StorageUnavailable)
            else initialize_or_validate c fate now fresh s
  end.
End storage.
