(* ===== verification/Tunnel.v ===== *)
(** * Tunnel: the server's side of an established Relay tunnel

    Models the framing helpers, [run_tunnel], [relay_reader] and
    [send_route_frame] of [crates/owlmux-server/src/relay/mod.rs].  A turn of
    the loop is a function of the readiness of the [select!] branches and of
    the answers of the environment (lease, dispatch lock, socket, stream);
    it returns the new table, what it did, and whether the loop goes on. *)

From S2P Require Import Prelude Text Binary Contracts Secrets RelayProtocol Wire Authority.
Import Authority.Relay.

(** Times in seconds. *)
Definition HEARTBEAT : Z := 15.
Definition MAX_PINGS : Z := 3.

(** ** Framing *)

Section framing.
Context `{Hbase : Base64} `{Hcodec : FrameCodec}.

Definition decode_frame (m : Message) : result RelayError ClientFrame :=
  match m with
  | OtherMessage => Err Protocol
  | TextMessage text =>
      if MAX_FRAME_BYTES <? zlen text then Err Protocol else ok_or Protocol (parse_client text)
  end.

Definition receive_frame (i : option Incoming) : result RelayError ClientFrame :=
  match i with
  | None => Err Protocol
  | Some EndOfStream => Err Unavailable
  | Some SocketError => Err Protocol
  | Some (Received m) => decode_frame m
  end.

(** What a turn does to the world, in order. *)
Inductive Effect : Type :=
| Sent (f : ServerFrame)
| Spawned (stream : Z)
| Answered (r : result RelayError Z)
| Wrote (stream : Z) (data : bytes)
| ShutDown (stream : Z).

Definition send_frame (f : ServerFrame) (fate : SendFate) : list Effect * result RelayError unit :=
  match print_server f with
  | None => ([], Err Protocol)
  | Some _ =>
      match fate with
      | Delivered => ([Sent f], Ok tt)
      | Dropped => ([], Err Unavailable)
      | DeliveredUnseen => ([Sent f], Err Unavailable)
      end
  end.

(** [taken]: how much of the data [write_all] hands over before it fails. *)
Definition write_data (stream : Z) (data : bytes) (taken : option nat)
    : list Effect * result RelayError unit :=
  match b64_decode data with
  | None => ([], Err Protocol)
  | Some decoded =>
      if MAX_DATA_BYTES <? zlen decoded then ([], Err Protocol)
      else match taken with
           | None => ([Wrote stream decoded], Ok tt)
           | Some n => ([Wrote stream (list.take n decoded)], Err Unavailable)
           end
  end.

(** One iteration of [relay_reader]: the frame it queues, and whether it goes
    on reading. *)
Definition relay_reader (stream : Z) (r : ReadOutcome) : ServerFrame * bool :=
  match r with
  | ReadEof => (StreamHalfClosed stream, false)
  | ReadBytes chunk => (StreamData stream (b64_encode chunk), true)
  | ReadError => (StreamClosed stream Shutdown, false)
  end.

(** ** The loop *)

Record Mux : Type := {
  writers : gset Z; next_stream_id : Z; ping_nonce : Z; outstanding_pings : list Z;
  inbound_deadline : Z;
}.
Definition new_mux (now : Z) : Mux :=
  {| writers := ∅; next_stream_id := 1; ping_nonce := 0; outstanding_pings := [];
     inbound_deadline := now + HEARTBEAT * 3 |}.

Definition set_writers (m : Mux) (w : gset Z) : Mux :=
  {| writers := w; next_stream_id := next_stream_id m; ping_nonce := ping_nonce m;
     outstanding_pings := outstanding_pings m; inbound_deadline := inbound_deadline m |}.
Definition set_next (m : Mux) (n : Z) : Mux :=
  {| writers := writers m; next_stream_id := n; ping_nonce := ping_nonce m;
     outstanding_pings := outstanding_pings m; inbound_deadline := inbound_deadline m |}.
Definition set_nonce (m : Mux) (n : Z) : Mux :=
  {| writers := writers m; next_stream_id := next_stream_id m; ping_nonce := n;
     outstanding_pings := outstanding_pings m; inbound_deadline := inbound_deadline m |}.
Definition set_pings (m : Mux) (p : list Z) : Mux :=
  {| writers := writers m; next_stream_id := next_stream_id m; ping_nonce := ping_nonce m;
     outstanding_pings := p; inbound_deadline := inbound_deadline m |}.
Definition set_inbound (m : Mux) (d : Z) : Mux :=
  {| writers := writers m; next_stream_id := next_stream_id m; ping_nonce := ping_nonce m;
     outstanding_pings := outstanding_pings m; inbound_deadline := d |}.

(** The inputs of one turn: the answer of [lease.check] at the top; which
    branches are ready at the [select!]; then the answers met by the chosen
    branch. *)
Record Turn : Type := {
  lease_top : bool;
  barrier_ready : bool; fence_ready : bool; command_ready : bool;
  outbound_ready : option ServerFrame; now : Z; message_ready : option Incoming;
  tick_ready : bool;
  lease_ok : bool; dispatch_open : bool; barrier : bool; fate : SendFate; taken : option nat;
}.

(** The branches of the biased [select!], in its order. *)
Inductive Selected : Type :=
| OnBarrier | OnFence | OnCommand | OnOutbound (f : ServerFrame) | OnDeadline
| OnMessage (i : Incoming) | OnTick.

Definition select (m : Mux) (t : Turn) : option Selected :=
  if barrier_ready t then Some OnBarrier
  else if fence_ready t then Some OnFence
  else if command_ready t then Some OnCommand
  else match outbound_ready t with
  | Some f => Some (OnOutbound f)
  | None =>
      if inbound_deadline m <=? now t then Some OnDeadline
      else match message_ready t with
      | Some i => Some (OnMessage i)
      | None => if tick_ready t then Some OnTick else None
      end
  end.

Inductive Flow : Type := Continue | Return (r : result RelayError unit).
Definition flow_of (r : result RelayError unit) : Flow :=
  match r with Ok _ => Continue | Err e => Return (Err e) end.

Definition send_route_frame (f : ServerFrame) (t : Turn) : list Effect * result RelayError unit :=
  if negb (lease_ok t) then ([], Err Fenced)
  else if negb (dispatch_open t) || barrier t then ([], Err Unavailable)
  else send_frame f (fate t).

(** [TunnelCommand::Open]. *)
Definition on_command (m : Mux) (t : Turn) : Mux * list Effect * Flow :=
  if negb (lease_ok t) then (m, [], Return (Err Fenced))
  else if negb (dispatch_open t) || barrier t then (m, [Answered (Err Unavailable)], Continue)
  else if MAX_STREAMS <=? Z.of_nat (size (writers m))
  then (m, [Answered (Err Overloaded)], Continue)
  else match checked_add u32_max (next_stream_id m) 1 with
  | None => (m, [], Return (Err Protocol))
  | Some next =>
      let stream := next_stream_id m in
      let m := set_writers (set_next m next) ({[stream]} ∪ writers m) in
      let '(sent, r) := send_frame (OpenStream stream) (fate t) in
      match r with
      | Ok _ => (m, Spawned stream :: sent ++ [Answered (Ok stream)], Continue)
      | Err e => (m, Spawned stream :: sent, Return (Err e))
      end
  end.

(** [iter().position(..)] and [remove]. *)
Fixpoint remove_ping (nonce : Z) (pings : list Z) : option (list Z) :=
  match pings with
  | [] => None
  | p :: rest => if p =? nonce then Some rest else cons p <$> remove_ping nonce rest
  end.

Definition on_frame (m : Mux) (t : Turn) (f : ClientFrame) : Mux * list Effect * Flow :=
  match f with
  | ClientStreamOpened _ => (m, [], Continue)
  | Pong nonce =>
      match remove_ping nonce (outstanding_pings m) with
      | None => (m, [], Return (Err Protocol))
      | Some pings => (set_pings m pings, [], Continue)
      end
  | ClientStreamData stream data =>
      if negb (lease_ok t) then (m, [], Return (Err Fenced))
      else if bool_decide (stream ∈ writers m)
      then let '(wrote, r) := write_data stream data (taken t) in (m, wrote, flow_of r)
      else (m, [], Return (Err Protocol))
  | ClientStreamHalfClosed stream | ClientStreamClosed stream _ =>
      if bool_decide (stream ∈ writers m)
      then (set_writers m (writers m ∖ {[stream]}), [ShutDown stream], Continue)
      else (m, [], Continue)
  | _ => (m, [], Return (Err Protocol))
  end.

Definition on_message (m : Mux) (t : Turn) (i : Incoming) : Mux * list Effect * Flow :=
  match i with
  | EndOfStream => (m, [], Return (Err Unavailable))
  | SocketError => (m, [], Return (Err Protocol))
  | Received msg =>
      match decode_frame msg with
      | Err e => (m, [], Return (Err e))
      | Ok f => on_frame (set_inbound m (now t + HEARTBEAT * 3)) t f
      end
  end.

Definition on_tick (m : Mux) (t : Turn) : Mux * list Effect * Flow :=
  if MAX_PINGS <=? zlen (outstanding_pings m) then (m, [], Return (Err Unavailable))
  else match checked_add u64_max (ping_nonce m) 1 with
  | None => (m, [], Return (Err Protocol))
  | Some nonce =>
      let m := set_nonce m nonce in
      let '(sent, r) := send_route_frame (Ping nonce) t in
      match r with
      | Ok _ => (set_pings m (outstanding_pings m ++ [nonce]), sent, Continue)
      | Err e => (m, sent, Return (Err e))
      end
  end.

(** One pass of the loop; nothing happens while no branch is ready. *)
Definition turn (m : Mux) (t : Turn) : Mux * list Effect * Flow :=
  if negb (lease_top t) then (m, [], Return (Err Fenced))
  else match select m t with
  | None => (m, [], Continue)
  | Some OnBarrier => (m, [], Return (Ok tt))
  | Some OnFence => (m, [], Return (Err Fenced))
  | Some OnCommand => on_command m t
  | Some (OnOutbound f) =>
      let '(sent, r) := send_route_frame f t in (m, sent, flow_of r)
  | Some OnDeadline => (m, [], Return (Err Unavailable))
  | Some (OnMessage i) => on_message m t i
  | Some OnTick => on_tick m t
  end.

(** The loop over a history of turns; [Continue]: it is still running. *)
Fixpoint run_tunnel (m : Mux) (ts : list Turn) : Mux * list Effect * Flow :=
  match ts with
  | [] => (m, [], Continue)
  | t :: ts =>
      let '(m, effects, flow) := turn m t in
      match flow with
      | Return r => (m, effects, Return r)
      | Continue =>
          let '(m, later, flow) := run_tunnel m ts in (m, effects ++ later, flow)
      end
  end.


(** [TunnelHandle::open_stream]: the caller's side of [TunnelCommand::Open].
    [queued]: the command was accepted in time; [response]: what the loop
    answered in time; the barrier and the lease are asked again afterwards. *)
Definition open_stream (lease0 lease1 : bool) (barrier0 barrier_sending barrier_waiting barrier1 : bool)
    (queued : bool) (response : option (result RelayError Z)) : result RelayError Z :=
  if negb lease0 then Err Fenced
  else if barrier0 then Err Unavailable
  else if barrier_sending then Err Unavailable
  else if negb queued then Err Unavailable
  else if barrier_waiting then Err Unavailable
  else
    answer ← ok_or Unavailable response;
    stream ← answer;
    if negb lease1 then Err Fenced
    else if barrier1 then Err Unavailable
    else Ok stream.

(** ** What a turn may do *)

Record mux_ok (m : Mux) : Prop := {
  next_range : 1 <= next_stream_id m <= u32_max;
  writers_opened : forall s, s ∈ writers m -> 1 <= s < next_stream_id m;
  writers_bound : Z.of_nat (size (writers m)) <= MAX_STREAMS;
  nonce_range : 0 <= ping_nonce m <= u64_max;
  pings_bound : zlen (outstanding_pings m) <= MAX_PINGS;
  pings_distinct : NoDup (outstanding_pings m);
  pings_sent : Forall (fun p => 1 <= p <= ping_nonce m) (outstanding_pings m);
}.

(** The stream ids a history opened. *)
Definition spawns (e : list Effect) : list Z :=
  omap (fun x => match x with Spawned s => Some s | _ => None end) e.
Definition is_sent (x : Effect) : bool :=
  match x with Sent _ | Spawned _ => true | _ => false end.

(** Replay the stream operations: a stream is opened once, written only while
    open, and shut down only while open. *)
Definition replay1 (open : gset Z) (x : Effect) : option (gset Z) :=
  match x with
  | Spawned s => if bool_decide (s ∈ open) then None else Some ({[s]} ∪ open)
  | Wrote s _ => if bool_decide (s ∈ open) then Some open else None
  | ShutDown s => if bool_decide (s ∈ open) then Some (open ∖ {[s]}) else None
  | Sent _ | Answered _ => Some open
  end.
Fixpoint replay (open : gset Z) (e : list Effect) : option (gset Z) :=
  match e with [] => Some open | x :: e => open ← replay1 open x; replay open e end.

Lemma replay_app open e1 e2 :
  replay open (e1 ++ e2) = (open' ← replay open e1; replay open' e2).
Proof.
  revert open; induction e1 as [|x e1 IH]; intros open; [done |].
  cbn. destruct (replay1 open x); [apply IH | done].
Qed.

Lemma remove_ping_spec nonce pings rest :
  remove_ping nonce pings = Some rest ->
  exists l r, pings = l ++ nonce :: r /\ rest = l ++ r.
Proof.
  revert rest; induction pings as [|p pings IH]; intros rest H; [done |]. cbn in H.
  destruct (Z.eqb_spec p nonce) as [-> |].
  - injection H as <-. by exists [], pings.
  - destruct (remove_ping nonce pings) as [rest'|]; [| done]. injection H as <-.
    destruct (IH _ eq_refl) as (l & r & -> & ->). by exists (p :: l), r.
Qed.

(** What one turn does to the table and to the streams. *)
Record turn_ok (m m' : Mux) (e : list Effect) : Prop := {
  turn_keeps : mux_ok m';
  turn_spawns : spawns e = seqZ (next_stream_id m) (next_stream_id m' - next_stream_id m);
  turn_grows : next_stream_id m <= next_stream_id m';
  turn_replay : replay (writers m) e = Some (writers m');
}.

Lemma turn_ok_same m m' e :
  mux_ok m' -> next_stream_id m' = next_stream_id m -> writers m' = writers m ->
  spawns e = [] -> replay (writers m) e = Some (writers m) -> turn_ok m m' e.
Proof.
  intros ? Hn Hw Hs Hr. split; [done | | lia | by rewrite Hw].
  by rewrite Hn, Z.sub_diag.
Qed.

Lemma send_frame_effects f fate e r :
  send_frame f fate = (e, r) -> e = [] \/ e = [Sent f].
Proof. unfold send_frame. intros H. destruct (print_server f), fate; naive_solver. Qed.

Lemma send_route_effects f t e r :
  send_route_frame f t = (e, r) ->
  e = [] \/ e = [Sent f] /\ lease_ok t = true /\ dispatch_open t = true /\ barrier t = false.
Proof.
  unfold send_route_frame. intros Hs.
  destruct (lease_ok t), (dispatch_open t), (barrier t); cbn in Hs;
    try (injection Hs as <- <-; by left).
  apply send_frame_effects in Hs. naive_solver.
Qed.

Lemma write_data_effects s data taken e r :
  write_data s data taken = (e, r) -> e = [] \/ exists v, e = [Wrote s v].
Proof.
  unfold write_data. intros Hw.
  destruct (b64_decode data) as [d|]; [destruct (_ <? _), taken |]; naive_solver.
Qed.


Lemma on_command_ok m t m' e flow :
  mux_ok m -> on_command m t = (m', e, flow) -> turn_ok m m' e.
Proof.
  intros Hm H. unfold on_command in H.
  destruct (lease_ok t); cbn in H; [| simplify_eq; by apply turn_ok_same].
  destruct (_ || _); [simplify_eq; by apply turn_ok_same |].
  destruct (Z.leb_spec MAX_STREAMS (Z.of_nat (size (writers m)))) as [|Hsize];
    [simplify_eq; by apply turn_ok_same |].
  unfold checked_add in H. destruct (Z.leb_spec (next_stream_id m + 1) u32_max) as [Hn|];
    [| simplify_eq; by apply turn_ok_same].
  destruct Hm as [Hr Ho Hb Hnr Hpb Hpd Hps].
  assert (next_stream_id m ∉ writers m) as Hfresh by (intros ?%Ho; lia).
  destruct (send_frame _ _) as [sent r] eqn:Hs. apply send_frame_effects in Hs.
  assert (m' = set_writers (set_next m (next_stream_id m + 1))
                 ({[next_stream_id m]} ∪ writers m)) as -> by (destruct r; naive_solver).
  assert (exists rest, e = Spawned (next_stream_id m) :: rest /\ spawns rest = []
                       /\ forall open, replay open rest = Some open) as (rest & -> & Hrest & Hrep).
  { destruct Hs as [-> | ->], r; injection H as <- <-; cbn [app]; eauto. }
  split; cbn.
  - split; cbn; [lia | | | done ..].
    + intros s [->%elem_of_singleton | ?%Ho]%elem_of_union; lia.
    + rewrite size_union by set_solver. rewrite size_singleton. lia.
  - replace (next_stream_id m + 1 - next_stream_id m) with 1 by lia.
    transitivity (next_stream_id m :: spawns rest); [done |]. by rewrite Hrest.
  - lia.
  - rewrite bool_decide_eq_false_2 by done. apply Hrep.
Qed.

Lemma on_shutdown_ok m stream m' e flow :
  mux_ok m ->
  (if bool_decide (stream ∈ writers m)
   then (set_writers m (writers m ∖ {[stream]}), [ShutDown stream], Continue)
   else (m, [], Continue)) = (m', e, flow) ->
  turn_ok m m' e.
Proof.
  intros Hm H. destruct (bool_decide_reflect (stream ∈ writers m)) as [Hin |];
    [| simplify_eq; by apply turn_ok_same].
  injection H as <- <- <-. destruct Hm as [Hr Ho Hb Hnr Hpb Hpd Hps]. split; cbn.
  - split; cbn; try done; [set_solver |].
    assert (size (writers m ∖ {[stream]}) <= size (writers m))%nat; [| lia].
    apply subseteq_size. set_solver.
  - by rewrite Z.sub_diag.
  - lia.
  - by rewrite bool_decide_eq_true_2.
Qed.

Lemma on_frame_ok m t f m' e flow :
  mux_ok m -> on_frame m t f = (m', e, flow) -> turn_ok m m' e.
Proof.
  intros Hm H. destruct f; cbn in H; try (simplify_eq; by apply turn_ok_same).
  - destruct (lease_ok t); cbn in H; [| simplify_eq; by apply turn_ok_same].
    destruct (bool_decide_reflect (stream_id ∈ writers m)) as [Hin |];
      [| simplify_eq; by apply turn_ok_same].
    destruct (write_data _ _ _) as [wrote r] eqn:Hw. apply write_data_effects in Hw.
    injection H as <- <- <-. destruct Hw as [-> | [v ->]]; apply turn_ok_same; try done.
    cbn. by rewrite bool_decide_eq_true_2.
  - by apply (on_shutdown_ok _ _ _ _ _ Hm H).
  - by apply (on_shutdown_ok _ _ _ _ _ Hm H).
  - destruct (remove_ping _ _) as [pings|] eqn:Hp; [| simplify_eq; by apply turn_ok_same].
    injection H as <- <- <-. apply remove_ping_spec in Hp as (l & r & Hpings & ->).
    destruct Hm as [Hr Ho Hb Hnr Hpb Hpd Hps]. rewrite Hpings in Hpb, Hpd, Hps.
    apply turn_ok_same; try done. split; cbn; try done.
    + unfold zlen in *. rewrite length_app in *. cbn [length] in Hpb. lia.
    + apply NoDup_app in Hpd as (Hl & Hlr & [_ Hr']%NoDup_cons).
      apply NoDup_app. split; [done |]. split; [set_solver | done].
    + apply Forall_app in Hps as [? [_ ?]%Forall_cons]. by apply Forall_app.
Qed.

Lemma on_tick_ok m t m' e flow :
  mux_ok m -> on_tick m t = (m', e, flow) -> turn_ok m m' e.
Proof.
  intros Hm H. unfold on_tick in H.
  destruct (Z.leb_spec MAX_PINGS (zlen (outstanding_pings m))) as [| Hlen];
    [simplify_eq; by apply turn_ok_same |].
  unfold checked_add in H. destruct (Z.leb_spec (ping_nonce m + 1) u64_max) as [Hn |];
    [| simplify_eq; by apply turn_ok_same].
  destruct (send_route_frame _ _) as [sent r] eqn:Hs. apply send_route_effects in Hs.
  assert (spawns sent = [] /\ forall open, replay open sent = Some open) as [Hsp Hrep]
    by (destruct Hs as [-> | [-> _]]; done).
  destruct Hm as [Hr Ho Hb Hnr Hpb Hpd Hps].
  assert (Forall (fun p => 1 <= p <= ping_nonce m + 1) (outstanding_pings m)) as Hps'
    by (eapply Forall_impl; [exact Hps | cbn; lia]).
  destruct r; injection H as <- <- <-; apply turn_ok_same; try done; split; cbn; try done; try lia.
  - unfold zlen, MAX_PINGS in *. rewrite length_app. cbn [length]. lia.
  - apply NoDup_app. split; [done |]. split; [| apply NoDup_singleton].
    intros p Hp%(proj1 (Forall_forall _ _) Hps) ->%list_elem_of_singleton. lia.
  - apply Forall_app. split; [done |]. apply Forall_singleton. lia.
Qed.

Lemma turn_sound m t m' e flow :
  mux_ok m -> turn m t = (m', e, flow) -> turn_ok m m' e.
Proof.
  intros Hm H. unfold turn in H.
  destruct (lease_top t); cbn in H; [| simplify_eq; by apply turn_ok_same].
  destruct (select m t) as [[| | | f | | i |]|]; try (simplify_eq; by apply turn_ok_same).
  - by apply (on_command_ok _ _ _ _ _ Hm H).
  - destruct (send_route_frame f t) as [sent r] eqn:Hs. apply send_route_effects in Hs.
    injection H as <- <- <-. apply turn_ok_same; try done; destruct Hs as [-> | [-> _]]; done.
  - destruct i as [msg | |]; cbn in H; try (simplify_eq; by apply turn_ok_same).
    destruct (decode_frame msg); [| simplify_eq; by apply turn_ok_same].
    apply on_frame_ok in H as [? ? ? ?]; [by split |]. by destruct Hm.
  - by apply (on_tick_ok _ _ _ _ _ Hm H).
Qed.

Lemma turn_ok_trans m m1 m2 e1 e2 :
  turn_ok m m1 e1 -> turn_ok m1 m2 e2 -> turn_ok m m2 (e1 ++ e2).
Proof.
  intros [Hk1 Hs1 Hg1 Hr1] [Hk2 Hs2 Hg2 Hr2]. split; [done | | lia |].
  - unfold spawns in *. rewrite omap_app, Hs1, Hs2.
    replace (next_stream_id m2 - next_stream_id m)
      with (next_stream_id m1 - next_stream_id m + (next_stream_id m2 - next_stream_id m1)) by lia.
    rewrite seqZ_app by lia. do 2 f_equal. lia.
  - rewrite replay_app, Hr1. done.
Qed.

Lemma run_sound m ts m' e flow :
  mux_ok m -> run_tunnel m ts = (m', e, flow) -> turn_ok m m' e.
Proof.
  revert m m' e flow; induction ts as [|t ts IH]; intros m m' e flow Hm H; cbn in H.
  - injection H as <- <- <-. by apply turn_ok_same.
  - destruct (turn m t) as [[m1 e1] [|r]] eqn:Ht; apply turn_sound in Ht; [| done | | done].
    + destruct (run_tunnel m1 ts) as [[m2 e2] flow2] eqn:Hrun. injection H as <- <- <-.
      eapply turn_ok_trans; [done |]. eapply IH; [by destruct Ht | done].
    + by simplify_eq.
Qed.

Lemma new_mux_ok now : mux_ok (new_mux now).
Proof.
  split; cbn; try done. apply NoDup_nil_2.
Qed.

Lemma run_app m ts1 ts2 :
  run_tunnel m (ts1 ++ ts2)
  = let '(m1, e1, flow) := run_tunnel m ts1 in
    match flow with
    | Return r => (m1, e1, Return r)
    | Continue => let '(m2, e2, flow) := run_tunnel m1 ts2 in (m2, e1 ++ e2, flow)
    end.
Proof.
  revert m; induction ts1 as [|t ts1 IH]; intros m; cbn.
  { by destruct (run_tunnel m ts2) as [[? ?] ?]. }
  destruct (turn m t) as [[m1 e1] [|r]]; [| done]. rewrite IH.
  destruct (run_tunnel m1 ts1) as [[m2 e2] [|r]]; [| done].
  destruct (run_tunnel m2 ts2) as [[m3 e3] flow]. by rewrite app_assoc.
Qed.

(** A turn whose dispatch guard is closed hands nothing to the socket. *)
Definition shut (t : Turn) : bool := negb (lease_ok t) || negb (dispatch_open t) || barrier t.

Lemma turn_silent m t m' e flow :
  shut t = true -> turn m t = (m', e, flow) -> Forall (fun x => is_sent x = false) e.
Proof.
  unfold shut. intros Hshut H. unfold turn in H.
  destruct (lease_top t); cbn in H; [| by simplify_eq; constructor].
  assert (forall f e r, send_route_frame f t = (e, r) -> e = []) as Hroute.
  { intros f e0 r [| (_ & Hl & Ho & Hb)]%send_route_effects; [done |].
    by rewrite Hl, Ho, Hb in Hshut. }
  destruct (select m t) as [[| | | f | | i |]|]; try (by simplify_eq; constructor).
  - unfold on_command in H. destruct (lease_ok t); cbn in H, Hshut; [| by simplify_eq; constructor].
    rewrite Hshut in H. by simplify_eq; repeat constructor.
  - destruct (send_route_frame f t) as [sent r] eqn:Hs. apply Hroute in Hs as ->.
    by simplify_eq; constructor.
  - destruct i as [msg | |]; cbn in H; try (by simplify_eq; constructor).
    destruct (decode_frame msg) as [f|]; [| by simplify_eq; constructor].
    destruct f; cbn in H; repeat case_match; simplify_eq; repeat constructor.
    match goal with Hw : write_data _ _ _ = _ |- _ =>
      apply write_data_effects in Hw as [-> | [v ->]]; repeat constructor end.
  - unfold on_tick in H. destruct (_ <=? _); [by simplify_eq; constructor |].
    destruct (checked_add _ _ _); [| by simplify_eq; constructor].
    destruct (send_route_frame _ t) as [sent r] eqn:Hs. apply Hroute in Hs as ->.
    destruct r; by simplify_eq; constructor.
Qed.

Lemma run_silent m ts m' e flow :
  Forall (fun t => shut t = true) ts -> run_tunnel m ts = (m', e, flow) ->
  Forall (fun x => is_sent x = false) e.
Proof.
  intros Hts. revert m m' e flow; induction Hts as [|t ts Ht _ IH]; intros m m' e flow H; cbn in H.
  { injection H as <- <- <-. constructor. }
  destruct (turn m t) as [[m1 e1] [|r]] eqn:He; apply turn_silent in He; try done.
  - destruct (run_tunnel m1 ts) as [[m2 e2] flow2] eqn:Hrun. injection H as <- <- <-.
    apply Forall_app. split; [done | by eapply IH].
  - by simplify_eq.
Qed.

(** C34. The server's multiplexer, for every history of turns: at most 32
    streams are open; stream ids are opened as 1, 2, 3, ... and none is ever
    reused; every write and every shutdown goes to a stream that is open at
    that moment; at most three pings are outstanding, all distinct and all
    sent by this tunnel.  Once the dispatch guard is shut for good (barrier
    raised, dispatch closed or lease lost) nothing more is handed to the
    socket and no stream is opened. *)
Theorem run_tunnel_safe (start : Z) (before after : list Turn)
    (Hshut : Forall (fun t => shut t = true) after) :
  let '(m1, e1, flow1) := run_tunnel (new_mux start) before in
  let '(m, e, _) := run_tunnel (new_mux start) (before ++ after) in
  mux_ok m /\ spawns e = seqZ 1 (next_stream_id m - 1)
  /\ replay ∅ e = Some (writers m)
  /\ exists late, e = e1 ++ late /\ Forall (fun x => is_sent x = false) late.
Proof.
  destruct (run_tunnel (new_mux start) before) as [[m1 e1] flow1] eqn:H1.
  destruct (run_tunnel (new_mux start) (before ++ after)) as [[m e] flow] eqn:H2.
  pose proof (run_sound _ _ _ _ _ (new_mux_ok start) H2) as [Hk Hs _ Hr].
  split_and!; try done.
  rewrite run_app, H1 in H2. destruct flow1.
  - destruct (run_tunnel m1 after) as [[m2 e2] flow2] eqn:H3. injection H2 as <- <- <-.
    exists e2. split; [done |]. by eapply run_silent.
  - injection H2 as <- <- <-. exists []. by rewrite app_nil_r.
Qed.

End framing.

(** A turn in which only the given branches are ready and all answers are good. *)
Definition quiet_turn : Turn :=
  {| lease_top := true; barrier_ready := false; fence_ready := false; command_ready := false;
     outbound_ready := None; now := 0; message_ready := None; tick_ready := false;
     lease_ok := true; dispatch_open := true; barrier := false; fate := Delivered; taken := None |}.
Definition command_turn (open : bool) : Turn :=
  {| lease_top := true; barrier_ready := false; fence_ready := false; command_ready := true;
     outbound_ready := None; now := 0; message_ready := None; tick_ready := false;
     lease_ok := true; dispatch_open := open; barrier := false; fate := Delivered; taken := None |}.

Lemma run_tunnel_safe_witness :
  let run := @run_tunnel plain_base64 toy_codec (new_mux 0) in
  snd (fst (run [command_turn true; command_turn true; command_turn false]))
  = [Spawned 1; Sent (OpenStream 1); Answered (Ok 1);
     Spawned 2; Sent (OpenStream 2); Answered (Ok 2); Answered (Err Unavailable)]
  /\ exists m, mux_ok m /\ next_stream_id m = 3.
Proof.
  split; [by vm_compute |].
  destruct (run_tunnel_safe (Hbase := plain_base64) (Hcodec := toy_codec) 0
    [command_turn true; command_turn true] [command_turn false]) as (Hm & _);
    [by repeat constructor |].
  eexists. split; [exact Hm | by vm_compute].
Defined.
