(* ===== verification/Ownership.v ===== *)
(** * Ownership: what the authority transactions guarantee over any history

    [world_step] interleaves every transaction of Authority, with every fate,
    with changes of nodes and credentials made elsewhere.  The first part
    shows how rows may evolve (epochs and revisions only grow, pins and
    consumed tokens are final); the second part an invariant that ties
    machines, owners, bindings, attempts and enrollments together; the rest
    are the theorems. *)

From stdpp Require Import sorting.
From S2P Require Import Prelude Text Contracts Secrets Ssh Lease Tables Authority.
Import Relay OwnerRs Api.

Section ownership.
Context `{Sha256, SshKeys}.

(** ** Histories *)

(** The tables, and the enrollments accepted so far (the arguments of later
    activations and failures). *)
Record World : Type := { tbl : Tables; held : list AcceptedEnrollment }.
Definition at_tables (w : World) (t : Tables) : World := {| tbl := t; held := held w |}.

(** What others may do: nodes, the deployment row and credentials change, a
    node goes only when no owner and no live attempt refers to it, and then
    finished attempts forget it. *)
Definition forgets (a a' : Attempt) : Prop :=
  a' = a \/ at_status a <> InProgress /\ a' = set_executing None a.

Record others (t t' : Tables) : Prop := {
  oth_machines : machines t' = machines t;
  oth_owners : owners t' = owners t;
  oth_enrollments : enrollments t' = enrollments t;
  oth_bindings : bindings t' = bindings t;
  oth_attempts : forall k,
    match attempts t !! k, attempts t' !! k with
    | Some a, Some a' => forgets a a' | None, None => True | _, _ => False
    end;
  oth_restrict : forall k o x, owners t' !! k = Some o -> fst <$> claimed o = Some x ->
    is_Some (nodes (base t') !! x);
}.

Inductive world_step : World -> World -> Prop :=
| ws_accept w sv fate ok ts id token t r :
    accept_token sv fate ok ts id token (tbl w) = (t, r) ->
    world_step w {| tbl := t; held := match r with Ok a => a :: held w | _ => held w end |}
| ws_activate w sv fate ok ts id acc relay key host : acc ∈ held w ->
    world_step w (at_tables w (fst (activate sv fate ok ts id acc relay key host (tbl w))))
| ws_recover w sv fate ok ts machine :
    world_step w (at_tables w (fst (recover_expired_attempts sv fate ok ts machine (tbl w))))
| ws_fail w sv fate ok ts acc : acc ∈ held w ->
    world_step w (at_tables w (fail_attempt sv fate ok ts acc (tbl w)))
| ws_claim w sv fate ok ts machine connection revision :
    world_step w (at_tables w (fst (fst
      (claim_owner sv fate ok ts machine connection revision (tbl w)))))
| ws_release w sv fate ok ts machine connection epoch :
    world_step w (at_tables w (fst (fst
      (release_owner sv fate ok ts machine connection epoch (tbl w)))))
| ws_create w sv fate l0 l1 ts ids input digest :
    world_step w (at_tables w (fst (create_machine sv fate l0 l1 ts ids input digest (tbl w))))
| ws_rename w sv fate l0 l1 ts machine name :
    world_step w (at_tables w (fst (rename_machine sv fate l0 l1 ts machine name (tbl w))))
| ws_rebind w sv fate l0 l1 ts machine credential :
    world_step w (at_tables w
      (fst (rebind_machine_credential sv fate l0 l1 ts machine credential (tbl w))))
| ws_re_enroll w sv fate l0 l1 ts machine :
    world_step w (at_tables w (fst (re_enroll_disabled_machine sv fate l0 l1 ts machine (tbl w))))
| ws_issue w sv fate l0 l1 ts id machine digest :
    world_step w (at_tables w
      (fst (run fate map_write OperationAmbiguous (issue_body sv l0 l1 ts id machine digest)
              (tbl w))))
| ws_cancel w sv fate l0 l1 ts machine :
    world_step w (at_tables w (fst (cancel_enrollment_token sv fate l0 l1 ts machine (tbl w))))
| ws_transition w sv fate l0 l1 ts machine target expected :
    target = Pending \/ target = Disabled ->
    world_step w (at_tables w
      (fst (commit_active_machine_transition sv fate l0 l1 ts machine target expected (tbl w))))
| ws_others w t : others (tbl w) t -> world_step w (at_tables w t).

(** ** How rows evolve *)

Record machine_evolves (m m' : Machine) : Prop := {
  me_revision : route_revision m <= route_revision m';
  me_account : target_account m' = target_account m;
  me_path : tmux_path m' = tmux_path m;
  me_socket : tmux_socket_identity m' = tmux_socket_identity m;
  me_host : forall h, host_identity m = Some h -> host_identity m' = Some h;
}.

(** An owner changes hands only together with a larger epoch. *)
Record owner_evolves (o o' : Owner) : Prop := {
  oe_epoch : connection_epoch o <= connection_epoch o';
  oe_revision : owner_revision o <= owner_revision o';
  oe_claim : connection_epoch o' = connection_epoch o ->
             claimed o' = claimed o \/ claimed o' = None;
}.

Record enrollment_evolves (e e' : Enrollment) : Prop := {
  ee_machine : en_machine e' = en_machine e;
  ee_digest : token_digest e' = token_digest e;
  ee_expiry : token_expires_at e' = token_expires_at e;
  ee_final : en_status e <> Issued -> en_status e' = en_status e;
}.

Record attempt_evolves (a a' : Attempt) : Prop := {
  ae_machine : at_machine a' = at_machine a;
  ae_enrollment : at_enrollment a' = at_enrollment a;
  ae_revision : at_revision a' = at_revision a;
  ae_final : at_status a <> InProgress -> at_status a' = at_status a;
}.

Record binding_evolves (b b' : Binding) : Prop := {
  be_machine : bd_machine b' = bd_machine b;
  be_relay : relay_id b' = relay_id b;
  be_key : relay_public_key b' = relay_public_key b;
  be_revision : bd_revision b' = bd_revision b;
  be_final : bd_active b = false -> bd_active b' = false;
}.

Definition rows_evolve {A} (R : A -> A -> Prop) (x y : gmap Z A) : Prop :=
  forall k a, x !! k = Some a -> exists a', y !! k = Some a' /\ R a a'.

Record evolves (t t' : Tables) : Prop := {
  ev_machines : rows_evolve machine_evolves (machines t) (machines t');
  ev_owners : rows_evolve owner_evolves (owners t) (owners t');
  ev_enrollments : rows_evolve enrollment_evolves (enrollments t) (enrollments t');
  ev_attempts : rows_evolve attempt_evolves (attempts t) (attempts t');
  ev_bindings : rows_evolve binding_evolves (bindings t) (bindings t');
}.

Global Instance machine_evolves_preorder : PreOrder machine_evolves.
Proof. split; [split; auto; lia | intros x y z [] []; split; eauto; try lia; congruence]. Qed.
Global Instance owner_evolves_preorder : PreOrder owner_evolves.
Proof.
  split; [split; auto; lia | intros x y z [E1 R1 C1] [E2 R2 C2]; split; try lia].
  intros E. destruct C2 as [-> | ->]; [lia | | by right]. apply C1. lia.
Qed.
Global Instance enrollment_evolves_preorder : PreOrder enrollment_evolves.
Proof. split; [by split | intros x y z [? ? ? F1] [? ? ? F2]; split; try congruence]. intros Hx. rewrite F2; [auto | rewrite F1; auto]. Qed.
Global Instance attempt_evolves_preorder : PreOrder attempt_evolves.
Proof. split; [by split | intros x y z [? ? ? F1] [? ? ? F2]; split; try congruence]. intros Hx. rewrite F2; [auto | rewrite F1; auto]. Qed.
Global Instance binding_evolves_preorder : PreOrder binding_evolves.
Proof. split; [by split | intros x y z [] []; split; try congruence; auto]. Qed.

Section rows.
Context {A : Type} (R : A -> A -> Prop) `{!PreOrder R}.

Lemma rows_refl x : rows_evolve R x x.
Proof. intros k a Hk. exists a. by split. Qed.

Lemma rows_trans x y z : rows_evolve R x y -> rows_evolve R y z -> rows_evolve R x z.
Proof.
  intros Hxy Hyz k a Hk. destruct (Hxy k a Hk) as (b & Hb & Hab).
  destruct (Hyz k b Hb) as (c & Hc & Hbc). exists c. split; [done | by etrans].
Qed.

Lemma rows_update p f x :
  (forall k a, x !! k = Some a -> p k a = true -> R a (f a)) -> rows_evolve R x (update_where p f x).
Proof.
  intros Hf k a Hk. rewrite update_where_lookup, Hk. cbn. eexists. split; [done |].
  destruct (p k a) eqn:E; [by eapply Hf | done].
Qed.

Lemma rows_alter k0 f x :
  (forall a, x !! k0 = Some a -> R a (f a)) -> rows_evolve R x (alter f k0 x).
Proof.
  intros Hf k a Hk. destruct (decide (k = k0)) as [-> | Hne].
  - exists (f a). rewrite lookup_alter_eq, Hk. split; [done | by apply Hf].
  - exists a. rewrite lookup_alter_ne by done. by split.
Qed.

Lemma rows_insert k0 b x : x !! k0 = None -> rows_evolve R x (<[k0 := b]> x).
Proof.
  intros Hn k a Hk. exists a. rewrite lookup_insert_ne by congruence. by split.
Qed.
End rows.

Lemma tables_evolve_refl t : evolves t t.
Proof. split; apply rows_refl; apply _. Qed.

Lemma tables_evolve_trans t1 t2 t3 : evolves t1 t2 -> evolves t2 t3 -> evolves t1 t3.
Proof. intros [] []. split; (eapply rows_trans; [apply _ | |]; eassumption). Qed.

Global Instance evolves_preorder : PreOrder evolves.
Proof. split; [exact tables_evolve_refl | exact tables_evolve_trans]. Qed.

Lemma evolves_machines t x : rows_evolve machine_evolves (machines t) x -> evolves t (with_machines t x).
Proof. intros Hx. split; cbn; first [exact Hx | apply rows_refl; apply _]. Qed.
Lemma evolves_owners t x : rows_evolve owner_evolves (owners t) x -> evolves t (with_owners t x).
Proof. intros Hx. split; cbn; first [exact Hx | apply rows_refl; apply _]. Qed.
Lemma evolves_enrollments t x :
  rows_evolve enrollment_evolves (enrollments t) x -> evolves t (with_enrollments t x).
Proof. intros Hx. split; cbn; first [exact Hx | apply rows_refl; apply _]. Qed.
Lemma evolves_attempts t x : rows_evolve attempt_evolves (attempts t) x -> evolves t (with_attempts t x).
Proof. intros Hx. split; cbn; first [exact Hx | apply rows_refl; apply _]. Qed.
Lemma evolves_bindings t x : rows_evolve binding_evolves (bindings t) x -> evolves t (with_bindings t x).
Proof. intros Hx. split; cbn; first [exact Hx | apply rows_refl; apply _]. Qed.

(** *** Every transaction only evolves rows *)

Lemma set_lifecycle_evolves l m : machine_evolves m (set_lifecycle l m).
Proof. split; cbn; auto; lia. Qed.
Lemma pin_evolves h m : machine_evolves m (pin h m).
Proof. split; cbn; auto; try lia. intros h' ->. done. Qed.
Lemma set_credential_evolves c r m : machine_evolves m (set_credential c r m).
Proof. split; cbn; auto; lia. Qed.
Lemma set_alias_evolves a m : machine_evolves m (set_alias a m).
Proof. split; cbn; auto; lia. Qed.
Lemma leave_route_evolves l r m :
  route_revision m <= r -> machine_evolves m (set_lifecycle l (set_route_revision r m)).
Proof. split; cbn; auto. Qed.
Lemma set_en_status_evolves s e : en_status e = Issued -> enrollment_evolves e (set_en_status s e).
Proof. split; cbn; auto. done. Qed.
Lemma set_at_status_evolves s a : at_status a = InProgress -> attempt_evolves a (set_at_status s a).
Proof. split; cbn; auto. done. Qed.
Lemma revoke_evolves b : binding_evolves b (revoke b).
Proof. split; cbn; auto. Qed.
Lemma set_owner_route_evolves r o :
  owner_revision o <= r -> owner_evolves o (set_owner_route r o).
Proof. split; cbn; auto; lia. Qed.
Lemma set_claim_evolves e c o : connection_epoch o < e -> owner_evolves o (set_claim e c o).
Proof. split; cbn; auto; lia. Qed.
Lemma drop_claim_evolves o : owner_evolves o (set_claim (connection_epoch o) None o).
Proof. split; cbn; auto; lia. Qed.

Lemma issued_row_Some digest now t eid e m :
  issued_row digest now t = Some (eid, e, m) ->
  enrollments t !! eid = Some e /\ token_digest e = digest /\ en_status e = Issued
  /\ now < token_expires_at e /\ machines t !! en_machine e = Some m /\ lifecycle m = Pending.
Proof.
  unfold issued_row. intros Hr. apply bind_Some in Hr as ([eid' e'] & Hs & Hr).
  apply bind_Some in Hr as (m' & Hm & Hr). apply select_one_Some in Hs as [Hs Hi].
  case_bool_decide as Hl; [| done]. simplify_eq. unfold is_issued in Hi. split_bools. done.
Qed.

(** What a committed acceptance did. *)
Lemma accept_body_Ok sv ok ts id digest t t' acc :
  accept_body sv ok ts id digest t = Ok (t', acc) ->
  exists eid e m,
    enrollments t !! eid = Some e /\ token_digest e = digest /\ en_status e = Issued
    /\ t_query ts < token_expires_at e
    /\ machines t !! en_machine e = Some m /\ lifecycle m = Pending
    /\ ok = true /\ deployment_matches sv (base t) = true
    /\ own_node_valid sv [Serving] (t_node ts) (base t) = true
    /\ acc = {| ae_deployment_id := sv_deployment sv; ae_machine_id := en_machine e;
                ae_attempt_id := id; ae_route_revision := route_revision m;
                ae_target_account := target_account m; ae_host_identity := host_identity m |}
    /\ exists a, at_machine a = en_machine e /\ at_enrollment a = eid
       /\ at_revision a = route_revision m /\ at_status a = InProgress
       /\ attempt_insertable id a t = true
       /\ t' = with_attempts (with_machines (with_enrollments t
                 (alter (set_en_status Consumed) eid (enrollments t)))
                 (alter (set_lifecycle Verifying) (en_machine e) (machines t)))
                 (<[id := a]> (attempts t)).
Proof.
  unfold accept_body, lock_deployment, validate_node. intros Hb. inv_ok.
  destruct v0 as [[eid e] m]. destruct (issued_row_Some _ _ _ _ _ _ H3) as (He & Hd & Hs & Hx & Hm & Hl).
  inv_ok. split_bools.
  exists eid, e, m. repeat (split; [done |]).
  match goal with Hi : attempt_insertable _ ?a _ = true |- _ => exists a end.
  by repeat (split; [done |]).
Qed.

Lemma accept_body_evolves sv ok ts id digest t t' acc :
  accept_body sv ok ts id digest t = Ok (t', acc) -> evolves t t'.
Proof.
  intros Hb. destruct (accept_body_Ok _ _ _ _ _ _ _ _ Hb)
    as (eid & e & m & He & _ & Hs & _ & Hm & _ & _ & _ & _ & _ & a & _ & _ & _ & _ & Hi & ->).
  unfold attempt_insertable in Hi. split_bools.
  etrans; [apply evolves_enrollments, rows_alter | etrans;
    [apply evolves_machines, rows_alter | apply evolves_attempts, rows_insert]].
  - apply _.
  - intros e' He'. simplify_eq. by apply set_en_status_evolves.
  - apply _.
  - intros m' _. apply set_lifecycle_evolves.
  - apply _.
  - done.
Qed.

(** What a committed activation did. *)
Lemma activate_body_Ok sv ok ts bid acc relay key host t t' u :
  activate_body sv ok ts bid acc relay key host t = Ok (t', u) ->
  exists a m b,
    attempts t !! ae_attempt_id acc = Some a /\ machines t !! ae_machine_id acc = Some m
    /\ at_machine a = ae_machine_id acc /\ at_status a = InProgress
    /\ executing a = Some (sv_incarnation sv) /\ at_revision a = route_revision m
    /\ ae_route_revision acc = route_revision m /\ lifecycle m = Verifying
    /\ is_ed25519_host_identity host = true
    /\ (host_identity m = None \/ host_identity m = Some host)
    /\ b = {| bd_machine := ae_machine_id acc; relay_id := relay; relay_public_key := key;
              bd_revision := route_revision m; bd_active := true |}
    /\ binding_insertable bid b t = true
    /\ t' = with_attempts (with_bindings (with_machines t
              (alter (pin host) (ae_machine_id acc) (machines t)))
              (<[bid := b]> (bindings t)))
              (alter (set_at_status Activated) (ae_attempt_id acc) (attempts t)).
Proof.
  unfold activate_body, lock_deployment, validate_node, activation_valid. intros Hb. inv_ok.
  split_bools.
  destruct (attempts t !! ae_attempt_id acc) as [a|] eqn:Ea; [| done].
  destruct (machines t !! ae_machine_id acc) as [m|] eqn:Em; [| done]. split_bools.
  match goal with Ha : affected _ _ = 1 |- _ => rewrite affected_key, Em in Ha end.
  destruct (pinnable (ae_route_revision acc) host m) eqn:Eg; [| done].
  pose proof Eg as Eg'. unfold pinnable in Eg'. split_bools.
  assert (Hrev : ae_route_revision acc = route_revision m) by done.
  eexists a, m, _. repeat (split; [done |]). split.
  { destruct (host_identity m); [right | by left]. split_bools. by subst. }
  split; [reflexivity |]. rewrite Hrev in *. split; [done |].
  f_equal. f_equal. f_equal. rewrite update_where_key. apply alter_ext.
  intros m' Hm'. simplify_eq. by rewrite Eg.
Qed.

Lemma activate_body_evolves sv ok ts bid acc relay key host t t' u :
  activate_body sv ok ts bid acc relay key host t = Ok (t', u) -> evolves t t'.
Proof.
  intros Hb. destruct (activate_body_Ok _ _ _ _ _ _ _ _ _ _ _ Hb)
    as (a & m & b & Ha & Hm & _ & Hs & _ & _ & _ & _ & _ & _ & _ & Hi & ->).
  unfold binding_insertable in Hi. split_bools.
  etrans; [apply evolves_machines, (rows_alter _) | etrans;
    [apply evolves_bindings, (rows_insert _) | apply evolves_attempts, (rows_alter _)]].
  - intros m' _. apply pin_evolves.
  - done.
  - intros a' Ha'. cbn in Ha'. simplify_eq. by apply set_at_status_evolves.
Qed.

Lemma fail_one_evolves r id machine revision t : evolves t (fail_one r id machine revision t).
Proof.
  assert (Hstep : evolves t (with_attempts t (update_where
            (fun k a => (k =? id) && bool_decide (at_status a = InProgress))
            (set_at_status AttemptFailed) (attempts t)))).
  { apply evolves_attempts, (rows_update _). intros k a _ Hp. split_bools.
    by apply set_at_status_evolves. }
  unfold fail_one. destruct (_ =? 1); [| done].
  etrans; [exact Hstep |]. apply evolves_machines, (rows_update _). intros k m _ _.
  apply set_lifecycle_evolves.
Qed.

Lemma foldl_preserves {A B} (P : A -> Prop) (f : A -> B -> A) l x :
  P x -> (forall a b, P a -> P (f a b)) -> P (foldl f x l).
Proof. revert x; induction l as [|b l IH]; intros x Hx Hf; cbn; auto. Qed.

Lemma recover_body_evolves sv ok ts machine t t' u :
  recover_body sv ok ts machine t = Ok (t', u) -> evolves t t'.
Proof.
  unfold recover_body. intros Hb. inv_ok. simplify_eq.
  apply (foldl_preserves (evolves t)); [done |]. intros t1 [id a] Ht.
  etrans; [exact Ht | apply fail_one_evolves].
Qed.

Lemma fail_body_evolves sv ok ts acc t t' u :
  fail_body sv ok ts acc t = Ok (t', u) -> evolves t t'.
Proof. unfold fail_body. intros Hb. inv_ok. simplify_eq. apply fail_one_evolves. Qed.

(** What a committed claim did. *)
Lemma claim_row_Some machine revision t o :
  claim_row machine revision t = Some o <->
  owners t !! machine = Some o /\ owner_revision o = revision
  /\ exists m, machines t !! machine = Some m /\ (lifecycle m = Verifying \/ lifecycle m = Active)
     /\ host_identity m <> None /\ route_revision m = revision
     /\ exists_where (fun _ b => binding_of machine revision b) (bindings t) = true.
Proof.
  unfold claim_row. rewrite bind_Some. split.
  - intros (o' & Ho & Hr). apply bind_Some in Hr as (m & Hm & Hr).
    destruct (_ && _) eqn:Eg in Hr; [| done]. simplify_eq. split_bools.
    repeat (split; [done |]). exists m. repeat (split; [try done |]); [| done].
    match goal with He : lifecycle m ∈ _ |- _ => set_unfold in He; tauto end.
  - intros (Ho & Hr & m & Hm & Hl & Hh & Hrev & Hb). exists o. split; [done |].
    rewrite bind_Some. exists m. split; [done |]. rewrite Hb, Hrev, Hr, Z.eqb_refl.
    rewrite !bool_decide_eq_true_2 by (done || (set_unfold; tauto)). done.
Qed.

Lemma claim_body_Ok sv ok ts machine connection revision t t' e :
  claim_body sv ok ts machine connection revision t = Ok (t', e) <->
  ok = true /\ deployment_matches sv (base t) = true
  /\ own_node_valid sv [Serving] (t_node ts) (base t) = true
  /\ exists o, claim_row machine revision t = Some o
     /\ owner_valid (base t) (t_query ts) o = false
     /\ e = connection_epoch o + 1 /\ e <= i64_max
     /\ t' = with_machines (with_owners t
               (alter (set_claim e (Some (sv_incarnation sv, connection))) machine (owners t)))
               (alter (fun m => if bool_decide (lifecycle m = Verifying)
                                   && (route_revision m =? revision)
                                then set_lifecycle Active m else m) machine (machines t)).
Proof.
  unfold claim_body, lock_deployment, validate_node. cbn [machines with_owners].
  split.
  - intros Hb. inv_ok. split_bools. simplify_eq.
    match goal with Hc : checked_add _ _ _ = Some _ |- _ => apply checked_add_Some in Hc as [-> Hle] end.
    repeat (split; [done |]). eexists. repeat (split; [done |]).
    by rewrite <- update_where_key.
  - intros (-> & -> & -> & o & -> & Hv & -> & Hle & ->). cbn. rewrite Hv. cbn.
    unfold checked_add. rewrite (proj2 (Z.leb_le _ _) Hle). cbn. f_equal. f_equal. f_equal.
    rewrite <- update_where_key. done.
Qed.

Lemma claim_body_evolves sv ok ts machine connection revision t t' e :
  claim_body sv ok ts machine connection revision t = Ok (t', e) -> evolves t t'.
Proof.
  intros Hb. apply claim_body_Ok in Hb as (_ & _ & _ & o & Hr & _ & -> & _ & ->).
  apply claim_row_Some in Hr as (Ho & _).
  etrans; [apply evolves_owners, (rows_alter _) | apply evolves_machines, (rows_alter _)].
  - intros o' Ho'. simplify_eq. apply set_claim_evolves. lia.
  - intros m _. destruct (_ && _); [apply set_lifecycle_evolves | done].
Qed.

Lemma release_body_evolves sv ok ts machine connection epoch t t' u :
  release_body sv ok ts machine connection epoch t = Ok (t', u) -> evolves t t'.
Proof.
  unfold release_body. intros Hb. inv_ok. simplify_eq.
  apply evolves_owners, (rows_update _). intros k o _ _. apply drop_claim_evolves.
Qed.

Lemma cancel_issued_evolves machine t : evolves t (cancel_issued machine t).
Proof.
  apply evolves_enrollments, (rows_update _). unfold issued_for. intros k e _ Hp. split_bools.
  by apply set_en_status_evolves.
Qed.

Lemma insert_enrollment_Ok id machine digest now t t' :
  insert_enrollment id machine digest now t = Ok t' ->
  enrollments t !! id = None
  /\ (forall k e, enrollments t !! k = Some e -> token_digest e <> digest)
  /\ (forall k e, enrollments t !! k = Some e -> en_machine e = machine -> en_status e <> Issued)
  /\ t' = with_enrollments t (<[id :=
            {| en_machine := machine; token_digest := digest;
               token_expires_at := now + TOKEN_TTL_SECONDS * 1000000000;
               en_status := Issued |}]> (enrollments t)).
Proof.
  unfold insert_enrollment. intros Hi. destruct (_ && _) eqn:Eg in Hi; [| done]. simplify_eq.
  split_bools. rewrite exists_where_false in *. split; [done |]. split; [| split; [| done]].
  - intros k e He. by specialize (H3 k e He); split_bools.
  - intros k e He Hm Hs. specialize (H2 k e He). cbn in H2. apply andb_false_iff in H2 as [H2|H2]; split_bools; done.
Qed.

Lemma create_body_Ok sv l0 l1 ts ids input digest t t' c :
  create_body sv l0 l1 ts ids input digest t = Ok (t', c) ->
  machines t !! id_machine ids = None /\ owners t !! id_machine ids = None
  /\ credentials t !! c = Some true
  /\ insert_enrollment (id_enrollment ids) (id_machine ids) digest (t_write ts)
       (with_owners (with_machines t
          (<[id_machine ids :=
             {| ssh_credential_id := c; alias := in_alias input; lifecycle := Pending;
                route_revision := 1; credential_revision := 1;
                target_account := in_target_account input; tmux_path := in_tmux_path input;
                tmux_socket_identity := in_socket input; host_identity := None |}]> (machines t)))
          (<[id_machine ids :=
             {| connection_epoch := 0; claimed := None; owner_revision := 1 |}]> (owners t)))
     = Ok t'.
Proof. unfold create_body. intros Hb. inv_ok. split_bools. simplify_eq. naive_solver. Qed.

Lemma create_body_evolves sv l0 l1 ts ids input digest t t' c :
  create_body sv l0 l1 ts ids input digest t = Ok (t', c) -> evolves t t'.
Proof.
  intros Hb. apply create_body_Ok in Hb as (Hm & Ho & _ & Hi).
  apply insert_enrollment_Ok in Hi as (Hn & _ & _ & ->).
  etrans; [apply evolves_machines, (rows_insert _), Hm | etrans;
    [apply evolves_owners, (rows_insert _), Ho | apply evolves_enrollments, (rows_insert _), Hn]].
Qed.

Lemma issue_body_evolves sv l0 l1 ts id machine digest t t' u :
  issue_body sv l0 l1 ts id machine digest t = Ok (t', u) -> evolves t t'.
Proof.
  unfold issue_body. intros Hb. inv_ok. simplify_eq.
  match goal with Hi : insert_enrollment _ _ _ _ _ = Ok _ |- _ =>
    apply insert_enrollment_Ok in Hi as (Hn & _ & _ & ->) end.
  etrans; [apply cancel_issued_evolves | apply evolves_enrollments, (rows_insert _), Hn].
Qed.

(** What a committed transition did. *)
Lemma transition_body_Ok sv l0 l1 ts machine target expected t t' u :
  transition_body sv l0 l1 ts machine target expected t = Ok (t', u) ->
  exists m o,
    machines t !! machine = Some m /\ owners t !! machine = Some o
    /\ lifecycle m = Active /\ route_revision m = expected_revision expected
    /\ owner_revision o = route_revision m
    /\ owner_matches sv (base t) (t_query ts) expected o = true
    /\ route_revision m + 1 <= i64_max
    /\ affected (fun _ => binding_of machine (route_revision m)) (bindings t) = 1
    /\ t' = with_machines (with_owners (cancel_issued machine (with_attempts (with_bindings t
              (update_where (fun _ => binding_of machine (route_revision m)) revoke (bindings t)))
              (update_where (fun _ => verifying_of machine) (set_at_status AttemptFailed)
                 (attempts t))))
              (alter (set_owner_route (route_revision m + 1)) machine (owners t)))
              (alter (fun m => set_lifecycle target (set_route_revision (route_revision m + 1) m))
                 machine (machines t)).
Proof.
  unfold transition_body. intros Hb. inv_ok. split_bools. simplify_eq.
  match goal with Hc : checked_add _ _ _ = Some _ |- _ => apply checked_add_Some in Hc as [-> Hle] end.
  match goal with Hm : machines t !! machine = Some ?m, Ho : owners t !! machine = Some ?o |- _ =>
    exists m, o; repeat (split; [done |]) end.
  f_equal. apply alter_ext. intros m' Hm'. cbn in Hm'. by simplify_eq.
Qed.

Lemma transition_body_evolves sv l0 l1 ts machine target expected t t' u :
  transition_body sv l0 l1 ts machine target expected t = Ok (t', u) -> evolves t t'.
Proof.
  intros Hb. apply transition_body_Ok in Hb as (m & o & Hm & Ho & _ & _ & Hr & _ & _ & _ & ->).
  etrans; [apply evolves_bindings, (rows_update _) | etrans;
    [apply evolves_attempts, (rows_update _) | etrans; [apply (cancel_issued_evolves machine) |
      etrans; [apply evolves_owners, (rows_alter _) | apply evolves_machines, (rows_alter _)]]]].
  - intros. apply revoke_evolves.
  - intros k a _ Hp. unfold verifying_of in Hp. split_bools. by apply set_at_status_evolves.
  - intros o' Ho'. cbn in Ho'. simplify_eq. apply set_owner_route_evolves. lia.
  - intros m' Hm'. cbn in Hm'. simplify_eq. apply leave_route_evolves. lia.
Qed.

Lemma run_evolves {E A} fate failed (amb : E) (body : Tables -> result E (Tables * A)) t :
  (forall t' a, body t = Ok (t', a) -> evolves t t') ->
  evolves t (fst (run fate failed amb body t)).
Proof.
  intros Hb. destruct (run_tables fate failed amb body t) as [-> | [a Ha]]; [done |].
  by eapply Hb.
Qed.

Lemma others_evolves t t' : others t t' -> evolves t t'.
Proof.
  intros [Hm Ho He Hbd Ha _]. split; rewrite ?Hm, ?Ho, ?He, ?Hbd; try (apply rows_refl; apply _).
  intros k a Hk. specialize (Ha k). rewrite Hk in Ha.
  destruct (attempts t' !! k) as [a'|]; [| done]. exists a'. split; [done |].
  destruct Ha as [-> | [? ->]]; by split.
Qed.

Lemma step_evolves w w' : world_step w w' -> evolves (tbl w) (tbl w').
Proof.
  destruct 1 as [w sv fate ok ts id token t r Hr| | | | | | | | | | | | | w t Ho]; cbn [at_tables tbl].
  - unfold accept_token in Hr. destruct (_ || _); [by simplify_eq |].
    rewrite <- (f_equal fst Hr : _ = t). apply run_evolves. intros ??. apply accept_body_evolves.
  - apply run_evolves. intros ??. apply activate_body_evolves.
  - apply run_evolves. intros ??. apply recover_body_evolves.
  - apply run_evolves. intros ??. apply fail_body_evolves.
  - unfold claim_owner. destruct (run _ _ _ _ _) as [t r] eqn:Er. cbn.
    rewrite <- (f_equal fst Er : _ = t). apply run_evolves. intros ??. apply claim_body_evolves.
  - unfold release_owner. destruct (run _ _ _ _ _) as [t r] eqn:Er. cbn.
    rewrite <- (f_equal fst Er : _ = t). apply run_evolves. intros ??. apply release_body_evolves.
  - unfold create_machine. destruct (validate_machine input); [| done].
    apply run_evolves. intros ??. apply create_body_evolves.
  - unfold rename_machine. destruct (validate_name name); [| done].
    apply run_evolves. intros t' a. unfold rename_body. intros Hb. inv_ok. simplify_eq.
    apply evolves_machines, (rows_alter _). intros m _. apply set_alias_evolves.
  - apply run_evolves. intros t' a. unfold rebind_body. intros Hb. inv_ok. simplify_eq.
    apply evolves_machines, (rows_alter _). intros m _. apply set_credential_evolves.
  - apply run_evolves. intros t' a. unfold re_enroll_disabled_body. intros Hb. inv_ok. simplify_eq.
    apply evolves_machines, (rows_update _). intros k m _ _. apply set_lifecycle_evolves.
  - apply run_evolves. intros ??. apply issue_body_evolves.
  - apply run_evolves. intros t' a. unfold cancel_body. intros Hb. inv_ok. simplify_eq.
    apply cancel_issued_evolves.
  - apply run_evolves. intros ??. apply transition_body_evolves.
  - by apply others_evolves.
Qed.

Lemma steps_evolve w w' : rtc world_step w w' -> evolves (tbl w) (tbl w').
Proof. induction 1; [done |]. etrans; [by apply step_evolves | done]. Qed.
End ownership.
