(* ===== verification/CustodyTheorems.v ===== *)
(** * CustodyTheorems: what a deployment keeps, from its first start on

    Histories interleave the bootstraps of starting nodes, the credential
    endpoints, the lease transactions of [Lease] and every transaction of
    [Authority], under a database clock that never runs back.  All nodes hold
    the same encryption key; everything else about them is arbitrary. *)

From S2P Require Import Prelude Text Contracts Binary Secrets Cluster Ssh Address Config Lease Tables Authority Ownership Custody Storage.
Import Relay Api.

(** ** Operations as data *)

Inductive CredentialOp : Type :=
| OpCreate (id : Uuid) (material : option KeyMaterial) (name : bytes)
| OpRename (id : Uuid) (name : bytes) (answer : option Store)
| OpSetDefault (id : Uuid)
| OpResetDefault (id : Uuid) (material : option KeyMaterial) (name : bytes)
| OpRetire (id : Uuid).

Definition op_id (op : CredentialOp) : Uuid :=
  match op with
  | OpCreate id _ _ | OpRename id _ _ | OpSetDefault id | OpResetDefault id _ _ | OpRetire id => id
  end.
Definition op_action (op : CredentialOp) : bytes :=
  match op with
  | OpCreate _ _ _ => lit "create" | OpRename _ _ _ => lit "rename"
  | OpSetDefault _ => lit "set_default" | OpResetDefault _ _ _ => lit "reset_default"
  | OpRetire _ => lit "retire"
  end.
Definition op_material (op : CredentialOp) : option KeyMaterial :=
  match op with OpCreate _ m _ | OpResetDefault _ m _ => m | _ => None end.

(** The randomness of the environment: a UUID and a 24-byte nonce. *)
Definition material_ok (m : option KeyMaterial) : Prop :=
  forall k, m = Some k -> length (km_nonce k) = NONCE_LENGTH.

(** What a node brings to a request: its identity, the fate of the
    transaction, the two lease checks and the clock readings. *)
Record Request : Type := {
  rq_server : Server; rq_fate : Fate; rq_l0 : bool; rq_l1 : bool; rq_instants : Instants;
}.

Section custody.
Context `{Haead : Aead} `{!AeadLaws} `{Hlower : Lower} `{Hsha : Sha256} `{Hhmac : Hmac}
  `{Hkeys : SshKeys}.
Variables (BUILD_ID key : bytes).

Definition discard {E A} (p : Store * result E A) : Store * result E unit :=
  (fst p, snd p ;; Ok tt).

Definition perform (rq : Request) (op : CredentialOp) (s : Store) : Store * result ApiError unit :=
  let '(Build_Request sv fate l0 l1 ts) := rq in
  match op with
  | OpCreate id m name => discard (create_credential sv key fate l0 l1 ts id m name s)
  | OpRename id name answer => discard (rename_credential sv fate l0 l1 ts answer id name s)
  | OpSetDefault id => set_default_credential sv fate l0 l1 ts id s
  | OpResetDefault id m name => discard (reset_default_credential sv key fate l0 l1 ts id m name s)
  | OpRetire id => retire_credential sv fate l0 l1 ts id s
  end.

Record World : Type := { now : Z; store : Store }.
Definition at_store (w : World) (s : Store) : World := {| now := now w; store := s |}.

Definition put_base (db : Database) (s : Store) : Store :=
  let t := tables s in
  put_tables {| base := db; credentials := credentials t; default_credential := default_credential t;
                machines := machines t; owners := owners t; enrollments := enrollments t;
                attempts := attempts t; bindings := bindings t |} s.

(** A lease transaction of the identity [i]. *)
Inductive LeaseOp : Type := LeaseRegister | LeaseRenew | LeaseDrain | LeaseRelease.
Definition lease_body (op : LeaseOp) (i : Identity) (now : Z) : Database -> lease_result Database :=
  match op with
  | LeaseRegister => register_body i now | LeaseRenew => renew_body i now
  | LeaseDrain => drain_body i now | LeaseRelease => Lease.release_body i
  end.

(** What the transactions of the machines leave alone. *)
Definition keeps (t t' : Tables) : Prop :=
  base t' = base t /\ credentials t' = credentials t
  /\ default_credential t' = default_credential t.

Inductive world_step : World -> World -> Prop :=
| st_time w n : now w <= n -> world_step w {| now := n; store := store w |}
| st_bootstrap w c fate fresh :
    encryption_key c = key -> material_ok (fs_material fresh) ->
    world_step w (at_store w
      (fst (initialize_or_validate BUILD_ID c fate (now w) fresh (store w))))
| st_credential w rq op : material_ok (op_material op) ->
    world_step w (at_store w (fst (perform rq op (store w))))
| st_lease w op i fate :
    world_step w (at_store w (put_base
      (fst (transact fate DatabaseError (lease_body op i (now w)) (base (tables (store w)))))
      (store w)))
| st_machines w a a' : tbl a = tables (store w) -> Ownership.world_step a a' ->
    keeps (tbl a) (tbl a') -> world_step w (at_store w (put_tables (tbl a') (store w))).

Definition empty_store : Store :=
  {| tables := {| base := {| deployment := None; nodes := ∅ |}; credentials := ∅;
                  default_credential := 0; machines := ∅; owners := ∅; enrollments := ∅;
                  attempts := ∅; bindings := ∅ |};
     rows := ∅; audit := [] |}.
Definition reachable (w : World) : Prop :=
  exists n, rtc world_step {| now := n; store := empty_store |} w.

(** ** The invariant *)

(** The envelope of a row is one that was sealed for it. *)
Definition sealed (d : Uuid) (id : Uuid) (c : CredentialRow) : Prop :=
  exists private, Secrets.open key d id (cr_envelope c) = Ok private.

Definition active_in (s : Store) (id : Uuid) : Prop := cr_active <$> rows s !! id = Some true.

Record custody_ok (s : Store) : Prop := {
  co_status : credentials (tables s) = cr_active <$> rows s;
  co_rows : forall id c, rows s !! id = Some c ->
    exists d, deployment (base (tables s)) = Some d /\ cr_deployment c = dep_id d
              /\ sealed (dep_id d) id c;
  co_default : is_Some (deployment (base (tables s))) -> active_in s (default_credential (tables s));
  co_bound : forall k m, machines (tables s) !! k = Some m -> active_in s (ssh_credential_id m);
  co_size : Z.of_nat (size (rows s)) <= MAX_CREDENTIALS;
  co_names : forall id id' c c', rows s !! id = Some c -> rows s !! id' = Some c' ->
    lower (cr_name c) = lower (cr_name c') -> id = id';
  co_protocol : forall d, deployment (base (tables s)) = Some d -> dep_protocol d = 1;
}.

Lemma custody_ok_empty : custody_ok empty_store.
Proof. split; cbn; done. Qed.

(** ** Rows *)

(** The invariant is about the tables and the rows only. *)
Lemma custody_audit s s' :
  tables s' = tables s -> rows s' = rows s -> custody_ok s -> custody_ok s'.
Proof.
  intros Ht Hr []. unfold active_in in *. split; unfold active_in; rewrite ?Ht, ?Hr; eauto.
Qed.

Lemma append_audit_Ok d kind m c action s s' :
  append_audit d kind m c action s = Ok s' ->
  s' = {| tables := tables s; rows := rows s;
          audit := {| au_deployment := d; au_kind := kind; au_machine := m; au_credential := c;
                      au_action := action; au_outcome := lit "success" |} :: audit s |}.
Proof. unfold append_audit, append_audit_outcome, insert_audit. intros Ha. inv_ok. done. Qed.

Lemma custody_put s d id c :
  custody_ok s -> deployment (base (tables s)) = Some d -> cr_deployment c = dep_id d ->
  sealed (dep_id d) id c -> Z.of_nat (size (<[id := c]> (rows s))) <= MAX_CREDENTIALS ->
  (forall k x, rows s !! k = Some x -> lower (cr_name x) = lower (cr_name c) -> k = id) ->
  (cr_active c = true \/ default_credential (tables s) <> id
     /\ forall k m, machines (tables s) !! k = Some m -> ssh_credential_id m <> id) ->
  custody_ok (put_rows (<[id := c]> (rows s)) s).
Proof.
  intros [Hst Hrows Hdef Hbound Hsize Hnames Hproto] Hd Hc Hseal Hlen Hfresh Hkeep.
  assert (Hact : forall x, active_in s x -> cr_active c = true \/ x <> id ->
            active_in (put_rows (<[id := c]> (rows s)) s) x).
  { intros x Hx Ho. unfold active_in in *. cbn. destruct (decide (x = id)) as [-> | Hne].
    - rewrite lookup_insert_eq. destruct Ho; [cbn; congruence | done].
    - by rewrite lookup_insert_ne by congruence. }
  split; cbn; try done.
  - intros k x [[-> ->] | [Hne Hk]]%lookup_insert_Some; [by exists d | by apply Hrows].
  - intros Hs. apply Hact; [by apply Hdef | naive_solver].
  - intros k m Hk. apply Hact; [by eapply Hbound | naive_solver].
  - intros k k' x x' [[-> ->] | [Hne Hk]]%lookup_insert_Some
      [[-> ->] | [Hne' Hk']]%lookup_insert_Some Hl; eauto using eq_sym.
Qed.

Lemma custody_default s id :
  custody_ok s -> active_in s id -> custody_ok (put_tables (with_default (tables s) id) s).
Proof. intros [] Ha. split; cbn; eauto. Qed.

(** Only the identity of the deployment matters, not its configuration. *)
Lemma custody_base s db :
  (fun d => (dep_id d, dep_protocol d)) <$> deployment db
    = (fun d => (dep_id d, dep_protocol d)) <$> deployment (base (tables s)) ->
  custody_ok s -> custody_ok (put_base db s).
Proof.
  intros Hd []. split; cbn; eauto.
  - intros id c Hid. destruct (co_rows0 id c Hid) as (d & Ed & Hc & Hs).
    rewrite Ed in Hd. destruct (deployment db) as [d'|]; [| done]. exists d'.
    cbn in Hd. injection Hd as Hd _. by rewrite Hd.
  - intros Hs. apply co_default0. destruct (deployment db), (deployment (base (tables s)));
      naive_solver.
  - intros d Ed. rewrite Ed in Hd. destruct (deployment (base (tables s))) as [d'|]; [| done].
    injection Hd as _ ->. by apply co_protocol0.
Qed.

Lemma insert_credential_Some id d name g t s s' :
  insert_credential id d name g t s = Some s' ->
  exists c, s' = put_rows (<[id := c]> (rows s)) s /\ rows s !! id = None
    /\ cr_deployment c = d /\ cr_name c = name /\ cr_envelope c = gc_envelope g
    /\ cr_active c = true
    /\ forall k x, rows s !! k = Some x -> cr_deployment x = d ->
         lower (cr_name x) = lower name -> k = id.
Proof.
  unfold insert_credential. destruct (credential_insertable _ _ _ _ _) eqn:E; [| done].
  intros [= <-]. unfold credential_insertable, name_taken in E. split_bools.
  eexists. split; [done |]. cbn. split_and!; try done.
  intros k x Hk Hd Hn. rewrite exists_where_false in *.
  match goal with H : forall k a, _ -> _ = false |- _ => specialize (H k x Hk) end.
  destruct (decide (k = id)); [done |]. subst d. rewrite Z.eqb_refl in *.
  rewrite bool_decide_true in * by done. rewrite (proj2 (Z.eqb_neq k id)) in * by done. done.
Qed.

Lemma generate_sealed d id m g :
  generate_credential key d id m = Ok g -> material_ok m ->
  exists private, Secrets.open key d id (gc_envelope g) = Ok private.
Proof.
  unfold generate_credential. intros Hg Hm. inv_ok. exists (km_private v).
  apply open_seal_iff. eauto.
Qed.

(** ** What an operation does *)

Lemma run_cases {S E A} fate failed (amb : E) (body : S -> result E (S * A)) s s' r :
  run fate failed amb body s = (s', r) ->
  (s' = s /\ exists e, r = Err e)
  \/ exists a, body s = Ok (s', a) /\ (r = Ok a \/ fate = CommitUnseen /\ r = Err amb).
Proof. destruct fate; cbn; try destruct (body s) as [[? ?]|?]; naive_solver. Qed.

Lemma lock_current_deployment_Ok sv l0 l1 t db u :
  lock_current_deployment sv l0 l1 t db = Ok u ->
  exists d, deployment db = Some d /\ dep_id d = sv_deployment sv.
Proof.
  unfold lock_current_deployment, deployment_matches. intros Hl. inv_ok. split_bools.
  destruct (deployment db) as [d|]; [| done]. split_bools. eauto.
Qed.

(** The tables and rows after the commit, before the audit event. *)
Definition change (op : CredentialOp) (d : Uuid) (s s1 : Store) : Prop :=
  match op with
  | OpCreate id m name =>
      exists g t, generate_credential key d id m = Ok g
        /\ affected (fun _ c => cr_deployment c =? d) (rows s) < MAX_CREDENTIALS
        /\ insert_credential id d name g t s = Some s1
  | OpRename id name _ =>
      exists c, rows s !! id = Some c /\ name_taken (cr_deployment c) id name (rows s) = false
        /\ s1 = put_rows (<[id := set_name name c]> (rows s)) s
  | OpSetDefault id => active_in s id /\ s1 = put_tables (with_default (tables s) id) s
  | OpResetDefault id m name =>
      exists g t s0, generate_credential key d id m = Ok g
        /\ affected (fun _ c => cr_deployment c =? d) (rows s) < MAX_CREDENTIALS
        /\ insert_credential id d name g t s = Some s0
        /\ s1 = put_tables (with_default (tables s0) id) s0
  | OpRetire id =>
      exists c, rows s !! id = Some c /\ retirable id c (tables s) = true
        /\ s1 = put_rows (<[id := set_retired c]> (rows s)) s
  end.

Definition op_event (op : CredentialOp) (d : Uuid) : AuditRow :=
  {| au_deployment := d; au_kind := lit "ssh_credential"; au_machine := None;
     au_credential := Some (op_id op); au_action := op_action op; au_outcome := lit "success" |}.

(** The committed effect: the change and one audit event, by a server of the
    stored deployment. *)
Definition effect (sv : Server) (op : CredentialOp) (s s' : Store) : Prop :=
  exists d s1, deployment (base (tables s)) = Some d /\ dep_id d = sv_deployment sv
    /\ change op (dep_id d) s s1
    /\ s' = {| tables := tables s1; rows := rows s1; audit := op_event op (dep_id d) :: audit s |}.

Lemma change_audit op d s s1 : change op d s s1 -> audit s1 = audit s.
Proof.
  assert (Hins : forall id d name g t s0, insert_credential id d name g t s = Some s0 ->
            audit s0 = audit s).
  { intros * (c & -> & _)%insert_credential_Some. done. }
  destruct op; cbn; naive_solver.
Qed.

Lemma effect_intro sv op s s1 s' d :
  deployment (base (tables s)) = Some d -> dep_id d = sv_deployment sv ->
  change op (dep_id d) s s1 -> audited sv (op_id op) (op_action op) s1 = Ok s' ->
  effect sv op s s'.
Proof.
  unfold audited. intros Hd Hid Hc Ha. apply map_err_Ok, append_audit_Ok in Ha as ->.
  exists d, s1. rewrite (change_audit _ _ _ _ Hc), <- Hid. done.
Qed.

Ltac committed :=
  intros; inv_ok; simplify_eq;
  match goal with Hl : lock_current_deployment _ _ _ _ _ = Ok _ |- _ =>
    let d := fresh "d" in apply lock_current_deployment_Ok in Hl as (d & ? & ?);
    eapply (effect_intro _ _ _ _ _ d); [eassumption | eassumption | | eassumption] end;
  cbn [change]; unfold enforce_credential_limit in *; inv_ok; split_bools;
  repeat match goal with Hd : dep_id _ = _ |- _ => rewrite Hd in *; clear Hd end.

Lemma create_effect sv l0 l1 ts id m name g s s' u :
  generate_credential key (sv_deployment sv) id m = Ok g ->
  create_credential_body sv l0 l1 ts id name g s = Ok (s', u) -> effect sv (OpCreate id m name) s s'.
Proof. unfold create_credential_body. committed. exists g, (t_write ts). naive_solver. Qed.

Lemma rename_effect sv l0 l1 ts id name answer s s' u :
  rename_credential_body sv l0 l1 ts id name s = Ok (s', u) -> effect sv (OpRename id name answer) s s'.
Proof. unfold rename_credential_body. committed. eauto. Qed.

Lemma set_default_effect sv l0 l1 ts id s s' u :
  set_default_body sv l0 l1 ts id s = Ok (s', u) -> effect sv (OpSetDefault id) s s'.
Proof. unfold set_default_body. committed. done. Qed.

Lemma reset_default_effect sv l0 l1 ts id m name g s s' u :
  generate_credential key (sv_deployment sv) id m = Ok g ->
  reset_default_body sv l0 l1 ts id name g s = Ok (s', u) ->
  effect sv (OpResetDefault id m name) s s'.
Proof. unfold reset_default_body. committed. exists g, (t_write ts). naive_solver. Qed.

Lemma retire_effect sv l0 l1 ts id s s' u :
  retire_body sv l0 l1 ts id s = Ok (s', u) -> effect sv (OpRetire id) s s'.
Proof. unfold retire_body. committed. eauto. Qed.

Ltac outcome Hp :=
  match type of Hp with
  | context [run ?f ?g ?a ?b ?s] =>
      let E := fresh "Erun" in destruct (run f g a b s) as [? ?] eqn:E; apply run_cases in E
  end;
  cbn [fst snd] in Hp; simplify_eq.

(** Every outcome of an operation. *)
Lemma perform_cases rq op s s' r :
  perform rq op s = (s', r) ->
  (s' = s /\ exists e, r = Err e)
  \/ effect (rq_server rq) op s s'
     /\ (r = Ok tt \/ rq_fate rq = CommitUnseen /\ r = Err OperationAmbiguous
         \/ exists id name answer e, op = OpRename id name answer
             /\ credential_by_id answer id = Err e /\ r = Err e).
Proof.
  destruct rq as [sv fate l0 l1 ts]. unfold perform, discard. cbn [rq_server rq_fate].
  destruct op as [id m name | id name answer | id | id m name | id]; intros Hp.
  - unfold create_credential in Hp. destruct (validate_name name); [| naive_solver].
    destruct (map_err _ _) as [g|] eqn:Eg; [| naive_solver]. apply map_err_Ok in Eg.
    outcome Hp. destruct Erun as [[-> [e ->]] | ([] & Hb & Hr)]; [left; eauto |].
    right. split; [by eapply create_effect | naive_solver].
  - unfold rename_credential in Hp. destruct (validate_name name); [| naive_solver].
    outcome Hp. destruct Erun as [[-> [e ->]] | ([] & Hb & Hr)]; [left; eauto |].
    right. split; [by eapply rename_effect |].
    destruct Hr as [-> | [-> ->]]; [| naive_solver].
    destruct (credential_by_id answer id) eqn:Ec; cbn; [by left |]. right; right. naive_solver.
  - unfold set_default_credential in Hp. apply run_cases in Hp as [? | ([] & Hb & Hr)]; [by left |].
    right. split; [by eapply set_default_effect | naive_solver].
  - unfold reset_default_credential in Hp. destruct (validate_name name); [| naive_solver].
    destruct (map_err _ _) as [g|] eqn:Eg; [| naive_solver]. apply map_err_Ok in Eg.
    outcome Hp. destruct Erun as [[-> [e ->]] | ([] & Hb & Hr)]; [left; eauto |].
    right. split; [by eapply reset_default_effect | naive_solver].
  - unfold retire_credential in Hp. apply run_cases in Hp as [? | ([] & Hb & Hr)]; [by left |].
    right. split; [by eapply retire_effect | naive_solver].
Qed.

(** ** The invariant is preserved *)

Lemma affected_all {A} (p : Z -> A -> bool) m :
  (forall k a, m !! k = Some a -> p k a = true) -> affected p m = Z.of_nat (size m).
Proof.
  intros Hp. unfold affected, select, zlen. rewrite <- length_map_to_list.
  assert (Hall : Forall (fun ka => p ka.1 ka.2 = true) (map_to_list m)).
  { apply Forall_forall. intros [k a] Hin%elem_of_map_to_list. by apply Hp. }
  do 2 f_equal. induction Hall as [|[k a] l Hx _ IH]; [done |].
  by rewrite filter_cons_True, IH.
Qed.

Lemma custody_insert s d id m name g t s' :
  custody_ok s -> deployment (base (tables s)) = Some d -> material_ok m ->
  generate_credential key (dep_id d) id m = Ok g ->
  affected (fun _ c => cr_deployment c =? dep_id d) (rows s) < MAX_CREDENTIALS ->
  insert_credential id (dep_id d) name g t s = Some s' -> custody_ok s' /\ active_in s' id.
Proof.
  intros Hok Hd Hm Hg Hlt Hi. pose proof Hok as [_ Hrows _ _ _ _ _].
  apply insert_credential_Some in Hi as (c & -> & Hnone & Hc & Hname & Henv & Hact & Hfresh).
  rewrite affected_all in Hlt.
  2:{ intros k x Hk. destruct (Hrows k x Hk) as (d' & Ed & -> & _). simplify_eq. apply Z.eqb_refl. }
  split; [| unfold active_in; cbn; by rewrite lookup_insert_eq; cbn; rewrite Hact].
  apply (custody_put _ d); auto.
  - unfold sealed. rewrite Henv. by eapply generate_sealed.
  - rewrite map_size_insert_None by done. lia.
  - intros k x Hk Hl. apply (Hfresh k x Hk); [| congruence].
    destruct (Hrows k x Hk) as (d' & Ed & -> & _). congruence.
Qed.

Lemma custody_update s id c c' :
  custody_ok s -> rows s !! id = Some c -> cr_deployment c' = cr_deployment c ->
  cr_envelope c' = cr_envelope c -> 
  (cr_name c' = cr_name c \/ name_taken (cr_deployment c) id (cr_name c') (rows s) = false) ->
  (cr_active c' = cr_active c \/ retirable id c (tables s) = true) ->
  custody_ok (put_rows (<[id := c']> (rows s)) s).
Proof.
  intros Hok Hid Hdep Henv Hname Hact. pose proof Hok as [_ Hrows _ Hbound Hsize Hnames _].
  destruct (Hrows id c Hid) as (d & Ed & Hd & Hseal).
  apply (custody_put _ d); auto; try congruence.
  - unfold sealed in *. by rewrite Henv.
  - by rewrite map_size_insert_Some by eauto.
  - intros k x Hk Hl. destruct Hname as [He | Hfree]; [rewrite He in Hl; by eapply Hnames |].
    unfold name_taken in Hfree. rewrite exists_where_false in Hfree. specialize (Hfree k x Hk).
    destruct (Hrows k x Hk) as (d' & Ed' & Hx & _).
    destruct (decide (k = id)); [done |]. exfalso. cbn in Hfree.
    rewrite (proj2 (Z.eqb_neq k id)), (proj2 (Z.eqb_eq _ _)), bool_decide_true in Hfree
      by congruence. done.
  - destruct (cr_active c') eqn:E; [by left | right].
    assert (Hdead : active_in s id -> retirable id c (tables s) = true).
    { unfold active_in. rewrite Hid. cbn. intros. destruct Hact; congruence. }
    unfold retirable in Hdead. split.
    + intros <-. specialize (Hdead (co_default _ Hok ltac:(rewrite Ed; eauto))). split_bools.
      rewrite bool_decide_true, Z.eqb_refl in * by (rewrite Ed; eauto). done.
    + intros k m Hm <-. specialize (Hdead (Hbound k m Hm)). split_bools.
      rewrite exists_where_false in *.
      match goal with Hx : forall k a, _ -> _ = false |- _ => specialize (Hx k m Hm) end.
      rewrite Z.eqb_refl in *. done.
Qed.

Lemma custody_effect sv op s s' :
  material_ok (op_material op) -> custody_ok s -> effect sv op s s' -> custody_ok s'.
Proof.
  intros Hm Hok (d & s1 & Hd & _ & Hc & ->). apply (custody_audit s1); [done | done |].
  destruct op; cbn in Hc, Hm.
  - destruct Hc as (g & t & Hg & Hlt & Hi). by eapply custody_insert.
  - destruct Hc as (c & Hid & Hn & ->). eapply custody_update; eauto.
  - destruct Hc as [Ha ->]. by apply custody_default.
  - destruct Hc as (g & t & s0 & Hg & Hlt & Hi & ->).
    apply custody_default; by eapply custody_insert.
  - destruct Hc as (c & Hid & Hn & ->). eapply custody_update; eauto.
Qed.

(** The stored deployment row of a configuration. *)
Definition stored (c : Config) (d : DeploymentRow) : Prop :=
  dep_epoch d = epoch c /\ dep_build d = BUILD_ID /\ dep_profile d = cf_profile c
  /\ dep_proof d = expected_proof BUILD_ID c (dep_id d).

Lemma stored_check c d :
  negb (bool_decide (dep_build d = BUILD_ID)) || negb (bool_decide (dep_profile d = cf_profile c))
  || negb (bool_decide (dep_proof d = expected_proof BUILD_ID c (dep_id d))) = false
  /\ dep_epoch d = epoch c <-> stored c d.
Proof. unfold stored. split; [intros [? ?]; split_bools; naive_solver |].
  intros (-> & Hb & Hp & Hf). by rewrite !bool_decide_true. Qed.

Definition next_row (c : Config) (d : DeploymentRow) : DeploymentRow :=
  {| dep_id := dep_id d; dep_epoch := epoch c; dep_build := BUILD_ID;
     dep_protocol := dep_protocol d; dep_profile := cf_profile c;
     dep_proof := expected_proof BUILD_ID c (dep_id d) |}.
Definition deployment_event (d : Uuid) (action : bytes) : AuditRow :=
  {| au_deployment := d; au_kind := lit "deployment"; au_machine := None; au_credential := None;
     au_action := action; au_outcome := lit "success" |}.

Lemma append_deployment_audit d action s :
  dep_id <$> deployment (base (tables s)) = Some d -> in_range 1 64 (zlen action) = true ->
  append_audit d (lit "deployment") None None action s
  = Ok {| tables := tables s; rows := rows s; audit := deployment_event d action :: audit s |}.
Proof.
  intros Hd Ha. unfold append_audit, append_audit_outcome, insert_audit, audit_insertable.
  cbn [au_deployment au_kind au_machine au_credential au_action au_outcome].
  rewrite (bool_decide_true _ Hd), Ha. reflexivity.
Qed.

(** A later start: the stored configuration, or the next epoch. *)
Lemma validate_body_exact c t d s s' id :
  deployment (base (tables s)) = Some d ->
  validate_body BUILD_ID c t d s = Ok (s', id) <->
  id = dep_id d /\ validate_credential_custody c (dep_id d) s = Ok tt
  /\ (stored c d /\ s' = s
      \/ epoch c = dep_epoch d + 1 /\ another_valid (base (tables s)) t = false
         /\ s' = {| tables := tables (put_deployment (next_row c d) s); rows := rows s;
                    audit := deployment_event (dep_id d) (lit "configuration_transition")
                             :: audit s |}).
Proof.
  intros Hd. unfold validate_body.
  destruct (validate_credential_custody c (dep_id d) s) as [[]|e]; [| cbn; naive_solver].
  cbn [mbind result_bind]. destruct (Z.eqb_spec (dep_epoch d) (epoch c)) as [He | He].
  - pose proof (stored_check c d) as Hs. destruct (_ || _); cbn.
    + split; [done |]. intros (_ & _ & [[Hst _] | [? _]]); [| lia].
      apply Hs in Hst as [? _]. done.
    + assert (stored c d) by (by apply Hs). split; [intros [= <- <-]; auto |].
      intros (-> & _ & [[_ ->] | [? _]]); [done | lia].
  - assert (~ stored c d) by (unfold stored; tauto).
    destruct (Z.eqb_spec (epoch c) (dep_epoch d + 1)); [| cbn; naive_solver].
    destruct (another_valid _ _); cbn [fail_if mbind result_bind]; [naive_solver |].
    rewrite append_deployment_audit by done. cbn. naive_solver.
Qed.

Lemma unborn_empty s :
  custody_ok s -> deployment (base (tables s)) = None -> rows s = ∅ /\ machines (tables s) = ∅.
Proof.
  intros [_ Hrows _ Hbound _ _ _] Hd.
  assert (Hr : rows s = ∅).
  { apply map_eq. intros id. rewrite lookup_empty. destruct (rows s !! id) as [c|] eqn:E; [| done].
    destruct (Hrows id c E) as (d & Ed & _). congruence. }
  split; [done |]. apply map_eq. intros k. rewrite lookup_empty.
  destruct (machines (tables s) !! k) as [m|] eqn:E; [| done].
  specialize (Hbound k m E). unfold active_in in Hbound. by rewrite Hr, lookup_empty in Hbound.
Qed.

(** A first start leaves one deployment with one active credential. *)
Lemma initialize_body_Ok c t fresh s s' id :
  custody_ok s -> deployment (base (tables s)) = None -> encryption_key c = key ->
  material_ok (fs_material fresh) -> initialize_body BUILD_ID c t fresh s = Ok (s', id) ->
  id = fs_deployment fresh /\ deployment (base (tables s')) = Some (expected_row BUILD_ID c id)
  /\ nodes (base (tables s')) = nodes (base (tables s)) /\ custody_ok s'
  /\ audit s' = {| au_deployment := id; au_kind := lit "ssh_credential"; au_machine := None;
                   au_credential := Some (fs_credential fresh); au_action := lit "create_default";
                   au_outcome := lit "success" |}
               :: deployment_event id (lit "initialize") :: audit s.
Proof.
  intros Hok Hd Hkey Hm Hb. destruct (unborn_empty s Hok Hd) as [Hr Hma].
  unfold initialize_body in Hb. inv_ok. rewrite Hkey in *. clear Hkey. simplify_eq.
  match goal with Hg : generate_credential _ _ _ _ = Ok _ |- _ =>
    pose proof (generate_sealed _ _ _ _ Hg Hm) as Hseal end.
  match goal with Hi : insert_credential _ _ _ _ _ _ = Some _ |- _ =>
    apply insert_credential_Some in Hi as (x & -> & _ & Hx & Hn & He & Ha & _) end.
  repeat match goal with Hq : append_audit _ _ _ _ _ _ = Ok _ |- _ =>
    apply append_audit_Ok in Hq as -> end.
  cbn. split_and!; try done. rewrite Hr.
  split; cbn; rewrite ?Hma; unfold active_in; cbn; try done.
  - intros k y [[<- <-] | [_ Hk]]%lookup_insert_Some; [| by rewrite lookup_empty in Hk].
    eexists. split; [done |]. cbn. split; [done |]. unfold sealed. by rewrite He.
  - intros _. rewrite lookup_insert_eq. cbn. by rewrite Ha.
  - by rewrite map_size_insert_None.
  - intros k k' y y' [[<- _] | [_ Hk]]%lookup_insert_Some
      [[<- _] | [_ Hk']]%lookup_insert_Some _; try done; by rewrite lookup_empty in *.
  - by intros d [= <-].
Qed.

Lemma put_deployment_base d s :
  put_deployment d s = put_base {| deployment := Some d; nodes := nodes (base (tables s)) |} s.
Proof. done. Qed.

(** A start, whatever becomes of its transaction. *)
Lemma bootstrap_custody c fate t fresh s :
  custody_ok s -> encryption_key c = key -> material_ok (fs_material fresh) ->
  custody_ok (fst (initialize_or_validate BUILD_ID c fate t fresh s)).
Proof.
  intros Hok Hkey Hm. unfold initialize_or_validate.
  match goal with |- context [run ?f ?g ?a ?b ?s] =>
    destruct (run_tables f g a b s) as [-> | [id Hb]]; [done |];
    set (s' := fst (run f g a b s)) in * end.
  cbv beta in Hb. destruct (deployment (base (tables s))) as [d|] eqn:Ed.
  - apply validate_body_exact in Hb as (_ & _ & [[_ ->] | (_ & _ & ->)]); [done | | done].
    apply (custody_audit (put_deployment (next_row c d) s)); [done | done |].
    rewrite put_deployment_base. apply custody_base; [| done]. by rewrite Ed.
  - by apply (initialize_body_Ok c t fresh s s' id).
Qed.

(** ** The credential a machine is bound to *)

Definition bound_credential (t : Tables) (k : Z) : option Uuid :=
  ssh_credential_id <$> machines t !! k.
Definition same_bound (t t' : Tables) : Prop :=
  forall k, bound_credential t' k = bound_credential t k.

Lemma same_bound_machines t t' : machines t' = machines t -> same_bound t t'.
Proof. intros Hm k. unfold bound_credential. by rewrite Hm. Qed.

Lemma same_bound_alter t t' f k0 :
  (forall m, ssh_credential_id (f m) = ssh_credential_id m) ->
  machines t' = alter f k0 (machines t) -> same_bound t t'.
Proof.
  intros Hf Hm k. unfold bound_credential. rewrite Hm. destruct (decide (k = k0)) as [-> |].
  - rewrite lookup_alter_eq. destruct (machines t !! k0); cbn; [by rewrite Hf | done].
  - by rewrite lookup_alter_ne.
Qed.

Lemma same_bound_update t t' p f :
  (forall m, ssh_credential_id (f m) = ssh_credential_id m) ->
  machines t' = update_where p f (machines t) -> same_bound t t'.
Proof.
  intros Hf Hm k. unfold bound_credential. rewrite Hm, update_where_lookup.
  destruct (machines t !! k) as [m|]; cbn; [| done]. destruct (p k m); [by rewrite Hf | done].
Qed.

Lemma fail_one_bound r id machine revision t : same_bound t (fail_one r id machine revision t).
Proof.
  unfold fail_one. destruct (_ =? 1); [| by apply same_bound_machines].
  eapply same_bound_update; [| reflexivity]; done.
Qed.

Lemma recover_body_bound sv ok ts machine t t' u :
  recover_body sv ok ts machine t = Ok (t', u) -> same_bound t t'.
Proof.
  unfold recover_body. intros Hb. inv_ok. simplify_eq.
  apply (foldl_preserves (same_bound t)); [done |]. intros t1 [id a] Ht k.
  rewrite <- (Ht k). apply fail_one_bound.
Qed.

(** A machine keeps its credential or gets one that is active. *)
Definition binds (t t' : Tables) : Prop :=
  forall k c, bound_credential t' k = Some c ->
    bound_credential t k = Some c \/ credentials t !! c = Some true.

Lemma same_binds t t' : same_bound t t' -> binds t t'.
Proof. intros Hs k c Hc. left. by rewrite <- Hs. Qed.

Lemma run_binds {E A} fate failed (amb : E) (body : Tables -> result E (Tables * A)) t :
  (forall t' a, body t = Ok (t', a) -> binds t t') -> binds t (fst (run fate failed amb body t)).
Proof.
  intros Hb. destruct (run_tables fate failed amb body t) as [-> | [a Ha]]; [| by eapply Hb].
  by apply same_binds, same_bound_machines.
Qed.

Lemma create_body_binds sv l0 l1 ts ids input digest t t' c :
  create_body sv l0 l1 ts ids input digest t = Ok (t', c) -> binds t t'.
Proof.
  intros (Hm & _ & Hc & Hi)%create_body_Ok k x. apply insert_enrollment_Ok in Hi as (_ & _ & _ & ->).
  unfold bound_credential. cbn. destruct (decide (k = id_machine ids)) as [-> |].
  - rewrite lookup_insert_eq. cbn. intros [= <-]. by right.
  - rewrite lookup_insert_ne by done. by left.
Qed.

Lemma rebind_body_binds sv l0 l1 ts machine credential t t' u :
  rebind_body sv l0 l1 ts machine credential t = Ok (t', u) -> binds t t'.
Proof.
  unfold rebind_body. intros Hb k x. inv_ok. split_bools. simplify_eq.
  unfold bound_credential. cbn. destruct (decide (k = machine)) as [-> |].
  - rewrite lookup_alter_eq. destruct (machines t !! machine); [| done].
    cbn. intros [= <-]. by right.
  - rewrite lookup_alter_ne by done. by left.
Qed.

Lemma machines_step_binds a a' : Ownership.world_step a a' -> binds (tbl a) (tbl a').
Proof.
  destruct 1 as [a sv fate ok ts id token t r Hr| | | | | | | | | | | | | a t Ho];
    cbn [at_tables tbl].
  - unfold accept_token in Hr. destruct (_ || _); [by simplify_eq; apply same_binds |].
    rewrite <- (f_equal fst Hr : _ = t). apply run_binds.
    intros t' acc (eid & e & m & _ & _ & _ & _ & _ & _ & _ & _ & _ & _ & x & _ & _ & _ & _ & _ & ->)%accept_body_Ok.
    apply same_binds. eapply same_bound_alter; [| reflexivity]; done.
  - apply run_binds. intros t' u (x & m & b & Hb)%activate_body_Ok. destruct_and!. subst.
    apply same_binds. eapply same_bound_alter; [| reflexivity]; done.
  - apply run_binds. intros t' u Hb. by eapply same_binds, recover_body_bound.
  - apply run_binds. intros t' u Hb. unfold fail_body in Hb. inv_ok. simplify_eq.
    apply same_binds, fail_one_bound.
  - unfold claim_owner. destruct (run _ _ _ _ _) as [t r] eqn:Er. cbn.
    rewrite <- (f_equal fst Er : _ = t). apply run_binds.
    intros t' u (_ & _ & _ & o & _ & _ & _ & _ & ->)%claim_body_Ok.
    apply same_binds. eapply same_bound_alter; [| reflexivity]. intros m. cbn. by destruct (_ && _).
  - unfold release_owner. destruct (run _ _ _ _ _) as [t r] eqn:Er. cbn.
    rewrite <- (f_equal fst Er : _ = t). apply run_binds. intros t' u Hb.
    unfold release_body in Hb. inv_ok. simplify_eq. by apply same_binds, same_bound_machines.
  - unfold create_machine. destruct (validate_machine input); [| by apply same_binds].
    apply run_binds. intros ??. apply create_body_binds.
  - unfold rename_machine. destruct (validate_name name); [| by apply same_binds].
    apply run_binds. intros t' u Hb. unfold rename_body in Hb. inv_ok. simplify_eq.
    apply same_binds. eapply same_bound_alter; [| reflexivity]; done.
  - apply run_binds. intros ??. apply rebind_body_binds.
  - apply run_binds. intros t' u Hb. unfold re_enroll_disabled_body in Hb. inv_ok. simplify_eq.
    apply same_binds. eapply same_bound_update; [| reflexivity]; done.
  - apply run_binds. intros t' u Hb. unfold issue_body in Hb. inv_ok. simplify_eq.
    match goal with Hi : insert_enrollment _ _ _ _ _ = Ok _ |- _ =>
      apply insert_enrollment_Ok in Hi as (_ & _ & _ & ->) end.
    by apply same_binds, same_bound_machines.
  - apply run_binds. intros t' u Hb. unfold cancel_body in Hb. inv_ok. simplify_eq.
    by apply same_binds, same_bound_machines.
  - apply run_binds. intros t' u (m & o & Hb)%transition_body_Ok. destruct_and!. subst.
    apply same_binds. eapply same_bound_alter; [| reflexivity]; done.
  - apply same_binds, same_bound_machines, Ho.
Qed.

(** ** Every step *)

Lemma lease_body_deployment op i t db db' :
  lease_body op i t db = Ok db' -> deployment db' = deployment db.
Proof.
  destruct op; cbn; unfold register_body, renew_body, drain_body, Lease.release_body;
    intros Hb; inv_ok; try done; by destruct (nodes db !! incarnation_id i); inv_ok.
Qed.

Lemma lease_deployment op i fate t db :
  deployment (fst (transact fate DatabaseError (lease_body op i t) db)) = deployment db.
Proof.
  destruct fate; cbn; try done;
    destruct (lease_body op i t db) as [db'|] eqn:E; cbn; try done;
    by eapply lease_body_deployment.
Qed.

Lemma custody_step w w' : custody_ok (store w) -> world_step w w' -> custody_ok (store w').
Proof.
  intros Hok Hstep. revert Hok.
  destruct Hstep as [w0 n _ | w0 c fate fresh Hkey Hm | w0 rq op Hm | w0 op i fate
                    | w0 a a' Ha Hst Hk]; cbn [at_store store]; intros Hok.
  - done.
  - by apply bootstrap_custody.
  - destruct (perform rq op (store w0)) as [s' r] eqn:E.
    apply perform_cases in E as [[-> _] | [He _]]; [done |]. by eapply custody_effect.
  - apply custody_base; [| done]. by rewrite lease_deployment.
  - destruct Hk as (Hbase & Hcred & Hdef). pose proof (machines_step_binds _ _ Hst) as Hb.
    rewrite Ha in *. destruct Hok as [Hs Hr Hd Hbd Hsz Hn Hp].
    split; cbn; unfold active_in in *; cbn; rewrite ?Hbase, ?Hcred, ?Hdef; auto.
    intros k m Hm. destruct (Hb k (ssh_credential_id m)) as [Hold | Hact].
    + unfold bound_credential. by rewrite Hm.
    + unfold bound_credential in Hold. apply fmap_Some in Hold as (m0 & Hm0 & ->).
      by apply (Hbd k).
    + by rewrite Hs, lookup_fmap in Hact.
Qed.

(** ** The custody check *)

Definition opens_all (k : bytes) (d : Uuid) (s : Store) : Prop :=
  forall id c, rows s !! id = Some c -> cr_active c = true ->
    exists private, Secrets.open k d id (cr_envelope c) = Ok private.

Lemma open_all_spec k d l :
  open_all k d l = Ok tt <->
  forall id c, (id, c) ∈ l -> exists private, Secrets.open k d id (cr_envelope c) = Ok private.
Proof.
  induction l as [|[id c] l IH]; cbn.
  - split; [intros _ ??; by intros ?%elem_of_nil | done].
  - destruct (Secrets.open k d id (cr_envelope c)) as [p|e] eqn:E; cbn.
    + rewrite IH. split.
      * intros Hl id' c' [[= -> ->] | Hin]%elem_of_cons; eauto.
      * intros Hl id' c' Hin. apply Hl. by right.
    + split; [done |]. intros Hl. destruct (Hl id c ltac:(left)) as [p Hp]. congruence.
Qed.

Lemma open_all_Err k d l e : open_all k d l = Err e -> e = CustodyFailed.
Proof. induction l as [|[id c] l IH]; cbn; [done |]. destruct (Secrets.open _ _ _ _); cbn; naive_solver. Qed.

(** In a well-kept store only the envelopes decide. *)
Lemma custody_check s d c :
  custody_ok s -> deployment (base (tables s)) = Some d ->
  (opens_all (encryption_key c) (dep_id d) s /\ validate_credential_custody c (dep_id d) s = Ok tt)
  \/ (~ opens_all (encryption_key c) (dep_id d) s
      /\ validate_credential_custody c (dep_id d) s = Err CustodyFailed).
Proof.
  intros [_ Hrows Hdef Hbound Hsize _ _] Hd.
  assert (Href : references_active s = true).
  { unfold references_active. apply andb_true_iff. split.
    - unfold active_in in Hdef. rewrite Hdef by (rewrite Hd; eauto).
      rewrite (bool_decide_false (Some true = Some false)) by done. by rewrite andb_false_r.
    - rewrite negb_true_iff, exists_where_false. intros k m Hk. specialize (Hbound k m Hk).
      unfold active_in in Hbound. rewrite Hbound. by apply bool_decide_false. }
  set (l := active_rows (dep_id d) s).
  assert (Hin : forall id x, (id, x) ∈ l <-> rows s !! id = Some x /\ cr_active x = true).
  { intros id x. unfold l, active_rows. rewrite select_elem. split; [intros [? ?]; by split_bools |].
    intros [Hx Ha]. split; [done |]. destruct (Hrows id x Hx) as (d' & Ed & -> & _).
    simplify_eq. by rewrite Z.eqb_refl, Ha. }
  assert (Hlen : zlen l <= 256).
  { unfold l, active_rows, select, zlen. pose proof (length_map_to_list (rows s)) as Hl.
    pose proof (length_filter (fun '(k, a) =>
      (cr_deployment a =? dep_id d) && cr_active a = true) (map_to_list (rows s))).
    unfold MAX_CREDENTIALS in Hsize. lia. }
  assert (Hne : l <> []).
  { specialize (Hdef ltac:(rewrite Hd; eauto)). unfold active_in in Hdef.
    apply fmap_Some in Hdef as (x & Hx & Ha). intros Hnil.
    assert (Hmem : (default_credential (tables s), x) ∈ l) by (apply Hin; auto).
    rewrite Hnil in Hmem. by apply elem_of_nil in Hmem. }
  unfold validate_credential_custody. rewrite Href. cbn [negb fail_if mbind result_bind].
  fold l. rewrite take_ge by (unfold zlen in Hlen; lia).
  rewrite bool_decide_false, (proj2 (Z.ltb_ge 256 (zlen l))) by done. cbn.
  destruct (open_all (encryption_key c) (dep_id d) l) as [[]|e] eqn:E.
  - left. split; [| done]. intros id x Hx Ha.
    apply (proj1 (open_all_spec _ _ _) E). by apply Hin.
  - right. apply open_all_Err in E as He. subst e. split; [| done]. intros Hall.
    assert (open_all (encryption_key c) (dep_id d) l = Ok tt); [| congruence].
    apply open_all_spec. intros id x Hx%Hin. destruct Hx. by eapply Hall.
Qed.

(** ** Nodes and the configuration *)

(** A lease-valid node runs under the stored configuration. *)
Definition nodes_ok (w : World) : Prop :=
  forall k n, nodes (base (tables (store w))) !! k = Some n -> now w < lease_until n ->
  exists d, deployment (base (tables (store w))) = Some d
    /\ node_epoch n = dep_epoch d /\ node_build n = dep_build d.

Lemma another_valid_false db t :
  another_valid db t = false <-> forall k n, nodes db !! k = Some n -> lease_until n <= t.
Proof.
  unfold another_valid. rewrite <- not_true_iff_false, existsb_exists. split.
  - intros Hno k n Hk. destruct (Z.leb_spec (lease_until n) t) as [? | Hlt]; [done |].
    destruct Hno. exists (k, n). split; [by apply list_elem_of_In, elem_of_map_to_list |].
    by apply Z.ltb_lt.
  - intros Hall ([k n] & Hin%list_elem_of_In%elem_of_map_to_list & Hlt%Z.ltb_lt).
    specialize (Hall k n Hin). lia.
Qed.

Lemma validate_deployment_Ok i db u :
  validate_deployment i db = Ok u ->
  exists d, deployment db = Some d /\ dep_epoch d = Lease.config_epoch i /\ dep_build d = build_id i.
Proof.
  unfold validate_deployment. intros Hv. destruct (deployment db) as [d|]; [| done].
  inv_ok. split_bools. eauto.
Qed.

(** The rows a lease transaction leaves: old ones, not prolonged, or one of
    a node under the stored configuration. *)
Lemma lease_body_nodes op i t db db' k n :
  lease_body op i t db = Ok db' -> nodes db' !! k = Some n ->
  (exists n0, nodes db !! k = Some n0 /\ node_epoch n = node_epoch n0
              /\ node_build n = node_build n0 /\ lease_until n = lease_until n0)
  \/ exists d, deployment db = Some d /\ node_epoch n = dep_epoch d /\ node_build n = dep_build d.
Proof.
  assert (Hown : forall st n0, own_row i st db = Some n0 ->
            node_epoch n0 = Lease.config_epoch i /\ node_build n0 = build_id i
            /\ nodes db !! incarnation_id i = Some n0).
  { unfold own_row. intros st n0 Ho. apply bind_Some in Ho as (m & Hm & Ho).
    destruct (_ && _) eqn:E in Ho; [| done]. split_bools. by simplify_eq. }
  destruct op; cbn; unfold register_body, renew_body, drain_body, Lease.release_body;
    intros Hb Hk; inv_ok;
    match goal with Hv : validate_deployment _ _ = Ok _ |- _ =>
      apply validate_deployment_Ok in Hv as (d & Hd & He & Hbd) end.
  - destruct (nodes db !! incarnation_id i); [done |]. inv_ok. cbn in Hk.
    apply lookup_insert_Some in Hk as [[_ <-] | [_ Hk]]; [right; by exists d | left; eauto].
  - apply Hown in H2 as (E1 & E2 & E3). cbn in Hk.
    apply lookup_insert_Some in Hk as [[_ <-] | [_ Hk]]; [right | left; eauto].
    exists d. cbn. by rewrite E1, E2.
  - apply Hown in H2 as (E1 & E2 & E3). cbn in Hk.
    apply lookup_insert_Some in Hk as [[_ <-] | [_ Hk]]; [right | left; eauto].
    exists d. cbn. by rewrite E1, E2.
  - cbn in Hk. apply lookup_delete_Some in Hk as [_ Hk]. left; eauto.
Qed.

Lemma nodes_base w s' :
  base (tables s') = base (tables (store w)) -> nodes_ok w -> nodes_ok (at_store w s').
Proof. unfold nodes_ok, at_store. cbn. by intros ->. Qed.

Lemma effect_base sv op s s' : effect sv op s s' -> base (tables s') = base (tables s).
Proof.
  assert (Hins : forall id d name g t s0, insert_credential id d name g t s = Some s0 ->
            base (tables s0) = base (tables s)).
  { intros * (c & -> & _)%insert_credential_Some. done. }
  intros (d & s1 & _ & _ & Hc & ->). cbn. destruct op; cbn in Hc; naive_solver.
Qed.

(** What a start does to the deployment row and the nodes, whatever becomes of
    its transaction. *)
Lemma bootstrap_deployment c fate t fresh s :
  custody_ok s -> encryption_key c = key -> material_ok (fs_material fresh) ->
  let s' := fst (initialize_or_validate BUILD_ID c fate t fresh s) in
  nodes (base (tables s')) = nodes (base (tables s))
  /\ match deployment (base (tables s)) with
     | None => True
     | Some d => deployment (base (tables s')) = Some d
         \/ deployment (base (tables s')) = Some (next_row c d) /\ epoch c = dep_epoch d + 1
            /\ another_valid (base (tables s)) t = false
     end.
Proof.
  intros Hok Hkey Hm s'. subst s'. unfold initialize_or_validate.
  match goal with |- context [run ?f ?g ?a ?b ?s] =>
    destruct (run_tables f g a b s) as [-> | [id Hb]];
    [split; [done |]; destruct (deployment (base (tables s))); auto |];
    set (s' := fst (run f g a b s)) in * end.
  cbv beta in Hb. destruct (deployment (base (tables s))) as [d|] eqn:Ed.
  - apply validate_body_exact in Hb as (_ & _ & [[_ ->] | (He & Hv & ->)]); [by auto | | done].
    cbn. auto.
  - by destruct (initialize_body_Ok c t fresh s s' id Hok Ed Hkey Hm Hb) as (_ & _ & Hn & _).
Qed.

Lemma nodes_step w w' : custody_ok (store w) -> nodes_ok w -> world_step w w' -> nodes_ok w'.
Proof.
  intros Hok Hn Hstep. revert Hok Hn.
  destruct Hstep as [w0 n Hle | w0 c fate fresh Hkey Hm | w0 rq op Hm | w0 op i fate
                    | w0 a a' Ha Hst Hk]; intros Hok Hn.
  - intros k x Hk Hlt. apply (Hn k x Hk). cbn in *. lia.
  - destruct (bootstrap_deployment c fate (now w0) fresh (store w0) Hok Hkey Hm) as [Hnodes Hd].
    intros k x Hk Hlt. cbn in Hk, Hlt. rewrite Hnodes in Hk.
    destruct (Hn k x Hk Hlt) as (d & Ed & Hx). rewrite Ed in Hd. cbn.
    destruct Hd as [Hd | (_ & _ & Hv)]; [by exists d |]. rewrite another_valid_false in Hv.
    specialize (Hv k x Hk). lia.
  - apply nodes_base; [| done]. destruct (perform rq op (store w0)) as [s' r] eqn:E.
    apply perform_cases in E as [[-> _] | [He _]]; [done | by eapply effect_base].
  - intros k x Hk Hlt. cbn in *. rewrite lease_deployment.
    destruct fate; cbn in Hk; [| by apply (Hn k) |];
      (destruct (lease_body _ _ _ _) as [db'|] eqn:E; cbn in Hk; [| by apply (Hn k)];
       apply (lease_body_nodes _ _ _ _ _ _ _ E) in Hk as [(n0 & Hk & He & Hb & Hu) | Hnew];
       [| done]; rewrite He, Hb; apply (Hn k n0 Hk); congruence).
  - apply nodes_base; [| done]. destruct Hk as (Hbase & _). by rewrite <- Ha.
Qed.

Lemma history_ok w : reachable w -> custody_ok (store w) /\ nodes_ok w.
Proof.
  intros [n Hr]. assert (Hall : forall x y, rtc world_step x y ->
    custody_ok (store x) /\ nodes_ok x -> custody_ok (store y) /\ nodes_ok y).
  { induction 1 as [|x y z Hxy _ IH]; [done |]. intros [Hx Hn]. apply IH.
    split; [by eapply custody_step | by eapply nodes_step]. }
  eapply Hall; [exact Hr |]. split; [apply custody_ok_empty | intros k x Hk; by cbn in Hk].
Qed.

(** After a start that succeeded, or whose commit was not seen, the stored
    configuration is the one it ran with. *)
Lemma started_stored_body c t fresh s s' id :
  custody_ok s -> encryption_key c = key -> material_ok (fs_material fresh) ->
  match deployment (base (tables s)) with
  | Some d => validate_body BUILD_ID c t d s
  | None => initialize_body BUILD_ID c t fresh s
  end = Ok (s', id) ->
  exists d, deployment (base (tables s')) = Some d /\ dep_id d = id /\ stored c d.
Proof.
  intros Hok Hkey Hm Hb. destruct (deployment (base (tables s))) as [d|] eqn:Ed.
  - apply validate_body_exact in Hb as (-> & _ & [[? ->] | (_ & _ & ->)]); [| | done].
    + by exists d.
    + by exists (next_row c d).
  - apply initialize_body_Ok in Hb as (_ & Hd & _); try done. rewrite Hd. by eexists.
Qed.

Lemma started_stored c fate t fresh s s' id :
  custody_ok s -> encryption_key c = key -> material_ok (fs_material fresh) ->
  initialize_or_validate BUILD_ID c fate t fresh s = (s', Ok id) ->
  exists d, deployment (base (tables s')) = Some d /\ dep_id d = id /\ stored c d.
Proof.
  intros Hok Hkey Hm Hr. apply run_Ok in Hr as [_ Hb]. by eapply started_stored_body.
Qed.

(** ** What later steps keep *)

Record row_kept (c c' : CredentialRow) : Prop := {
  rk_deployment : cr_deployment c' = cr_deployment c;
  rk_public : cr_public_key c' = cr_public_key c;
  rk_fingerprint : cr_fingerprint c' = cr_fingerprint c;
  rk_envelope : cr_envelope c' = cr_envelope c;
  rk_active : cr_active c' = true -> cr_active c = true;
}.
#[local] Instance row_kept_preorder : PreOrder row_kept.
Proof. split; [by split | intros x y z [] []; split; try congruence; auto]. Qed.

(** Rows are kept, events are added. *)
Definition grows (s s' : Store) : Prop :=
  (forall id c, rows s !! id = Some c -> exists c', rows s' !! id = Some c' /\ row_kept c c')
  /\ exists l, audit s' = l ++ audit s.
#[local] Instance grows_preorder : PreOrder grows.
Proof.
  split.
  - intros s. split; [intros id c Hc; by exists c | by exists []].
  - intros x y z [Hxy [l El]] [Hyz [l' El']]. split.
    + intros id c Hc. destruct (Hxy id c Hc) as (c' & Hc' & K).
      destruct (Hyz id c' Hc') as (c2 & Hc2 & K'). exists c2. split; [done | by etrans].
    + exists (l' ++ l). by rewrite El', El, app_assoc.
Qed.

Lemma grows_rows s s' l :
  rows s' = rows s -> audit s' = l ++ audit s -> grows s s'.
Proof. intros Hr Ha. split; [rewrite Hr; intros id c Hc; by exists c | by exists l]. Qed.

Lemma insert_kept (x : gmap Z CredentialRow) id c :
  (forall c0, x !! id = Some c0 -> row_kept c0 c) ->
  forall k c0, x !! k = Some c0 -> exists c', <[id := c]> x !! k = Some c' /\ row_kept c0 c'.
Proof.
  intros Hkeep k c0 Hk. destruct (decide (k = id)) as [-> |].
  - exists c. rewrite lookup_insert_eq. auto.
  - exists c0. by rewrite lookup_insert_ne.
Qed.

Lemma effect_grows sv op s s' : effect sv op s s' -> grows s s'.
Proof.
  intros (d & s1 & _ & _ & Hc & ->). split; [| by eexists [_]].
  assert (Hins : forall id d name g t s0, insert_credential id d name g t s = Some s0 ->
    forall k c0, rows s !! k = Some c0 -> exists c', rows s0 !! k = Some c' /\ row_kept c0 c').
  { intros * (c & -> & Hnone & _)%insert_credential_Some. cbn. apply insert_kept. congruence. }
  destruct op; cbn in Hc |- *.
  - destruct Hc as (g & t & _ & _ & Hi). eauto.
  - destruct Hc as (c & Hid & _ & ->). apply insert_kept. intros. simplify_eq. by split.
  - destruct Hc as [_ ->]. intros k c0 Hk. by exists c0.
  - destruct Hc as (g & t & s0 & _ & _ & Hi & ->). cbn. eauto.
  - destruct Hc as (c & Hid & _ & ->). apply insert_kept. intros. simplify_eq. by split.
Qed.

Lemma step_grows w w' : custody_ok (store w) -> world_step w w' -> grows (store w) (store w').
Proof.
  intros Hok Hstep. revert Hok.
  destruct Hstep as [w0 n _ | w0 c fate fresh Hkey Hm | w0 rq op Hm | w0 op i fate
                    | w0 a a' Ha Hst Hk]; cbn [at_store store]; intros Hok.
  - done.
  - unfold initialize_or_validate.
    match goal with |- context [run ?f ?g ?a ?b ?s] =>
      destruct (run_tables f g a b s) as [-> | [id Hb]]; [done |];
      set (s' := fst (run f g a b s)) in * end.
    cbv beta in Hb. destruct (deployment (base (tables (store w0)))) as [d|] eqn:Ed.
    + apply validate_body_exact in Hb as (_ & _ & [[_ ->] | (_ & _ & ->)]); [done | | done].
      by eapply (grows_rows _ _ [_]).
    + apply initialize_body_Ok in Hb as (_ & _ & _ & _ & Ha); try done.
      split; [| rewrite Ha; by eexists [_; _]]. destruct (unborn_empty _ Hok Ed) as [-> _].
      intros k x Hx. by rewrite lookup_empty in Hx.
  - destruct (perform rq op (store w0)) as [s' r] eqn:E.
    apply perform_cases in E as [[-> _] | [He _]]; [done | by eapply effect_grows].
  - by eapply (grows_rows _ _ []).
  - by eapply (grows_rows _ _ []).
Qed.

(** ** Theorems *)

(** C6. Credentials are never lost: in every history of starts, credential
    operations, lease transactions and machine transactions, from an empty
    database on and whatever becomes of each of them, every machine is bound
    to an active credential, the default credential is active, every row
    (a retired one included) belongs to the deployment and its envelope opens
    under the encryption key for its own identifiers, there are at most 256
    rows and no two with the same name up to case; the custody check of a
    later start therefore passes. *)
Theorem custody_invariant (w : World) (Hw : reachable w) :
  let s := store w in
  (forall k m, machines (tables s) !! k = Some m -> active_in s (ssh_credential_id m))
  /\ (forall id c, rows s !! id = Some c -> exists d private,
       deployment (base (tables s)) = Some d /\ cr_deployment c = dep_id d
       /\ Secrets.open key (dep_id d) id (cr_envelope c) = Ok private)
  /\ (forall d, deployment (base (tables s)) = Some d ->
       active_in s (default_credential (tables s))
       /\ forall c, encryption_key c = key -> validate_credential_custody c (dep_id d) s = Ok tt)
  /\ Z.of_nat (size (rows s)) <= MAX_CREDENTIALS
  /\ (forall id id' c c', rows s !! id = Some c -> rows s !! id' = Some c' ->
       lower (cr_name c) = lower (cr_name c') -> id = id').
Proof.
  intros s. destruct (history_ok w Hw) as [Hok _]. fold s in Hok. pose proof Hok as [_ Hr Hd Hb Hs Hn _].
  assert (Hopen : forall id c, rows s !! id = Some c -> exists d private,
            deployment (base (tables s)) = Some d /\ cr_deployment c = dep_id d
            /\ Secrets.open key (dep_id d) id (cr_envelope c) = Ok private).
  { intros id c Hc. destruct (Hr id c Hc) as (d & Ed & Hx & [p Hp]). eauto 6. }
  split_and!; [done | done | | done | done].
  intros d Ed. split; [apply Hd; rewrite Ed; eauto |]. intros c Hkey.
  destruct (custody_check s d c Hok Ed) as [[_ ?] | [Hno _]]; [done |]. destruct Hno.
  intros id x Hx _. destruct (Hopen id x Hx) as (d' & p & Ed' & _ & Hp). rewrite Hkey.
  exists p. congruence.
Qed.

(** C7. The configuration is fenced by the leases: in every history a node
    whose lease is valid runs under the stored epoch and build, the identity
    of a deployment never changes, and its row changes only to the next epoch
    and only when no lease is valid. *)
Theorem configuration_fenced (w w' : World) (Hw : reachable w) (Hstep : world_step w w') :
  nodes_ok w
  /\ forall d, deployment (base (tables (store w))) = Some d ->
     exists d', deployment (base (tables (store w'))) = Some d' /\ dep_id d' = dep_id d
       /\ (d' = d \/ dep_epoch d' = dep_epoch d + 1
            /\ forall k n, nodes (base (tables (store w))) !! k = Some n -> lease_until n <= now w).
Proof.
  destruct (history_ok w Hw) as [Hok Hn]. split; [done |]. clear Hw Hn. revert Hok.
  destruct Hstep as [w0 n Hle | w0 c fate fresh Hkey Hm | w0 rq op Hm | w0 op i fate
                    | w0 a a' Ha Hst Hk]; intros Hok d Ed; cbn [at_store store].
  - by exists d; auto.
  - destruct (bootstrap_deployment c fate (now w0) fresh (store w0) Hok Hkey Hm) as [_ Hd].
    rewrite Ed in Hd. destruct Hd as [Hd | (Hd & He & Hv)]; [by exists d; auto |].
    exists (next_row c d). split; [done |]. split; [done |]. right. split; [done |].
    by apply another_valid_false.
  - exists d. split; [| by auto]. destruct (perform rq op (store w0)) as [s' r] eqn:E.
    apply perform_cases in E as [[-> _] | [He _]]; [done |]. cbn. by rewrite (effect_base _ _ _ _ He).
  - exists d. split; [| by auto]. cbn. by rewrite lease_deployment.
  - exists d. split; [| by auto]. destruct Hk as (Hbase & _). cbn. by rewrite Hbase, Ha.
Qed.

(** C29. A later start decides exactly on custody and configuration: in every
    reachable store it refuses a configuration whose key does not open every
    active credential; otherwise it accepts the stored configuration without
    any change, moves to the next epoch with one audit event when no lease is
    valid, is blocked while one is, and refuses everything else; a refusal
    changes nothing. *)
Theorem bootstrap_exact (w : World) (c : Config) (fresh : FirstStart) (d : DeploymentRow)
    (Hw : reachable w) (Hd : deployment (base (tables (store w))) = Some d) :
  let s := store w in
  let started := initialize_or_validate BUILD_ID c FateCommitted (now w) fresh s in
  let free := forall k n, nodes (base (tables s)) !! k = Some n -> lease_until n <= now w in
  (~ opens_all (encryption_key c) (dep_id d) s -> started = (s, Err CustodyFailed))
  /\ (opens_all (encryption_key c) (dep_id d) s ->
       (stored c d -> started = (s, Ok (dep_id d)))
       /\ (epoch c = dep_epoch d + 1 -> free ->
           started = ({| tables := tables (put_deployment (next_row c d) s); rows := rows s;
                         audit := deployment_event (dep_id d) (lit "configuration_transition")
                                  :: audit s |}, Ok (dep_id d)))
       /\ (epoch c = dep_epoch d + 1 -> ~ free -> started = (s, Err ConfigurationTransitionBlocked))
       /\ (~ stored c d -> epoch c <> dep_epoch d + 1 -> started = (s, Err StorageMismatch))).
Proof.
  intros s started free. subst started free. destruct (history_ok w Hw) as [Hok _]. fold s in Hd, Hok.
  unfold initialize_or_validate, run. rewrite Hd.
  destruct (custody_check s d c Hok Hd) as [[Hopen Hv] | [Hshut Hv]];
    (split; [intros | intros; split_and!]); try done.
  - intros Hs. by rewrite (proj2 (validate_body_exact c (now w) d s s (dep_id d) Hd)) by auto.
  - intros He Hf%another_valid_false. by erewrite (proj2 (validate_body_exact _ _ d s _ (dep_id d) Hd))
      by (split; [done | split; [exact Hv | right; eauto]]).
  - intros He Hnf. unfold validate_body. rewrite Hv. cbn.
    rewrite (proj2 (Z.eqb_neq _ _)), (proj2 (Z.eqb_eq _ _) He) by lia.
    destruct (another_valid _ _) eqn:Ea; [done |]. by rewrite another_valid_false in Ea.
  - intros Hs He. unfold validate_body. rewrite Hv. cbn.
    destruct (Z.eqb_spec (dep_epoch d) (epoch c)) as [Heq | Hne].
    + pose proof (stored_check c d) as Hc. destruct (_ || _); cbn; [done |]. destruct Hs. by apply Hc.
    + by rewrite (proj2 (Z.eqb_neq _ _) He).
  - intros. unfold validate_body. by rewrite Hv.
Qed.

(** Generated key material that meets the constraints of its row. *)
Definition usable (fresh : FirstStart) : Prop :=
  material_ok (fs_material fresh)
  /\ exists g, generate_credential key (fs_deployment fresh) (fs_credential fresh) (fs_material fresh)
                = Ok g
     /\ in_range 40 1024 (zlen (gc_public_key g)) = true
     /\ in_range 16 128 (zlen (gc_fingerprint g)) = true
     /\ in_range 42 16384 (zlen (gc_envelope g)) = true.

(** The configuration is the stored one, or the next one while no lease is
    valid; an empty database takes any. *)
Definition startable (c : Config) (t : Z) (s : Store) : Prop :=
  forall d, deployment (base (tables s)) = Some d ->
  stored c d \/ epoch c = dep_epoch d + 1
                /\ forall k n, nodes (base (tables s)) !! k = Some n -> lease_until n <= t.

Lemma initialize_succeeds c t fresh s :
  custody_ok s -> deployment (base (tables s)) = None -> encryption_key c = key -> usable fresh ->
  exists s', initialize_body BUILD_ID c t fresh s = Ok (s', fs_deployment fresh).
Proof.
  intros Hok Hd Hkey (_ & g & Hg & H1 & H2 & H3). destruct (unborn_empty s Hok Hd) as [Hr _].
  unfold initialize_body. rewrite Hkey, Hg. cbn [map_err mbind result_bind].
  unfold insert_credential, credential_insertable. cbn [put_tables put_deployment rows]. rewrite Hr.
  rewrite H1, H2, H3, lookup_empty, bool_decide_true by done.
  assert (name_taken (fs_deployment fresh) (fs_credential fresh) (lit "Default") ∅ = false) as -> by done.
  cbn [negb andb ok_or mbind result_bind].
  rewrite append_deployment_audit by done. cbn [mbind result_bind].
  unfold append_audit, append_audit_outcome, insert_audit, audit_insertable.
  cbn [au_deployment au_kind au_machine au_credential au_action au_outcome put_rows put_tables
       put_deployment with_default with_credentials tables rows base deployment expected_row].
  rewrite (bool_decide_true (is_Some (<[fs_credential fresh := _]> _ !! fs_credential fresh)))
    by (rewrite lookup_insert_eq; eauto).
  rewrite bool_decide_true by done. by eexists.
Qed.

Lemma stored_starts c d t fresh s :
  custody_ok s -> deployment (base (tables s)) = Some d -> encryption_key c = key -> stored c d ->
  initialize_or_validate BUILD_ID c FateCommitted t fresh s = (s, Ok (dep_id d)).
Proof.
  intros Hok Ed Hkey Hs. unfold initialize_or_validate, run. cbv beta. rewrite Ed.
  rewrite (proj2 (validate_body_exact c t d s s (dep_id d) Ed)); [done |].
  split; [done |]. split; [| by left].
  destruct (custody_check s d c Hok Ed) as [[_ ?] | [Hno _]]; [done |]. destruct Hno.
  intros k x Hx _. destruct (co_rows _ Hok k x Hx) as (d' & Ed' & _ & Hp). rewrite Hkey.
  simplify_eq. exact Hp.
Qed.

Lemma startable_starts c t fresh s :
  custody_ok s -> encryption_key c = key -> usable fresh -> startable c t s ->
  exists s' id, initialize_or_validate BUILD_ID c FateCommitted t fresh s = (s', Ok id)
  /\ forall d, deployment (base (tables s)) = Some d -> id = dep_id d.
Proof.
  intros Hok Hkey Hu Hs. destruct (deployment (base (tables s))) as [d|] eqn:Ed.
  - destruct (Hs d Ed) as [Hst | [He Hfree]].
    { exists s, (dep_id d). split; [by apply stored_starts | by intros ? [= <-]]. }
    eexists _, (dep_id d). split; [| by intros ? [= <-]].
    unfold initialize_or_validate, run. cbv beta. rewrite Ed.
    erewrite (proj2 (validate_body_exact c t d s _ (dep_id d) Ed)); [reflexivity |].
    split; [done |]. split; [| right; split; [done |]; split; [by apply another_valid_false | reflexivity]].
    destruct (custody_check s d c Hok Ed) as [[_ ?] | [Hno _]]; [done |]. destruct Hno.
    intros k x Hx _. destruct (co_rows _ Hok k x Hx) as (d' & Ed' & _ & Hp). rewrite Hkey.
    simplify_eq. exact Hp.
  - destruct (initialize_succeeds c t fresh s Hok Ed Hkey Hu) as [s' Hb].
    exists s', (fs_deployment fresh). split; [| done].
    unfold initialize_or_validate, run. cbv beta. by rewrite Ed, Hb.
Qed.

(** C15. A start can be repeated.  Whatever becomes of the transaction of a
    start from a reachable store, a reported error other than an ambiguous
    one has changed nothing, and after a success, or an ambiguous commit that
    had an effect, starting again with the same configuration, at any later
    time and with any fresh identifiers, succeeds for the same deployment and
    changes nothing.  And whatever became of it, failures and commits that
    were lost included: if the configuration was one to start with - the
    stored one, or the next one while no lease was valid, or any one on an
    empty database -, then starting again succeeds with any usable key
    material, for the stored deployment if there was one, and from then on
    every further start changes nothing. *)
Theorem bootstrap_restart (w : World) (c : Config) (fate : Fate) (fresh fresh' : FirstStart)
    (later : Z) (s' : Store) (r : result StorageError Uuid) (Hw : reachable w)
    (Hkey : encryption_key c = key) (Hm : material_ok (fs_material fresh))
    (Hrun : initialize_or_validate BUILD_ID c fate (now w) fresh (store w) = (s', r)) :
  let again s t f := initialize_or_validate BUILD_ID c FateCommitted t f s in
  match r with
  | Ok d => again s' later fresh' = (s', Ok d)
  | Err StorageAmbiguous => s' = store w \/ exists d, again s' later fresh' = (s', Ok d)
  | Err _ => s' = store w
  end
  /\ (startable c (now w) (store w) -> usable fresh' -> now w <= later ->
      exists s2 d2, again s' later fresh' = (s2, Ok d2)
      /\ (s' = store w \/ s2 = s')
      /\ (forall d, deployment (base (tables (store w))) = Some d -> d2 = dep_id d)
      /\ forall f t, again s2 t f = (s2, Ok d2)).
Proof.
  intros again. destruct (history_ok w Hw) as [Hok _].
  pose proof (bootstrap_custody c fate (now w) fresh (store w) Hok Hkey Hm) as Hok'.
  rewrite Hrun in Hok'. cbn in Hok'. unfold initialize_or_validate in Hrun.
  apply run_cases in Hrun as [[-> [e ->]] | (id & Hb & Hr)].
  - split; [destruct e; auto |]. intros Hstart Hu Hle.
    destruct (startable_starts c later fresh' (store w) Hok Hkey Hu) as (s2 & d2 & H2 & Hd).
    { intros d Ed. destruct (Hstart d Ed) as [? | [? Hfree]]; [by left |]. right. split; [done |].
      intros k n Hn. specialize (Hfree k n Hn). lia. }
    exists s2, d2. split; [exact H2 |]. split; [by left |]. split; [done |].
    destruct (started_stored c FateCommitted later fresh' (store w) s2 d2) as (d & Ed & <- & Hs);
      [done | done | apply Hu | exact H2 |].
    intros f t. apply stored_starts; try done.
    pose proof (bootstrap_custody c FateCommitted later fresh' (store w) Hok Hkey (proj1 Hu)) as H3.
    by rewrite H2 in H3.
  - assert (Hnow : exists d, deployment (base (tables s')) = Some d /\ dep_id d = id /\ stored c d)
      by (eapply started_stored_body; [exact Hok | exact Hkey | exact Hm | exact Hb]).
    destruct Hnow as (d & Ed & <- & Hs).
    assert (Hagain : forall f t, again s' t f = (s', Ok (dep_id d))) by (intros; by apply stored_starts).
    split; [destruct Hr as [-> | [_ ->]]; eauto |]. intros _ _ _.
    exists s', (dep_id d). split; [done |]. split; [by right |]. split; [| done].
    intros d0 Ed0. rewrite Ed0 in Hb. by apply validate_body_exact in Hb as [? _].
Qed.

(** C31. What a credential endpoint reports is what it did: whatever becomes of
    its transaction, the store is untouched or holds exactly the effect of
    the operation with one success event that names it, for the stored
    deployment.  It reports success only for an effect, and an error other
    than an ambiguous one only when nothing changed; the one exception is a
    committed rename whose result could not be read back. *)
Theorem credential_operation_recorded (rq : Request) (op : CredentialOp) (s s' : Store)
    (r : result ApiError unit) (Hrun : perform rq op s = (s', r)) :
  (s' = s \/ effect (rq_server rq) op s s')
  /\ (r = Ok tt -> effect (rq_server rq) op s s')
  /\ (forall e, r = Err e -> e <> OperationAmbiguous ->
       s' = s \/ exists id name answer, op = OpRename id name answer
                   /\ credential_by_id answer id = Err e).
Proof.
  apply perform_cases in Hrun as [[-> [e ->]] | [He Hr]].
  - split; [by left |]. split; [done |]. by left.
  - split; [by right |]. split; [done |]. intros e -> Hne.
    destruct Hr as [? | [[_ ?] | (id & name & answer & e' & -> & Hc & ?)]]; simplify_eq.
    right. eauto.
Qed.

(** Key material is immutable and retirement is final: from any reachable
    point of a history on, every credential row stays, with its deployment,
    public key, fingerprint and envelope; one that is retired never becomes
    active again; and the audit log only grows. *)
Theorem credential_rows_final (w w' : World) (Hw : reachable w) (Hsteps : rtc world_step w w') :
  (forall id c, rows (store w) !! id = Some c ->
     exists c', rows (store w') !! id = Some c' /\ row_kept c c')
  /\ exists l, audit (store w') = l ++ audit (store w).
Proof.
  apply history_ok in Hw as [Hok _]. change (grows (store w) (store w')).
  induction Hsteps as [w | w w1 w2 Hstep _ IH]; [done |].
  etrans; [by apply step_grows | by apply IH; eapply custody_step].
Qed.

(** A node that has started can serve: when a start with a configuration
    succeeds, then at any later time, unless the deployment is single-node
    and another lease is valid, the registration of a fresh incarnation with
    the identity of that configuration commits, and until its lease expires
    the node passes the check that guards every transaction of the API. *)
Theorem started_node_serves (w : World) (c : Config) (fresh : FirstStart) (incarnation : Uuid)
    (later t : Z) (s' : Store) (d : Uuid) (Hw : reachable w) (Hkey : encryption_key c = key)
    (Hm : material_ok (fs_material fresh))
    (Hrun : initialize_or_validate BUILD_ID c FateCommitted (now w) fresh (store w) = (s', Ok d))
    (Hfresh : nodes (base (tables s')) !! incarnation = None)
    (Hsingle : cf_profile c = SingleNode -> another_valid (base (tables s')) later = false) :
  let i := register_identity BUILD_ID c d incarnation in
  t < later + ttl i ->
  exists db, register_body i later (base (tables s')) = Ok db
    /\ deployment db = deployment (base (tables s'))
    /\ lock_current_deployment {| sv_identity := i; sv_deployment := d |} true true t db = Ok tt.
Proof.
  intros i Ht. destruct (history_ok w Hw) as [Hok _].
  pose proof (bootstrap_custody c FateCommitted (now w) fresh (store w) Hok Hkey Hm) as Hok'.
  rewrite Hrun in Hok'. cbn in Hok'.
  assert (Hnow : exists x, deployment (base (tables s')) = Some x /\ dep_id x = d /\ stored c x)
    by (eapply started_stored; [apply Hok | exact Hkey | exact Hm | exact Hrun]).
  destruct Hnow as (x & Ed & Hid & (He & Hb & Hp & Hf)).
  pose proof (co_protocol _ Hok' x Ed) as Hproto.
  assert (Hv : validate_deployment i (base (tables s')) = Ok d).
  { unfold validate_deployment. rewrite Ed. cbn. rewrite He, Hb, Hp, Hproto, Hf, Hid.
    by rewrite !Z.eqb_refl, !bool_decide_true. }
  eexists. unfold register_body. rewrite Hv. cbn [mbind result_bind].
  assert (Hfree : bool_decide (profile i = SingleNode) && another_valid (base (tables s')) later = false).
  { case_bool_decide as Hs; [by rewrite Hsingle | done]. }
  rewrite Hfree. cbn [fail_if mbind result_bind]. change (incarnation_id i) with incarnation. rewrite Hfresh. split; [done |]. split; [done |].
  unfold lock_current_deployment, deployment_matches, own_node_valid.
  cbn [sv_identity sv_deployment set_nodes deployment nodes]. rewrite Ed. cbn.
  rewrite He, Hb, Hp, Hproto, Hf, Hid, !Z.eqb_refl, !bool_decide_true by done. cbn.
  rewrite lookup_insert_eq. cbn. rewrite Z.eqb_refl, !bool_decide_true by set_solver. cbn.
  by rewrite (proj2 (Z.ltb_lt _ _) Ht).
Qed.
End custody.

(** ** A concrete history

    A first start, a node that registers, a second credential that becomes
    the default, the retirement of the first, and a machine. *)

Section example.
#[local] Existing Instances toy_aead toy_aead_laws toy_hmac.
#[local] Instance ascii_lower : Lower := {| lower := map (fun c => if in_range 65 90 (bval c) then byte_of (bval c + 32) else c) |}.
#[local] Instance plain_sha256 : Sha256 := {| sha256 := fun v => v |}.
#[local] Instance cu_keys : SshKeys :=
  {| PublicKey := bytes; from_openssh := fun v => Some v; is_ed25519 := fun _ => true;
     to_openssh := fun k => Some k; fingerprint_of := fun k => k |}.

Definition cu_key : bytes := repeat "007"%byte 32.
Definition cu_build : bytes := lit "build".
Definition cu_config (e : Z) : Config :=
  {| cf_address := Address.V4 [127; 0; 0; 1] 8080; web_dir := []; public_origin := [];
     database_url := []; api_key := []; encryption_key := cu_key; ssh_runtime_root := [];
     epoch := e; lease_ttl := 30; lease_safety_margin := 5; shutdown_timeout := 10;
     node_name := None; cf_profile := SingleNode; cluster := None |}.
Definition cu_material : KeyMaterial :=
  {| km_private := lit "private"; km_public := repeat "a"%byte 60;
     km_fingerprint := repeat "f"%byte 20; km_nonce := repeat "000"%byte 24 |}.
Definition cu_fresh : FirstStart :=
  {| fs_deployment := 99; fs_credential := 21; fs_material := Some cu_material |}.
Definition cu_identity : Identity :=
  {| incarnation_id := 7; Lease.config_epoch := 1; build_id := cu_build; profile := SingleNode;
     Lease.config_proof := None; internal_wss_url := None; ttl_seconds := 30; safety_margin := 5 |}.
Definition cu_server : Server := {| sv_identity := cu_identity; sv_deployment := 99 |}.
Definition cu_request : Request :=
  {| rq_server := cu_server; rq_fate := FateCommitted; rq_l0 := true; rq_l1 := true;
     rq_instants := {| t_node := 100; t_query := 100; t_write := 100 |} |}.
Definition cu_input : CreateMachineInput :=
  {| in_alias := lit "box"; in_target_account := lit "dev"; in_tmux_path := lit "/usr/bin/tmux";
     in_socket := lit "default"; in_credential := None |}.

Abbreviation cu_step := (world_step cu_build cu_key).
Abbreviation cu_does op w := (at_store w (fst (perform cu_key cu_request op (store w)))).

Definition cu_w0 : World := {| now := 100; store := empty_store |}.
Definition cu_w1 : World :=
  at_store cu_w0 (fst (initialize_or_validate cu_build (cu_config 1) FateCommitted 100 cu_fresh
    (store cu_w0))).
Definition cu_w2 : World :=
  at_store cu_w1 (put_base (fst (transact Committed DatabaseError
    (lease_body LeaseRegister cu_identity 100) (base (tables (store cu_w1))))) (store cu_w1)).
Definition cu_w3 : World := cu_does (OpCreate 22 (Some cu_material) (lit "Second")) cu_w2.
Definition cu_w4 : World := cu_does (OpSetDefault 22) cu_w3.
Definition cu_w5 : World := cu_does (OpRetire 21) cu_w4.
Definition cu_machines : Ownership.World :=
  {| tbl := fst (create_machine cu_server FateCommitted true true (rq_instants cu_request)
       {| id_machine := 1; id_enrollment := 2 |} cu_input (lit "digest") (tables (store cu_w5)));
     held := [] |}.
Definition cu_w6 : World := at_store cu_w5 (put_tables (tbl cu_machines) (store cu_w5)).

Lemma cu_started : cu_step cu_w0 cu_w1.
Proof. apply (st_bootstrap _ _ cu_w0); [done | by intros k [= <-]]. Qed.
Lemma cu_registered : cu_step cu_w1 cu_w2.
Proof. apply (st_lease _ _ cu_w1). Qed.
Lemma cu_operation op w : material_ok (op_material op) -> cu_step w (cu_does op w).
Proof. apply st_credential. Qed.
Lemma cu_machine_created : cu_step cu_w5 cu_w6.
Proof.
  apply (st_machines _ _ cu_w5 {| tbl := tables (store cu_w5); held := [] |} cu_machines);
    [done | apply ws_create | by vm_compute].
Qed.

Lemma cu_reaches_w2 : reachable cu_build cu_key cu_w2.
Proof.
  exists 100. eapply rtc_l; [apply cu_started |]. eapply rtc_l; [apply cu_registered |].
  apply rtc_refl.
Qed.
Lemma cu_w2_steps : rtc cu_step cu_w2 cu_w6.
Proof.
  eapply rtc_l; [by apply (cu_operation (OpCreate 22 (Some cu_material) (lit "Second"))); intros k [= <-] |].
  eapply rtc_l; [by apply (cu_operation (OpSetDefault 22)) |].
  eapply rtc_l; [by apply (cu_operation (OpRetire 21)) |].
  eapply rtc_l; [apply cu_machine_created |]. apply rtc_refl.
Qed.
Lemma cu_reaches_w6 : reachable cu_build cu_key cu_w6.
Proof. destruct cu_reaches_w2 as [n Hn]. exists n. etrans; [exact Hn | apply cu_w2_steps]. Qed.

Lemma custody_invariant_witness :
  bound_credential (tables (store cu_w6)) 1 = Some 22 /\ active_in (store cu_w6) 22
  /\ ~ active_in (store cu_w6) 21
  /\ forall c, encryption_key c = cu_key -> validate_credential_custody c 99 (store cu_w6) = Ok tt.
Proof.
  destruct (custody_invariant cu_build cu_key cu_w6 cu_reaches_w6) as (Hb & _ & Hd & _).
  assert (Hm : exists m, machines (tables (store cu_w6)) !! 1 = Some m /\ ssh_credential_id m = 22).
  { eexists. split; vm_compute; reflexivity. }
  destruct Hm as (m & Hm & Hc). split; [unfold bound_credential; rewrite Hm; cbn; by rewrite Hc |].
  split; [rewrite <- Hc; by apply (Hb 1) |]. split; [by vm_compute |].
  assert (Hrow : exists d, deployment (base (tables (store cu_w6))) = Some d /\ dep_id d = 99).
  { eexists. split; vm_compute; reflexivity. }
  destruct Hrow as (d & Hrow & Hid). intros c Hk. rewrite <- Hid. by apply (Hd d Hrow).
Defined.

(** The lease of the node expires, then the next configuration starts. *)
Definition cu_late : World := {| now := 40000000000; store := store cu_w2 |}.
Definition cu_moved : World :=
  at_store cu_late (fst (initialize_or_validate cu_build (cu_config 2) FateCommitted (now cu_late)
    cu_fresh (store cu_late))).
Lemma cu_reaches_late : reachable cu_build cu_key cu_late.
Proof.
  destruct cu_reaches_w2 as [n Hn]. exists n. eapply rtc_r; [exact Hn |].
  by apply (st_time _ _ cu_w2).
Qed.
Lemma cu_moves : cu_step cu_late cu_moved.
Proof. apply (st_bootstrap _ _ cu_late); [done | by intros k [= <-]]. Qed.

Lemma configuration_fenced_witness :
  dep_epoch <$> deployment (base (tables (store cu_moved))) = Some 2
  /\ exists d d', deployment (base (tables (store cu_late))) = Some d
     /\ deployment (base (tables (store cu_moved))) = Some d' /\ dep_id d' = dep_id d
     /\ forall k n, nodes (base (tables (store cu_late))) !! k = Some n -> lease_until n <= now cu_late.
Proof.
  split; [by vm_compute |].
  destruct (configuration_fenced cu_build cu_key cu_late cu_moved cu_reaches_late cu_moves) as [_ Hd].
  assert (Hrow : exists d, deployment (base (tables (store cu_late))) = Some d /\ dep_epoch d = 1).
  { eexists. split; vm_compute; reflexivity. }
  assert (Hrow' : exists d, deployment (base (tables (store cu_moved))) = Some d /\ dep_epoch d = 2).
  { eexists. split; vm_compute; reflexivity. }
  destruct Hrow as (d & Ed & He), Hrow' as (d' & Ed' & He').
  destruct (Hd d Ed) as (x & Ex & Hid & Hx). exists d, d'.
  assert (x = d') as -> by congruence. destruct Hx as [-> | [_ Hf]]; [congruence | auto].
Defined.

(** Before that, the next configuration is blocked and the stored one is
    accepted. *)
Lemma bootstrap_exact_witness :
  initialize_or_validate cu_build (cu_config 2) FateCommitted 100 cu_fresh (store cu_w2)
    = (store cu_w2, Err ConfigurationTransitionBlocked)
  /\ initialize_or_validate cu_build (cu_config 1) FateCommitted 100 cu_fresh (store cu_w2)
    = (store cu_w2, Ok 99).
Proof.
  assert (Hrow : exists d, deployment (base (tables (store cu_w2))) = Some d
            /\ dep_id d = 99 /\ dep_epoch d = 1 /\ stored cu_build (cu_config 1) d).
  { eexists. repeat split; vm_compute; reflexivity. }
  destruct Hrow as (d & Hd & Hid & He & Hst).
  assert (Hopen : forall e, opens_all (encryption_key (cu_config e)) (dep_id d) (store cu_w2)).
  { intros e id c Hc _. rewrite Hid.
    assert (Hrows : rows (store cu_w2) = {[ 21 := default c (rows (store cu_w2) !! 21) ]})
      by (vm_compute; reflexivity).
    rewrite Hrows in Hc. apply lookup_singleton_Some in Hc as [<- <-].
    eexists. vm_compute. reflexivity. }
  split.
  - apply (bootstrap_exact cu_build cu_key cu_w2 (cu_config 2) cu_fresh d cu_reaches_w2 Hd);
      [apply Hopen | by rewrite He |].
    intros Hfree. assert (Hnode : exists n, nodes (base (tables (store cu_w2))) !! 7 = Some n
                            /\ 100 < lease_until n).
    { eexists. split; vm_compute; reflexivity. }
    destruct Hnode as (n & Hn & Hlt). specialize (Hfree 7 n Hn). cbn in Hfree. lia.
  - rewrite <- Hid.
    by apply (bootstrap_exact cu_build cu_key cu_w2 (cu_config 1) cu_fresh d cu_reaches_w2 Hd);
      [apply Hopen |].
Defined.

(** A first start whose commit was not seen, and its repetition. *)
Lemma cu_usable : usable cu_key cu_fresh.
Proof.
  split; [by intros k [= <-] |]. eexists. split; [vm_compute; reflexivity |].
  repeat split; vm_compute; reflexivity.
Qed.

(** The commit is reported ambiguous: with effect, and without. *)
Lemma bootstrap_restart_witness :
  (let '(s', r) := initialize_or_validate cu_build (cu_config 1) CommitUnseen 100 cu_fresh empty_store in
   r = Err StorageAmbiguous /\ s' <> empty_store
   /\ exists d, initialize_or_validate cu_build (cu_config 1) FateCommitted 200 cu_fresh s' = (s', Ok d))
  /\ (let '(s', r) := initialize_or_validate cu_build (cu_config 1) CommitLost 100 cu_fresh empty_store in
      r = Err StorageAmbiguous
      /\ exists s2 d, initialize_or_validate cu_build (cu_config 1) FateCommitted 200 cu_fresh s' = (s2, Ok d)
                      /\ initialize_or_validate cu_build (cu_config 1) FateCommitted 300 cu_fresh s2 = (s2, Ok d)).
Proof.
  assert (Hw : reachable cu_build cu_key cu_w0) by (exists 100; apply rtc_refl).
  assert (Hm : material_ok (fs_material cu_fresh)) by (by intros k [= <-]).
  split.
  - destruct (initialize_or_validate cu_build (cu_config 1) CommitUnseen 100 cu_fresh empty_store)
      as [s' r] eqn:E.
    pose proof (bootstrap_restart cu_build cu_key cu_w0 (cu_config 1) CommitUnseen cu_fresh cu_fresh
                  200 s' r Hw eq_refl Hm E) as [Hagain _].
    pose (p := initialize_or_validate cu_build (cu_config 1) CommitUnseen 100 cu_fresh empty_store).
    assert (Hp : snd p = Err StorageAmbiguous /\ audit (fst p) <> []).
    { split; vm_compute; [reflexivity | discriminate]. }
    unfold p in Hp. rewrite E in Hp. destruct Hp as [Hr Ha]. cbn in Hr, Ha. subst r.
    split; [done |].
    assert (Hne : s' <> empty_store) by (intros Hs; rewrite Hs in Ha; exact (Ha eq_refl)). split; [exact Hne |].
    by destruct Hagain.
  - destruct (initialize_or_validate cu_build (cu_config 1) CommitLost 100 cu_fresh empty_store)
      as [s' r] eqn:E.
    pose proof (bootstrap_restart cu_build cu_key cu_w0 (cu_config 1) CommitLost cu_fresh cu_fresh
                  200 s' r Hw eq_refl Hm E) as [_ Hrestart].
    assert (Hr : snd (s', r) = Err StorageAmbiguous) by (rewrite <- E; vm_compute; reflexivity).
    split; [exact Hr |].
    destruct Hrestart as (s2 & d2 & H2 & _ & _ & H3);
      [intros d [=] | exact cu_usable | vm_compute; discriminate |].
    exists s2, d2. split; [exact H2 | apply H3].
Defined.

(** The default credential cannot be retired. *)
Lemma credential_operation_recorded_witness :
  perform cu_key cu_request (OpRetire 22) (store cu_w4)
    = (store cu_w4, Err (ConflictWith (lit "credential_in_use"))).
Proof.
  destruct (perform cu_key cu_request (OpRetire 22) (store cu_w4)) as [s' r] eqn:E.
  assert (Hr : r = Err (ConflictWith (lit "credential_in_use"))).
  { rewrite <- (f_equal snd E : _ = r). by vm_compute. }
  destruct (credential_operation_recorded cu_key cu_request (OpRetire 22) (store cu_w4) s' r E)
    as (_ & _ & He).
  destruct (He _ Hr ltac:(discriminate)) as [Hs | (id & name & answer & Hop & _)];
    [| discriminate Hop].
  exact (f_equal2 pair Hs Hr).
Defined.

Lemma credential_rows_final_witness :
  exists c c', rows (store cu_w2) !! 21 = Some c /\ rows (store cu_w6) !! 21 = Some c'
  /\ cr_active c = true /\ cr_active c' = false /\ cr_envelope c' = cr_envelope c.
Proof.
  destruct (credential_rows_final cu_build cu_key cu_w2 cu_w6 cu_reaches_w2 cu_w2_steps) as [Hk _].
  assert (Hc : exists c, rows (store cu_w2) !! 21 = Some c /\ cr_active c = true).
  { eexists. split; vm_compute; reflexivity. }
  destruct Hc as (c & Hc & Ha). destruct (Hk 21 c Hc) as (c' & Hc' & [_ _ _ Henv _]).
  exists c, c'. split; [done |]. split; [done |]. split; [done |]. split; [| done].
  assert (Hx : cr_active <$> rows (store cu_w6) !! 21 = Some false) by (by vm_compute).
  rewrite Hc' in Hx. by injection Hx.
Defined.

Lemma started_node_serves_witness :
  exists db, register_body (register_identity cu_build (cu_config 1) 99 8) 200
               (base (tables (store cu_w1))) = Ok db
  /\ lock_current_deployment
       {| sv_identity := register_identity cu_build (cu_config 1) 99 8; sv_deployment := 99 |}
       true true 300 db = Ok tt.
Proof.
  assert (Hw : reachable cu_build cu_key cu_w0) by (exists 100; apply rtc_refl).
  assert (Hm : material_ok (fs_material cu_fresh)) by (by intros k [= <-]).
  assert (Hrun : initialize_or_validate cu_build (cu_config 1) FateCommitted 100 cu_fresh
                   (store cu_w0) = (store cu_w1, Ok 99)) by (vm_compute; reflexivity).
  destruct (started_node_serves cu_build cu_key cu_w0 (cu_config 1) cu_fresh 8 200 300
              (store cu_w1) 99 Hw eq_refl Hm Hrun) as (db & Hdb & _ & Hlock);
    [vm_compute; reflexivity | intros _; vm_compute; reflexivity | vm_compute; reflexivity |].
  exists db. split; [exact Hdb | exact Hlock].
Defined.
End example.
