(* ===== verification/AuthorityInvariant.v ===== *)
(** * AuthorityInvariant: the rows of a machine always fit together

    An invariant of every history of [Ownership.world_step]: which bindings,
    attempts and tokens a machine may have in each lifecycle, that its owner
    row follows its route revision, and the uniqueness the schema's indexes
    promise.  Most of the work is framing: a transaction is about one machine
    and leaves the rows of the others alone. *)

From stdpp Require Import sorting.
From S2P Require Import Prelude Text Contracts Secrets Ssh Lease Tables Authority Ownership.
Import Relay OwnerRs Api.

Section invariant.
Context `{Sha256, SshKeys}.

(** ** The invariant *)

Definition binding_live (t : Tables) (k : Uuid) : Prop :=
  exists j b, bindings t !! j = Some b /\ bd_machine b = k /\ bd_active b = true.
Definition attempt_live (t : Tables) (k : Uuid) : Prop :=
  exists i a, attempts t !! i = Some a /\ at_machine a = k /\ at_status a = InProgress.
Definition token_live (t : Tables) (k : Uuid) : Prop :=
  exists i e, enrollments t !! i = Some e /\ en_machine e = k /\ en_status e = Issued.

(** Which rows a machine may have in each lifecycle. *)
Definition phase_ok (t : Tables) (k : Uuid) (m : Machine) : Prop :=
  match lifecycle m with
  | Pending => ~ binding_live t k /\ ~ attempt_live t k
  | Disabled => ~ binding_live t k /\ ~ attempt_live t k /\ ~ token_live t k
  | Verifying => ~ token_live t k
      /\ (attempt_live t k /\ ~ binding_live t k
          \/ binding_live t k /\ ~ attempt_live t k /\ host_identity m <> None)
  | Active => ~ token_live t k /\ binding_live t k /\ ~ attempt_live t k
      /\ host_identity m <> None
  end.

Record machine_rows_ok (t : Tables) (k : Uuid) (m : Machine) (o : Owner) : Prop := {
  mo_phase : phase_ok t k m;
  mo_revision : owner_revision o = route_revision m;
  mo_epoch : 0 <= connection_epoch o;
  mo_claim : forall c, claimed o = Some c -> lifecycle m = Active /\ 0 < connection_epoch o;
  mo_binding : forall j b, bindings t !! j = Some b -> bd_machine b = k ->
    if bd_active b then bd_revision b = route_revision m else bd_revision b < route_revision m;
  mo_attempt : forall i a, attempts t !! i = Some a -> at_machine a = k ->
    at_status a = InProgress -> at_revision a = route_revision m;
}.

Record no_rows (t : Tables) (k : Uuid) : Prop := {
  nr_binding : forall j b, bindings t !! j = Some b -> bd_machine b <> k;
  nr_attempt : forall i a, attempts t !! i = Some a -> at_machine a <> k;
  nr_enrollment : forall i e, enrollments t !! i = Some e -> en_machine e <> k;
}.

Definition machine_ok (t : Tables) (k : Uuid) : Prop :=
  match machines t !! k, owners t !! k with
  | Some m, Some o => machine_rows_ok t k m o
  | None, None => no_rows t k
  | _, _ => False
  end.

Record unique_ok (t : Tables) : Prop := {
  u_binding : forall i j b c, bindings t !! i = Some b -> bindings t !! j = Some c ->
    bd_machine b = bd_machine c -> bd_revision b = bd_revision c -> i = j;
  u_relay : forall i j b c, bindings t !! i = Some b -> bindings t !! j = Some c ->
    bd_active b = true -> bd_active c = true ->
    relay_id b = relay_id c \/ relay_public_key b = relay_public_key c -> i = j;
  u_attempt : forall i j a c, attempts t !! i = Some a -> attempts t !! j = Some c ->
    at_enrollment a = at_enrollment c
    \/ at_machine a = at_machine c /\ at_status a = InProgress /\ at_status c = InProgress ->
    i = j;
  u_consumed : forall i a, attempts t !! i = Some a ->
    en_status <$> enrollments t !! at_enrollment a = Some Consumed;
  u_digest : forall i j e f, enrollments t !! i = Some e -> enrollments t !! j = Some f ->
    token_digest e = token_digest f -> i = j;
  u_issued : forall i j e f, enrollments t !! i = Some e -> enrollments t !! j = Some f ->
    en_machine e = en_machine f -> en_status e = Issued -> en_status f = Issued -> i = j;
  u_owner : forall k o x, owners t !! k = Some o -> fst <$> claimed o = Some x ->
    is_Some (nodes (base t) !! x);
}.

Record authority_ok (w : World) : Prop := {
  ok_machine : forall k, machine_ok (tbl w) k;
  ok_unique : unique_ok (tbl w);
  ok_held : forall acc, acc ∈ held w -> exists a,
    attempts (tbl w) !! ae_attempt_id acc = Some a
    /\ at_machine a = ae_machine_id acc /\ at_revision a = ae_route_revision acc;
}.

(** *** Framing: a transaction about one machine leaves the others alone *)

(** Attempts up to the columns the invariant reads. *)
Definition core (a : Attempt) : Uuid * Uuid * Z * AttemptStatus :=
  (at_machine a, at_enrollment a, at_revision a, at_status a).

Record same_rows (k : Uuid) (t t' : Tables) : Prop := {
  sr_machine : machines t' !! k = machines t !! k;
  sr_owner : owners t' !! k = owners t !! k;
  sr_binding : forall j b, bd_machine b = k -> bindings t' !! j = Some b <-> bindings t !! j = Some b;
  sr_attempt : forall i c, c.1.1.1 = k ->
    core <$> attempts t' !! i = Some c <-> core <$> attempts t !! i = Some c;
  sr_enrollment : forall i e, en_machine e = k ->
    enrollments t' !! i = Some e <-> enrollments t !! i = Some e;
}.

Lemma attempt_core t i a k :
  attempts t !! i = Some a -> at_machine a = k ->
  core <$> attempts t !! i = Some (k, at_enrollment a, at_revision a, at_status a).
Proof. intros -> <-. done. Qed.

Lemma core_attempt t i k e r s :
  core <$> attempts t !! i = Some (k, e, r, s) ->
  exists a, attempts t !! i = Some a /\ at_machine a = k /\ at_enrollment a = e
            /\ at_revision a = r /\ at_status a = s.
Proof. rewrite fmap_Some. intros (a & Ha & Hc). unfold core in Hc. exists a. naive_solver. Qed.

Lemma same_rows_sym k t t' : same_rows k t t' -> same_rows k t' t.
Proof. intros []. split; try done; naive_solver. Qed.

Lemma same_rows_attempt k t t' i a' :
  same_rows k t t' -> attempts t' !! i = Some a' -> at_machine a' = k ->
  exists a, attempts t !! i = Some a /\ core a = core a'.
Proof.
  intros S Ha Hk. pose proof (attempt_core _ _ _ _ Ha Hk) as Hc.
  apply (sr_attempt _ _ _ S) in Hc; [| done]. apply core_attempt in Hc as (a & ? & ? & ? & ? & ?).
  exists a. split; [done |]. unfold core. congruence.
Qed.

Lemma same_rows_live k t t' : same_rows k t t' ->
  (binding_live t k -> binding_live t' k) /\ (attempt_live t k -> attempt_live t' k)
  /\ (token_live t k -> token_live t' k).
Proof.
  intros S. split; [| split].
  - intros (j & b & Hj & Hk & Ha). exists j, b. split; [by apply (sr_binding _ _ _ S) | done].
  - intros (i & a & Hi & Hk & Hs).
    destruct (same_rows_attempt k t' t i a (same_rows_sym _ _ _ S) Hi Hk) as (a' & Ha' & Hc).
    unfold core in Hc. exists i, a'. naive_solver congruence.
  - intros (i & e & Hi & Hk & Hs). exists i, e. split; [by apply (sr_enrollment _ _ _ S) | done].
Qed.

Lemma phase_ok_iff t t' k m :
  (binding_live t' k <-> binding_live t k) -> (attempt_live t' k <-> attempt_live t k) ->
  (token_live t' k <-> token_live t k) -> phase_ok t k m -> phase_ok t' k m.
Proof. unfold phase_ok. intros Hb Ha Ht. destruct (lifecycle m); tauto. Qed.

Lemma machine_ok_frame t t' k : same_rows k t t' -> machine_ok t k -> machine_ok t' k.
Proof.
  intros S. pose proof (same_rows_live _ _ _ S) as (B & A & T).
  pose proof (same_rows_live _ _ _ (same_rows_sym _ _ _ S)) as (B' & A' & T').
  unfold machine_ok. rewrite (sr_machine _ _ _ S), (sr_owner _ _ _ S).
  destruct (machines t !! k) as [m|], (owners t !! k) as [o|]; try done.
  - intros [P R E C Hb Ha]. split; try done.
    + apply (phase_ok_iff t); [split; auto.. | done].
    + intros j b Hj Hk. apply (sr_binding _ _ _ S) in Hj; [by apply (Hb j b) | done].
    + intros i a Hi Hk Hs. destruct (same_rows_attempt _ _ _ _ _ S Hi Hk) as (a' & Hi' & Hc).
      unfold core in Hc. simplify_eq. eapply eq_trans; [| eapply (Ha i a'); congruence]. congruence.
  - intros [Nb Na Ne]. split.
    + intros j b Hj Hk. apply (sr_binding _ _ _ S) in Hj; naive_solver.
    + intros i a Hi Hk. destruct (same_rows_attempt _ _ _ _ _ S Hi Hk) as (a' & Hi' & Hc).
      unfold core in Hc. eapply (Na i a'); [done | congruence].
    + intros i e Hi Hk. apply (sr_enrollment _ _ _ S) in Hi; naive_solver.
Qed.

Lemma same_rows_refl k t : same_rows k t t.
Proof. by split. Qed.

Lemma same_rows_trans k t1 t2 t3 : same_rows k t1 t2 -> same_rows k t2 t3 -> same_rows k t1 t3.
Proof.
  intros [M1 O1 B1 A1 E1] [M2 O2 B2 A2 E2]. split; try congruence.
  - intros j b Hk. by rewrite B2, B1.
  - intros j c Hk. by rewrite A2, A1.
  - intros j e Hk. by rewrite E2, E1.
Qed.

(** The rows of a table that belong to a machine are untouched. *)
Definition same_for {A} (g : A -> Uuid) (k : Uuid) (x y : gmap Z A) : Prop :=
  forall i a, g a = k -> y !! i = Some a <-> x !! i = Some a.

Lemma same_for_alter {A} (g : A -> Uuid) k f i0 (x : gmap Z A) :
  (forall a, x !! i0 = Some a -> g a <> k /\ g (f a) <> k) -> same_for g k x (alter f i0 x).
Proof.
  intros Hf i a Hk. rewrite lookup_alter_Some. split.
  - intros [(-> & b & Hb & ->) | [_ Ha]]; [| done]. by destruct (Hf b Hb).
  - intros Ha. destruct (decide (i0 = i)) as [-> | Hne]; [| by right].
    by destruct (Hf a Ha).
Qed.

Lemma same_for_update {A} (g : A -> Uuid) k p f (x : gmap Z A) :
  (forall i a, x !! i = Some a -> p i a = true -> g a <> k /\ g (f a) <> k) ->
  same_for g k x (update_where p f x).
Proof.
  intros Hf i a Hk. rewrite update_where_Some. split.
  - intros (b & Hb & ->). destruct (p i b) eqn:E; [| done]. by destruct (Hf i b Hb E).
  - intros Ha. exists a. split; [done |]. destruct (p i a) eqn:E; [| done].
    by destruct (Hf i a Ha E).
Qed.

Lemma same_for_insert {A} (g : A -> Uuid) k i0 a0 (x : gmap Z A) :
  x !! i0 = None -> g a0 <> k -> same_for g k x (<[i0 := a0]> x).
Proof.
  intros Hn Hk i a Ha. rewrite lookup_insert_Some. split.
  - intros [[-> ->] | [_ ?]]; done.
  - intros Hi. right. split; [congruence | done].
Qed.

Lemma same_rows_machines k t x : x !! k = machines t !! k -> same_rows k t (with_machines t x).
Proof. by split. Qed.
Lemma same_rows_owners k t x : x !! k = owners t !! k -> same_rows k t (with_owners t x).
Proof. by split. Qed.
Lemma same_rows_bindings k t x : same_for bd_machine k (bindings t) x -> same_rows k t (with_bindings t x).
Proof. by split. Qed.
Lemma same_rows_enrollments k t x :
  same_for en_machine k (enrollments t) x -> same_rows k t (with_enrollments t x).
Proof. by split. Qed.
Lemma same_rows_attempts k t x : same_for at_machine k (attempts t) x -> same_rows k t (with_attempts t x).
Proof.
  intros Hs. split; try done. intros i c Hc. cbn. rewrite !fmap_Some.
  split; intros (a & Ha & ->); exists a; split; try done; by apply Hs.
Qed.

(** *** Uniqueness *)

(** Every row of [y] comes from the row of [x] with its key. *)
Definition rows_from {A} (R : A -> A -> Prop) (x y : gmap Z A) : Prop :=
  forall k a', y !! k = Some a' -> exists a, x !! k = Some a /\ R a a'.

Lemma rows_from_refl {A} (R : A -> A -> Prop) `{!Reflexive R} x : rows_from R x x.
Proof. intros k a Ha. by exists a. Qed.

Lemma rows_from_alter {A} (R : A -> A -> Prop) `{!Reflexive R} f k0 x :
  (forall a, x !! k0 = Some a -> R a (f a)) -> rows_from R x (alter f k0 x).
Proof.
  intros Hf k a'. rewrite lookup_alter_Some. intros [(-> & a & Ha & ->) | [_ Ha]]; eauto.
Qed.

Lemma rows_from_update {A} (R : A -> A -> Prop) `{!Reflexive R} p f x :
  (forall k a, x !! k = Some a -> p k a = true -> R a (f a)) -> rows_from R x (update_where p f x).
Proof.
  intros Hf k a'. rewrite update_where_Some. intros (a & Ha & ->). exists a. split; [done |].
  destruct (p k a) eqn:E; [by eapply Hf | done].
Qed.

Lemma live_from a a' : attempt_evolves a a' -> at_status a' = InProgress -> at_status a = InProgress.
Proof. intros [_ _ _ F] Hs. destruct (decide (at_status a = InProgress)); [done |]. rewrite <- F; done. Qed.
Lemma issued_from e e' : enrollment_evolves e e' -> en_status e' = Issued -> en_status e = Issued.
Proof. intros [_ _ _ F] Hs. destruct (decide (en_status e = Issued)); [done |]. rewrite <- F; done. Qed.
Lemma active_from b b' : binding_evolves b b' -> bd_active b' = true -> bd_active b = true.
Proof. intros [_ _ _ _ F] Hs. destruct (bd_active b); [done |]. rewrite F in Hs; done. Qed.

Lemma unique_ok_from t t' :
  unique_ok t -> rows_evolve enrollment_evolves (enrollments t) (enrollments t') ->
  rows_from binding_evolves (bindings t) (bindings t') ->
  rows_from attempt_evolves (attempts t) (attempts t') ->
  rows_from enrollment_evolves (enrollments t) (enrollments t') ->
  (forall k o x, owners t' !! k = Some o -> fst <$> claimed o = Some x ->
     is_Some (nodes (base t') !! x)) ->
  unique_ok t'.
Proof.
  intros [Ub Ur Ua Uc Ud Ui Uo] Ee Fb Fa Fe Fo. split; [| | | | | | exact Fo].
  - intros i j b c Hi Hj Hm Hr. destruct (Fb i b Hi) as (b0 & Hb & []).
    destruct (Fb j c Hj) as (c0 & Hc & []). apply (Ub i j b0 c0); congruence.
  - intros i j b c Hi Hj Ab Ac Hk. destruct (Fb i b Hi) as (b0 & Hb & Eb).
    destruct (Fb j c Hj) as (c0 & Hc & Ec). apply (Ur i j b0 c0); [done | done | | |].
    + by eapply active_from. + by eapply active_from.
    + destruct Eb, Ec. destruct Hk; [left | right]; congruence.
  - intros i j a c Hi Hj Hk. destruct (Fa i a Hi) as (a0 & Ha & Ea).
    destruct (Fa j c Hj) as (c0 & Hc & Ec). apply (Ua i j a0 c0); [done | done |].
    destruct Hk as [Hk | (Hk & Sa & Sc)]; [left; destruct Ea, Ec; congruence |].
    right. split; [destruct Ea, Ec; congruence |]. split; by eapply live_from.
  - intros i a Hi. destruct (Fa i a Hi) as (a0 & Ha & [_ He _ _]).
    specialize (Uc i a0 Ha). rewrite He. apply fmap_Some in Uc as (e & Hel & Hst).
    destruct (Ee _ _ Hel) as (e' & Hel' & [_ _ _ F]). rewrite Hel'. cbn. rewrite F; congruence.
  - intros i j e f Hi Hj Hd. destruct (Fe i e Hi) as (e0 & He & []).
    destruct (Fe j f Hj) as (f0 & Hf & []). apply (Ud i j e0 f0); congruence.
  - intros i j e f Hi Hj Hm Se Sf. destruct (Fe i e Hi) as (e0 & He & Ee0).
    destruct (Fe j f Hj) as (f0 & Hf & Ef0). apply (Ui i j e0 f0); [done | done | | |].
    + destruct Ee0, Ef0; congruence. + by eapply issued_from. + by eapply issued_from.
Qed.

Lemma unique_insert_binding t id b :
  unique_ok t -> binding_insertable id b t = true ->
  (forall j c, bindings t !! j = Some c -> bd_machine c = bd_machine b -> bd_revision c <> bd_revision b) ->
  unique_ok (with_bindings t (<[id := b]> (bindings t))).
Proof.
  intros [Ub Ur Ua Uc Ud Ui Uo] Hi Hrev. unfold binding_insertable in Hi.
  apply andb_true_iff in Hi as [[[Hnew _]%andb_true_iff Hrelay]%andb_true_iff Hkey].
  split_bools. rewrite exists_where_false in *. split; cbn; try done.
  - intros i j c d. rewrite !lookup_insert_Some.
    intros [[<- <-]|[? Hc]] [[<- <-]|[? Hd]] Hm Hr; [done | | | eauto].
    + by destruct (Hrev j d).
    + by destruct (Hrev i c).
  - assert (Hno : forall j c, bindings t !! j = Some c -> bd_active c = true ->
                  relay_id c = relay_id b \/ relay_public_key c = relay_public_key b -> False).
    { intros j c Hc Ha [Hr | Hr].
      - specialize (Hrelay j c Hc). cbn in Hrelay. by rewrite Ha, Hr, Z.eqb_refl in Hrelay.
      - specialize (Hkey j c Hc). cbn in Hkey. rewrite Ha, bool_decide_eq_true_2 in Hkey; done. }
    intros i j c d. rewrite !lookup_insert_Some.
    intros [[<- <-]|[? Hc]] [[<- <-]|[? Hd]] Ac Ad Hk; [done | | | eauto].
    + destruct (Hno j d Hd Ad). destruct Hk; [left | right]; congruence.
    + by destruct (Hno i c Hc Ac).
Qed.

Lemma unique_insert_attempt t id a :
  unique_ok t -> attempt_insertable id a t = true ->
  en_status <$> enrollments t !! at_enrollment a = Some Consumed ->
  unique_ok (with_attempts t (<[id := a]> (attempts t))).
Proof.
  intros [Ub Ur Ua Uc Ud Ui Uo] Hi Hcons. unfold attempt_insertable in Hi.
  apply andb_true_iff in Hi as [[Hnew Hen]%andb_true_iff Hlive].
  split_bools. rewrite exists_where_false in *. split; cbn; try done.
  - assert (Hno : forall j c, attempts t !! j = Some c -> at_enrollment c = at_enrollment a
              \/ at_machine c = at_machine a /\ at_status c = InProgress -> False).
    { intros j c Hc [He | [Hm Hs]].
      - specialize (Hen j c Hc). cbn in Hen. by split_bools.
      - specialize (Hlive j c Hc). unfold verifying_of in Hlive.
        rewrite Hm, Hs, Z.eqb_refl, bool_decide_eq_true_2 in Hlive; done. }
    intros i j c d. rewrite !lookup_insert_Some.
    intros [[<- <-]|[? Hc]] [[<- <-]|[? Hd]] Hk; [done | | | eauto].
    + destruct (Hno j d Hd). destruct Hk as [Hk | (Hm & _ & Hs)]; [left | right]; by split || done.
    + destruct (Hno i c Hc). naive_solver.
  - intros i c. rewrite lookup_insert_Some. intros [[<- <-]|[? Hc]]; [done | eauto].
Qed.

Lemma unique_insert_enrollment t id e :
  unique_ok t -> enrollments t !! id = None ->
  (forall k f, enrollments t !! k = Some f -> token_digest f <> token_digest e) ->
  (forall k f, enrollments t !! k = Some f -> en_machine f = en_machine e -> en_status f <> Issued) ->
  unique_ok (with_enrollments t (<[id := e]> (enrollments t))).
Proof.
  intros [Ub Ur Ua Uc Ud Ui Uo] Hn Hd Hm. split; cbn; try done.
  - intros i a Ha. specialize (Uc i a Ha). rewrite lookup_insert_ne; [done |].
    intros Heq. rewrite <- Heq, Hn in Uc. done.
  - intros i j c d. rewrite !lookup_insert_Some.
    intros [[<- <-]|[? Hc]] [[<- <-]|[? Hf]] Hk; [done | | | eauto].
    + by destruct (Hd j d Hf).
    + by destruct (Hd i c Hc).
  - intros i j c d. rewrite !lookup_insert_Some.
    intros [[<- <-]|[? Hc]] [[<- <-]|[? Hf]] Hk Sc Sd; [done | | | eauto].
    + by destruct (Hm j d Hf).
    + by destruct (Hm i c Hc).
Qed.

(** *** Every transaction preserves the invariant *)

Definition tables_ok (t : Tables) : Prop := (forall k, machine_ok t k) /\ unique_ok t.

Lemma machine_ok_Some t k m :
  machine_ok t k -> machines t !! k = Some m ->
  exists o, owners t !! k = Some o /\ machine_rows_ok t k m o.
Proof.
  unfold machine_ok. intros Hok Hm. rewrite Hm in Hok.
  destruct (owners t !! k) as [o|]; [by exists o | done].
Qed.

Lemma machine_ok_owner t k o :
  machine_ok t k -> owners t !! k = Some o -> exists m, machines t !! k = Some m.
Proof. unfold machine_ok. intros Hok Ho. rewrite Ho in Hok. destruct (machines t !! k) as [m|]; [by exists m | done]. Qed.

Lemma machine_ok_intro t k m o :
  machines t !! k = Some m -> owners t !! k = Some o -> machine_rows_ok t k m o -> machine_ok t k.
Proof. unfold machine_ok. by intros -> ->. Qed.

(** It is enough to look at the machine a transaction is about. *)
Lemma machines_ok_at t t' k0 :
  (forall k, machine_ok t k) -> (forall k, k <> k0 -> same_rows k t t') -> machine_ok t' k0 ->
  forall k, machine_ok t' k.
Proof.
  intros Hok Hs Hk0 k. destruct (decide (k = k0)) as [-> | Hne]; [done |].
  eapply machine_ok_frame; [by apply Hs | done].
Qed.

Lemma accept_body_preserves sv ok ts id digest t t' acc :
  tables_ok t -> accept_body sv ok ts id digest t = Ok (t', acc) -> tables_ok t'.
Proof.
  intros [Hm Hu] Hb. destruct (accept_body_Ok _ _ _ _ _ _ _ _ Hb)
    as (eid & e & m & He & _ & Hs & _ & Em & Hl & _ & _ & _ & _ & a & Ka & Ea & Ra & Sa & Hi & ->).
  destruct (machine_ok_Some _ _ _ (Hm (en_machine e)) Em) as (o & Ho & R).
  destruct R as [P Rr Re Rc Rb Rt]. unfold phase_ok in P. rewrite Hl in P. destruct P as [Pb Pa].
  assert (Hnew : attempts t !! id = None).
  { unfold attempt_insertable in Hi. by split_bools. }
  split.
  - apply (machines_ok_at t _ (en_machine e)); [done | |].
    + intros k Hk. eapply same_rows_trans; [apply same_rows_enrollments, same_for_alter |
        eapply same_rows_trans; [apply same_rows_machines | apply same_rows_attempts]].
      * intros e' He'. by simplify_eq.
      * cbn. by rewrite lookup_alter_ne.
      * apply same_for_insert; [done | congruence].
    + eapply machine_ok_intro; [cbn; by rewrite lookup_alter_eq, Em | done |]. split; cbn; try done.
      * unfold phase_ok. cbn. split.
        { intros (i & e' & Hi' & Ke & Se). cbn in Hi'. apply lookup_alter_Some in Hi'
            as [(-> & x & _ & ->) | [Hne Hx]]; [done |].
          by destruct Hne; eapply (u_issued _ Hu). }
        left. split; [| exact Pb]. exists id, a. cbn. by rewrite lookup_insert_eq.
      * intros c Hc. destruct (Rc c Hc) as [Hact _]. congruence.
      * intros i c. rewrite lookup_insert_Some. intros [[<- <-] | [_ Hc]] Kc Sc; [done |].
        destruct Pa. by exists i, c.
  - match goal with |- unique_ok (with_attempts ?t1 _) =>
      apply (unique_insert_attempt t1 id a); [| exact Hi |] end.
    + apply (unique_ok_from t); cbn; try (apply rows_from_refl, _); [done | | |].
      * apply (rows_alter _). intros e' He'. simplify_eq. by apply set_en_status_evolves.
      * apply (rows_from_alter _). intros e' He'. simplify_eq. by apply set_en_status_evolves.
      * exact (u_owner _ Hu).
    + cbn. by rewrite Ea, lookup_alter_eq, He.
Qed.

Lemma activate_body_preserves sv ok ts bid acc relay key host t t' u :
  tables_ok t -> activate_body sv ok ts bid acc relay key host t = Ok (t', u) -> tables_ok t'.
Proof.
  intros [Hm Hu] Hb. destruct (activate_body_Ok _ _ _ _ _ _ _ _ _ _ _ Hb)
    as (a & m & b & Ea & Em & Ka & Sa & _ & _ & _ & Hl & _ & Hh & Hbd & Hi & ->).
  destruct (machine_ok_Some _ _ _ (Hm (ae_machine_id acc)) Em) as (o & Ho & [P Rr Re Rc Rb Rt]).
  unfold phase_ok in P. rewrite Hl in P. destruct P as [Pt P].
  assert (Hal : attempt_live t (ae_machine_id acc)) by by exists (ae_attempt_id acc), a.
  destruct P as [[_ Pb] | [_ [Pa _]]]; [| by destruct Pa].
  assert (Hold : forall j c, bindings t !! j = Some c -> bd_machine c = ae_machine_id acc ->
            bd_revision c < route_revision m).
  { intros j c Hc Kc. specialize (Rb j c Hc Kc). destruct (bd_active c) eqn:Ac; [| done].
    destruct Pb. by exists j, c. }
  assert (Hnew : bindings t !! bid = None).
  { unfold binding_insertable in Hi. by split_bools. }
  split.
  - apply (machines_ok_at t _ (ae_machine_id acc)); [done | |].
    + intros k Hk. eapply same_rows_trans; [apply same_rows_machines |
        eapply same_rows_trans; [apply same_rows_bindings, same_for_insert |
          apply same_rows_attempts, same_for_alter]].
      * by rewrite lookup_alter_ne.
      * done.
      * subst b. cbn. congruence.
      * intros a' Ha'. cbn in Ha'. simplify_eq. cbn. split; congruence.
    + eapply machine_ok_intro; [cbn; by rewrite lookup_alter_eq, Em | done |]. split; cbn; try done.
      * unfold phase_ok. cbn. rewrite Hl. split; [exact Pt |]. right. split; [| split; [| done]].
        { exists bid, b. cbn. rewrite lookup_insert_eq. by subst b. }
        intros (i & c & Hc & Kc & Sc). cbn in Hc.
        apply lookup_alter_Some in Hc as [(<- & x & _ & ->) | [Hne Hc]]; [done |].
        destruct Hne. eapply (u_attempt _ Hu); [done | done |]. right. split_and!; congruence.
      * intros j c. rewrite lookup_insert_Some. intros [[<- <-] | [_ Hc]] Kc; [by subst b |].
        by apply (Rb j c).
      * intros i c Hc Kc Sc.
        apply lookup_alter_Some in Hc as [(<- & x & _ & ->) | [_ Hc]]; [done | by apply (Rt i c)].
  - apply (unique_ok_from (with_bindings t (<[bid := b]> (bindings t)))); cbn;
      try (apply rows_from_refl, _); [| | |].
    + apply unique_insert_binding; [done | done |]. intros j c Hc Kc. subst b. cbn in *.
      specialize (Hold j c Hc Kc). lia.
    + apply (rows_refl _).
    + apply (rows_from_alter _). intros a' Ha'. simplify_eq. by apply set_at_status_evolves.
    + exact (u_owner _ Hu).
Qed.

Lemma unique_ok_owners t x :
  unique_ok t ->
  (forall k o y, x !! k = Some o -> fst <$> claimed o = Some y -> is_Some (nodes (base t) !! y)) ->
  unique_ok (with_owners t x).
Proof. intros [] Hx. by split. Qed.
Lemma unique_ok_machines t x : unique_ok t -> unique_ok (with_machines t x).
Proof. intros []. by split. Qed.
Lemma unique_ok_attempts t x :
  unique_ok t -> rows_from attempt_evolves (attempts t) x -> unique_ok (with_attempts t x).
Proof.
  intros Hu Hx. apply (unique_ok_from t); cbn; try (apply rows_from_refl, _); try done.
  - apply (rows_refl _).
  - exact (u_owner _ Hu).
Qed.
Lemma unique_ok_bindings t x :
  unique_ok t -> rows_from binding_evolves (bindings t) x -> unique_ok (with_bindings t x).
Proof.
  intros Hu Hx. apply (unique_ok_from t); cbn; try (apply rows_from_refl, _); try done.
  - apply (rows_refl _).
  - exact (u_owner _ Hu).
Qed.
Lemma unique_ok_cancel t machine : unique_ok t -> unique_ok (cancel_issued machine t).
Proof.
  intros Hu. apply (unique_ok_from t); cbn; try (apply rows_from_refl, _); try done.
  - exact (ev_enrollments _ _ (cancel_issued_evolves machine t)).
  - apply (rows_from_update _). unfold issued_for. intros k e _ Hp. split_bools.
    by apply set_en_status_evolves.
  - exact (u_owner _ Hu).
Qed.

(** An attempt that is not live is left alone. *)
Lemma fail_one_nothing r id machine revision t :
  (forall a, attempts t !! id = Some a -> at_status a <> InProgress) ->
  fail_one r id machine revision t = t.
Proof.
  intros Hn. unfold fail_one.
  assert (Haff : affected (fun k a => (k =? id) && bool_decide (at_status a = InProgress))
                   (attempts t) = 0).
  { rewrite affected_key. destruct (attempts t !! id) as [a|] eqn:Ea; [| done].
    by rewrite bool_decide_eq_false_2 by by apply Hn. }
  rewrite Haff, update_where_nothing by done. by destruct t.
Qed.

(** Failing a live attempt whose machine and revision are the given ones. *)
Lemma fail_one_preserves r id machine revision t :
  tables_ok t ->
  (forall a, attempts t !! id = Some a -> at_machine a = machine /\ at_revision a = revision) ->
  tables_ok (fail_one r id machine revision t).
Proof.
  intros [Hm Hu] Hg.
  destruct (attempts t !! id) as [a|] eqn:Ea; [| rewrite fail_one_nothing; [by split | congruence]].
  destruct (Hg a eq_refl) as [Ka Ra].
  destruct (decide (at_status a = InProgress)) as [H1 | Sa];
    [| rewrite fail_one_nothing; [by split | congruence]].
  unfold fail_one. rewrite affected_key, Ea, bool_decide_eq_true_2 by done. cbv iota zeta.
  change (1 =? 1) with true. cbv iota.
  assert (Hlive : attempt_live t machine) by by exists id, a.
  assert (exists m, machines t !! machine = Some m) as [m Em].
  { destruct (machines t !! machine) as [m|] eqn:Em; [by exists m |].
    pose proof (Hm machine) as Hk. unfold machine_ok in Hk. rewrite Em in Hk.
    destruct (owners t !! machine); [done |]. destruct Hk as [_ Na _]. by destruct (Na id a). }
  destruct (machine_ok_Some _ _ _ (Hm machine) Em) as (o & Ho & [P Rr Re Rc Rb Rt]).
  assert (Hl : lifecycle m = Verifying /\ ~ token_live t machine /\ ~ binding_live t machine).
  { unfold phase_ok in P. destruct (lifecycle m); tauto. }
  destruct Hl as (Hl & Pt & Pb). pose proof (Rt id a Ea Ka H1) as Hrev. rewrite Ra in Hrev.
  assert (Hbound : exists_where (fun _ b => active_binding machine b && (bd_revision b =? revision))
                     (bindings t) = false).
  { apply exists_where_false. intros j b Hb. unfold active_binding.
    destruct (Z.eqb_spec (bd_machine b) machine); [| done].
    destruct (bd_active b) eqn:Ab; [| done]. destruct Pb. by exists j, b. }
  cbn [bindings with_attempts]. rewrite Hbound, andb_false_r. rewrite !update_where_key.
  split.
  - apply (machines_ok_at t _ machine); [done | |].
    + intros k Hk. eapply same_rows_trans; [apply same_rows_attempts, same_for_alter |
        apply same_rows_machines].
      * intros a' Ha'. simplify_eq. destruct (bool_decide _); cbn; split; congruence.
      * cbn. by rewrite lookup_alter_ne.
    + eapply machine_ok_intro; [cbn; by rewrite lookup_alter_eq, Em | done |].
      rewrite Hl, Hrev, Z.eqb_refl. cbn. split; cbn; try done.
      * unfold phase_ok. cbn. split; [exact Pb |]. intros (i & c & Hc & Kc & Sc). cbn in Hc.
        apply lookup_alter_Some in Hc as [(<- & x & Hx & ->) | [Hne Hc]].
        { simplify_eq. by rewrite bool_decide_eq_true_2 in Sc. }
        destruct Hne. eapply (u_attempt _ Hu); [done | done |]. right. split_and!; congruence.
      * intros c Hc. destruct (Rc c Hc) as [Hact _]. congruence.
      * intros i c Hc Kc Sc.
        apply lookup_alter_Some in Hc as [(<- & x & Hx & ->) | [_ Hc]]; [| by apply (Rt i c)].
        simplify_eq. by rewrite bool_decide_eq_true_2 in Sc.
  - apply unique_ok_machines, unique_ok_attempts; [done |].
    apply (rows_from_alter _). intros a' Ha'. simplify_eq.
    rewrite bool_decide_eq_true_2 by done. by apply set_at_status_evolves.
Qed.

Lemma expired_rows_elem machine now t id a :
  (id, a) ∈ expired_rows machine now t -> attempts t !! id = Some a.
Proof.
  unfold expired_rows. intros Hin. apply elem_of_take in Hin as (i & Hin & _).
  apply list_elem_of_lookup_2 in Hin. rewrite merge_sort_Permutation in Hin.
  by apply select_elem in Hin as [? _].
Qed.

Lemma recover_fold_preserves t0 l t :
  tables_ok t -> evolves t0 t ->
  (forall id a, (id, a) ∈ l -> attempts t0 !! id = Some a) ->
  tables_ok (foldl (fun t '(id, a) => fail_one true id (at_machine a) (at_revision a) t) t l).
Proof.
  revert t. induction l as [|[id a] l IH]; intros t Ht Hev Hrows; cbn; [done |].
  apply IH.
  - apply fail_one_preserves; [done |]. intros a' Ha'.
    destruct (ev_attempts _ _ Hev id a) as (a'' & Ha'' & [Em _ Er _]).
    { apply Hrows. left. }
    simplify_eq. done.
  - etrans; [exact Hev | apply fail_one_evolves].
  - intros i c Hc. apply Hrows. by right.
Qed.

Lemma recover_body_preserves sv ok ts machine t t' u :
  tables_ok t -> recover_body sv ok ts machine t = Ok (t', u) -> tables_ok t'.
Proof.
  intros Ht. unfold recover_body. intros Hb. inv_ok. simplify_eq.
  apply (recover_fold_preserves t); [done | done |]. intros id a. apply expired_rows_elem.
Qed.

Lemma fail_body_preserves sv ok ts acc t t' u :
  tables_ok t ->
  (exists a, attempts t !! ae_attempt_id acc = Some a
     /\ at_machine a = ae_machine_id acc /\ at_revision a = ae_route_revision acc) ->
  fail_body sv ok ts acc t = Ok (t', u) -> tables_ok t'.
Proof.
  intros Ht (a & Ha & Hk & Hr). unfold fail_body. intros Hb. inv_ok. simplify_eq.
  apply fail_one_preserves; [done |]. intros a' Ha'. by simplify_eq.
Qed.

(** *** Owners *)

Lemma claim_body_preserves sv ok ts machine connection revision t t' e :
  tables_ok t -> claim_body sv ok ts machine connection revision t = Ok (t', e) -> tables_ok t'.
Proof.
  intros [Hm Hu] Hb. apply claim_body_Ok in Hb as (_ & _ & Hnode & o & Hr & _ & -> & _ & ->).
  apply claim_row_Some in Hr as (Ho & Hrev & m & Em & Hl & Hh & Hrm & Hb).
  destruct (machine_ok_Some _ _ _ (Hm machine) Em) as (o' & Ho' & [P Rr Re Rc Rb Rt]).
  simplify_eq. apply exists_where_true in Hb as (j & b & Hj & Hbo).
  unfold binding_of, active_binding in Hbo. split_bools.
  assert (Hlive : binding_live t machine) by by exists j, b.
  split.
  - apply (machines_ok_at t _ machine); [done | |].
    + intros k Hk. eapply same_rows_trans; [apply same_rows_owners | apply same_rows_machines];
        cbn; by rewrite lookup_alter_ne.
    + eapply machine_ok_intro; [cbn; by rewrite lookup_alter_eq, Em
                               | cbn; by rewrite lookup_alter_eq, Ho |].
      assert (Hmach : forall x, x = (if bool_decide (lifecycle m = Verifying)
                        && (route_revision m =? owner_revision o)
                        then set_lifecycle Active m else m) ->
               lifecycle x = Active /\ route_revision x = route_revision m
               /\ host_identity x = host_identity m).
      { intros x ->. rewrite Hrm, Z.eqb_refl, andb_true_r. case_bool_decide; [done |].
        by destruct Hl. }
      destruct (Hmach _ eq_refl) as (Hx & Hxr & Hxh). revert Hx Hxr Hxh.
      generalize (if bool_decide (lifecycle m = Verifying) && (route_revision m =? owner_revision o)
                  then set_lifecycle Active m else m).
      intros x Hx Hxr Hxh. split; rewrite ?Hxr; cbn; try done; [| lia | intros _ _; split; [done | lia]].
      unfold phase_ok in *. rewrite Hx, Hxh. destruct Hl as [Hl | Hl]; rewrite Hl in P; tauto.
  - apply unique_ok_machines, unique_ok_owners; [done |]. intros k o' x Ho' Hc.
    apply lookup_alter_Some in Ho' as [(<- & o0 & _ & ->) | [_ Hk]]; [| by apply (u_owner _ Hu k o')].
    cbn in Hc. simplify_eq. unfold own_node_valid in Hnode.
    by destruct (nodes (base t) !! sv_incarnation sv).
Qed.

Lemma release_body_preserves sv ok ts machine connection epoch t t' u :
  tables_ok t -> release_body sv ok ts machine connection epoch t = Ok (t', u) -> tables_ok t'.
Proof.
  intros [Hm Hu]. unfold release_body. intros Hb. inv_ok. simplify_eq. split_bools.
  unfold release_guard. rewrite update_where_key. split.
  - apply (machines_ok_at t _ machine); [done | |].
    + intros k Hk. apply same_rows_owners. by rewrite lookup_alter_ne.
    + pose proof (Hm machine) as Hk. unfold machine_ok in *. cbn. rewrite lookup_alter_eq.
      destruct (machines t !! machine) as [m|], (owners t !! machine) as [o|]; cbn; try done;
        [destruct (_ && _) |]; destruct Hk; by split.
  - apply unique_ok_owners; [done |]. intros k o x Ho Hc.
    apply lookup_alter_Some in Ho as [(<- & o0 & Ho0 & ->) | [_ Hk]].
    + destruct (_ && _); [done |]. by apply (u_owner _ Hu machine o0).
    + by apply (u_owner _ Hu k o).
Qed.

(** *** The lifecycle API *)

(** Columns the invariant does not read. *)
Lemma columns_preserve f k t :
  (forall m, lifecycle (f m) = lifecycle m /\ route_revision (f m) = route_revision m
             /\ host_identity (f m) = host_identity m) ->
  tables_ok t -> tables_ok (with_machines t (alter f k (machines t))).
Proof.
  intros Hf [Hm Hu]. split; [| by apply unique_ok_machines].
  apply (machines_ok_at t _ k); [done | |].
  - intros k' Hne. apply same_rows_machines. by rewrite lookup_alter_ne.
  - pose proof (Hm k) as Hk. unfold machine_ok in *. cbn. rewrite lookup_alter_eq.
    destruct (machines t !! k) as [m|], (owners t !! k) as [o|]; cbn; try done; [| by destruct Hk].
    destruct (Hf m) as (Hl & Hr & Hh), Hk as [P]. split; rewrite ?Hl, ?Hr; try done.
    unfold phase_ok in *. rewrite Hl, Hh. done.
Qed.

Lemma re_enroll_disabled_body_preserves sv l0 l1 ts machine t t' u :
  tables_ok t -> re_enroll_disabled_body sv l0 l1 ts machine t = Ok (t', u) -> tables_ok t'.
Proof.
  intros [Hm Hu]. unfold re_enroll_disabled_body. intros Hb. inv_ok. simplify_eq. split_bools.
  match goal with Ha : affected _ _ = 1 |- _ => rewrite affected_key in Ha end.
  destruct (machines t !! machine) as [m|] eqn:Em; [| done].
  destruct (bool_decide (lifecycle m = Disabled)) eqn:Hl; [| done]. split_bools.
  destruct (machine_ok_Some _ _ _ (Hm machine) Em) as (o & Ho & [P Rr Re Rc Rb Rt]).
  rewrite update_where_key. split; [| by apply unique_ok_machines].
  apply (machines_ok_at t _ machine); [done | |].
  - intros k Hk. apply same_rows_machines. by rewrite lookup_alter_ne.
  - eapply machine_ok_intro; [cbn; by rewrite lookup_alter_eq, Em | done |].
    rewrite bool_decide_eq_true_2 by done. split; cbn; try done.
    + unfold phase_ok in *. rewrite Hl in P. cbn. tauto.
    + intros c Hc. destruct (Rc c Hc). congruence.
Qed.

Lemma cancel_issued_preserves machine t :
  tables_ok t -> tables_ok (cancel_issued machine t) /\ ~ token_live (cancel_issued machine t) machine.
Proof.
  intros [Hm Hu].
  assert (Hno : ~ token_live (cancel_issued machine t) machine).
  { intros (i & e & Hi & Ke & Se). cbn in Hi. apply update_where_Some in Hi as (e0 & _ & ->).
    unfold issued_for in *. destruct (_ && _) eqn:Eg; [done |].
    by rewrite Ke, Se, Z.eqb_refl, bool_decide_eq_true_2 in Eg. }
  split; [split; [| by apply unique_ok_cancel] | done].
  apply (machines_ok_at t _ machine); [done | |].
  - intros k Hk. apply same_rows_enrollments, same_for_update. unfold issued_for.
    intros i e _ Hp. split_bools. cbn. split; congruence.
  - pose proof (Hm machine) as Hk. unfold machine_ok in *. cbn.
    destruct (machines t !! machine) as [m|], (owners t !! machine) as [o|]; try done.
    + destruct Hk as [P]. split; try done. unfold phase_ok in *.
      destruct (lifecycle m); tauto.
    + destruct Hk as [Nb Na Ne]. split; try done. intros i e Hi Ke. cbn in Hi.
      apply update_where_Some in Hi as (e0 & He & ->). apply (Ne i e0 He).
      by destruct (issued_for machine e0).
Qed.

Lemma insert_enrollment_preserves id machine digest now t t' :
  tables_ok t -> lifecycle <$> machines t !! machine = Some Pending ->
  insert_enrollment id machine digest now t = Ok t' -> tables_ok t'.
Proof.
  intros [Hm Hu] Hl Hi. apply insert_enrollment_Ok in Hi as (Hn & Hd & Hs & ->).
  apply fmap_Some in Hl as (m & Em & Hl).
  destruct (machine_ok_Some _ _ _ (Hm machine) Em) as (o & Ho & [P Rr Re Rc Rb Rt]).
  split; [| by apply unique_insert_enrollment].
  apply (machines_ok_at t _ machine); [done | |].
  - intros k Hk. apply same_rows_enrollments, same_for_insert; [done | by apply not_eq_sym].
  - eapply machine_ok_intro; [done | done |]. split; try done.
    unfold phase_ok in *. by rewrite <- Hl in *.
Qed.

Lemma create_body_preserves sv l0 l1 ts ids input digest t t' c :
  tables_ok t -> create_body sv l0 l1 ts ids input digest t = Ok (t', c) -> tables_ok t'.
Proof.
  intros [Hm Hu] Hb. apply create_body_Ok in Hb as (Em & Eo & _ & Hi).
  refine (insert_enrollment_preserves _ _ _ _ _ _ _ _ Hi); [| cbn; by rewrite lookup_insert_eq].
  pose proof (Hm (id_machine ids)) as Hk. unfold machine_ok in Hk. rewrite Em, Eo in Hk.
  destruct Hk as [Nb Na Ne]. split.
  - apply (machines_ok_at t _ (id_machine ids)); [done | |].
    + intros k Hk. eapply same_rows_trans; [apply same_rows_machines | apply same_rows_owners];
        cbn; by rewrite lookup_insert_ne.
    + eapply machine_ok_intro; [cbn; by rewrite lookup_insert_eq.. |]. split; cbn; try done.
      * split; [intros (j & b & Hj & Kb & _); by apply (Nb j b)
               | intros (i & a & Hi' & Ka & _); by apply (Na i a)].
      * intros j b Hj Kb. by destruct (Nb j b Hj).
      * intros i a Hi' Ka. by destruct (Na i a Hi').
  - apply unique_ok_owners; [by apply unique_ok_machines |]. intros k o x Ho Hc. cbn.
    apply lookup_insert_Some in Ho as [[<- <-] | [_ Ho]]; [done | by apply (u_owner _ Hu k o)].
Qed.

Lemma issue_body_preserves sv l0 l1 ts id machine digest t t' u :
  tables_ok t -> issue_body sv l0 l1 ts id machine digest t = Ok (t', u) -> tables_ok t'.
Proof.
  intros Ht. unfold issue_body. intros Hb. inv_ok. simplify_eq. split_bools.
  eapply insert_enrollment_preserves; [| | eassumption]; [by apply cancel_issued_preserves | done].
Qed.

Lemma transition_body_preserves sv l0 l1 ts machine target expected t t' u :
  target = Pending \/ target = Disabled ->
  tables_ok t -> transition_body sv l0 l1 ts machine target expected t = Ok (t', u) -> tables_ok t'.
Proof.
  intros Htarget [Hm Hu] Hb.
  apply transition_body_Ok in Hb as (m & o & Em & Eo & Hl & _ & _ & _ & _ & _ & ->).
  set (t1 := with_attempts (with_bindings t _) _).
  destruct (machine_ok_Some _ _ _ (Hm machine) Em) as (o' & Ho' & [P Rr Re Rc Rb Rt]).
  simplify_eq.
  assert (Hnob : forall j b, bindings t1 !! j = Some b -> bd_machine b = machine ->
            bd_active b = false /\ bd_revision b < route_revision m + 1).
  { subst t1. cbn. intros j b' Hj Kb. apply update_where_Some in Hj as (b & Hj & ->).
    assert (Kb0 : bd_machine b = machine) by by destruct (binding_of _ _ b).
    specialize (Rb j b Hj Kb0).
    destruct (binding_of machine (route_revision m) b) eqn:Eb; cbn.
    - unfold binding_of in Eb. split_bools. split; [done | lia].
    - unfold binding_of, active_binding in Eb. rewrite Kb0, Z.eqb_refl in Eb.
      destruct (bd_active b); cbn in Eb; [| split; [done | lia]]. rewrite Rb, Z.eqb_refl in Eb. done. }
  assert (Hnoa : forall i a, attempts t1 !! i = Some a -> at_machine a = machine ->
            at_status a <> InProgress).
  { subst t1. cbn. intros i a' Hi Ka. apply update_where_Some in Hi as (a & Hi & ->).
    destruct (verifying_of machine a) eqn:Ev; [done |]. unfold verifying_of in Ev.
    rewrite Ka, Z.eqb_refl in Ev. cbn in Ev. by split_bools. }
  assert (Hu1 : unique_ok t1).
  { subst t1. apply unique_ok_attempts; [apply unique_ok_bindings; [done |] |].
    - apply (rows_from_update _). intros. apply revoke_evolves.
    - apply (rows_from_update _). intros i a _ Hp. unfold verifying_of in Hp. split_bools.
      by apply set_at_status_evolves. }
  assert (Hsame : forall k, k <> machine -> same_rows k t t1).
  { intros k Hk. subst t1. eapply same_rows_trans;
      [apply same_rows_bindings, same_for_update | apply same_rows_attempts, same_for_update].
    - unfold binding_of, active_binding. intros j b _ Hp. split_bools. cbn. split; congruence.
    - unfold verifying_of. intros i a _ Hp. split_bools. cbn. split; congruence. }
  split.
  - apply (machines_ok_at t _ machine); [done | |].
    + intros k Hk. eapply same_rows_trans; [by apply Hsame |].
      eapply same_rows_trans; [apply (same_rows_enrollments _ t1), same_for_update |
        eapply same_rows_trans; [apply (same_rows_owners _ (cancel_issued machine t1)) |
                                 apply same_rows_machines]]; cbn; try by rewrite lookup_alter_ne.
      unfold issued_for. intros i e _ Hp. split_bools. cbn. split; congruence.
    + eapply machine_ok_intro; [cbn; by rewrite lookup_alter_eq, Em
                               | cbn; by rewrite lookup_alter_eq, Eo |].
      assert (Hnot : ~ token_live (cancel_issued machine t1) machine).
      { intros (i & e & Hi & Ke & Se). cbn in Hi. apply update_where_Some in Hi as (e0 & _ & ->).
        unfold issued_for in *. destruct (_ && _) eqn:Eg; [done |].
        by rewrite Ke, Se, Z.eqb_refl, bool_decide_eq_true_2 in Eg. }
      split; cbn; try done.
      * assert (Hb : ~ binding_live t1 machine).
        { intros (j & b & Hj & Kb & Ab). destruct (Hnob j b Hj Kb). congruence. }
        assert (Ha : ~ attempt_live t1 machine).
        { intros (i & a & Hi & Ka & Sa). by destruct (Hnoa i a Hi Ka). }
        unfold phase_ok. cbn. by destruct Htarget as [-> | ->].
      * intros j b Hj Kb. destruct (Hnob j b Hj Kb) as [-> Hlt]. done.
      * intros i a Hi Ka Sa. by destruct (Hnoa i a Hi Ka).
  - apply unique_ok_machines, unique_ok_owners; [by apply unique_ok_cancel |].
    intros k o1 x Ho Hc. apply lookup_alter_Some in Ho as [(<- & o0 & _ & ->) | [_ Ho]]; [done |].
    by apply (u_owner _ Hu k o1).
Qed.

Lemma others_preserves t t' : tables_ok t -> others t t' -> tables_ok t'.
Proof.
  intros [Hm Hu] [Em Eo Ee Eb Ea Er].
  assert (Hcore : forall i, core <$> attempts t' !! i = core <$> attempts t !! i).
  { intros i. specialize (Ea i).
    destruct (attempts t !! i) as [a|], (attempts t' !! i) as [a'|]; try done.
    destruct Ea as [-> | [_ ->]]; done. }
  assert (Hfrom : rows_from attempt_evolves (attempts t) (attempts t')).
  { intros i a' Ha'. specialize (Ea i). rewrite Ha' in Ea.
    destruct (attempts t !! i) as [a|]; [| done]. exists a. split; [done |].
    destruct Ea as [-> | [? ->]]; by split. }
  split.
  - intros k. apply (machine_ok_frame t); [| done]. split; rewrite ?Em, ?Eo, ?Ee, ?Eb; try done.
    intros i c _. by rewrite Hcore.
  - apply (unique_ok_from t); rewrite ?Ee, ?Eb; try (apply rows_from_refl, _); try done.
    apply (rows_refl _).
Qed.

Lemma run_preserves {E A} fate failed (amb : E) (body : Tables -> result E (Tables * A)) t :
  tables_ok t -> (forall t' a, tables_ok t -> body t = Ok (t', a) -> tables_ok t') ->
  tables_ok (fst (run fate failed amb body t)).
Proof.
  intros Ht Hb. destruct (run_tables fate failed amb body t) as [-> | [a Ha]]; [done |].
  by eapply Hb.
Qed.

Lemma step_tables_ok w w' : authority_ok w -> world_step w w' -> tables_ok (tbl w').
Proof.
  intros [Hm Hu Hh] Hs. assert (Ht : tables_ok (tbl w)) by by split. clear Hm Hu. revert Hh Ht.
  destruct Hs as [w sv fate ok ts id token t r Hr|w sv fate ok ts bid acc relay key host Hacc|
    |w sv fate ok ts acc Hacc| | | | | | | | |w sv fate l0 l1 ts machine target expected Htarget|w t Ho];
    intros Hh Ht; cbn [at_tables tbl].
  - unfold accept_token in Hr. destruct (_ || _); [by simplify_eq |].
    rewrite <- (f_equal fst Hr : _ = t). apply run_preserves; [done |].
    intros ??. apply accept_body_preserves.
  - apply run_preserves; [done |]. intros ??. apply activate_body_preserves.
  - apply run_preserves; [done |]. intros ??. apply recover_body_preserves.
  - apply run_preserves; [done |]. intros ?? Ht' Hb.
    by eapply fail_body_preserves; [| by apply Hh |].
  - unfold claim_owner. destruct (run _ _ _ _ _) as [t r] eqn:Er. cbn.
    rewrite <- (f_equal fst Er : _ = t). apply run_preserves; [done |].
    intros ??. apply claim_body_preserves.
  - unfold release_owner. destruct (run _ _ _ _ _) as [t r] eqn:Er. cbn.
    rewrite <- (f_equal fst Er : _ = t). apply run_preserves; [done |].
    intros ??. apply release_body_preserves.
  - unfold create_machine. destruct (validate_machine input); [| done].
    apply run_preserves; [done |]. intros ??. apply create_body_preserves.
  - unfold rename_machine. destruct (validate_name name); [| done].
    apply run_preserves; [done |]. intros t' a Ht' Hb. unfold rename_body in Hb. inv_ok. simplify_eq.
    by apply columns_preserve.
  - apply run_preserves; [done |]. intros t' a Ht' Hb. unfold rebind_body in Hb. inv_ok. simplify_eq.
    by apply columns_preserve.
  - apply run_preserves; [done |]. intros ??. apply re_enroll_disabled_body_preserves.
  - apply run_preserves; [done |]. intros ??. apply issue_body_preserves.
  - apply run_preserves; [done |]. intros t' a Ht' Hb. unfold cancel_body in Hb. inv_ok. simplify_eq.
    by apply cancel_issued_preserves.
  - apply run_preserves; [done |]. intros ??. by apply transition_body_preserves.
  - by eapply others_preserves.
Qed.

(** What is held agrees with its attempt for ever: attempts keep their machine
    and their revision. *)
Lemma held_evolves t t' acc :
  evolves t t' ->
  (exists a, attempts t !! ae_attempt_id acc = Some a
     /\ at_machine a = ae_machine_id acc /\ at_revision a = ae_route_revision acc) ->
  exists a, attempts t' !! ae_attempt_id acc = Some a
     /\ at_machine a = ae_machine_id acc /\ at_revision a = ae_route_revision acc.
Proof.
  intros Hev (a & Ha & Hk & Hr). destruct (ev_attempts _ _ Hev _ _ Ha) as (a' & Ha' & [E1 _ E2 _]).
  exists a'. split_and!; congruence.
Qed.

Lemma step_authority_ok w w' : authority_ok w -> world_step w w' -> authority_ok w'.
Proof.
  intros Hw Hs. destruct (step_tables_ok _ _ Hw Hs) as [Hm Hu]. split; [done | done |].
  pose proof (step_evolves _ _ Hs) as Hev. destruct Hw as [_ _ Hh].
  destruct Hs as [w sv fate ok ts id token t r Hr| | | | | | | | | | | | |]; cbn in *;
    try (intros acc1 Hacc1; by eapply held_evolves, Hh).
  intros acc. destruct r as [a|e]; [rewrite elem_of_cons; intros [-> | Hacc] | intros Hacc];
    try by eapply held_evolves, Hh.
  unfold accept_token in Hr. destruct (_ || _); [done |]. apply run_Ok in Hr as [_ Hr].
  apply accept_body_Ok in Hr
    as (eid & e & m & _ & _ & _ & _ & _ & _ & _ & _ & _ & -> & x & Kx & _ & Rx & _ & _ & ->).
  exists x. cbn. by rewrite lookup_insert_eq.
Qed.

Lemma steps_authority_ok w w' : authority_ok w -> rtc world_step w w' -> authority_ok w'.
Proof. intros Hw. induction 1; [done |]. eauto using step_authority_ok. Qed.

End invariant.
