(* ===== verification/AuthorityTheorems.v ===== *)
(** * AuthorityTheorems: enrollment, ownership and lifecycle guarantees

    The properties of the transactions of Authority over every history of
    [Ownership.world_step], from the evolution of rows (Ownership) and the
    invariant (AuthorityInvariant). *)

From stdpp Require Import sorting.
From S2P Require Import Prelude Text Contracts Secrets Ssh Lease Tables Authority Ownership.
From S2P Require Import AuthorityInvariant.
Import Relay OwnerRs Api.

(** A deployment without machines. *)
Definition empty_tables (db : Database) (credentials : gmap Z bool) (default : Uuid) : Tables :=
  {| base := db; credentials := credentials; default_credential := default; machines := ∅;
     owners := ∅; enrollments := ∅; attempts := ∅; bindings := ∅ |}.
Definition fresh_world (db : Database) (credentials : gmap Z bool) (default : Uuid) : World :=
  {| tbl := empty_tables db credentials default; held := [] |}.

Section theorems.
Context `{Sha256, SshKeys}.

Lemma fresh_world_ok db cs d : authority_ok (fresh_world db cs d).
Proof.
  split; cbn.
  - intros k. unfold machine_ok. cbn. rewrite !lookup_empty. by split.
  - by split.
  - intros acc Hacc. by apply not_elem_of_nil in Hacc.
Qed.

(** A machine row of a reachable world with everything the invariant says. *)
Lemma machine_reachable w k m :
  authority_ok w -> machines (tbl w) !! k = Some m ->
  exists o, owners (tbl w) !! k = Some o /\ machine_rows_ok (tbl w) k m o.
Proof. intros [Hm _ _] Em. by apply machine_ok_Some. Qed.

(** C1. The rows of every machine fit together in every history of the
    deployment: an owner row follows the route revision and is claimed only
    while the machine is active; an active machine has a pinned host key and
    exactly one active Relay binding, of its current route revision; and a
    machine never has two of an issued token, a live verification attempt and
    an active binding. *)
Theorem authority_invariant db cs d w k m :
  rtc world_step (fresh_world db cs d) w -> machines (tbl w) !! k = Some m ->
  (exists o, owners (tbl w) !! k = Some o /\ owner_revision o = route_revision m
     /\ (claimed o <> None -> lifecycle m = Active /\ 0 < connection_epoch o))
  /\ (lifecycle m = Active ->
        host_identity m <> None
        /\ exists j b, bindings (tbl w) !! j = Some b /\ bd_machine b = k /\ bd_active b = true
             /\ bd_revision b = route_revision m
             /\ forall i c, bindings (tbl w) !! i = Some c -> bd_machine c = k ->
                  bd_active c = true -> i = j)
  /\ ~ (token_live (tbl w) k /\ attempt_live (tbl w) k)
  /\ ~ (token_live (tbl w) k /\ binding_live (tbl w) k)
  /\ ~ (attempt_live (tbl w) k /\ binding_live (tbl w) k).
Proof.
  intros Hs Em. pose proof (steps_authority_ok _ _ (fresh_world_ok db cs d) Hs) as Hok.
  destruct (machine_reachable _ _ _ Hok Em) as (o & Ho & [P Rr Re Rc Rb Rt]).
  split_and!; [exists o | intros Hl | unfold phase_ok in P; destruct (lifecycle m); tauto..].
  - split_and!; [done | done |]. intros Hc. destruct (claimed o) as [c|]; [by apply (Rc c) | done].
  - unfold phase_ok in P. rewrite Hl in P. destruct P as (_ & (j & b & Hj & Kb & Ab) & _ & Hh).
    split; [done |]. exists j, b. pose proof (Rb j b Hj Kb) as Hr. rewrite Ab in Hr.
    split_and!; [done.. |]. intros i c Hi Kc Ac. pose proof (Rb i c Hi Kc) as Hc. rewrite Ac in Hc.
    apply (u_binding _ (ok_unique _ Hok) i j c b); congruence.
Qed.

(** What is pinned stays pinned: in every history a machine keeps its row, its
    account, its tmux path and socket, and its host key once it has one, and
    its route revision never decreases. *)
Theorem target_pinned w w' k m :
  rtc world_step w w' -> machines (tbl w) !! k = Some m ->
  exists m', machines (tbl w') !! k = Some m'
    /\ target_account m' = target_account m /\ tmux_path m' = tmux_path m
    /\ tmux_socket_identity m' = tmux_socket_identity m
    /\ route_revision m <= route_revision m'
    /\ (host_identity m <> None -> host_identity m' = host_identity m).
Proof.
  intros Hs Em. destruct (ev_machines _ _ (steps_evolve _ _ Hs) k m Em) as (m' & Em' & []).
  exists m'. split_and!; try done. destruct (host_identity m); auto; done.
Qed.

(** C4. Ownership is fenced by epochs.  A successful claim found no lease-valid
    owner and gets the next epoch; in every later state the epoch is at least
    that one, and while it is that one the owner is this connection or
    nobody; only this connection can release it; every later claim gets a
    larger epoch. *)
Theorem ownership_epochs w sv fate ok ts k connection revision t1 e f w2 o2 :
  claim_owner sv fate ok ts k connection revision (tbl w) = (t1, Ok e, f) ->
  rtc world_step (at_tables w t1) w2 -> owners (tbl w2) !! k = Some o2 ->
  (exists o, owners (tbl w) !! k = Some o /\ e = connection_epoch o + 1
     /\ owner_valid (base (tbl w)) (t_query ts) o = false)
  /\ e <= connection_epoch o2
  /\ (connection_epoch o2 = e ->
        claimed o2 = Some (sv_incarnation sv, connection) \/ claimed o2 = None)
  /\ (forall sv' fate' ok' ts' connection' t3 u f',
        release_owner sv' fate' ok' ts' k connection' e (tbl w2) = (t3, Ok u, f') ->
        sv_incarnation sv' = sv_incarnation sv /\ connection' = connection)
  /\ (forall sv' fate' ok' ts' connection' revision' t3 e' f',
        claim_owner sv' fate' ok' ts' k connection' revision' (tbl w2) = (t3, Ok e', f') ->
        e < e').
Proof.
  intros Hc Hs Ho2. unfold claim_owner in Hc.
  destruct (run _ _ _ _ _) as [t r] eqn:Er in Hc. injection Hc as -> -> _.
  apply run_Ok in Er as [_ Er]. apply claim_body_Ok in Er as (_ & _ & _ & o & Hr & Hv & He & _ & Ht).
  apply claim_row_Some in Hr as (Ho & _).
  assert (Ho1 : owners t1 !! k = Some (set_claim e (Some (sv_incarnation sv, connection)) o)).
  { rewrite Ht. cbn. by rewrite lookup_alter_eq, Ho. }
  destruct (ev_owners _ _ (steps_evolve _ _ Hs) k _ Ho1) as (o' & Ho' & [Hle _ Hcl]).
  assert (o' = o2) as -> by (rewrite Ho2 in Ho'; by injection Ho').
  cbn [connection_epoch claimed set_claim] in *.
  assert (Hown : connection_epoch o2 = e ->
            claimed o2 = Some (sv_incarnation sv, connection) \/ claimed o2 = None) by auto.
  split_and!; [by exists o | done | done | |].
  - intros sv' fate' ok' ts' connection' t3 u f' Hrel. unfold release_owner in Hrel.
    destruct (run _ _ _ _ _) as [t' r'] eqn:Er' in Hrel. injection Hrel as -> -> _.
    apply run_Ok in Er' as [_ Er']. unfold release_body in Er'. inv_ok. split_bools.
    match goal with Ha : affected _ _ = 1 |- _ => unfold release_guard in Ha;
      rewrite affected_key, Ho2 in Ha end.
    destruct (_ && _) eqn:Eg in *; [| done]. split_bools.
    destruct Hown as [Hx | Hx]; [done | | congruence]. split; congruence.
  - intros sv' fate' ok' ts' connection' revision' t3 e' f' Hcl'. unfold claim_owner in Hcl'.
    destruct (run _ _ _ _ _) as [t' r'] eqn:Er' in Hcl'. injection Hcl' as -> -> _.
    apply run_Ok in Er' as [_ Er'].
    apply claim_body_Ok in Er' as (_ & _ & _ & o3 & Hr' & _ & -> & _).
    apply claim_row_Some in Hr' as (Ho3 & _). simplify_eq. lia.
Qed.

(** An owner operation whose effect is unknown, and every release that did
    not succeed, hard-fences the node; any other failed claim left the tables
    as they were. *)
Theorem owner_failures_fence sv fate ok ts k connection t :
  (forall revision t' e f,
     claim_owner sv fate ok ts k connection revision t = (t', Err e, f) ->
     t' = t \/ e = Ambiguous /\ f = true)
  /\ (forall epoch t' e f,
        release_owner sv fate ok ts k connection epoch t = (t', Err e, f) ->
        f = true /\ (t' = t \/ e = Ambiguous)).
Proof.
  assert (Hrun : forall A (body : Tables -> result RelayError (Tables * A)) t' e,
            run fate (fun _ => Relay.Unavailable) Ambiguous body t = (t', Err e) -> t' = t \/ e = Ambiguous).
  { intros A body t' e. destruct fate; cbn; try destruct (body t) as [[? ?]|?]; naive_solver. }
  split.
  - intros revision t' e f. unfold claim_owner. destruct (run _ _ _ _ _) as [t1 r] eqn:Er.
    intros Heq. injection Heq as -> -> <-. destruct (Hrun _ _ _ _ Er) as [-> | ->]; [by left | by right].
  - intros epoch t' e f. unfold release_owner. destruct (run _ _ _ _ _) as [t1 r] eqn:Er.
    intros Heq. injection Heq as -> -> <-. split; [done | by eapply Hrun].
Qed.

Lemma run_changed {E A} fate failed (amb : E) (body : Tables -> result E (Tables * A)) t t' r :
  run fate failed amb body t = (t', r) ->
  t' = t \/ exists a, body t = Ok (t', a) /\ (r = Ok a \/ r = Err amb).
Proof.
  destruct fate; cbn; try destruct (body t) as [[t1 a]|e]; intros Hr; simplify_eq; eauto.
Qed.

(** C23. An enrollment token is accepted at most once.  When an acceptance took
    effect - also when its commit looked failed to the caller - the token was
    issued, unexpired and for a pending machine, and in every later state the
    same token is refused without any effect. *)
Theorem enrollment_token_single_use w sv fate ok ts id token t1 r w2 :
  authority_ok w ->
  accept_token sv fate ok ts id token (tbl w) = (t1, r) -> t1 <> tbl w \/ is_ok r = true ->
  rtc world_step {| tbl := t1; held := match r with Ok a => a :: held w | _ => held w end |} w2 ->
  (exists eid e, enrollments (tbl w) !! eid = Some e /\ token_digest e = token_digest_of token
     /\ en_status e = Issued /\ t_query ts < token_expires_at e
     /\ lifecycle <$> machines (tbl w) !! en_machine e = Some Pending)
  /\ forall sv' fate' ok' ts' id' t3 r',
       accept_token sv' fate' ok' ts' id' token (tbl w2) = (t3, r') ->
       t3 = tbl w2 /\ is_ok r' = false.
Proof.
  intros Hok Ha Heff Hs. pose proof (ws_accept w _ _ _ _ _ _ _ _ Ha) as Hstep.
  pose proof (steps_authority_ok _ _ (step_authority_ok _ _ Hok Hstep) Hs) as [_ Hu2 _].
  apply steps_evolve in Hs. cbn in Hs.
  assert (Hbody : exists acc, accept_body sv ok ts id (token_digest_of token) (tbl w) = Ok (t1, acc)).
  { unfold accept_token in Ha. destruct (_ || _); [injection Ha as <- <-; by destruct Heff |].
    destruct Heff as [Hne | Hr].
    - destruct (run_changed _ _ _ _ _ _ _ Ha) as [? | (acc & Hb & _)]; [done | by exists acc].
    - destruct r as [acc|]; [| done]. apply run_Ok in Ha as [_ Hb]. by exists acc. }
  destruct Hbody as [acc Hb]. apply accept_body_Ok in Hb
    as (eid & e & m & He & Hd & Hst & Hx & Em & Hl & _ & _ & _ & _ & a & _ & _ & _ & _ & _ & Ht1).
  split; [exists eid, e; split_and!; try done; by rewrite Em; cbn; rewrite Hl |].
  assert (He1 : enrollments t1 !! eid = Some (set_en_status Consumed e)).
  { rewrite Ht1. cbn. by rewrite lookup_alter_eq, He. }
  destruct (ev_enrollments _ _ Hs _ _ He1) as (e2 & He2 & [_ Hd2 _ Hf]).
  assert (Hrow : forall now, issued_row (token_digest_of token) now (tbl w2) = None).
  { intros now. destruct (issued_row _ now (tbl w2)) as [[[i x] mx]|] eqn:Er; [| done].
    apply issued_row_Some in Er as (Hx2 & Hdx & Hsx & _).
    assert (i = eid) as ->.
    { apply (u_digest _ Hu2 i eid x e2); [done | done |]. rewrite Hd2. cbn. congruence. }
    rewrite Hx2 in He2. injection He2 as ->. rewrite Hf in Hsx; done. }
  intros sv' fate' ok' ts' id' t3 r' Ha'. unfold accept_token in Ha'.
  destruct (_ || _); [by injection Ha' as <- <- |].
  assert (Hfail : exists x, accept_body sv' ok' ts' id' (token_digest_of token) (tbl w2) = Err x).
  { unfold accept_body. destruct (lock_deployment sv' (base (tbl w2))); cbn; [| by eexists].
    rewrite Hrow. by eexists. }
  destruct Hfail as [x Hfail]. destruct fate'; cbn in Ha'; rewrite ?Hfail in Ha'; by injection Ha' as <- <-.
Qed.

(** A successful activation: this incarnation held the live attempt, the
    machine was being verified, its host key was unpinned or the proved one;
    afterwards the proved key is pinned and the only active binding of the
    machine is the proved Relay identity at the machine's revision, and no
    other machine is bound to that identity. *)
Theorem activate_sound w sv fate ok ts bid acc relay key host t' u :
  authority_ok w ->
  activate sv fate ok ts bid acc relay key host (tbl w) = (t', Ok u) ->
  exists a m m' b,
    attempts (tbl w) !! ae_attempt_id acc = Some a /\ at_status a = InProgress
    /\ executing a = Some (sv_incarnation sv)
    /\ machines (tbl w) !! ae_machine_id acc = Some m /\ lifecycle m = Verifying
    /\ (host_identity m = None \/ host_identity m = Some host)
    /\ is_ed25519_host_identity host = true
    /\ machines t' !! ae_machine_id acc = Some m' /\ host_identity m' = Some host
    /\ bindings t' !! bid = Some b /\ relay_id b = relay /\ relay_public_key b = key
    /\ bd_revision b = route_revision m'
    /\ (forall i c, bindings t' !! i = Some c -> bd_active c = true ->
          bd_machine c = ae_machine_id acc \/ relay_id c = relay \/ relay_public_key c = key ->
          i = bid)
    /\ ~ attempt_live t' (ae_machine_id acc).
Proof.
  intros [Hm Hu _] Ha. apply run_Ok in Ha as [_ Hb].
  pose proof (activate_body_preserves _ _ _ _ _ _ _ _ _ _ _ (conj Hm Hu) Hb) as [Hm' Hu'].
  apply activate_body_Ok in Hb
    as (a & m & b & Ea & Em & Ka & Sa & Xa & _ & Hrev & Hl & Hhost & Hh & Hbd & _ & Ht').
  assert (Em' : machines t' !! ae_machine_id acc = Some (pin host m)).
  { rewrite Ht'. cbn. by rewrite lookup_alter_eq, Em. }
  assert (Eb : bindings t' !! bid = Some b) by (rewrite Ht'; cbn; by rewrite lookup_insert_eq).
  destruct (machine_ok_Some _ _ _ (Hm' (ae_machine_id acc)) Em') as (o & _ & [P _ _ _ Rb _]).
  assert (Hlive : binding_live t' (ae_machine_id acc)) by (exists bid, b; by subst b).
  exists a, m, (pin host m), b. split_and!; try done; try by subst b.
  - cbn. by destruct Hh as [-> | ->].
  - intros i c Hc Ac [Hk | Hk].
    + pose proof (Rb i c Hc Hk) as Hr. rewrite Ac in Hr. cbn in Hr.
      apply (u_binding _ Hu' i bid c b); try done; subst b; cbn; congruence.
    + apply (u_relay _ Hu' i bid c b); try done; subst b; done.
  - unfold phase_ok in P. cbn in P. rewrite Hl in P. tauto.
Qed.

(** The row of a live attempt of a machine is among the expired rows. *)
Lemma expired_row_of w k i a now :
  authority_ok w -> attempts (tbl w) !! i = Some a -> at_machine a = k ->
  at_status a = InProgress -> deadline a <= now ->
  expired_rows (Some k) now (tbl w) = [(i, a)].
Proof.
  intros [_ Hu _] Hi Hk Hs Hd. unfold expired_rows.
  set (p := fun (_ : Z) a => (at_machine a =? k) && bool_decide (at_status a = InProgress) && (deadline a <=? now)).
  assert (Hsel : select p (attempts (tbl w)) = [(i, a)]).
  { assert (Hall : forall x, x ∈ select p (attempts (tbl w)) <-> x = (i, a)).
    { intros [j c]. rewrite select_elem. subst p. cbn. split.
      - intros [Hj Hp]. split_bools. assert (j = i) as ->.
        { apply (u_attempt _ Hu j i c a); [done | done |]. right. split_and!; congruence. }
        congruence.
      - intros Heq. injection Heq as -> ->. split; [done |].
        by rewrite Hk, Hs, Z.eqb_refl, (proj2 (Z.leb_le _ _) Hd), bool_decide_eq_true_2. }
    assert (Hnd : NoDup (select p (attempts (tbl w)))) by (apply NoDup_filter, NoDup_map_to_list).
    destruct (select p (attempts (tbl w))) as [|x [|y l]].
    - exfalso. by apply (not_elem_of_nil (i, a)), Hall.
    - f_equal. apply Hall. left.
    - assert (x = (i, a)) as -> by (apply Hall; left).
      assert (y = (i, a)) as -> by (apply Hall; right; left).
      apply NoDup_cons in Hnd as [Hnd _]. destruct Hnd. left. }
  rewrite Hsel. done.
Qed.

(** An expired verification attempt never blocks its machine: a successful
    recovery for the machine leaves it pending, with no live attempt, and
    a machine being verified without an expired attempt is left alone. *)
Theorem recovery_unblocks w sv fate ok ts k t' u :
  authority_ok w ->
  recover_expired_attempts sv fate ok ts (Some k) (tbl w) = (t', Ok u) ->
  ((exists i a, attempts (tbl w) !! i = Some a /\ at_machine a = k /\ at_status a = InProgress
      /\ deadline a <= t_query ts) ->
     lifecycle <$> machines t' !! k = Some Pending /\ ~ attempt_live t' k)
  /\ ((forall i a, attempts (tbl w) !! i = Some a -> at_machine a = k ->
         at_status a = InProgress -> t_query ts < deadline a) -> t' = tbl w).
Proof.
  intros Hok Hr. apply run_Ok in Hr as [_ Hb]. unfold recover_body in Hb. inv_ok. simplify_eq.
  split.
  - intros (i & a & Hi & Hk & Hs & Hd). rewrite (expired_row_of w k i a) by done. cbn.
    destruct Hok as [Hm Hu _].
    assert (exists m, machines (tbl w) !! k = Some m) as [m Em].
    { pose proof (Hm k) as Hmk. unfold machine_ok in Hmk. destruct (machines (tbl w) !! k); [eauto |].
      destruct (owners (tbl w) !! k); [done |]. destruct Hmk as [_ Na _]. by destruct (Na i a). }
    destruct (machine_ok_Some _ _ _ (Hm k) Em) as (o & Ho & [P _ _ _ _ Rt]).
    assert (Hlive : attempt_live (tbl w) k) by by exists i, a.
    assert (Hl : lifecycle m = Verifying /\ ~ binding_live (tbl w) k).
    { unfold phase_ok in P. destruct (lifecycle m); tauto. }
    destruct Hl as [Hl Hnb]. pose proof (Rt i a Hi Hk Hs) as Hrev.
    pose proof (fail_one_preserves true i k (at_revision a) (tbl w) (conj Hm Hu)) as [Hm' _].
    { intros a' Ha'. by simplify_eq. }
    assert (Hmach : lifecycle <$> machines (fail_one true i k (at_revision a) (tbl w)) !! k
                    = Some Pending).
    { unfold fail_one. rewrite affected_key, Hi, bool_decide_eq_true_2 by done. cbv iota zeta.
      change (1 =? 1) with true. cbv iota.
      assert (Hbound : exists_where (fun _ b => active_binding k b && (bd_revision b =? at_revision a))
                         (bindings (tbl w)) = false).
      { apply exists_where_false. intros j b Hb. unfold active_binding.
        destruct (Z.eqb_spec (bd_machine b) k); [| done].
        destruct (bd_active b) eqn:Ab; [| done]. destruct Hnb. by exists j, b. }
      cbn [bindings machines with_attempts with_machines]. rewrite Hbound, update_where_key,
        lookup_alter_eq, Em. cbn. by rewrite bool_decide_eq_true_2, Hrev, Z.eqb_refl by done. }
    rewrite Hk. split; [done |]. apply fmap_Some in Hmach as (m' & Em' & Hl').
    destruct (machine_ok_Some _ _ _ (Hm' k) Em') as (o' & _ & [P' _ _ _ _ _]).
    unfold phase_ok in P'. rewrite <- Hl' in P'. tauto.
  - intros Hnone. replace (expired_rows (Some k) (t_query ts) (tbl w)) with (@nil (Z * Attempt)); [done |].
    destruct (expired_rows (Some k) (t_query ts) (tbl w)) as [|[i a] l] eqn:El; [done |]. exfalso.
    assert (Hin : (i, a) ∈ expired_rows (Some k) (t_query ts) (tbl w)) by (rewrite El; left).
    unfold expired_rows in Hin. apply elem_of_take in Hin as (n & Hin & _).
    apply list_elem_of_lookup_2 in Hin. rewrite merge_sort_Permutation in Hin.
    apply select_elem in Hin as [Hi Hp]. split_bools.
    specialize (Hnone i a Hi ltac:(done) ltac:(done)). lia.
Qed.

(** A route revision the machine has left is dead. *)
Lemma left_route_dead w k m r :
  authority_ok w -> machines (tbl w) !! k = Some m -> r < route_revision m ->
  forall j b, bindings (tbl w) !! j = Some b -> bd_machine b = k -> bd_revision b = r ->
  bd_active b = false.
Proof.
  intros Hok Em Hr j b Hj Kb Rb. destruct (machine_reachable _ _ _ Hok Em) as (o & _ & [_ _ _ _ Hb _]).
  specialize (Hb j b Hj Kb). destruct (bd_active b); [lia | done].
Qed.

Lemma settle_sound w sv fate l0 l1 ts k target expected t1 r w2 l0' l1' answer now c :
  authority_ok w -> target = Pending \/ target = Disabled ->
  commit_active_machine_transition sv fate l0 l1 ts k target expected (tbl w) = (t1, r) ->
  rtc world_step (at_tables w t1) w2 -> (answer = Some (tbl w2) \/ answer = None) ->
  settle_transition_commit sv l0' l1' answer now k target expected r = c ->
  match c with
  | TransitionCommitted =>
      exists m, machines (tbl w2) !! k = Some m /\ expected_revision expected < route_revision m
        /\ forall j b, bindings (tbl w2) !! j = Some b -> bd_machine b = k ->
             bd_revision b = expected_revision expected -> bd_active b = false
  | TransitionAborted _ => t1 = tbl w
  | TransitionIndeterminate e => is_ambiguous e = true
  end.
Proof.
  intros Hok Htarget Hc Hs Hans Hset.
  assert (Hok2 : authority_ok w2).
  { eapply steps_authority_ok; [| exact Hs]. eapply step_authority_ok; [exact Hok |].
    pose proof (ws_transition w sv fate l0 l1 ts k target expected Htarget) as Hst.
    unfold commit_active_machine_transition in *. by rewrite Hc in Hst. }
  apply steps_evolve in Hs. cbn in Hs.
  assert (Hdone : forall u, transition_body sv l0 l1 ts k target expected (tbl w) = Ok (t1, u) ->
            exists m, machines (tbl w2) !! k = Some m /\ expected_revision expected < route_revision m).
  { intros u Hb. apply transition_body_Ok in Hb as (m & o & Em & _ & _ & Hrev & _ & _ & _ & _ & Ht1).
    assert (Em1 : machines t1 !! k = Some (set_lifecycle target (set_route_revision (route_revision m + 1) m))).
    { rewrite Ht1. cbn. by rewrite lookup_alter_eq, Em. }
    destruct (ev_machines _ _ Hs _ _ Em1) as (m2 & Em2 & [Hle _ _ _ _]). exists m2. cbn in Hle.
    split; [done | lia]. }
  assert (Hdead : forall m, machines (tbl w2) !! k = Some m ->
            expected_revision expected < route_revision m ->
            exists m, machines (tbl w2) !! k = Some m /\ expected_revision expected < route_revision m
              /\ forall j b, bindings (tbl w2) !! j = Some b -> bd_machine b = k ->
                   bd_revision b = expected_revision expected -> bd_active b = false).
  { intros m Em Hlt. exists m. split_and!; [done | done |]. by eapply left_route_dead. }
  unfold commit_active_machine_transition in Hc. unfold settle_transition_commit in Hset.
  destruct r as [u|e].
  { subst c. apply run_Ok in Hc as [_ Hb]. destruct (Hdone u Hb) as (m & Em & Hlt). by eapply Hdead. }
  destruct (is_ambiguous e) eqn:Ea; cbn [negb] in Hset; subst c.
  2: { destruct (run_changed _ _ _ _ _ _ _ Hc) as [? | (a & _ & [? | He])]; [done | done |].
       injection He as ->. by vm_compute in Ea. }
  destruct (observe_machine_transition _ _ _ _ _ _ _ _) eqn:Eo; [| | done];
    unfold observe_machine_transition in Eo;
    destruct (checked_add _ _ _) as [next|] eqn:En; try done;
    apply checked_add_Some in En as [-> _];
    destruct Hans as [-> | ->]; try done;
    destruct (machines (tbl w2) !! k) as [m|] eqn:Em; try done;
    destruct (owners (tbl w2) !! k) as [o|]; try done;
    destruct (negb l0' || negb l1'); try done.
  - destruct (_ && _) eqn:Eg in Eo; [| by destruct (_ && _) in Eo]. split_bools.
    eapply Hdead; [done | lia].
  - destruct (_ && _) in Eo; [done |]. destruct (_ && _) eqn:Eg in Eo; [| done]. split_bools.
    destruct (run_changed _ _ _ _ _ _ _ Hc) as [? | (u & Hb & _)]; [done |].
    destruct (Hdone u Hb) as (m2 & Em2 & Hlt). simplify_eq. lia.
Qed.

(** Settling a transition is honest, whatever happened to its commit and
    whatever happened between the commit and the observation: it reports
    [Committed] only when the machine has left the expected route for good
    (its revision is past, and no binding of that revision is active), and
    [Aborted] only when the transition has not changed the tables. *)
Theorem settlement_honest w sv fate l0 l1 ts k target expected t1 r w2 l0' l1' answer now c :
  authority_ok w -> target = Pending \/ target = Disabled ->
  commit_active_machine_transition sv fate l0 l1 ts k target expected (tbl w) = (t1, r) ->
  rtc world_step (at_tables w t1) w2 -> (answer = Some (tbl w2) \/ answer = None) ->
  settle_transition_commit sv l0' l1' answer now k target expected r = c ->
  match c with
  | TransitionCommitted =>
      exists m, machines (tbl w2) !! k = Some m /\ expected_revision expected < route_revision m
        /\ forall j b, bindings (tbl w2) !! j = Some b -> bd_machine b = k ->
             bd_revision b = expected_revision expected -> bd_active b = false
  | TransitionAborted _ => t1 = tbl w
  | TransitionIndeterminate e => is_ambiguous e = true
  end.
Proof. apply settle_sound. Qed.
End theorems.

(** ** Resolution *)

(** What a route promises about the tables a query saw. *)
Record routes_to (sv : Server) (t : Tables) (now : Z) (k : Uuid) (route : RouteIdentity)
    (incarnation : Uuid) (n : NodeRow) : Prop := {
  ro_machine : exists m, machines t !! k = Some m /\ lifecycle m = Active
                         /\ route_revision m = rt_revision route;
  ro_binding : exists j b, bindings t !! j = Some b /\ bd_machine b = k /\ bd_active b = true
                           /\ bd_revision b = rt_revision route;
  ro_owner : exists o, owners t !! k = Some o /\ owner_revision o = rt_revision route
               /\ connection_epoch o = rt_epoch route
               /\ claimed o = Some (incarnation, rt_connection route);
  ro_epoch : 0 < rt_epoch route;
  ro_node : nodes (base t) !! incarnation = Some n;
  ro_current : node_epoch n = config_epoch (sv_identity sv)
               /\ node_build n = build_id (sv_identity sv) /\ now < lease_until n;
}.

Lemma current_node_Some sv db now x n :
  current_node sv db now x = Some n <->
  nodes db !! x = Some n /\ node_epoch n = config_epoch (sv_identity sv)
  /\ node_build n = build_id (sv_identity sv) /\ now < lease_until n.
Proof.
  unfold current_node. rewrite bind_Some. split.
  - intros (n' & Hn & Hc). destruct (_ && _) eqn:Eg in Hc; [| done]. simplify_eq. by split_bools.
  - intros (Hn & He & Hb & Hl). exists n. split; [done |].
    by rewrite He, Hb, Z.eqb_refl, bool_decide_eq_true_2, (proj2 (Z.ltb_lt _ _) Hl) by done.
Qed.

Lemma routed_Some k t m o :
  routed k t = Some (m, o) <->
  machines t !! k = Some m /\ owners t !! k = Some o /\ lifecycle m = Active
  /\ owner_revision o = route_revision m
  /\ exists j b, bindings t !! j = Some b /\ bd_machine b = k /\ bd_active b = true
       /\ bd_revision b = route_revision m.
Proof.
  unfold routed. rewrite bind_Some. split.
  - intros (m' & Em & Hr). apply bind_Some in Hr as (o' & Eo & Hr).
    destruct (_ && _) eqn:Eg in Hr; [| done]. simplify_eq. split_bools.
    match goal with He : exists_where _ _ = true |- _ =>
      apply exists_where_true in He as (j & b & Hj & Hb) end.
    unfold binding_of, active_binding in Hb. split_bools. eauto 12.
  - intros (Em & Eo & Hl & Hr & j & b & Hj & Hk & Ha & Hb). exists m. split; [done |].
    rewrite bind_Some. exists o. split; [done |].
    rewrite (proj2 (exists_where_true _ _)).
    + by rewrite Hl, Hr, Z.eqb_refl, bool_decide_eq_true_2 by done.
    + exists j, b. split; [done |]. unfold binding_of, active_binding.
      by rewrite Hk, Ha, Hb, !Z.eqb_refl.
Qed.

Lemma owner_row_Some sv k now t o x c n :
  owner_row sv k now t = Some (o, x, c, n) <->
  owners t !! k = Some o /\ claimed o = Some (x, c)
  /\ routes_to sv t now k {| rt_revision := owner_revision o; rt_epoch := connection_epoch o;
                             rt_connection := c |} x n.
Proof.
  unfold owner_row. rewrite bind_Some. split.
  - intros ([m o'] & Hr & Hrest). apply bind_Some in Hrest as ([x' c'] & Hc & Hrest).
    apply bind_Some in Hrest as (n' & Hn & Hrest). apply routed_Some in Hr as (Em & Eo & Hl & Hr & Hb).
    apply current_node_Some in Hn as (Hn & Hcur).
    destruct (Z.ltb_spec 0 (connection_epoch o')); [| done]. simplify_eq.
    split_and!; [done | done |]. rewrite <- Hr in Hb. split; cbn; eauto 10.
  - intros (Eo & Hc & [(m & Em & Hl & Hr) Hb (o' & Eo' & _) He Hn (H1 & H2 & H3)]). cbn in *.
    exists (m, o). split; [apply routed_Some; split_and!; try done; by rewrite Hr |].
    rewrite bind_Some. exists (x, c). split; [done |]. rewrite bind_Some. exists n.
    split; [by apply current_node_Some |]. by rewrite (proj2 (Z.ltb_lt _ _) He).
Qed.

Lemma owner_row_None sv k now t :
  owner_row sv k now t = None <-> forall route x n, ~ routes_to sv t now k route x n.
Proof.
  split.
  - intros Hn [r e c] x n Hr. pose proof Hr as [_ _ (o & Eo & Hro & Heo & Hc) _ _ _]. cbn in *.
    assert (Hs : owner_row sv k now t = Some (o, x, c, n)); [| congruence].
    apply owner_row_Some. split_and!; [done | done |]. by rewrite Hro, Heo.
  - intros Hall. destruct (owner_row sv k now t) as [[[[o x] c] n]|] eqn:E; [| done].
    apply owner_row_Some in E as (_ & _ & Hr). by apply Hall in Hr.
Qed.

Lemma ownerless_row_Some sv k now t r :
  ownerless_row sv k now t = Some r <->
  exists m o, routed k t = Some (m, o) /\ route_revision m = r
    /\ forall x c, claimed o = Some (x, c) -> current_node sv (base t) now x = None.
Proof.
  unfold ownerless_row. rewrite bind_Some. split.
  - intros ([m o] & Hr & Hc). exists m, o. split; [done |].
    destruct (claimed o) as [[x c]|]; [destruct (current_node _ _ _ _) eqn:En |]; naive_solver.
  - intros (m & o & Hr & <- & Hc). exists (m, o). split; [done |].
    destruct (claimed o) as [[x c]|]; [by rewrite (Hc x c) | done].
Qed.

(** C40. Owner resolution decides exactly the specification.  Local and Remote are
    answered exactly when a query saw the machine active, bound and owned at
    one route revision with a positive epoch, by a node of this configuration
    and build whose lease was valid at that instant (this node, or with its
    internal URL in a clustered deployment); the absence of an owner exactly
    when such a row was not seen and then the machine was seen active and
    bound without such an owner; always under the node's own lease. *)
Theorem resolve_exact sv k l0 l1 l2 q1 now1 q2 now2 r :
  resolve sv k l0 l1 l2 q1 now1 q2 now2 = Ok r <->
  l0 = true /\ l1 = true /\ exists t1, q1 = Some t1 /\
  match r with
  | Local route => exists n, routes_to sv t1 now1 k route (sv_incarnation sv) n
  | Remote route x url =>
      exists n, routes_to sv t1 now1 k route x n /\ x <> sv_incarnation sv
        /\ profile (sv_identity sv) = Clustered /\ node_url n = Some url
  | NoValidOwner revision =>
      (forall route x n, ~ routes_to sv t1 now1 k route x n)
      /\ l2 = true /\ exists t2 m o, q2 = Some t2 /\ routed k t2 = Some (m, o)
      /\ route_revision m = revision
      /\ forall x c, claimed o = Some (x, c) -> current_node sv (base t2) now2 x = None
  end.
Proof.
  unfold resolve. destruct l0; cbn; [| split; [done | by intros (? & _)]].
  destruct q1 as [t1|]; cbn; [| split; [done | by intros (_ & _ & ? & ? & _)]].
  destruct l1; cbn; [| split; [done | by intros (_ & ? & _)]].
  transitivity (match r with
    | Local route => exists n, routes_to sv t1 now1 k route (sv_incarnation sv) n
    | Remote route x url =>
        exists n, routes_to sv t1 now1 k route x n /\ x <> sv_incarnation sv
          /\ profile (sv_identity sv) = Clustered /\ node_url n = Some url
    | NoValidOwner revision =>
        (forall route x n, ~ routes_to sv t1 now1 k route x n)
        /\ l2 = true /\ exists t2, q2 = Some t2 /\ ownerless_row sv k now2 t2 = Some revision
    end).
  2: { split.
       - intros Hr. split_and!; [done.. |]. exists t1. split; [done |]. destruct r; try done.
         destruct Hr as (Hn & Hl & t2 & Hq & Ho). apply ownerless_row_Some in Ho as (m & o & Ho).
         split_and!; [done.. |]. by exists t2, m, o.
       - intros (_ & _ & t & Ht & Hr). injection Ht as <-. destruct r; try done.
         destruct Hr as (Hn & Hl & t2 & m & o & Hq & Ho). split_and!; [done.. |]. exists t2.
         split; [done |]. apply ownerless_row_Some. by exists m, o. }
  destruct (owner_row sv k now1 t1) as [[[[o x] c] n]|] eqn:Eo.
  - apply owner_row_Some in Eo as (Ho & Hc & Hr).
    assert (Huniq : forall route x' n', routes_to sv t1 now1 k route x' n' ->
              route = {| rt_revision := owner_revision o; rt_epoch := connection_epoch o;
                         rt_connection := c |} /\ x' = x /\ n' = n).
    { intros [r0 e0 c0] x' n' [_ _ (o' & Ho' & Hro & Heo & Hco) _ Hn _].
      destruct Hr as [_ _ _ _ Hn0 _]. cbn in *. simplify_eq. done. }
    destruct (Z.eqb_spec x (sv_incarnation sv)) as [-> | Hne].
    + split; [intros Heq; injection Heq as <-; by exists n |]. destruct r.
      * intros (n' & Hr'). by destruct (Huniq _ _ _ Hr') as (-> & _ & _).
      * intros (n' & Hr' & Hx & _). by destruct (Huniq _ _ _ Hr') as (_ & -> & _).
      * intros (Hno & _). by apply Hno in Hr.
    + case_bool_decide as Hp; cbn.
      2: { split; [done |]. destruct r.
           - intros (n' & Hr'). by destruct (Huniq _ _ _ Hr') as (_ & <- & _).
           - intros (n' & Hr' & _ & Hp' & _). done.
           - intros (Hno & _). by apply Hno in Hr. }
      destruct (node_url n) as [url|] eqn:Eu; cbn; split.
      * intros Heq. injection Heq as <-. by exists n.
      * destruct r.
        -- intros (n' & Hr'). by destruct (Huniq _ _ _ Hr') as (_ & <- & _).
        -- intros (n' & Hr' & _ & _ & Hu'). destruct (Huniq _ _ _ Hr') as (-> & -> & ->).
           congruence.
        -- intros (Hno & _). by apply Hno in Hr.
      * done.
      * destruct r.
        -- intros (n' & Hr'). by destruct (Huniq _ _ _ Hr') as (_ & <- & _).
        -- intros (n' & Hr' & _ & _ & Hu'). destruct (Huniq _ _ _ Hr') as (-> & -> & ->).
           congruence.
        -- intros (Hno & _). by apply Hno in Hr.
  - rewrite owner_row_None in Eo. destruct r as [route|route x url|revision].
    + split; [| intros (n & Hr); by apply Eo in Hr].
      destruct q2; cbn; [| done]. destruct l2; cbn; [| done]. by destruct (ownerless_row _ _ _ _).
    + split; [| intros (n & Hr & _); by apply Eo in Hr].
      destruct q2; cbn; [| done]. destruct l2; cbn; [| done]. by destruct (ownerless_row _ _ _ _).
    + destruct q2 as [t2|]; cbn; [| split; [done | by intros (_ & _ & ? & ? & _)]].
      destruct l2; cbn; [| split; [done | by intros (_ & ? & _)]].
      destruct (ownerless_row sv k now2 t2) as [r'|] eqn:E; cbn; split.
      * intros Heq. injection Heq as ->. split_and!; [done.. |]. by exists t2.
      * intros (_ & _ & t & Ht & Hr). congruence.
      * done.
      * intros (_ & _ & t & Ht & Hr). congruence.
Qed.

(** ** A concrete deployment *)

Section example.

#[local] Instance plain_sha256 : Sha256 := {| sha256 := fun v => v |}.
#[local] Instance plain_keys : SshKeys :=
  {| PublicKey := bytes; from_openssh := fun v => strip_prefix (lit "ssh-ed25519 ") v;
     is_ed25519 := fun _ => true; to_openssh := fun k => Some (lit "ssh-ed25519 " ++ k);
     fingerprint_of := fun k => k |}.

Definition ex_identity : Identity :=
  {| incarnation_id := 7; config_epoch := 1; build_id := lit "build"; profile := SingleNode;
     config_proof := None; internal_wss_url := None; ttl_seconds := 30; safety_margin := 5 |}.
Definition ex_server : Server := {| sv_identity := ex_identity; sv_deployment := 99 |}.
Definition ex_database : Database :=
  {| deployment := Some {| dep_id := 99; dep_epoch := 1; dep_build := lit "build";
                           dep_protocol := 1; dep_profile := SingleNode; dep_proof := None |};
     nodes := {[ 7 := {| node_state := Serving; node_epoch := 1; node_build := lit "build";
                         node_url := None; lease_until := 1000 |} ]} |}.
Definition ex_at (t : Z) : Instants := {| t_node := t; t_query := t; t_write := t |}.
Definition ex_token : bytes := ENROLLMENT_PREFIX ++ lit "secret".
Definition ex_host : bytes := lit "ssh-ed25519 AAAA".
Definition ex_input : CreateMachineInput :=
  {| in_alias := lit "box"; in_target_account := lit "dev"; in_tmux_path := lit "/usr/bin/tmux";
     in_socket := lit "default"; in_credential := None |}.

Definition ex_w0 : World := fresh_world ex_database {[ 5 := true ]} 5.
Definition ex_created : World :=
  at_tables ex_w0 (fst (create_machine ex_server FateCommitted true true (ex_at 10)
    {| id_machine := 1; id_enrollment := 2 |} ex_input (token_digest_of ex_token) (tbl ex_w0))).
Definition ex_accept : Tables * result RelayError AcceptedEnrollment :=
  accept_token ex_server FateCommitted true (ex_at 20) 3 ex_token (tbl ex_created).
Definition ex_acc : AcceptedEnrollment :=
  {| ae_deployment_id := 99; ae_machine_id := 1; ae_attempt_id := 3; ae_route_revision := 1;
     ae_target_account := lit "dev"; ae_host_identity := None |}.
Definition ex_accepted : World := {| tbl := fst ex_accept; held := [ex_acc] |}.
Definition ex_activated : World :=
  at_tables ex_accepted (fst (activate ex_server FateCommitted true (ex_at 30) 4 ex_acc 11
    (lit "relay key") ex_host (tbl ex_accepted))).
Definition ex_claimed : World :=
  at_tables ex_activated (fst (fst (claim_owner ex_server FateCommitted true (ex_at 40) 1 21 1
    (tbl ex_activated)))).
Definition ex_expected : OwnerExpectation :=
  Exact 7 {| rt_revision := 1; rt_epoch := 1; rt_connection := 21 |}.

Lemma ex_reaches_created : rtc world_step ex_w0 ex_created.
Proof. apply rtc_once. apply ws_create. Qed.

Lemma ex_reaches_accepted : rtc world_step ex_w0 ex_accepted.
Proof.
  eapply rtc_r; [apply ex_reaches_created |]. unfold ex_accepted.
  change [ex_acc] with (ex_acc :: held ex_created).
  apply (ws_accept ex_created ex_server FateCommitted true (ex_at 20) 3 ex_token (fst ex_accept)
           (Ok ex_acc)).
  vm_compute. reflexivity.
Qed.

Lemma ex_reaches_activated : rtc world_step ex_w0 ex_activated.
Proof. eapply rtc_r; [apply ex_reaches_accepted |]. apply ws_activate. left. Qed.

Lemma ex_reaches_claimed : rtc world_step ex_w0 ex_claimed.
Proof. eapply rtc_r; [apply ex_reaches_activated |]. apply ws_claim. Qed.

Lemma ex_ok w : rtc world_step ex_w0 w -> authority_ok w.
Proof. apply steps_authority_ok, fresh_world_ok. Qed.

Lemma ex_machine : exists m, machines (tbl ex_claimed) !! 1 = Some m /\ lifecycle m = Active.
Proof. eexists. split; [vm_compute; reflexivity | reflexivity]. Qed.

Lemma authority_invariant_witness :
  exists m, machines (tbl ex_claimed) !! 1 = Some m /\ lifecycle m = Active
    /\ host_identity m <> None /\ ~ (attempt_live (tbl ex_claimed) 1 /\ binding_live (tbl ex_claimed) 1).
Proof.
  destruct ex_machine as (m & Em & Hl). exists m.
  destruct (authority_invariant ex_database {[ 5 := true ]} 5 ex_claimed 1 m ex_reaches_claimed Em)
    as (_ & Ha & _ & _ & Hb).
  split_and!; [done | done | by apply Ha | done].
Defined.

Lemma target_pinned_witness :
  exists m', machines (tbl ex_claimed) !! 1 = Some m' /\ target_account m' = lit "dev".
Proof.
  assert (exists m, machines (tbl ex_created) !! 1 = Some m /\ target_account m = lit "dev")
    as (m & Em & Ha) by (eexists; split; [vm_compute; reflexivity | reflexivity]).
  assert (Hs : rtc world_step ex_created ex_claimed).
  { eapply rtc_l; [| eapply rtc_l; [| apply rtc_once]].
    - apply (ws_accept ex_created ex_server FateCommitted true (ex_at 20) 3 ex_token (fst ex_accept)
               (Ok ex_acc)). vm_compute. reflexivity.
    - apply (ws_activate ex_accepted ex_server FateCommitted true (ex_at 30) 4 ex_acc 11
               (lit "relay key") ex_host). left.
    - apply (ws_claim ex_activated ex_server FateCommitted true (ex_at 40) 1 21 1). }
  destruct (target_pinned ex_created ex_claimed 1 m Hs Em) as (m' & Em' & Ha' & _).
  exists m'. split; [done | congruence].
Defined.

Lemma ownership_epochs_witness :
  exists o2, owners (tbl ex_claimed) !! 1 = Some o2 /\ 1 <= connection_epoch o2.
Proof.
  assert (exists o2, owners (tbl ex_claimed) !! 1 = Some o2) as (o2 & Ho)
    by (eexists; vm_compute; reflexivity).
  exists o2. split; [done |].
  apply (ownership_epochs ex_activated ex_server FateCommitted true (ex_at 40) 1 21 1
           (tbl ex_claimed) 1 false (at_tables ex_activated (tbl ex_claimed)) o2);
    [vm_compute; reflexivity | | done].
  apply rtc_refl.
Defined.

Lemma enrollment_token_single_use_witness :
  is_ok (snd (accept_token ex_server FateCommitted true (ex_at 21) 8 ex_token (tbl ex_accepted)))
  = false.
Proof.
  destruct (enrollment_token_single_use ex_created ex_server FateCommitted true (ex_at 20) 3 ex_token
              (fst ex_accept) (Ok ex_acc) ex_accepted (ex_ok _ ex_reaches_created)) as [_ Hno].
  - vm_compute. reflexivity.
  - by right.
  - apply rtc_refl.
  - destruct (accept_token ex_server FateCommitted true (ex_at 21) 8 ex_token (tbl ex_accepted))
      as [t3 r3] eqn:E.
    by destruct (Hno ex_server FateCommitted true (ex_at 21) 8 t3 r3 E).
Defined.

Lemma activate_sound_witness :
  exists m', machines (tbl ex_activated) !! 1 = Some m' /\ host_identity m' = Some ex_host.
Proof.
  destruct (activate_sound ex_accepted ex_server FateCommitted true (ex_at 30) 4 ex_acc 11
              (lit "relay key") ex_host (tbl ex_activated) tt (ex_ok _ ex_reaches_accepted))
    as (a & m & m' & b & _ & _ & _ & _ & _ & _ & _ & Em & Hh & _); [vm_compute; reflexivity |].
  exact (ex_intro _ m' (conj Em Hh)).
Defined.

Lemma recovery_unblocks_witness :
  lifecycle <$> machines (fst (recover_expired_attempts ex_server FateCommitted true
    {| t_node := 40; t_query := 120000000020; t_write := 40 |} (Some 1) (tbl ex_accepted))) !! 1
  = Some Pending.
Proof.
  destruct (recovery_unblocks ex_accepted ex_server FateCommitted true
    {| t_node := 40; t_query := 120000000020; t_write := 40 |} 1
    (fst (recover_expired_attempts ex_server FateCommitted true
      {| t_node := 40; t_query := 120000000020; t_write := 40 |} (Some 1) (tbl ex_accepted))) tt
    (ex_ok _ ex_reaches_accepted)) as [Hl _]; [vm_compute; reflexivity |].
  apply Hl. exists 3. eexists. split; [vm_compute; reflexivity |]. by vm_compute.
Defined.

Definition ex_lost : Tables :=
  fst (commit_active_machine_transition ex_server CommitLost true true (ex_at 45) 1 Disabled
         ex_expected (tbl ex_claimed)).

Lemma settlement_honest_witness :
  settle_transition_commit ex_server true true (Some ex_lost) 50 1 Disabled ex_expected
    (Err OperationAmbiguous) = TransitionAborted TemporarilyUnavailable
  /\ ex_lost = tbl ex_claimed.
Proof.
  split; [vm_compute; reflexivity |].
  apply (settlement_honest ex_claimed ex_server CommitLost true true (ex_at 45) 1 Disabled ex_expected
           ex_lost (Err OperationAmbiguous) (at_tables ex_claimed ex_lost) true true (Some ex_lost) 50
           (TransitionAborted TemporarilyUnavailable) (ex_ok _ ex_reaches_claimed)).
  - by right.
  - vm_compute. reflexivity.
  - apply rtc_refl.
  - left. cbn [tbl at_tables]. reflexivity.
  - vm_compute. reflexivity.
Defined.
End example.
