(* ===== verification/Admission.v ===== *)
(** * Admission: pre-authentication attempts per source

    Models [SourceAdmission] of [crates/owlmux-server/src/service.rs].  An
    address is an identifier in [Z], an instant a number of nanoseconds.  The
    dropping of a [SourcePermit] is an operation of its own; a history is a
    list of acquisitions and drops in the order the mutex serializes them. *)

From S2P Require Import Prelude Text Contracts.

Definition MAX_ADMISSION_SOURCES : Z := 4096.
Definition MAX_PREAUTH_PER_SOURCE : Z := 4.
Definition MAX_PREAUTH_ATTEMPTS_PER_WINDOW : Z := 256.
Definition ADMISSION_WINDOW : Z := 60 * 1000000000.

Record SourceEntry : Type := { active : Z; attempts : Z; expires_at : Z }.

(** [entries.retain]. *)
Definition kept (now : Z) (e : SourceEntry) : bool :=
  negb (active e =? 0) || (now <? expires_at e).
Definition retain (now : Z) (entries : gmap Z SourceEntry) : gmap Z SourceEntry :=
  filter (fun kv => kept now kv.2 = true) entries.

(** [try_acquire] at the instant [now]: whether a permit is handed out.  The
    refusal after [entry] has been created leaves the entry in the map. *)
Definition try_acquire (now source : Z) (entries : gmap Z SourceEntry)
    : gmap Z SourceEntry * bool :=
  let entries := retain now entries in
  if bool_decide (entries !! source = None) && (MAX_ADMISSION_SOURCES <=? Z.of_nat (size entries))
  then (entries, false)
  else
    let e := default {| active := 0; attempts := 0; expires_at := now + ADMISSION_WINDOW |}
               (entries !! source) in
    let e := if (active e =? 0) && (expires_at e <=? now)
             then {| active := active e; attempts := 0; expires_at := now + ADMISSION_WINDOW |}
             else e in
    if (MAX_PREAUTH_PER_SOURCE <=? active e) || (MAX_PREAUTH_ATTEMPTS_PER_WINDOW <=? attempts e)
    then (<[source := e]> entries, false)
    else (<[source := {| active := active e + 1; attempts := attempts e + 1;
                         expires_at := expires_at e |}]> entries, true).

(** Dropping a permit. *)
Definition drop_permit (source : Z) (entries : gmap Z SourceEntry) : gmap Z SourceEntry :=
  alter (fun e => {| active := saturating_sub (active e) 1; attempts := attempts e;
                     expires_at := expires_at e |}) source entries.

(** ** Histories *)

(** The map, the permits that exist (their sources) and the instant of the
    last operation; instants never decrease ([Instant] is monotonic). *)
Record World : Type := { entries : gmap Z SourceEntry; permits : list Z; instant : Z }.

Inductive world_step : World -> World -> Prop :=
| ws_acquire w now source es got :
    instant w <= now -> try_acquire now source (entries w) = (es, got) ->
    world_step w {| entries := es; instant := now;
                    permits := if got then source :: permits w else permits w |}
| ws_drop w before source after :
    permits w = before ++ source :: after ->
    world_step w {| entries := drop_permit source (entries w); instant := instant w;
                    permits := before ++ after |}.

Definition initial (now : Z) : World := {| entries := ∅; permits := []; instant := now |}.

(** The permits of a source. *)
Definition held_by (source : Z) (l : list Z) : Z := zlen (filter (eq source) l).

(** ** The invariant *)

Record admission_ok (w : World) : Prop := {
  ao_active : forall source,
    held_by source (permits w) = match entries w !! source with Some e => active e | None => 0 end;
  ao_bound : forall source e, entries w !! source = Some e ->
    0 <= active e <= MAX_PREAUTH_PER_SOURCE
    /\ 0 <= attempts e <= MAX_PREAUTH_ATTEMPTS_PER_WINDOW
    /\ expires_at e <= instant w + ADMISSION_WINDOW;
  ao_size : Z.of_nat (size (entries w)) <= MAX_ADMISSION_SOURCES;
}.

Lemma held_by_nonneg source l : 0 <= held_by source l.
Proof. apply zlen_nonneg. Qed.

Lemma held_by_cons source x l :
  held_by source (x :: l) = (if decide (source = x) then 1 else 0) + held_by source l.
Proof.
  unfold held_by. rewrite filter_cons. destruct (decide (source = x)); [| done].
  unfold zlen. cbn. lia.
Qed.

Lemma held_by_app source l1 l2 : held_by source (l1 ++ l2) = held_by source l1 + held_by source l2.
Proof. unfold held_by, zlen. rewrite filter_app, length_app. lia. Qed.

Lemma retain_Some now es source e :
  retain now es !! source = Some e <-> es !! source = Some e /\ kept now e = true.
Proof. unfold retain. by rewrite map_lookup_filter_Some. Qed.

(** What is forgotten has no permit. *)
Lemma retain_None now es source :
  retain now es !! source = None ->
  match es !! source with Some e => active e | None => 0 end = 0.
Proof.
  unfold retain. rewrite map_lookup_filter_None. intros [-> | Hk]; [done |].
  destruct (es !! source) as [e|]; [| done]. specialize (Hk e eq_refl). cbn in Hk.
  unfold kept in Hk. destruct (Z.eqb_spec (active e) 0); [done | by destruct Hk].
Qed.

Lemma retain_size now es : (size (retain now es) <= size es)%nat.
Proof. apply map_size_filter. Qed.

(** The entry an acquisition works on. *)
Definition current_entry (now source : Z) (es : gmap Z SourceEntry) : SourceEntry :=
  default {| active := 0; attempts := 0; expires_at := now + ADMISSION_WINDOW |}
    (retain now es !! source).

Lemma current_entry_fresh now source es :
  (active (current_entry now source es) =? 0) && (expires_at (current_entry now source es) <=? now)
  = false.
Proof.
  unfold current_entry. destruct (retain now es !! source) as [e|] eqn:Er; cbn.
  - apply retain_Some in Er as [_ Hk]. unfold kept in Hk.
    destruct (active e =? 0); [| done]. cbn in *. apply Z.leb_gt. by apply Z.ltb_lt in Hk.
  - apply Z.leb_gt. unfold ADMISSION_WINDOW. lia.
Qed.

(** The decision and the effect of an acquisition. *)
Lemma try_acquire_spec now source es es' got :
  try_acquire now source es = (es', got) ->
  let e := current_entry now source es in
  let full := bool_decide (retain now es !! source = None)
              && (MAX_ADMISSION_SOURCES <=? Z.of_nat (size (retain now es))) in
  got = negb full && (active e <? MAX_PREAUTH_PER_SOURCE)
        && (attempts e <? MAX_PREAUTH_ATTEMPTS_PER_WINDOW)
  /\ es' = if full then retain now es
           else <[source := if got then {| active := active e + 1; attempts := attempts e + 1;
                                            expires_at := expires_at e |} else e]> (retain now es).
Proof.
  unfold try_acquire. cbv zeta. destruct (_ && _) eqn:Ef; [intros; by simplify_eq |].
  fold (current_entry now source es). rewrite current_entry_fresh.
  rewrite !Z.leb_antisym. cbn [negb andb].
  destruct (active _ <? _), (attempts _ <? _); cbn; intros; by simplify_eq.
Qed.

Lemma size_insert_le (source : Z) (e : SourceEntry) (es : gmap Z SourceEntry) :
  Z.of_nat (size es) <= MAX_ADMISSION_SOURCES ->
  (es !! source = None -> Z.of_nat (size es) < MAX_ADMISSION_SOURCES) ->
  Z.of_nat (size (<[source := e]> es)) <= MAX_ADMISSION_SOURCES.
Proof.
  intros Hs Hn. destruct (es !! source) eqn:El.
  - rewrite map_size_insert_Some by by eexists. done.
  - rewrite map_size_insert_None by done. specialize (Hn eq_refl). lia.
Qed.

Lemma current_entry_ok w now source :
  admission_ok w -> instant w <= now ->
  let e := current_entry now source (entries w) in
  active e = held_by source (permits w)
  /\ 0 <= active e <= MAX_PREAUTH_PER_SOURCE
  /\ 0 <= attempts e <= MAX_PREAUTH_ATTEMPTS_PER_WINDOW /\ expires_at e <= now + ADMISSION_WINDOW.
Proof.
  intros [Ha Hb _] Hle. unfold current_entry. rewrite Ha.
  destruct (retain now (entries w) !! source) as [e|] eqn:Er; cbn.
  - apply retain_Some in Er as [Hl _]. rewrite Hl. destruct (Hb _ _ Hl) as (? & ? & ?).
    split_and!; try done; lia.
  - rewrite (retain_None _ _ _ Er). split_and!; done || lia.
Qed.

Lemma admission_step_ok w w' : admission_ok w -> world_step w w' -> admission_ok w'.
Proof.
  intros Hok Hs. pose proof Hok as [Ha Hb Hsz].
  destruct Hs as [w now source es got Hle Hacq | w before source after Hp].
  - destruct (current_entry_ok w now source Hok Hle) as (Ea & Eb & Et & Ex).
    apply try_acquire_spec in Hacq as [Hgot ->].
    pose proof (retain_size now (entries w)) as Hrs.
    assert (Hother : forall x, match retain now (entries w) !! x with Some e => active e | None => 0 end
                               = held_by x (permits w)).
    { intros x. rewrite Ha. destruct (retain now (entries w) !! x) as [e|] eqn:Er.
      - apply retain_Some in Er as [-> _]. done.
      - by rewrite (retain_None _ _ _ Er). }
    assert (Hkeep : forall x e, retain now (entries w) !! x = Some e ->
              0 <= active e <= MAX_PREAUTH_PER_SOURCE
              /\ 0 <= attempts e <= MAX_PREAUTH_ATTEMPTS_PER_WINDOW
              /\ expires_at e <= now + ADMISSION_WINDOW).
    { intros x e Hx. apply retain_Some in Hx as [Hx _]. destruct (Hb _ _ Hx) as (? & ? & ?).
      split_and!; try done; lia. }
    destruct (bool_decide _ && (MAX_ADMISSION_SOURCES <=? _)) eqn:Ef in *;
      cbn [negb andb] in Hgot; [subst got; split; cbn [entries permits instant] |].
    + intros x. by rewrite <- Hother.
    + exact Hkeep.
    + lia.
    + set (e := current_entry now source (entries w)) in *.
      assert (Hg : got = true -> active e < MAX_PREAUTH_PER_SOURCE
                                 /\ attempts e < MAX_PREAUTH_ATTEMPTS_PER_WINDOW).
      { intros ->. symmetry in Hgot. by split_bools. }
      split; cbn [entries permits instant].
      * intros x. destruct (decide (x = source)) as [-> | Hne].
        -- rewrite lookup_insert_eq. destruct got; cbn; [| lia].
           rewrite held_by_cons, decide_True by done. lia.
        -- rewrite lookup_insert_ne, Hother by done. destruct got; [| done].
           rewrite held_by_cons, decide_False by done. lia.
      * intros x e'. rewrite lookup_insert_Some. intros [[<- <-] | [_ Hx]]; [| by eapply Hkeep].
        destruct got; cbn; [destruct Hg; [done |] |]; split_and!; lia.
      * apply size_insert_le; [lia |]. intros Hn.
        rewrite Hn, bool_decide_eq_true_2 in Ef by done. cbn in Ef. by apply Z.leb_gt in Ef.
  - assert (Hh : 1 <= held_by source (permits w)).
    { rewrite Hp, held_by_app, held_by_cons, decide_True by done.
      pose proof (held_by_nonneg source before). pose proof (held_by_nonneg source after). lia. }
    assert (Hrest : forall x, held_by x (before ++ after)
                     = held_by x (permits w) - if decide (x = source) then 1 else 0).
    { intros x. rewrite Hp, !held_by_app, held_by_cons. lia. }
    split; cbn [entries permits instant].
    + intros x. rewrite Hrest, Ha. unfold drop_permit. rewrite Ha in Hh.
      destruct (decide (x = source)) as [-> | Hne].
      * rewrite lookup_alter_eq. destruct (entries w !! source) as [e|]; cbn; [| lia].
        unfold saturating_sub. lia.
      * rewrite lookup_alter_ne by done. lia.
    + intros x e Hx. unfold drop_permit in Hx.
      apply lookup_alter_Some in Hx as [(<- & e0 & He & ->) | [_ Hx]]; [| by apply Hb in Hx].
      destruct (Hb _ _ He) as (? & ? & ?). cbn. unfold saturating_sub. split_and!; lia.
    + unfold drop_permit. assert (size (alter (fun e => {| active := saturating_sub (active e) 1;
        attempts := attempts e; expires_at := expires_at e |}) source (entries w))
        = size (entries w)) as -> by (rewrite <- !size_dom; f_equal; apply dom_alter_L). done.
Qed.

Lemma admission_steps_ok now w : rtc world_step (initial now) w -> admission_ok w.
Proof.
  intros Hs. assert (H0 : admission_ok (initial now)).
  { split; cbn; [intros; by rewrite lookup_empty | intros ??; by rewrite lookup_empty |].
    rewrite map_size_empty. done. }
  revert H0. induction Hs as [w | w1 w2 w3 H12 _ IH]; [done |]. intros H1. apply IH.
  by eapply admission_step_ok.
Qed.

(** Admission is exact in every history: the entry of a source counts exactly
    the permits that exist for it, so no source ever holds more than four, at
    most 4096 sources are remembered, and the next attempt is admitted exactly
    when the source is remembered or there is room, it holds fewer than four
    permits, and it has made fewer than 256 attempts in its window. *)
Theorem admission_exact now0 w now source :
  rtc world_step (initial now0) w -> instant w <= now ->
  held_by source (permits w) <= MAX_PREAUTH_PER_SOURCE
  /\ Z.of_nat (size (entries w)) <= MAX_ADMISSION_SOURCES
  /\ snd (try_acquire now source (entries w))
     = (bool_decide (is_Some (retain now (entries w) !! source))
        || (Z.of_nat (size (retain now (entries w))) <? MAX_ADMISSION_SOURCES))
       && (held_by source (permits w) <? MAX_PREAUTH_PER_SOURCE)
       && (attempts (current_entry now source (entries w)) <? MAX_PREAUTH_ATTEMPTS_PER_WINDOW).
Proof.
  intros Hs Hle. pose proof (admission_steps_ok _ _ Hs) as Hok.
  destruct (current_entry_ok w now source Hok Hle) as (Ea & Eb & _ & _).
  split_and!; [lia | by apply ao_size |].
  destruct (try_acquire now source (entries w)) as [es got] eqn:E.
  apply try_acquire_spec in E as [Hg _]. cbn [snd]. rewrite Hg, Ea. f_equal. f_equal.
  rewrite negb_andb, <- Z.ltb_antisym. f_equal.
  destruct (retain now (entries w) !! source); cbn; by rewrite ?bool_decide_eq_true_2 by eauto.
Qed.

(** Nobody is locked out: a source that holds no permit when its window has
    passed starts afresh, and is admitted whenever there is room for it. *)
Theorem admission_recovers now0 w now source :
  rtc world_step (initial now0) w -> instant w <= now ->
  held_by source (permits w) = 0 ->
  (forall e, entries w !! source = Some e -> expires_at e <= now) ->
  Z.of_nat (size (retain now (entries w))) < MAX_ADMISSION_SOURCES ->
  snd (try_acquire now source (entries w)) = true.
Proof.
  intros Hs Hle Hh Hx Hroom. destruct (admission_exact now0 w now source Hs Hle) as (_ & _ & ->).
  assert (Hn : retain now (entries w) !! source = None).
  { destruct (retain now (entries w) !! source) as [e|] eqn:Er; [| done].
    apply retain_Some in Er as [Hl Hk]. specialize (Hx e Hl).
    pose proof (ao_active _ (admission_steps_ok _ _ Hs) source) as Ha. rewrite Hl in Ha.
    unfold kept in Hk. destruct (Z.eqb_spec (active e) 0); [| lia].
    cbn in Hk. apply Z.ltb_lt in Hk. lia. }
  apply Z.ltb_lt in Hroom. rewrite Hh, Hroom, orb_true_r. unfold current_entry. by rewrite Hn.
Qed.

(** A source with one permit, and the same source a minute later. *)
Definition ex_held : World :=
  {| entries := {[ 9 := {| active := 1; attempts := 1; expires_at := 60000000000 |} ]};
     permits := [9]; instant := 0 |}.
Definition ex_dropped : World :=
  {| entries := {[ 9 := {| active := 0; attempts := 1; expires_at := 60000000000 |} ]};
     permits := []; instant := 0 |}.

Lemma ex_reaches_held : rtc world_step (initial 0) ex_held.
Proof. apply rtc_once. by apply (ws_acquire (initial 0) 0 9 (entries ex_held) true). Qed.
Lemma ex_reaches_dropped : rtc world_step (initial 0) ex_dropped.
Proof. eapply rtc_r; [apply ex_reaches_held |]. by apply (ws_drop ex_held [] 9 []). Qed.

Lemma admission_exact_witness :
  held_by 9 (permits ex_held) = 1 /\ snd (try_acquire 5 9 (entries ex_held)) = true.
Proof.
  split; [reflexivity |].
  destruct (admission_exact 0 ex_held 5 9 ex_reaches_held) as (_ & _ & ->); [by vm_compute |].
  vm_compute. reflexivity.
Defined.

Lemma admission_recovers_witness : snd (try_acquire 60000000000 9 (entries ex_dropped)) = true.
Proof.
  apply (admission_recovers 0 ex_dropped 60000000000 9 ex_reaches_dropped).
  - by vm_compute.
  - reflexivity.
  - intros e He. vm_compute in He. injection He as <-. by vm_compute.
  - by vm_compute.
Defined.
