(* ===== verification/Gate.v ===== *)
(** * Gate: who reaches the management API, and what it presents

    Models [require_auth] of [crates/owlmux-server/src/api/mod.rs] with the
    permits and counters of [service.rs] it uses, and the read endpoints for
    the deployment, the metrics and the machines.  A request passes
    [require_auth] without awaiting anything, so one call is one step; permits
    that other requests hold are part of the state it finds. *)

From stdpp Require Import sorting.
From S2P Require Import Prelude Text Contracts Secrets Ssh Lease Tables Authority Ownership AuthorityInvariant AuthorityTheorems Base64Url Admission Custody.
Import Relay OwnerRs Api.

(** ** service.rs: counters and permits *)

Record Observability : Type := {
  api_authenticated_requests : Z; api_auth_rejections : Z; api_mutation_overloads : Z;
  owner_local_resolutions : Z; owner_remote_resolutions : Z; owner_absent_resolutions : Z;
  owner_resolution_failures : Z;
}.
Definition new_observability : Observability := Build_Observability 0 0 0 0 0 0 0.

(** [fetch_add(1)] on an [AtomicU64]. *)
Definition count (n : Z) : Z := (n + 1) mod (u64_max + 1).

Definition api_authenticated (o : Observability) : Observability :=
  let '(Build_Observability a b c d e f g) := o in Build_Observability (count a) b c d e f g.
Definition api_auth_rejected (o : Observability) : Observability :=
  let '(Build_Observability a b c d e f g) := o in Build_Observability a (count b) c d e f g.
Definition api_mutation_overloaded (o : Observability) : Observability :=
  let '(Build_Observability a b c d e f g) := o in Build_Observability a b (count c) d e f g.
Definition owner_local (o : Observability) : Observability :=
  let '(Build_Observability a b c d e f g) := o in Build_Observability a b c (count d) e f g.
Definition owner_remote (o : Observability) : Observability :=
  let '(Build_Observability a b c d e f g) := o in Build_Observability a b c d (count e) f g.
Definition owner_absent (o : Observability) : Observability :=
  let '(Build_Observability a b c d e f g) := o in Build_Observability a b c d e (count f) g.
Definition owner_resolution_failed (o : Observability) : Observability :=
  let '(Build_Observability a b c d e f g) := o in Build_Observability a b c d e f (count g).

(** The part of [ServerState] the gate uses; free permits of the semaphores. *)
Record GateState : Type := {
  sources : gmap Z SourceEntry; preauth_free : Z; mutation_free : Z; counters : Observability;
}.
Definition new_gate : GateState :=
  {| sources := ∅; preauth_free := 64; mutation_free := 32; counters := new_observability |}.

Definition with_sources (x : gmap Z SourceEntry) (g : GateState) : GateState :=
  {| sources := x; preauth_free := preauth_free g; mutation_free := mutation_free g;
     counters := counters g |}.
Definition take_preauth (g : GateState) : option GateState :=
  if 0 <? preauth_free g
  then Some {| sources := sources g; preauth_free := preauth_free g - 1;
               mutation_free := mutation_free g; counters := counters g |}
  else None.
Definition drop_preauth (g : GateState) : GateState :=
  {| sources := sources g; preauth_free := preauth_free g + 1; mutation_free := mutation_free g;
     counters := counters g |}.
Definition take_mutation (g : GateState) : option GateState :=
  if 0 <? mutation_free g
  then Some {| sources := sources g; preauth_free := preauth_free g;
               mutation_free := mutation_free g - 1; counters := counters g |}
  else None.
(** The last clone of a [MutationAdmission] dropped. *)
Definition drop_mutation (g : GateState) : GateState :=
  {| sources := sources g; preauth_free := preauth_free g; mutation_free := mutation_free g + 1;
     counters := counters g |}.
Definition counting (f : Observability -> Observability) (g : GateState) : GateState :=
  {| sources := sources g; preauth_free := preauth_free g; mutation_free := mutation_free g;
     counters := f (counters g) |}.

(** ** [require_auth] *)

(** Header names are lower case; the first value of a name is the one [get]
    returns, and [remove] takes all of them. *)
Record HttpRequest : Type := {
  rq_peer : option Z; rq_method : bytes; rq_headers : list (bytes * bytes);
  rq_mutation : bool;
}.
Definition AUTHORIZATION : bytes := lit "authorization".
Definition get_header (name : bytes) (l : list (bytes * bytes)) : option bytes :=
  snd <$> head (filter (fun h => h.1 = name) l).
Definition remove_header (name : bytes) (l : list (bytes * bytes)) : list (bytes * bytes) :=
  filter (fun h => h.1 <> name) l.

(** [HeaderValue::to_str]: visible ASCII, spaces and tabs. *)
Definition header_text (v : bytes) : option bytes :=
  if forallb (fun c => in_range 32 126 (bval c) || (bval c =? 9)) v then Some v else None.

Definition candidate (rq : HttpRequest) : option bytes :=
  value ← get_header AUTHORIZATION (rq_headers rq);
  text ← header_text value;
  token ← strip_prefix (lit "Bearer ") text;
  if bool_decide (token = []) || chars_any is_whitespace token then None else Some token.

Definition is_read (method : bytes) : bool :=
  bool_decide (method = lit "GET") || bool_decide (method = lit "HEAD").

(** Refused, or handed to the next handler; [rq_mutation] then says that the
    request carries a [MutationAdmission]. *)
Inductive GateOutcome : Type := Refused (e : ApiError) | Forwarded (rq : HttpRequest).

Definition without_authorization (rq : HttpRequest) (mutation : bool) : HttpRequest :=
  {| rq_peer := rq_peer rq; rq_method := rq_method rq;
     rq_headers := remove_header AUTHORIZATION (rq_headers rq); rq_mutation := mutation |}.

Section gate.
Context `{Hbase : Base64}.

(** After the two permits: the lease, the key, and for a mutation its permit. *)
Definition decide_request (key : bytes) (source : Z) (lease_ok : bool) (rq : HttpRequest)
    (g : GateState) : GateState * GateOutcome :=
  let released := drop_preauth (with_sources (drop_permit source (sources g)) g) in
  if negb lease_ok then (released, Refused TemporarilyUnavailable)
  else
    let authenticated :=
      match candidate rq with Some value => verify_api_key key value | None => false end in
    if negb authenticated then (counting api_auth_rejected released, Refused Unauthenticated)
    else
      let g := counting api_authenticated released in
      if is_read (rq_method rq) then (g, Forwarded (without_authorization rq (rq_mutation rq)))
      else match take_mutation g with
           | None => (counting api_mutation_overloaded g, Refused TemporarilyUnavailable)
           | Some g => (g, Forwarded (without_authorization rq true))
           end.

Definition require_auth (key : bytes) (now : Z) (lease_ok : bool) (rq : HttpRequest)
    (g : GateState) : GateState * GateOutcome :=
  match rq_peer rq with
  | None => (g, Refused TemporarilyUnavailable)
  | Some source =>
      let '(entries, got) := try_acquire now source (sources g) in
      let g := with_sources entries g in
      if negb got then (g, Refused TemporarilyUnavailable)
      else match take_preauth g with
           | None => (with_sources (drop_permit source (sources g)) g, Refused TemporarilyUnavailable)
           | Some g => decide_request key source lease_ok rq g
           end
  end.
End gate.

(** ** Read endpoints *)

Definition bounded_metric (value : Z) : Z := Z.min value 9007199254740991.

Record MetricsSnapshot : Type := { node_ready : bool; metrics : Observability }.
(** [ready]: the answer of [NodeLease::is_ready]. *)
Definition get_metrics (ready : bool) (g : GateState) : MetricsSnapshot :=
  let '(Build_Observability a b c d e f h) := counters g in
  {| node_ready := ready;
     metrics := Build_Observability (bounded_metric a) (bounded_metric b) (bounded_metric c)
                  (bounded_metric d) (bounded_metric e) (bounded_metric f) (bounded_metric h) |}.

Record DeploymentPresentation : Type := {
  dp_id : Uuid; dp_default_credential : Uuid; dp_epoch : Z; dp_build : bytes; dp_profile : Profile;
}.
(** [fetch_one] fails without a row; the build and profile are the node's. *)
Definition get_deployment (sv : Server) (answer : option Tables)
    : result ApiError DeploymentPresentation :=
  t ← ok_or TemporarilyUnavailable answer;
  d ← ok_or TemporarilyUnavailable (deployment (base t));
  Ok {| dp_id := dep_id d; dp_default_credential := default_credential t; dp_epoch := dep_epoch d;
        dp_build := build_id (sv_identity sv); dp_profile := profile (sv_identity sv) |}.

Inductive Reachability : Type := Reachable | ReachTemporarilyUnavailable | ReachUnknown.
Record MachineSummary : Type := {
  ms_id : Uuid; ms_credential : Uuid; ms_alias : bytes; ms_lifecycle : Lifecycle;
  ms_reachability : Reachability;
}.
Record MachineDetail : Type := {
  md_summary : MachineSummary; md_account : bytes; md_tmux_path : bytes; md_socket : bytes;
  md_host : option bytes;
}.

(** The [EXISTS] of both queries: an owner with a current lease and an active
    binding, all at the route revision of the machine. *)
Definition owner_valid_exists (sv : Server) (now : Z) (t : Tables) (id : Uuid) (m : Machine) : bool :=
  exists_where (fun k o => (k =? id)
      && match claimed o with
         | Some (x, _) => match current_node sv (base t) now x with Some _ => true | None => false end
         | None => false
         end
      && exists_where (fun _ b => binding_of id (route_revision m) b) (bindings t)
      && (owner_revision o =? route_revision m) && (0 <? connection_epoch o)) (owners t).

Definition machine_from_row (id : Uuid) (m : Machine) (connected : bool) : MachineSummary :=
  {| ms_id := id; ms_credential := ssh_credential_id m; ms_alias := alias m;
     ms_lifecycle := lifecycle m;
     ms_reachability := match lifecycle m with
                        | Active => if connected then Reachable else ReachTemporarilyUnavailable
                        | _ => ReachUnknown
                        end |}.

(** [ORDER BY m.created_at, m.id]; the times of creation are not part of
    [Tables]. *)
Definition older (created : Uuid -> Z) (x y : Z * Machine) : Prop :=
  created x.1 < created y.1 \/ created x.1 = created y.1 /\ x.1 <= y.1.
#[local] Instance older_dec created : RelDecision (older created).
Proof. intros x y. unfold older. apply _. Defined.

(** [recovered]: the outcome of [recover_expired_attempts], which both
    endpoints run first; [answer]: the tables the query sees. *)
Definition list_machines (sv : Server) (created : Uuid -> Z) (recovered : result RelayError unit)
    (answer : option Tables) (now : Z) : result ApiError (list MachineSummary) :=
  map_err (fun _ => TemporarilyUnavailable) recovered ;;
  t ← ok_or TemporarilyUnavailable answer;
  Ok (map (fun km => machine_from_row km.1 km.2 (owner_valid_exists sv now t km.1 km.2))
        (take 1024 (merge_sort (older created) (map_to_list (machines t))))).

Definition get_machine (sv : Server) (id : Uuid) (recovered : result RelayError unit)
    (answer : option Tables) (now : Z) : result ApiError MachineDetail :=
  map_err (fun _ => TemporarilyUnavailable) recovered ;;
  t ← ok_or TemporarilyUnavailable answer;
  m ← ok_or NotFound (machines t !! id);
  Ok {| md_summary := machine_from_row id m (owner_valid_exists sv now t id m);
        md_account := target_account m; md_tmux_path := tmux_path m;
        md_socket := tmux_socket_identity m; md_host := host_identity m |}.

(** A fresh token from 32 random bytes, and its digest. *)
Definition enrollment_token `{Base64} `{Sha256} (random : bytes) : bytes * bytes :=
  let token := ENROLLMENT_PREFIX ++ b64_encode random in (token, token_digest_of token).

(** ** Theorems *)

(** Documented: the alphabet of base64url. *)
Definition is_url_char (c : byte) : bool :=
  is_ascii_alphanumeric c || (bval c =? 45) || (bval c =? 95).
Class Base64Alphabet `{Base64} : Prop := {
  b64_alphabet : forall v, Forall (fun c => is_url_char c = true) (b64_encode v);
}.

Lemma url_char_plain c :
  is_url_char c = true ->
  in_range 32 126 (bval c) || (bval c =? 9) = true /\ is_whitespace (bval c) = false
  /\ bval c < 128.
Proof.
  intros Hc. pose proof (byte_forall (fun c => negb (is_url_char c)
    || ((in_range 32 126 (bval c) || (bval c =? 9)) && negb (is_whitespace (bval c))
        && (bval c <? 128))) ltac:(vm_compute; reflexivity) c) as Hall.
  cbv beta in Hall. rewrite Hc in Hall. cbn [negb orb] in Hall.
  apply andb_true_iff in Hall as [[Hg Hw]%andb_true_iff Hl%Z.ltb_lt].
  by apply negb_true_iff in Hw.
Qed.

(** Plain text is its own header text and has no white space. *)
Lemma plain_text v :
  Forall (fun c => is_url_char c = true) v ->
  header_text v = Some v /\ chars_any is_whitespace v = false.
Proof.
  intros Hv. assert (Hall : Forall (fun c => (in_range 32 126 (bval c) || (bval c =? 9) = true)
    /\ is_whitespace (bval c) = false /\ bval c < 128) v).
  { eapply Forall_impl; [exact Hv |]. apply url_char_plain. }
  clear Hv. split.
  - unfold header_text. rewrite (proj2 (forallb_forall _ v)); [done |].
    intros c Hc%list_elem_of_In. rewrite Forall_forall in Hall. by apply Hall.
  - unfold chars_any. rewrite chars_ascii by (eapply Forall_impl; [exact Hall | intros c Hc; apply Hc]).
    induction Hall as [|c v (_ & Hc & _) _ IH]; cbn; [done | by rewrite Hc].
Qed.

Section theorems.
Context `{Hbase : Base64} `{!Base64Laws} `{!Base64Alphabet}.

Lemma key_text_plain text key :
  parse_api_key text = Ok key -> Forall (fun c => is_url_char c = true) text /\ text <> [].
Proof.
  unfold parse_api_key. intros Hk. apply bind_Ok in Hk as (p & Hp%ok_or_Ok & Hd).
  apply strip_prefix_Some in Hp as ->. apply decode_canonical_32_Ok in Hd as (_ & _ & <-).
  split; [| done].
  apply Forall_app. split; [| apply b64_alphabet].
  by repeat (apply Forall_cons; split; [by vm_compute |]).
Qed.

(** The key verifies exactly when the first authorization header is the
    bearer of its text. *)
Lemma authenticated_exact text key rq :
  parse_api_key text = Ok key ->
  match candidate rq with Some value => verify_api_key key value | None => false end = true
  <-> get_header AUTHORIZATION (rq_headers rq) = Some (lit "Bearer " ++ text).
Proof.
  intros Hk. destruct (key_text_plain text key Hk) as [Hplain Hne]. unfold candidate. split.
  - intros Hv. destruct (get_header _ _) as [v|]; [| done]. cbn in Hv.
    destruct (header_text v) as [w|] eqn:Et; [| done]. cbn in Hv.
    unfold header_text in Et. destruct (forallb _ v); [| done]. simplify_eq.
    destruct (strip_prefix _ w) as [token|] eqn:Es; [| done]. cbn in Hv.
    destruct (_ || _); [done |]. apply (verify_api_key_exact text key token Hk) in Hv as ->.
    by apply strip_prefix_Some in Es as ->.
  - intros ->. cbn [mbind option_bind]. unfold header_text. rewrite forallb_app.
    destruct (plain_text text Hplain) as [Ht Hw]. unfold header_text in Ht.
    destruct (forallb _ text); [| done].
    replace (forallb _ (lit "Bearer ")) with true by (by vm_compute). cbn [andb mbind option_bind].
    rewrite strip_prefix_app. cbn [mbind option_bind]. rewrite bool_decide_false, Hw by done. cbn.
    by apply (verify_api_key_exact text key text Hk).
Qed.

(** Living permits of a source. *)
Definition live (s : Z) (es : gmap Z SourceEntry) : Z :=
  match es !! s with Some e => active e | None => 0 end.
Definition well_counted (es : gmap Z SourceEntry) : Prop :=
  forall s e, es !! s = Some e -> 0 <= active e.

Lemma live_retain now es s : live s (retain now es) = live s es.
Proof.
  unfold live. destruct (retain now es !! s) as [e|] eqn:E.
  - by apply retain_Some in E as [-> _].
  - symmetry. by eapply retain_None.
Qed.

Lemma acquire_drop_live now source es es' got s :
  well_counted es -> try_acquire now source es = (es', got) ->
  live s (if got then drop_permit source es' else es') = live s es.
Proof.
  intros Hw Ht. apply try_acquire_spec in Ht as [Hgot ->].
  assert (Hcur : active (current_entry now source es) = live source es).
  { unfold current_entry. rewrite <- (live_retain now es source). unfold live.
    by destruct (retain now es !! source). }
  assert (Hpos : 0 <= live source es).
  { unfold live. destruct (es !! source) as [e|] eqn:E; [by eapply Hw | done]. }
  destruct (_ && (MAX_ADMISSION_SOURCES <=? _)); cbn in Hgot |- *.
  - subst got. apply live_retain.
  - rewrite <- (live_retain now es s) at 1. unfold live, drop_permit.
    destruct got; destruct (decide (s = source)) as [-> |].
    + rewrite lookup_alter_eq, lookup_insert_eq. cbn. unfold saturating_sub.
      rewrite Hcur. unfold live. fold (live source (retain now es)).
      rewrite live_retain. unfold live in *. lia.
    + by rewrite lookup_alter_ne, lookup_insert_ne by done.
    + rewrite lookup_insert_eq, Hcur. symmetry. apply live_retain.
    + by rewrite lookup_insert_ne.
Qed.

Definition mutation_of (o : GateOutcome) (method : bytes) : Z :=
  match o with Forwarded _ => if is_read method then 0 else 1 | Refused _ => 0 end.

Lemma get_removed l : get_header AUTHORIZATION (remove_header AUTHORIZATION l) = None.
Proof.
  unfold get_header, remove_header.
  assert (Hnil : filter (fun h : bytes * bytes => h.1 = AUTHORIZATION)
                   (filter (fun h => h.1 <> AUTHORIZATION) l) = []); [| by rewrite Hnil].
  induction l as [|h l IH]; [done |]. rewrite filter_cons.
  destruct (decide (h.1 <> AUTHORIZATION)); [by rewrite filter_cons_False | done].
Qed.

Ltac refuse :=
  simplify_eq;
  cbn [sources preauth_free mutation_free with_sources counting drop_preauth mutation_of fst snd];
  split_and!; try done; try lia;
  [split; [by intros [? ?] | intros (? & ? & ? & ? & ? & ? & ?); simplify_eq;
    repeat match goal with Ht : try_acquire _ _ _ = _, Hs : snd (try_acquire _ _ _) = true |- _ =>
      rewrite Ht in Hs; clear Ht end; destruct_or?; simplify_eq; done || lia]
  | ..].
Ltac forwarded source :=
  simplify_eq;
  cbn [sources preauth_free mutation_free with_sources counting drop_preauth mutation_of fst snd];
  repeat match goal with Hm : is_read _ = _ |- _ => rewrite Hm; clear Hm end;
  split_and!; try done; try lia;
  [split; [intros _; exists source; split_and!; auto;
     match goal with Ht : try_acquire _ _ _ = _ |- _ => by rewrite Ht end | by eexists]
  | intros ? [= <-]; split; [apply get_removed | done] | ..].

(** C18. The gate of the management API is exact: a request reaches a handler
    if and only if its source is admitted, a pre-authentication permit is
    free, the lease is valid, its first authorization header is the bearer of
    exactly the configured API key text, and it reads or a mutation permit is
    free.  The handler never sees the authorization header; it carries a
    mutation permit when the method is not a read.  Whatever the outcome, the
    permits of every source and the pre-authentication permits are what they
    were, and a mutation permit is taken exactly for a forwarded mutation. *)
Theorem require_auth_exact (text key : bytes) (now : Z) (lease_ok : bool) (rq : HttpRequest)
    (g g' : GateState) (o : GateOutcome) (Hkey : parse_api_key text = Ok key)
    (Hcounted : well_counted (sources g)) (Hrun : require_auth key now lease_ok rq g = (g', o)) :
  ((exists rq', o = Forwarded rq') <->
   exists source, rq_peer rq = Some source /\ snd (try_acquire now source (sources g)) = true
     /\ 0 < preauth_free g /\ lease_ok = true
     /\ get_header AUTHORIZATION (rq_headers rq) = Some (lit "Bearer " ++ text)
     /\ (is_read (rq_method rq) = true \/ 0 < mutation_free g))
  /\ (forall rq', o = Forwarded rq' ->
       get_header AUTHORIZATION (rq_headers rq') = None
       /\ rq_mutation rq' = (if is_read (rq_method rq) then rq_mutation rq else true))
  /\ (o = Refused Unauthenticated ->
       get_header AUTHORIZATION (rq_headers rq) <> Some (lit "Bearer " ++ text))
  /\ (forall s, live s (sources g') = live s (sources g))
  /\ preauth_free g' = preauth_free g
  /\ mutation_free g' = mutation_free g - mutation_of o (rq_method rq).
Proof.
  pose proof (authenticated_exact text key rq Hkey) as Hauth.
  unfold require_auth in Hrun. destruct (rq_peer rq) as [source|]; [| by refuse].
  destruct (try_acquire now source (sources g)) as [es got] eqn:Et.
  pose proof (fun s => acquire_drop_live _ _ _ _ _ s Hcounted Et) as Hlive.
  destruct got; cbn [negb] in Hrun; [| by refuse].
  unfold take_preauth in Hrun. cbn [preauth_free with_sources] in Hrun.
  destruct (Z.ltb_spec 0 (preauth_free g)); [| by refuse].
  unfold decide_request in Hrun. destruct lease_ok; cbn [negb] in Hrun; [| by refuse].
  destruct (match candidate rq with Some _ => _ | None => false end); cbn [negb] in Hrun.
  2:{ assert (Hno : get_header AUTHORIZATION (rq_headers rq) <> Some (lit "Bearer " ++ text))
        by (by rewrite <- Hauth). clear Hauth. by refuse. }
  pose proof (proj1 Hauth eq_refl) as Hheader.
  destruct (is_read (rq_method rq)) eqn:Er; [by forwarded source |].
  unfold take_mutation in Hrun. cbn [mutation_free counting drop_preauth with_sources] in Hrun.
  destruct (Z.ltb_spec 0 (mutation_free g)); [by forwarded source | by refuse].
Qed.
End theorems.

(** ** Presentation and routing agree *)

Lemma owner_valid_routes sv now t id m :
  machines t !! id = Some m -> lifecycle m = Active ->
  owner_valid_exists sv now t id m = true <-> exists route x n, routes_to sv t now id route x n.
Proof.
  intros Hm Hl. unfold owner_valid_exists. rewrite exists_where_true. split.
  - intros (k & o & Ho & Hp). split_bools. subst k.
    destruct (claimed o) as [[x c]|] eqn:Ec; [| done].
    destruct (current_node sv (base t) now x) as [n|] eqn:En; [| done].
    assert (Hrow : owner_row sv id now t = Some (o, x, c, n)).
    { unfold owner_row, routed. rewrite Hm, Ho. cbn [mbind option_bind].
      rewrite bool_decide_true by done.
      repeat match goal with H : _ = true |- _ => rewrite H; clear H
        | H : owner_revision o = _ |- _ => rewrite H, Z.eqb_refl; clear H end.
      cbn [andb mbind option_bind]. rewrite Ec. cbn [mbind option_bind]. rewrite En.
      cbn [mbind option_bind]. by rewrite (proj2 (Z.ltb_lt _ _)). }
    apply owner_row_Some in Hrow as (_ & _ & Hr). eauto.
  - intros ([r e c] & x & n & Hr). pose proof Hr as [(m' & Em & _ & Hrev) _ (o & Eo & Hro & Heo & Hc) He _ _].
    cbn in *. simplify_eq.
    assert (Hrow : owner_row sv id now t = Some (o, x, c, n)).
    { apply owner_row_Some. by rewrite Hro. }
    unfold owner_row, routed in Hrow. rewrite Hm, Eo in Hrow. cbn [mbind option_bind] in Hrow.
    destruct (bool_decide _ && _ && _) eqn:Eg in Hrow; [| done]. cbn [mbind option_bind] in Hrow.
    rewrite Hc in Hrow. cbn [mbind option_bind] in Hrow.
    destruct (current_node sv (base t) now x) eqn:En; [| done].
    exists id, o. split; [done |]. split_bools. rewrite Hc, En, Z.eqb_refl.
    repeat match goal with H : _ = true |- _ => rewrite H; clear H end.
    cbn. rewrite (proj2 (Z.eqb_eq _ _)), (proj2 (Z.ltb_lt _ _)) by congruence. done.
Qed.

(** What the API presents about a machine is what routing would decide on
    the same tables: a listed machine is a row; it is shown reachable exactly
    when owner resolution finds an owner for it (of this configuration and
    build, with a valid lease, at the route of an active binding), temporarily
    unavailable exactly when it is active without one, and unknown otherwise;
    its own page says the same. *)
Theorem reachability_exact (sv : Server) (created : Uuid -> Z) (t : Tables) (now : Z)
    (l : list MachineSummary) (s : MachineSummary)
    (Hlist : list_machines sv created (Ok tt) (Some t) now = Ok l) (Hs : s ∈ l) :
  exists m, machines t !! ms_id s = Some m /\ ms_lifecycle s = lifecycle m
  /\ (ms_reachability s = Reachable <->
       exists route x n, routes_to sv t now (ms_id s) route x n)
  /\ (ms_reachability s = ReachTemporarilyUnavailable <->
       lifecycle m = Active /\ owner_row sv (ms_id s) now t = None)
  /\ (ms_reachability s = ReachUnknown <-> lifecycle m <> Active)
  /\ exists d, get_machine sv (ms_id s) (Ok tt) (Some t) now = Ok d /\ md_summary d = s.
Proof.
  unfold list_machines in Hlist. cbn in Hlist. injection Hlist as <-.
  apply list_elem_of_fmap in Hs as ([id m] & -> & Hin). apply elem_of_take in Hin as (i & Hi & _).
  apply list_elem_of_lookup_2 in Hi. rewrite merge_sort_Permutation, elem_of_map_to_list in Hi.
  cbn [fst snd]. unfold machine_from_row. cbn [ms_id ms_lifecycle ms_reachability].
  exists m. split; [done |]. split; [done |].
  assert (Hreach : (exists route x n, routes_to sv t now id route x n) -> lifecycle m = Active).
  { intros (route & x & n & [(m' & Em & Hl & _) _ _ _ _ _]). by simplify_eq. }
  rewrite owner_row_None.
  destruct (decide (lifecycle m = Active)) as [Hl | Hl].
  - pose proof (owner_valid_routes sv now t id m Hi Hl) as Hv. rewrite Hl.
    split_and!.
    + rewrite <- Hv. by destruct (owner_valid_exists _ _ _ _ _).
    + destruct (owner_valid_exists _ _ _ _ _); (split; [intros ? | intros [_ Hno]]); try done.
      * destruct (proj1 Hv eq_refl) as (route & x & n & Hr). by destruct (Hno route x n).
      * split; [done |]. intros route x n Hr. destruct Hv as [_ Hv]. discriminate Hv. eauto.
    + by destruct (owner_valid_exists _ _ _ _ _).
    + unfold get_machine. cbn. rewrite Hi. cbn. eexists. split; [done |]. cbn.
      unfold machine_from_row. by rewrite Hl.
  - split_and!.
    + split; [by destruct (lifecycle m) | intros Hr; by apply Hreach in Hr].
    + split; [by destruct (lifecycle m) | by intros [? _]].
    + split; [done | by destruct (lifecycle m)].
    + unfold get_machine. cbn. rewrite Hi. cbn. eauto.
Qed.

(** ** Concrete requests *)

Lemma base64url_alphabet : @Base64Alphabet base64url.
Proof.
  constructor. intros v. cbn.
  assert (Hs : forall n, 0 <= n < 64 -> is_url_char (sextet n) = true).
  { intros n Hn. assert (Hall : forallb (fun k => is_url_char (sextet (Z.of_nat k))) (seq 0 64) = true)
      by (vm_compute; reflexivity).
    rewrite forallb_forall in Hall. rewrite <- (Z2Nat.id n) by lia. apply Hall, in_seq. lia. }
  induction v as [|a|a b|a b c rest IH] using triples_ind;
    [constructor | | |];
    pose proof (bval_range a); try pose proof (bval_range b); try pose proof (bval_range c);
    cbn [encode64]; repeat (apply Forall_cons; split); try done;
    first [apply Hs; Z.div_mod_to_equations; lia | apply Forall_nil].
Qed.

Section example.
#[local] Existing Instances base64url base64url_laws base64url_alphabet.

Definition ga_key : bytes := repeat "007"%byte 32.
Definition ga_text : bytes := API_KEY_PREFIX ++ b64_encode ga_key.
Definition ga_request : HttpRequest :=
  {| rq_peer := Some 9; rq_method := lit "POST";
     rq_headers := [(lit "host", lit "owl"); (AUTHORIZATION, lit "Bearer " ++ ga_text)];
     rq_mutation := false |}.

Lemma require_auth_exact_witness :
  let '(g, o) := require_auth ga_key 100 true ga_request new_gate in
  (exists rq, o = Forwarded rq /\ get_header AUTHORIZATION (rq_headers rq) = None)
  /\ live 9 (sources g) = 0 /\ preauth_free g = 64 /\ mutation_free g = 31.
Proof.
  destruct (require_auth ga_key 100 true ga_request new_gate) as [g o] eqn:E.
  assert (Hkey : parse_api_key ga_text = Ok ga_key) by (vm_compute; reflexivity).
  assert (Hc : well_counted (sources new_gate)) by (intros s e Hs; discriminate Hs).
  destruct (require_auth_exact ga_text ga_key 100 true ga_request new_gate g o Hkey Hc E)
    as (Hiff & Hfwd & _ & Hlive & Hpre & Hmut).
  destruct (proj2 Hiff) as [rq Ho].
  { exists 9. split; [reflexivity |]. split; [vm_compute; reflexivity |].
    split; [reflexivity |]. split; [reflexivity |]. split; [vm_compute; reflexivity |].
    right. reflexivity. }
  split; [exists rq; split; [exact Ho |]; apply (Hfwd rq Ho) |].
  split; [exact (Hlive 9) |]. split; [exact Hpre |]. rewrite Hmut, Ho. reflexivity.
Defined.

Abbreviation ga_tables := (tbl ex_claimed).
Lemma reachability_exact_witness :
  exists s, list_machines ex_server (fun _ => 0) (Ok tt) (Some ga_tables) 50 = Ok [s]
  /\ ms_reachability s = Reachable
  /\ exists route x n, routes_to ex_server ga_tables 50 (ms_id s) route x n.
Proof.
  pose (s := machine_from_row 1 (default (Build_Machine 0 [] Pending 0 0 [] [] [] None)
               (machines ga_tables !! 1)) true).
  assert (Hl : list_machines ex_server (fun _ => 0) (Ok tt) (Some ga_tables) 50 = Ok [s])
    by (vm_compute; reflexivity).
  assert (Hr : ms_reachability s = Reachable) by (vm_compute; reflexivity).
  exists s. split; [exact Hl |]. split; [exact Hr |].
  destruct (reachability_exact ex_server (fun _ => 0) ga_tables 50 [s] s Hl (list_elem_of_here _ _))
    as (m & _ & _ & Hreach & _).
  exact (proj1 Hreach Hr).
Defined.
End example.
