(* ===== verification/Registry.v ===== *)
(** * Registry: the tunnels of a node and the barrier of a transition

    Models [RegistryState], [RelayRegistry], [TunnelHandle] and [RouteFence]
    of [crates/owlmux-server/src/relay/mod.rs].  Handles and completion tokens
    are shared between tasks, so they live in a store and are named by
    identifiers.  Every operation here is one critical section of the code (the
    registry's lock or a handle's dispatch lock); the histories interleave the
    critical sections of all tasks. *)

From S2P Require Import Prelude Text Contracts Lease Tables Authority.
Import Relay.

Inductive OwnerExitState : Type :=
| Transitioning (route : RouteIdentity) | Releasing (route : RouteIdentity).
Global Instance OwnerExitState_eq_dec : EqDecision OwnerExitState.
Proof. solve_decision. Defined.

Inductive OwnerReleaseDecision : Type := Defer | Release.

(** [dispatch_open], the [barrier] and [cleanup_complete] tokens; the machine
    is that of the tunnel task, [installed] whether the registry ever held the
    handle. *)
Record TunnelHandle : Type := {
  hd_machine : Uuid; hd_route : RouteIdentity; dispatch_open : bool; barrier : bool;
  cleanup_complete : bool; installed : bool;
}.

(** [tokens] tells which completion tokens have been cancelled; [drained] are
    the handles taken out by [close_all], whose [close_dispatch] follows. *)
Record Registry : Type := {
  tunnels : gmap Z Z; pending_claims : gmap (Z * Z) Z; owner_exits : gmap Z OwnerExitState;
  handles : gmap Z TunnelHandle; tokens : gmap Z bool; drained : list Z;
}.

Definition set_tunnels (r : Registry) (x : gmap Z Z) : Registry :=
  {| tunnels := x; pending_claims := pending_claims r; owner_exits := owner_exits r;
     handles := handles r; tokens := tokens r; drained := drained r |}.
Definition set_exits (r : Registry) (x : gmap Z OwnerExitState) : Registry :=
  {| tunnels := tunnels r; pending_claims := pending_claims r; owner_exits := x;
     handles := handles r; tokens := tokens r; drained := drained r |}.
Definition set_handles (r : Registry) (x : gmap Z TunnelHandle) : Registry :=
  {| tunnels := tunnels r; pending_claims := pending_claims r; owner_exits := owner_exits r;
     handles := x; tokens := tokens r; drained := drained r |}.
Definition set_pending (r : Registry) (x : gmap (Z * Z) Z) (t : gmap Z bool) : Registry :=
  {| tunnels := tunnels r; pending_claims := x; owner_exits := owner_exits r;
     handles := handles r; tokens := t; drained := drained r |}.

(** ** RegistryState *)

Definition begin_transition (machine : Uuid) (route : RouteIdentity) (r : Registry)
    : Registry * bool :=
  match owner_exits r !! machine with
  | Some _ => (r, false)
  | None => (set_exits r (<[machine := Transitioning route]> (owner_exits r)), true)
  end.

Definition begin_owner_release (machine : Uuid) (route : RouteIdentity) (r : Registry)
    : Registry * option OwnerReleaseDecision :=
  match owner_exits r !! machine with
  | Some (Transitioning expected) =>
      (r, if bool_decide (expected = route) then Some Defer else None)
  | Some (Releasing _) => (r, None)
  | None => (set_exits r (<[machine := Releasing route]> (owner_exits r)), Some Release)
  end.

(** Remove an exit if it is exactly the given one. *)
Definition remove_exit (machine : Uuid) (e : OwnerExitState) (r : Registry) : Registry :=
  if bool_decide (owner_exits r !! machine = Some e)
  then set_exits r (delete machine (owner_exits r)) else r.

(** ** TunnelHandle *)

Definition new_handle (machine : Uuid) (route : RouteIdentity) : TunnelHandle :=
  {| hd_machine := machine; hd_route := route; dispatch_open := true; barrier := false;
     cleanup_complete := false; installed := false |}.

Definition closed_handle (h : TunnelHandle) : TunnelHandle :=
  {| hd_machine := hd_machine h; hd_route := hd_route h; dispatch_open := false; barrier := true;
     cleanup_complete := cleanup_complete h; installed := installed h |}.
Definition close_dispatch (id : Z) (r : Registry) : Registry :=
  set_handles r (alter closed_handle id (handles r)).

Definition cleaned_handle (h : TunnelHandle) : TunnelHandle :=
  {| hd_machine := hd_machine h; hd_route := hd_route h; dispatch_open := dispatch_open h;
     barrier := barrier h; cleanup_complete := true; installed := installed h |}.
Definition complete_cleanup (id : Z) (r : Registry) : Registry :=
  set_handles r (alter cleaned_handle id (handles r)).

Definition installed_handle (h : TunnelHandle) : TunnelHandle :=
  {| hd_machine := hd_machine h; hd_route := hd_route h; dispatch_open := dispatch_open h;
     barrier := barrier h; cleanup_complete := cleanup_complete h; installed := true |}.

(** The guard of [RouteFence::dispatch], [send_route_frame] and the opening of
    a stream: work is done only under an open dispatch and a valid lease. *)
Definition dispatch (id : Z) (lease_ok : bool) (r : Registry) : result RelayError unit :=
  match handles r !! id with
  | Some h => if negb lease_ok then Err Fenced
              else if negb (dispatch_open h) || barrier h then Err Unavailable else Ok tt
  | None => Err Unavailable
  end.

(** ** RelayRegistry *)

(** The lookup of [open_stream]; the handle is then used through [dispatch]. *)
Definition open_stream_handle (machine : Uuid) (lease_ok : bool) (r : Registry)
    : result RelayError Z :=
  if negb lease_ok then Err Fenced else ok_or Unavailable (tunnels r !! machine).

(** The current handle of a machine, with its identifier. *)
Definition tunnel (machine : Uuid) (r : Registry) : option (Z * TunnelHandle) :=
  id ← tunnels r !! machine; h ← handles r !! id; Some (id, h).

Definition is_connected (machine : Uuid) (r : Registry) : bool :=
  match tunnel machine r with Some (_, h) => negb (barrier h) | None => false end.

Definition route_fence (machine : Uuid) (route : RouteIdentity) (lease_ok : bool) (r : Registry)
    : option Z :=
  if negb lease_ok then None
  else '(id, h) ← tunnel machine r;
       if bool_decide (hd_route h = route) && negb (barrier h) then Some id else None.

Definition is_current_route (machine : Uuid) (route : RouteIdentity) (ready : bool)
    (r : Registry) : bool :=
  ready && match tunnel machine r with
           | Some (_, h) => bool_decide (hd_route h = route) && negb (barrier h)
           | None => false
           end.

(** [token] is the fresh completion token; [ready] the two readiness checks. *)
Definition reserve_claim (machine connection token : Z) (ready0 ready1 : bool) (r : Registry)
    : Registry * result RelayError unit :=
  if negb ready0 || negb ready1 then (r, Err Fenced)
  else match owner_exits r !! machine, tunnels r !! machine,
             pending_claims r !! (machine, connection) with
       | None, None, None =>
           (set_pending r (<[(machine, connection) := token]> (pending_claims r))
                          (<[token := false]> (tokens r)), Ok tt)
       | _, _, _ => (r, Err OwnerConflict)
       end.

(** Remove a reservation and cancel its token. *)
Definition finish_pending (machine connection : Z) (r : Registry) : Registry :=
  match pending_claims r !! (machine, connection) with
  | Some token => set_pending r (delete (machine, connection) (pending_claims r))
                                (<[token := true]> (tokens r))
  | None => r
  end.

Definition install_reserved (machine connection id : Z) (ready0 ready1 : bool) (r : Registry)
    : Registry * result RelayError unit :=
  if negb ready0 || negb ready1 then (r, Err Fenced)
  else match owner_exits r !! machine, tunnels r !! machine,
             pending_claims r !! (machine, connection) with
       | None, None, Some _ =>
           let r := set_tunnels r (<[machine := id]> (tunnels r)) in
           let r := set_handles r (alter installed_handle id (handles r)) in
           (finish_pending machine connection r, Ok tt)
       | _, _, _ => (r, Err OwnerConflict)
       end.

(** The critical section of [begin_machine_transition]: the handle to close
    and the completions to wait for. *)
Definition begin_machine_transition (machine : Uuid) (expected : RouteIdentity) (r : Registry)
    : Registry * option (Z * list Z) :=
  match tunnel machine r with
  | Some (id, h) =>
      if bool_decide (hd_route h = expected) then
        let '(r', started) := begin_transition machine expected r in
        if started then
          (set_tunnels r' (delete machine (tunnels r')),
           Some (id, map snd (filter (fun kv => kv.1.1 = machine)
                                (map_to_list (pending_claims r')))))
        else (r, None)
      else (r, None)
  | None => (r, None)
  end.

(** What the cleanup waits for; with a valid lease within the time limit the
    transition is handed out, otherwise it is dropped and the node fenced. *)
Definition cleanup_done (id : Z) (completions : list Z) (r : Registry) : bool :=
  match handles r !! id with
  | Some h => negb (dispatch_open h) && barrier h && cleanup_complete h
              && forallb (fun t => bool_decide (tokens r !! t = Some true)) completions
  | None => false
  end.

(** [finish_machine_transition]: a tunnel it takes out is closed after it. *)
Definition finish_machine_transition (machine : Uuid) (route : RouteIdentity) (r : Registry)
    : Registry * option Z :=
  (remove_exit machine (Transitioning route) (set_tunnels r (delete machine (tunnels r))),
   tunnels r !! machine).

(** [MachineTransition::finish]: [released] is the outcome of the durable
    release an abandoned transition starts with; its failure has fenced the
    node and leaves the exit in place.  (Dropping a transition that was neither
    finished nor fenced fences the node and changes nothing here.) *)
Definition finish_transition (machine : Uuid) (route : RouteIdentity) (committed : bool)
    (released : result RelayError unit) (r : Registry)
    : Registry * option Z * result RelayError unit :=
  if negb committed && negb (is_ok released) then (r, None, Err Fenced)
  else let '(r, handle) := finish_machine_transition machine route r in (r, handle, Ok tt).

Definition finish_owner_release (machine connection : Z) (route : RouteIdentity) (r : Registry)
    : Registry :=
  let matches := match tunnel machine r with
                 | Some (_, h) => bool_decide (hd_route h = route)
                                  && (rt_connection route =? connection)
                 | None => false
                 end in
  let r := if matches then set_tunnels r (delete machine (tunnels r)) else r in
  remove_exit machine (Releasing route) r.

(** [close_all] takes every handle out; their [close_dispatch] follows. *)
Definition close_all (r : Registry) : Registry :=
  {| tunnels := ∅; pending_claims := pending_claims r; owner_exits := owner_exits r;
     handles := handles r; tokens := tokens r;
     drained := map snd (map_to_list (tunnels r)) ++ drained r |}.

(** ** Histories *)

(** [world_step ex]: any critical section except the end of the transition
    [ex].  The premises are the program order of the tunnel task: a handle is
    made once per claim, with the route that claim returned (epochs make the
    routes of a machine distinct), installed by the task that made it, and
    closed before its cleanup and its release; a transition is finished by the
    one object it was handed out as, after its handle was closed. *)
Inductive world_step (ex : option (Uuid * RouteIdentity)) : Registry -> Registry -> Prop :=
| ws_new r id machine route :
    handles r !! id = None ->
    (forall i h, handles r !! i = Some h -> hd_machine h = machine -> hd_route h <> route) ->
    world_step ex r (set_handles r (<[id := new_handle machine route]> (handles r)))
| ws_reserve r machine connection token b0 b1 :
    tokens r !! token = None ->
    world_step ex r (fst (reserve_claim machine connection token b0 b1 r))
| ws_finish_pending r machine connection :
    world_step ex r (finish_pending machine connection r)
| ws_install r id h machine b0 b1 :
    handles r !! id = Some h -> hd_machine h = machine -> installed h = false ->
    world_step ex r (fst (install_reserved machine (rt_connection (hd_route h)) id b0 b1 r))
| ws_close r id : world_step ex r (close_dispatch id r)
| ws_begin_transition r machine route :
    world_step ex r (fst (begin_machine_transition machine route r))
| ws_finish_transition r machine route :
    ex <> Some (machine, route) ->
    owner_exits r !! machine = Some (Transitioning route) ->
    (forall i h, handles r !! i = Some h -> hd_machine h = machine -> hd_route h = route ->
       barrier h = true) ->
    world_step ex r (fst (finish_machine_transition machine route r))
| ws_begin_release r id h :
    handles r !! id = Some h -> barrier h = true ->
    world_step ex r (fst (begin_owner_release (hd_machine h) (hd_route h) r))
| ws_cleanup r id h :
    handles r !! id = Some h -> barrier h = true -> world_step ex r (complete_cleanup id r)
| ws_finish_release r id h :
    handles r !! id = Some h -> barrier h = true ->
    world_step ex r (finish_owner_release (hd_machine h) (rt_connection (hd_route h))
                       (hd_route h) r)
| ws_close_all r : world_step ex r (close_all r).

Definition initial : Registry :=
  {| tunnels := ∅; pending_claims := ∅; owner_exits := ∅; handles := ∅; tokens := ∅;
     drained := [] |}.

(** ** The invariant *)

Record registry_ok (r : Registry) : Prop := {
  ro_route : forall i j h g, handles r !! i = Some h -> handles r !! j = Some g ->
    hd_machine h = hd_machine g -> hd_route h = hd_route g -> i = j;
  ro_open : forall i h, handles r !! i = Some h -> dispatch_open h = negb (barrier h);
  ro_live : forall i h, handles r !! i = Some h -> installed h = true -> barrier h = false ->
    tunnels r !! hd_machine h = Some i \/ i ∈ drained r
    \/ owner_exits r !! hd_machine h = Some (Transitioning (hd_route h));
  ro_tunnel : forall m i, tunnels r !! m = Some i -> exists h, handles r !! i = Some h
    /\ hd_machine h = m /\ installed h = true;
  ro_exit : forall m route, owner_exits r !! m = Some (Transitioning route) -> tunnels r !! m = None;
  ro_token : forall k t, pending_claims r !! k = Some t -> tokens r !! t = Some false;
  ro_inj : forall k l t, pending_claims r !! k = Some t -> pending_claims r !! l = Some t -> k = l;
}.

Lemma initial_ok : registry_ok initial.
Proof. split; cbn; intros *; rewrite ?lookup_empty; done. Qed.

(** Changing the flags of a handle. *)
Record flags (f : TunnelHandle -> TunnelHandle) : Prop := {
  fl_machine : forall h, hd_machine (f h) = hd_machine h;
  fl_route : forall h, hd_route (f h) = hd_route h;
  fl_installed : forall h, installed (f h) = installed h;
  fl_barrier : forall h, barrier h = true -> barrier (f h) = true;
  fl_open : forall h, dispatch_open h = negb (barrier h) -> dispatch_open (f h) = negb (barrier (f h));
}.

Lemma closed_flags : flags closed_handle.
Proof. by split. Qed.
Lemma cleaned_flags : flags cleaned_handle.
Proof. by split. Qed.

Lemma flags_ok f id r :
  flags f -> registry_ok r -> registry_ok (set_handles r (alter f id (handles r))).
Proof.
  intros F [Hr Ho Hl Ht He Hk Hi].
  assert (Hf : forall i h', alter f id (handles r) !! i = Some h' -> exists h,
            handles r !! i = Some h /\ hd_machine h' = hd_machine h /\ hd_route h' = hd_route h
            /\ installed h' = installed h /\ (barrier h' = false -> barrier h = false)
            /\ dispatch_open h' = negb (barrier h')).
  { intros i h' Hh. apply lookup_alter_Some in Hh as [(<- & h & Hh & ->) | [_ Hh]].
    - exists h. split_and!; [done | apply F.. | |]; [| apply F; by eapply Ho].
      intros Hb. destruct (barrier h) eqn:E; [| done]. by rewrite (fl_barrier _ F) in Hb.
    - exists h'. split_and!; try done. by eapply Ho. }
  split; cbn; try done.
  - intros i j h g Hh Hg Hm Hrt. destruct (Hf _ _ Hh) as (h0 & ? & ? & ? & _).
    destruct (Hf _ _ Hg) as (g0 & ? & ? & ? & _). apply (Hr i j h0 g0); congruence.
  - intros i h Hh. by destruct (Hf _ _ Hh) as (h0 & _ & _ & _ & _ & _ & ?).
  - intros i h Hh Hin Hb. destruct (Hf _ _ Hh) as (h0 & H0 & Em & Er & Ei & Eb & _).
    rewrite Em, Er. apply (Hl i h0); [done | congruence | by apply Eb].
  - intros m i Hm. destruct (Ht m i Hm) as (h & Hh & Em & Ei).
    destruct (decide (i = id)) as [-> | Hne].
    + exists (f h). rewrite lookup_alter_eq, Hh. split_and!; [done | |]; by rewrite ?(fl_machine _ F), ?(fl_installed _ F).
    + exists h. by rewrite lookup_alter_ne.
Qed.

Lemma remove_exit_spec m e r :
  remove_exit m e r = r /\ owner_exits r !! m <> Some e
  \/ remove_exit m e r = set_exits r (delete m (owner_exits r)) /\ owner_exits r !! m = Some e.
Proof. unfold remove_exit. case_bool_decide; auto. Qed.

Lemma finish_pending_ok machine connection r :
  registry_ok r -> registry_ok (finish_pending machine connection r).
Proof.
  intros Hok. pose proof Hok as [Hr Ho Hl Ht He Hk Hi]. unfold finish_pending.
  destruct (pending_claims r !! (machine, connection)) as [t|] eqn:Ep; [| done].
  split; cbn; try done.
  - intros k t' Hk'. apply lookup_delete_Some in Hk' as [Hne Hk'].
    rewrite lookup_insert_ne; [by eapply Hk |]. intros ->. apply Hne. by eapply Hi.
  - intros k l t' Hk' Hl'. apply lookup_delete_Some in Hk' as [_ Hk'].
    apply lookup_delete_Some in Hl' as [_ Hl']. by eapply Hi.
Qed.

Lemma reserve_claim_ok machine connection token b0 b1 r :
  registry_ok r -> tokens r !! token = None ->
  registry_ok (fst (reserve_claim machine connection token b0 b1 r)).
Proof.
  intros Hok Hfresh. pose proof Hok as [Hr Ho Hl Ht He Hk Hi]. unfold reserve_claim.
  destruct (_ || _); [done |].
  destruct (owner_exits r !! machine), (tunnels r !! machine),
    (pending_claims r !! (machine, connection)) eqn:Ep; try done.
  assert (Hnew : forall k, pending_claims r !! k <> Some token).
  { intros k Hc. specialize (Hk k token Hc). congruence. }
  split; cbn; try done.
  - intros k t. rewrite lookup_insert_Some. intros [[<- <-] | [_ Hc]]; [by rewrite lookup_insert_eq |].
    rewrite lookup_insert_ne by (intros <-; by eapply Hnew). by eapply Hk.
  - intros k l t. rewrite !lookup_insert_Some.
    intros [[<- <-] | [_ Hc]] [[<- ?] | [_ Hd]]; try done; [| |by eapply Hi]; subst; by apply Hnew in Hd || by apply Hnew in Hc.
Qed.

Lemma install_reserved_ok machine id h b0 b1 r :
  registry_ok r -> handles r !! id = Some h -> hd_machine h = machine -> installed h = false ->
  registry_ok (fst (install_reserved machine (rt_connection (hd_route h)) id b0 b1 r)).
Proof.
  intros Hok Hid Hm Hin. pose proof Hok as [Hr Ho Hl Ht He Hk Hi]. unfold install_reserved.
  destruct (_ || _); [done |].
  destruct (owner_exits r !! machine) eqn:Ee, (tunnels r !! machine) eqn:Et,
    (pending_claims r !! (machine, rt_connection (hd_route h))); try done.
  apply finish_pending_ok.
  assert (Hf : forall i g', alter installed_handle id (handles r) !! i = Some g' -> exists g,
            handles r !! i = Some g /\ hd_machine g' = hd_machine g /\ hd_route g' = hd_route g
            /\ barrier g' = barrier g /\ dispatch_open g' = dispatch_open g
            /\ (i = id \/ installed g' = installed g)).
  { intros i g' Hg. apply lookup_alter_Some in Hg as [(<- & g & Hg & ->) | [_ Hg]].
    - exists g. split_and!; try done. by left.
    - exists g'. split_and!; try done. by right. }
  split; cbn; try done.
  - intros i j g k Hg Hk' Ek Er. destruct (Hf _ _ Hg) as (g0 & ? & ? & ? & _).
    destruct (Hf _ _ Hk') as (k0 & ? & ? & ? & _). apply (Hr i j g0 k0); congruence.
  - intros i g Hg. destruct (Hf _ _ Hg) as (g0 & Hg0 & _ & _ & -> & -> & _). by eapply Ho.
  - intros i g Hg Ig Bg. destruct (Hf _ _ Hg) as (g0 & Hg0 & -> & -> & Eb & _ & [-> | Ei]).
    + left. apply lookup_insert_Some. left. split; congruence.
    + destruct (Hl i g0) as [Hx | Hx]; [done | congruence | congruence | | by right].
      left. rewrite lookup_insert_ne; congruence.
  - intros m i. rewrite lookup_insert_Some. intros [[<- <-] | [Hne Hx]].
    + exists (installed_handle h). by rewrite lookup_alter_eq, Hid.
    + destruct (Ht m i Hx) as (g & Hg & Em & Ig). exists g.
      rewrite lookup_alter_ne; [done | congruence].
  - intros m route Hx. rewrite lookup_insert_ne by congruence. by eapply He.
Qed.

Lemma begin_machine_transition_Some machine route r r' id cs :
  begin_machine_transition machine route r = (r', Some (id, cs)) ->
  exists h, tunnels r !! machine = Some id /\ handles r !! id = Some h /\ hd_route h = route
    /\ owner_exits r !! machine = None
    /\ r' = set_tunnels (set_exits r (<[machine := Transitioning route]> (owner_exits r)))
              (delete machine (tunnels r))
    /\ cs = map snd (filter (fun kv => kv.1.1 = machine) (map_to_list (pending_claims r))).
Proof.
  unfold begin_machine_transition, begin_transition, tunnel. intros Hb.
  destruct (tunnels r !! machine) as [i|] eqn:Et; cbn in Hb; [| done].
  destruct (handles r !! i) as [h|] eqn:Eh; cbn in Hb; [| done].
  case_bool_decide as Hr; [| done].
  destruct (owner_exits r !! machine) eqn:Ee; cbn in Hb; [done |]. simplify_eq. by exists h.
Qed.

Lemma begin_machine_transition_None machine route r r' :
  begin_machine_transition machine route r = (r', None) -> r' = r.
Proof.
  unfold begin_machine_transition, begin_transition. intros Hb.
  destruct (tunnel machine r) as [[i h]|]; [| naive_solver].
  case_bool_decide; [| naive_solver]. destruct (owner_exits r !! machine); naive_solver.
Qed.

Lemma begin_machine_transition_ok machine route r :
  registry_ok r -> registry_ok (fst (begin_machine_transition machine route r)).
Proof.
  intros Hok. destruct (begin_machine_transition machine route r) as [r' [[id cs]|]] eqn:Eb.
  2: { by apply begin_machine_transition_None in Eb as ->. }
  apply begin_machine_transition_Some in Eb as (h & Et & Eh & Er & Ee & -> & _).
  destruct Hok as [Hr Ho Hl Ht He Hk Hi]. destruct (Ht _ _ Et) as (h' & Eh' & Em & _).
  assert (h' = h) as -> by congruence. split; cbn; try done.
  - intros i g Hg Ig Bg. destruct (Hl i g Hg Ig Bg) as [Hx | [Hx | Hx]].
    + destruct (decide (hd_machine g = machine)) as [Hgm | Hne].
      * right; right. rewrite Hgm in *. assert (i = id) as -> by congruence.
        rewrite lookup_insert_eq. congruence.
      * left. by rewrite lookup_delete_ne.
    + right; by left.
    + right; right. rewrite lookup_insert_ne by congruence. done.
  - intros m i Hx. apply lookup_delete_Some in Hx as [_ Hx]. by apply Ht.
  - intros m rt. rewrite lookup_insert_Some. intros [[<- _] | [Hne Hx]].
    + by rewrite lookup_delete_eq.
    + rewrite lookup_delete_ne by done. by eapply He.
Qed.

Lemma remove_exit_ok m e r :
  (forall route i h, e = Transitioning route -> handles r !! i = Some h -> hd_machine h = m ->
     hd_route h = route -> barrier h = true) ->
  registry_ok r -> registry_ok (remove_exit m e r).
Proof.
  intros Hc Hok. destruct (remove_exit_spec m e r) as [[-> _] | [-> Ee]]; [done |].
  destruct Hok as [Hr Ho Hl Ht He Hk Hi]. split; cbn; try done.
  - intros i h Hh Ih Bh. destruct (Hl i h Hh Ih Bh) as [Hx | [Hx | Hx]]; [by left | right; by left |].
    right; right. destruct (decide (hd_machine h = m)) as [Hm | Hne].
    + exfalso. rewrite Hm, Ee in Hx. injection Hx as ->.
      specialize (Hc _ i h eq_refl Hh Hm eq_refl). congruence.
    + by rewrite lookup_delete_ne.
  - intros m' route Hx. apply lookup_delete_Some in Hx as [_ Hx]. by eapply He.
Qed.

(** Taking a closed tunnel, or none, out of the map. *)
Lemma delete_tunnel_ok m r :
  (forall i h, tunnels r !! m = Some i -> handles r !! i = Some h -> barrier h = true) ->
  registry_ok r -> registry_ok (set_tunnels r (delete m (tunnels r))).
Proof.
  intros Hc [Hr Ho Hl Ht He Hk Hi]. split; cbn; try done.
  - intros i h Hh Ih Bh. destruct (Hl i h Hh Ih Bh) as [Hx | Hx]; [| by right].
    left. rewrite lookup_delete_ne; [done |]. intros ->. specialize (Hc i h Hx Hh). congruence.
  - intros m' i Hx. apply lookup_delete_Some in Hx as [_ Hx]. by apply Ht.
  - intros m' route Hx. destruct (decide (m = m')) as [-> | Hne]; [by rewrite lookup_delete_eq |].
    rewrite lookup_delete_ne by done. by eapply He.
Qed.

Lemma registry_step_ok ex r r' : registry_ok r -> world_step ex r r' -> registry_ok r'.
Proof.
  intros Hok Hs. pose proof Hok as [Hr Ho Hl Ht He Hk Hi].
  destruct Hs as [r id machine route Hn Hu | r machine connection token b0 b1 Hf | |
    r id h machine b0 b1 Hid Hm Hin | r id | | r machine route _ Hx Hc | r id h Hid Hb
    | r id h Hid Hb | r id h Hid Hb | r].
  - assert (Hlook : forall i g, <[id := new_handle machine route]> (handles r) !! i = Some g ->
              (i = id /\ g = new_handle machine route) \/ handles r !! i = Some g).
    { intros i g Hg. apply lookup_insert_Some in Hg as [[<- <-] | [_ Hg]]; [by left | by right]. }
    split; cbn; try done.
    + intros i j h g Hh Hg Em Er. destruct (Hlook _ _ Hh) as [[-> ->] | Hh'],
        (Hlook _ _ Hg) as [[-> ->] | Hg']; [done | | | by eapply Hr].
      * by destruct (Hu j g Hg').
      * by destruct (Hu i h Hh').
    + intros i h Hh. destruct (Hlook _ _ Hh) as [[-> ->] | Hh']; [done | by eapply Ho].
    + intros i h Hh Ih Bh. destruct (Hlook _ _ Hh) as [[-> ->] | Hh']; [done | by apply (Hl i h)].
    + intros m i Hx. destruct (Ht m i Hx) as (h & Hh & ?). exists h.
      rewrite lookup_insert_ne by congruence. done.
  - by apply reserve_claim_ok.
  - by apply finish_pending_ok.
  - by apply install_reserved_ok.
  - by apply flags_ok; [apply closed_flags |].
  - by apply begin_machine_transition_ok.
  - cbn. apply remove_exit_ok; cbn.
    + intros route' i h Hq. injection Hq as <-. by apply Hc.
    + apply delete_tunnel_ok; [| done]. intros i h Hti. by rewrite (He _ _ Hx) in Hti.
  - unfold begin_owner_release.
    destruct (owner_exits r !! hd_machine h) as [[rt|rt]|] eqn:Ee; cbn; [done.. |].
    split; cbn; try done.
    + intros i g Hg Ig Bg. destruct (Hl i g Hg Ig Bg) as [Hx | [Hx | Hx]]; [by left | right; by left |].
      right; right. rewrite lookup_insert_ne by congruence. done.
    + intros m rt. rewrite lookup_insert_Some. intros [[_ ?] | [_ Hx]]; [done | by eapply He].
  - by apply flags_ok; [apply cleaned_flags |].
  - unfold finish_owner_release. apply remove_exit_ok; [done |].
    destruct (tunnel (hd_machine h) r) as [[i g]|] eqn:Et; [| done].
    unfold tunnel in Et. apply bind_Some in Et as (i' & Hti & Et).
    apply bind_Some in Et as (g' & Hg & Et). simplify_eq.
    case_bool_decide as Hrt; cbn; [| done]. rewrite Z.eqb_refl.
    apply delete_tunnel_ok; [| done]. intros i' k Hti' Hk'. simplify_eq.
    destruct (Ht _ _ Hti) as (g0 & Hg0 & Em & _).
    assert (i = id) as -> by (apply (Hr i id g h); congruence). congruence.
  - unfold close_all. split; cbn; try done.
    intros i h Hh Ih Bh. destruct (Hl i h Hh Ih Bh) as [Hx | [Hx | Hx]]; [| |by right; right].
    + right; left. apply elem_of_app. left. apply list_elem_of_fmap. exists (hd_machine h, i).
      split; [done | by apply elem_of_map_to_list].
    + right; left. apply elem_of_app. by right.
Qed.

Lemma registry_steps_ok ex r r' : registry_ok r -> rtc (world_step ex) r r' -> registry_ok r'.
Proof. intros Hok Hs. revert Hok. induction Hs; [done |]. eauto using registry_step_ok. Qed.

(** ** Barriers *)

(** What a handle can become: its identity is fixed, its barrier only closes. *)
Definition handle_evolves (h h' : TunnelHandle) : Prop :=
  hd_machine h' = hd_machine h /\ hd_route h' = hd_route h
  /\ (barrier h = true -> barrier h' = true).

Lemma alter_evolves f id r i h :
  (forall h, handle_evolves h (f h)) -> handles r !! i = Some h ->
  exists h', alter f id (handles r) !! i = Some h' /\ handle_evolves h h'.
Proof.
  intros Hf Hi. destruct (decide (i = id)) as [-> | Hne].
  - exists (f h). by rewrite lookup_alter_eq, Hi.
  - exists h. by rewrite lookup_alter_ne.
Qed.

Lemma finish_pending_handles machine connection r :
  handles (finish_pending machine connection r) = handles r.
Proof. unfold finish_pending. by destruct (pending_claims r !! (machine, connection)). Qed.
Lemma remove_exit_handles m e r : handles (remove_exit m e r) = handles r.
Proof. unfold remove_exit. by case_bool_decide. Qed.

Lemma step_handles ex r r' i h :
  world_step ex r r' -> handles r !! i = Some h ->
  exists h', handles r' !! i = Some h' /\ handle_evolves h h'.
Proof.
  intros Hs Hi. assert (Hsame : exists h', handles r !! i = Some h' /\ handle_evolves h h') by by exists h.
  destruct Hs as [r id machine route Hn Hu | r machine connection token b0 b1 Hf | |
    r id g machine b0 b1 Hid Hm Hin | r id | r machine route | r machine route _ Hx Hc
    | r id g Hid Hb | r id g Hid Hb | r id g Hid Hb | r].
  - exists h. cbn. rewrite lookup_insert_ne by congruence. done.
  - unfold reserve_claim. destruct (_ || _); [done |].
    by destruct (owner_exits r !! machine), (tunnels r !! machine),
      (pending_claims r !! (machine, connection)).
  - by rewrite finish_pending_handles.
  - unfold install_reserved. destruct (_ || _); [done |].
    destruct (owner_exits r !! machine), (tunnels r !! machine),
      (pending_claims r !! (machine, rt_connection (hd_route g))); try done.
    cbn [fst]. rewrite finish_pending_handles. by apply alter_evolves.
  - by apply alter_evolves.
  - destruct (begin_machine_transition machine route r) as [r' [[id cs]|]] eqn:Eb; cbn.
    + by apply begin_machine_transition_Some in Eb as (g & _ & _ & _ & _ & -> & _).
    + by apply begin_machine_transition_None in Eb as ->.
  - cbn. by rewrite remove_exit_handles.
  - unfold begin_owner_release. by destruct (owner_exits r !! hd_machine g) as [[?|?]|].
  - by apply alter_evolves.
  - unfold finish_owner_release. rewrite remove_exit_handles.
    by destruct (match tunnel _ _ with Some _ => _ | None => _ end).
  - done.
Qed.

Lemma steps_handles ex r r' i h :
  rtc (world_step ex) r r' -> handles r !! i = Some h ->
  exists h', handles r' !! i = Some h' /\ handle_evolves h h'.
Proof.
  intros Hs. revert h. induction Hs as [r | r1 r2 r3 H12 _ IH]; intros h Hh; [by exists h |].
  destruct (step_handles _ _ _ _ _ H12 Hh) as (h2 & Hh2 & E2).
  destruct (IH h2 Hh2) as (h3 & Hh3 & E3). exists h3. split; [done |].
  destruct E2 as (? & ? & ?), E3 as (? & ? & ?). split_and!; [congruence.. | auto].
Qed.

(** A closed barrier is final.  Once the dispatch of a tunnel is closed, in
    every later state nothing is sent or opened through it, whoever still
    holds the handle or a fence of it, and it is not handed out again as the
    fence or the connection of any machine. *)
Theorem barrier_final r id r' machine route lease_ok :
  registry_ok r -> is_Some (handles r !! id) ->
  rtc (world_step None) (close_dispatch id r) r' ->
  is_ok (dispatch id lease_ok r') = false
  /\ route_fence machine route lease_ok r' <> Some id
  /\ (tunnels r' !! machine = Some id -> is_connected machine r' = false
        /\ is_current_route machine route lease_ok r' = false).
Proof.
  intros Hok [h Hh] Hs.
  assert (Hc : handles (close_dispatch id r) !! id = Some (closed_handle h)).
  { cbn. by rewrite lookup_alter_eq, Hh. }
  destruct (steps_handles _ _ _ _ _ Hs Hc) as (h' & Hh' & _ & _ & Hb). specialize (Hb eq_refl).
  unfold dispatch, route_fence, is_connected, is_current_route, tunnel. rewrite Hh', Hb.
  split_and!.
  - destruct lease_ok; [| done]. cbn. by rewrite orb_true_r.
  - destruct lease_ok; cbn; [| done]. destruct (tunnels r' !! machine) as [i|]; [| done]. cbn.
    destruct (handles r' !! i) as [g|] eqn:Eg; [| done]. cbn.
    destruct (_ && _) eqn:E; [| done]. intros Heq. injection Heq as ->.
    simplify_eq. by rewrite Hb, andb_false_r in E.
  - intros ->. cbn. rewrite Hh'. cbn. by rewrite Hb, !andb_false_r.
Qed.

(** ** Transitions *)

(** During the transition of a machine: its exit stays, it has no tunnel, and
    no claim of it is reserved anew. *)
Lemma transition_step m route r r' :
  registry_ok r -> owner_exits r !! m = Some (Transitioning route) ->
  world_step (Some (m, route)) r r' ->
  owner_exits r' !! m = Some (Transitioning route)
  /\ forall c t, pending_claims r' !! (m, c) = Some t -> pending_claims r !! (m, c) = Some t.
Proof.
  intros Hok He Hs.
  assert (Hfp : forall k c r, owner_exits (finish_pending k c r) = owner_exits r
            /\ forall x t, pending_claims (finish_pending k c r) !! x = Some t ->
                 pending_claims r !! x = Some t).
  { intros k c s. unfold finish_pending. destruct (pending_claims s !! (k, c)); [| done].
    split; [done |]. cbn. intros x t Hx. by apply lookup_delete_Some in Hx as [_ ?]. }
  destruct Hs as [| r machine connection token b0 b1 Hf | r k c |
    r id g machine b0 b1 Hid Hm Hin | | r machine rt | r machine rt Hne Hx Hc
    | r id g Hid Hb | | r id g Hid Hb |]; try done.
  - unfold reserve_claim. destruct (_ || _); [done |].
    destruct (owner_exits r !! machine) eqn:Ee, (tunnels r !! machine),
      (pending_claims r !! (machine, connection)); try done.
    split; [done |]. cbn. intros c t Hx. by rewrite lookup_insert_ne in Hx by congruence.
  - destruct (Hfp k c r) as [-> Hp]. split; [done |]. intros c' t. apply Hp.
  - unfold install_reserved. destruct (_ || _); [done |].
    destruct (owner_exits r !! machine), (tunnels r !! machine),
      (pending_claims r !! (machine, rt_connection (hd_route g))); try done.
    cbn [fst]. match goal with |- context [finish_pending ?k ?c ?s] =>
      destruct (Hfp k c s) as [-> Hp] end. split; [done |]. intros c t. apply Hp.
  - destruct (begin_machine_transition machine rt r) as [r' [[id cs]|]] eqn:Eb; cbn.
    + apply begin_machine_transition_Some in Eb as (g & _ & _ & _ & Ee & -> & _). cbn.
      rewrite lookup_insert_ne by congruence. done.
    + by apply begin_machine_transition_None in Eb as ->.
  - cbn. match goal with |- context [remove_exit ?k ?e ?s] =>
      destruct (remove_exit_spec k e s) as [[-> _] | [-> Hr]] end; [done |]. cbn in *.
    split; [| done]. rewrite lookup_delete_ne; [done |]. intros ->. congruence.
  - unfold begin_owner_release.
    destruct (owner_exits r !! hd_machine g) as [[?|?]|] eqn:Ee; cbn; [done.. |].
    split; [| done]. rewrite lookup_insert_ne by congruence. done.
  - unfold finish_owner_release.
    match goal with |- context [remove_exit ?k ?e ?s] =>
      destruct (remove_exit_spec k e s) as [[-> _] | [-> Hr]] end;
      destruct (match tunnel _ _ with Some _ => _ | None => _ end); try done; cbn in *;
      (split; [| done]); rewrite lookup_delete_ne by congruence; done.
Qed.

Lemma transition_steps m route r r' :
  registry_ok r -> owner_exits r !! m = Some (Transitioning route) ->
  rtc (world_step (Some (m, route))) r r' ->
  owner_exits r' !! m = Some (Transitioning route)
  /\ forall c t, pending_claims r' !! (m, c) = Some t -> pending_claims r !! (m, c) = Some t.
Proof.
  intros Hok He Hs. revert Hok He. induction Hs as [r | r1 r2 r3 H12 _ IH]; intros Hok He; [done |].
  destruct (transition_step _ _ _ _ Hok He H12) as [He2 Hp2].
  destruct (IH (registry_step_ok _ _ _ Hok H12) He2) as [He3 Hp3]. split; [done |]. eauto.
Qed.

(** A started transition excludes every other use of the machine until it is
    finished: whatever the other tasks do, no claim of the machine can be
    reserved, no tunnel installed, no second transition started, and a tunnel
    of the machine is told to leave its release to the transition exactly when
    it is the one in transition. *)
Theorem transition_excludes r0 machine route r1 id cs r2 :
  registry_ok r0 -> begin_machine_transition machine route r0 = (r1, Some (id, cs)) ->
  rtc (world_step (Some (machine, route))) r1 r2 ->
  tunnels r2 !! machine = None
  /\ (forall c t b0 b1, is_ok (snd (reserve_claim machine c t b0 b1 r2)) = false)
  /\ (forall c i b0 b1, is_ok (snd (install_reserved machine c i b0 b1 r2)) = false)
  /\ (forall rt, begin_machine_transition machine rt r2 = (r2, None))
  /\ (forall rt, begin_owner_release machine rt r2
                 = (r2, if bool_decide (route = rt) then Some Defer else None)).
Proof.
  intros Hok Hb Hs. pose proof (begin_machine_transition_ok machine route r0 Hok) as Hok1.
  rewrite Hb in Hok1. apply begin_machine_transition_Some in Hb as (h & _ & _ & _ & _ & Hr1 & _).
  assert (He1 : owner_exits r1 !! machine = Some (Transitioning route)).
  { rewrite Hr1. cbn. by rewrite lookup_insert_eq. }
  destruct (transition_steps _ _ _ _ Hok1 He1 Hs) as [He2 _].
  pose proof (ro_exit _ (registry_steps_ok _ _ _ Hok1 Hs) _ _ He2) as Ht2.
  split_and!; [done | | | |].
  - intros c t b0 b1. unfold reserve_claim. destruct (_ || _); [done |]. by rewrite He2.
  - intros c i b0 b1. unfold install_reserved. destruct (_ || _); [done |]. by rewrite He2.
  - intros rt. unfold begin_machine_transition, tunnel. by rewrite Ht2.
  - intros rt. unfold begin_owner_release. by rewrite He2.
Qed.

(** C22. When the cleanup of a transition is done the machine is quiet: no claim of
    it is pending, and no tunnel of it that was ever installed can dispatch
    anything, except one that the shutdown of the node is about to close. *)
Theorem transition_quiesces r0 machine route r1 id cs r2 :
  registry_ok r0 -> begin_machine_transition machine route r0 = (r1, Some (id, cs)) ->
  rtc (world_step (Some (machine, route))) r1 r2 -> cleanup_done id cs r2 = true ->
  (forall c, pending_claims r2 !! (machine, c) = None)
  /\ forall i h lease_ok, handles r2 !! i = Some h -> hd_machine h = machine ->
       installed h = true -> i ∉ drained r2 -> is_ok (dispatch i lease_ok r2) = false.
Proof.
  intros Hok Hb Hs Hdone. pose proof (begin_machine_transition_ok machine route r0 Hok) as Hok1.
  rewrite Hb in Hok1. apply begin_machine_transition_Some in Hb
    as (h0 & Ht0 & Hh0 & Hr0 & _ & Hr1 & Hcs).
  assert (He1 : owner_exits r1 !! machine = Some (Transitioning route)).
  { rewrite Hr1. cbn. by rewrite lookup_insert_eq. }
  destruct (transition_steps _ _ _ _ Hok1 He1 Hs) as [He2 Hp2].
  pose proof (registry_steps_ok _ _ _ Hok1 Hs) as Hok2. pose proof (ro_exit _ Hok2 _ _ He2) as Ht2.
  unfold cleanup_done in Hdone. destruct (handles r2 !! id) as [g|] eqn:Eg; [| done].
  split_bools. split.
  - intros c. destruct (pending_claims r2 !! (machine, c)) as [t|] eqn:Ep; [exfalso | done].
    pose proof (ro_token _ Hok2 _ _ Ep) as Hf. apply Hp2 in Ep. rewrite Hr1 in Ep. cbn in Ep.
    assert (Hin : t ∈ cs).
    { rewrite Hcs. apply list_elem_of_fmap. exists ((machine, c), t). split; [done |].
      apply list_elem_of_filter. split; [done | by apply elem_of_map_to_list]. }
    match goal with Hall : forallb _ cs = true |- _ => rewrite forallb_forall in Hall;
      specialize (Hall t (proj1 (list_elem_of_In _ _) Hin)) end.
    split_bools. congruence.
  - intros i h lease_ok Hi Hm Hin Hnd. unfold dispatch. rewrite Hi.
    destruct lease_ok; cbn; [| done].
    destruct (barrier h) eqn:Eb; [by rewrite orb_true_r |]. exfalso.
    destruct (ro_live _ Hok2 i h Hi Hin Eb) as [Hx | [Hx | Hx]]; [| done |].
    + rewrite Hm in Hx. congruence.
    + rewrite Hm, He2 in Hx. injection Hx as Hrt.
      assert (Hh1 : handles r1 !! id = Some h0) by (by rewrite Hr1).
      destruct (steps_handles _ _ _ _ _ Hs Hh1) as (g' & Hg' & Em & Er & _).
      destruct (ro_tunnel _ Hok _ _ Ht0) as (h0' & Hh0' & Em0 & _).
      assert (i = id) as -> by (apply (ro_route _ Hok2 i id h g'); congruence). congruence.
Qed.

(** ** A tunnel that is installed, put in transition and cleaned up *)

Definition ex_route : RouteIdentity := {| rt_revision := 1; rt_epoch := 1; rt_connection := 21 |}.
Definition ex_reserved : Registry :=
  set_handles (fst (reserve_claim 1 21 100 true true initial)) {[ 5 := new_handle 1 ex_route ]}.
Definition ex_installed : Registry := fst (install_reserved 1 21 5 true true ex_reserved).
Definition ex_started : Registry * option (Z * list Z) :=
  begin_machine_transition 1 ex_route ex_installed.
Definition ex_quiet : Registry := complete_cleanup 5 (close_dispatch 5 (fst ex_started)).

Lemma ex_installed_reached : rtc (world_step None) initial ex_installed.
Proof.
  eapply rtc_l; [apply (ws_reserve None initial 1 21 100 true true); reflexivity |].
  eapply rtc_l; [apply (ws_new None _ 5 1 ex_route); [reflexivity |] |].
  { intros i h Hh. vm_compute in Hh. discriminate Hh. }
  apply rtc_once.
  apply (ws_install None ex_reserved 5 (new_handle 1 ex_route) 1 true true); reflexivity.
Qed.

Lemma ex_installed_ok : registry_ok ex_installed.
Proof. eapply registry_steps_ok; [apply initial_ok | apply ex_installed_reached]. Qed.

Lemma ex_quiet_reached : rtc (world_step (Some (1, ex_route))) (fst ex_started) ex_quiet.
Proof.
  eapply rtc_l; [apply (ws_close _ _ 5) |]. apply rtc_once.
  eapply (ws_cleanup _ (close_dispatch 5 (fst ex_started)) 5); [vm_compute; reflexivity | done].
Qed.

Lemma barrier_final_witness :
  is_ok (dispatch 5 true ex_installed) = true
  /\ is_ok (dispatch 5 true (close_dispatch 5 ex_installed)) = false.
Proof.
  split; [reflexivity |].
  destruct (barrier_final ex_installed 5 (close_dispatch 5 ex_installed) 1 ex_route true ex_installed_ok)
    as [Hd _]; [vm_compute; by eexists | apply rtc_refl | exact Hd].
Defined.

Lemma transition_excludes_witness :
  snd ex_started = Some (5, []) /\ begin_machine_transition 1 ex_route ex_quiet = (ex_quiet, None).
Proof.
  split; [vm_compute; reflexivity |].
  apply (transition_excludes ex_installed 1 ex_route (fst ex_started) 5 [] ex_quiet ex_installed_ok);
    [vm_compute; reflexivity | apply ex_quiet_reached].
Defined.

Lemma transition_quiesces_witness :
  cleanup_done 5 [] ex_quiet = true /\ is_ok (dispatch 5 true ex_quiet) = false.
Proof.
  split; [reflexivity |].
  destruct (transition_quiesces ex_installed 1 ex_route (fst ex_started) 5 [] ex_quiet ex_installed_ok)
    as [_ Hq]; [vm_compute; reflexivity | apply ex_quiet_reached | reflexivity |].
  eapply (Hq 5); [vm_compute; reflexivity | reflexivity | reflexivity |].
  vm_compute. intros Hin. by apply elem_of_nil in Hin.
Defined.
