(* ===== verification/Process.v ===== *)
(** * Process: the life of a server process

    Models [ServerState::bootstrap] of [crates/owlmux-server/src/service.rs],
    [RuntimeTasks] of [runtime.rs], the startup, task set, public accept loop
    and shutdown of [main.rs], and the health endpoints of [lib.rs], over the
    lease of [Lease] and the registry of [Registry].  The main task is a state
    machine whose steps interleave with the clocks, the renewals, the other
    tasks, the public connections and the relay tunnels. *)

From S2P Require Import Prelude Text Contracts Binary Secrets Cluster Config Ssh Lease Tables Authority Registry Custody Storage.
Import Relay.

(** ** Bootstrap *)

Inductive BootstrapError : Type :=
| BootStorage (e : StorageError) | BootLease (e : LeaseError) | BootSsh (e : SshError).

Definition base_of (s : Store) : Database := base (tables s).
Definition store_base (db : Database) (s : Store) : Store :=
  let t := tables s in
  put_tables {| base := db; credentials := credentials t; default_credential := default_credential t;
                machines := machines t; owners := owners t; enrollments := enrollments t;
                attempts := attempts t; bindings := bindings t |} s.

(** What the environment answers to one start: the migrations and pools, the
    storage transaction, the runtime root, the clock around the registration
    and its transaction. *)
Record StartInput : Type := {
  si_migrated : result StorageError unit; si_critical : bool; si_ordinary : bool;
  si_storage : Fate; si_now : Z; si_fresh : FirstStart;
  si_unlinks : bytes -> bool; si_lock : option (Metadata * bool); si_instance : Uuid;
  si_incarnation : Uuid; si_before : option Z; si_after : option Z; si_later : Z; si_lease : TxFate;
}.

Section bootstrap.
Context `{Haead : Aead} `{Hlower : Lower} `{Hsha : Sha256} `{Hhmac : Hmac} `{Huuid : UuidText}.
Variable BUILD_ID : bytes.

(** [ServerState::bootstrap]: the database, then the runtime root, then the
    lease; the rest of the state is fresh. *)
Definition server_bootstrap (c : Config) (x : StartInput) (s : Store) (root : Node)
    : Store * Node * result BootstrapError (Identity * NodeLease) :=
  let '(s, r) := bootstrap BUILD_ID c (si_migrated x) (si_critical x) (si_ordinary x)
                   (si_storage x) (si_now x) (si_fresh x) s in
  match r with
  | Err e => (s, root, Err (BootStorage e))
  | Ok d =>
      let '(root, r) := create_runtime (si_unlinks x) root (si_lock x) (si_instance x) in
      match r with
      | Err e => (s, root, Err (BootSsh e))
      | Ok _ =>
          let i := register_identity BUILD_ID c d (si_incarnation x) in
          let '(sys, r) := register i (base_of s) (si_before x) (si_after x) (si_later x) (si_lease x) in
          (store_base (database sys) s, root,
           match r with Err e => Err (BootLease e) | Ok _ => Ok (i, lease sys) end)
      end
  end.
End bootstrap.

(** ** runtime.rs *)

Inductive Task : Type := InternalServer | Renewals | FenceWatcher | PublicServer.
Global Instance Task_eq_dec : EqDecision Task.
Proof. solve_decision. Defined.

Record RuntimeTasks : Type := { cancelled : bool; closed : bool; running : list Task }.
Definition new_tasks : RuntimeTasks := {| cancelled := false; closed := false; running := [] |}.
Definition spawn (t : Task) (x : RuntimeTasks) : RuntimeTasks :=
  {| cancelled := cancelled x; closed := closed x; running := running x ++ [t] |}.
Definition cancel (x : RuntimeTasks) : RuntimeTasks :=
  {| cancelled := true; closed := closed x; running := running x |}.
(** What precedes the bounded wait of [shutdown]. *)
Definition begin_shutdown (x : RuntimeTasks) : RuntimeTasks :=
  {| cancelled := true; closed := true; running := running x |}.
Definition task_ended (t : Task) (x : RuntimeTasks) : RuntimeTasks :=
  {| cancelled := cancelled x; closed := closed x;
     running := List.filter (fun u => negb (bool_decide (u = t))) (running x) |}.
(** [TaskTracker::wait]. *)
Definition all_ended (x : RuntimeTasks) : bool := closed x && bool_decide (running x = []).

(** ** main.rs: public connections *)

Definition MAX_PUBLIC_CONNECTIONS : Z := 256.

(** [serve_public]: the free permits, the permit the loop holds while it waits
    for [accept], the connections that hold one each, and whether the loop has
    been left. *)
Record Public : Type := { free : Z; held : bool; connections : Z; left_loop : bool }.
Definition new_public : Public :=
  {| free := MAX_PUBLIC_CONNECTIONS; held := false; connections := 0; left_loop := false |}.

Inductive PublicEvent : Type := Acquire | Accepted | AcceptFailed | Completed | Cancelled.

(** A turn of the loop, or of the join loop after it; [None]: not enabled. *)
Definition public_step (token : bool) (e : PublicEvent) (p : Public) : option Public :=
  match e with
  | Acquire => if negb (left_loop p) && negb (held p) && (0 <? free p)
               then Some {| free := free p - 1; held := true; connections := connections p;
                            left_loop := false |} else None
  | Accepted => if held p then Some {| free := free p; held := false;
                                       connections := connections p + 1; left_loop := left_loop p |}
                else None
  | AcceptFailed => if held p then Some {| free := free p + 1; held := false;
                                           connections := connections p; left_loop := left_loop p |}
                    else None
  | Completed => if 0 <? connections p
                 then Some {| free := free p + 1; held := held p;
                              connections := connections p - 1; left_loop := left_loop p |} else None
  | Cancelled => if token && negb (left_loop p)
                 then Some {| free := if held p then free p + 1 else free p; held := false;
                              connections := connections p; left_loop := true |} else None
  end.
(** [serve_public] returns [Ok] when every connection has been joined. *)
Definition public_done (p : Public) : bool := left_loop p && (connections p =? 0).

(** ** main.rs: the process *)

Inductive Exit : Type :=
| Clean | ServerFailed | SignalFailed | ServerLost | DeadlineExceeded | ReleaseFailed.
(** The main task: [server] is the public server's result when that is what
    ended the wait, [to_close] the handles [close_all] took out and still has
    to close. *)
Inductive Phase : Type :=
| Serving | Drained (server : option bool) | Closing (server : option bool) (to_close : list Z)
| Waiting (server : option bool) | Stopped (server : option bool) | Exited (e : Exit).

Record Process : Type := {
  world : World; relays : Registry; tasks : RuntimeTasks; public : Public; phase : Phase;
  server_result : option (option bool);   (* the oneshot: a result, or a dropped sender *)
}.

Definition at_world (n : Process) (w : World) : Process :=
  {| world := w; relays := relays n; tasks := tasks n; public := public n; phase := phase n;
     server_result := server_result n |}.
Definition at_relays (n : Process) (r : Registry) : Process :=
  {| world := world n; relays := r; tasks := tasks n; public := public n; phase := phase n;
     server_result := server_result n |}.
Definition at_tasks (n : Process) (x : RuntimeTasks) : Process :=
  {| world := world n; relays := relays n; tasks := x; public := public n; phase := phase n;
     server_result := server_result n |}.
Definition at_phase (n : Process) (p : Phase) : Process :=
  {| world := world n; relays := relays n; tasks := tasks n; public := public n; phase := p;
     server_result := server_result n |}.
Definition at_public (n : Process) (p : Public) : Process :=
  {| world := world n; relays := relays n; tasks := tasks n; public := p; phase := phase n;
     server_result := server_result n |}.

Definition with_sys (w : World) (s : System) (rel : bool) : World :=
  {| sys := s; boot := boot w; dbnow := dbnow w; pending := pending w; released := rel |}.

(** [main] between [bootstrap] and the wait: the internal server only on a
    clustered node. *)
Definition started (internal : bool) (w : World) : Process :=
  let x := if internal then spawn InternalServer new_tasks else new_tasks in
  {| world := w; relays := Registry.initial;
     tasks := spawn PublicServer (spawn FenceWatcher (spawn Renewals x)); public := new_public;
     phase := Serving; server_result := None |}.

(** ** lib.rs: health and readiness *)

(** [build::BuildMetadata]; its values are fixed when the crate is built. *)
Record BuildMetadata : Type := { bm_id : bytes; bm_version : bytes }.
Record StatusResponse : Type := {
  sr_service : bytes; sr_stage : bytes; sr_status : bytes; sr_build : BuildMetadata;
}.
Definition status (stage value : bytes) (b : BuildMetadata) : StatusResponse :=
  {| sr_service := lit "owlmux-server"; sr_stage := stage; sr_status := value; sr_build := b |}.
Definition product_health (c : Config) (b : BuildMetadata) : StatusResponse :=
  status (profile_database_value c) (lit "ok") b.
(** Paths below [/api] and [/auth] that no router serves. *)
Definition api_not_found : Z * (bytes * bytes) :=
  (404, (lit "not_implemented", lit "This OwlMux route is not implemented.")).

(** Events of the main task; [r0] is the clock reading of [begin_drain]. *)
Inductive MainEvent : Type :=
| Signal (ok : bool) (r0 : option Z) (fate : TxFate)
| ServerEnded (r0 : option Z) (fate : TxFate)
| CloseAll | CloseNext | AllEnded | Deadline | Release (fate : TxFate).

Section process.
Variables (i : Identity) (base : Z).

(** A failed drain is only logged. *)
Definition drain (server : option bool) (r0 : option Z) (fate : TxFate) (n : Process) : Process :=
  let w := world n in
  at_phase (at_world n (with_sys w (fst (begin_drain i (sys w) r0 (dbnow w) fate)) (released w)))
    (Drained server).

(** [release], then the close of the database; a failed release is reported
    before the public server's own failure. *)
Definition release_node (server : option bool) (fate : TxFate) (n : Process) : Process :=
  let w := world n in
  let '(s, r) := release i (sys w) fate in
  at_phase (at_world n (with_sys w s true))
    (Exited (match r, server with
             | Err _, _ => ReleaseFailed
             | Ok _, Some false => ServerFailed
             | Ok _, _ => Clean
             end)).

Definition main_step (e : MainEvent) (n : Process) : option Process :=
  match phase n, e with
  | Serving, Signal true r0 fate => Some (drain None r0 fate n)
  | Serving, Signal false _ _ => Some (at_phase n (Exited SignalFailed))
  | Serving, ServerEnded r0 fate =>
      match server_result n with
      | None => None
      | Some None => Some (at_phase n (Exited ServerLost))
      | Some (Some ok) => Some (drain (Some ok) r0 fate n)
      end
  | Drained server, CloseAll =>
      let ids := map snd (map_to_list (tunnels (relays n))) in
      Some (at_phase (at_relays n (close_all (relays n))) (Closing server ids))
  | Closing server (id :: ids), CloseNext =>
      Some (at_phase (at_relays n (close_dispatch id (relays n))) (Closing server ids))
  | Closing server [], CloseNext =>
      Some (at_phase (at_tasks n (begin_shutdown (tasks n))) (Waiting server))
  | Waiting server, AllEnded =>
      if all_ended (tasks n) then Some (at_phase n (Stopped server)) else None
  | Waiting _, Deadline => Some (at_phase n (Exited DeadlineExceeded))
  | Stopped server, Release fate => Some (release_node server fate n)
  | _, _ => None
  end.

Definition event_reads (w : World) (e : MainEvent) : Prop :=
  match e with
  | Signal _ r0 _ | ServerEnded r0 _ => reads w r0
  | _ => True
  end.

(** The end of the public server's task: a result, or the loss of its sender
    in a panic; the join set aborts what was left. *)
Definition end_public (r : option bool) (n : Process) : Process :=
  {| world := world n; relays := relays n; tasks := task_ended PublicServer (tasks n);
     public := {| free := MAX_PUBLIC_CONNECTIONS; held := false; connections := 0; left_loop := true |};
     phase := phase n; server_result := Some r |}.

(** The fence watcher on a cancelled fence token. *)
Definition fence_watch (n : Process) : Process :=
  at_tasks (at_relays n (close_all (relays n))) (task_ended FenceWatcher (cancel (tasks n))).

(** What may happen to the lease while the process lives; renewals only while
    their task runs. *)
Inductive lease_step (renewing : bool) : World -> World -> Prop :=
| ls_time w b d : boot w <= b -> drift_ok i base b d ->
    lease_step renewing w {| sys := sys w; boot := b; dbnow := d; pending := pending w;
                             released := released w |}
| ls_check w r : reads w r ->
    lease_step renewing w (with_lease w (fst (check (lease (sys w)) r)))
| ls_renew_begin w r0 r1 : renewing = true -> pending w = None -> reads w r0 -> reads w r1 ->
    lease_step renewing w
      (let '(l, p) := renew_begin (lease (sys w)) r0 r1 in
       with_pending (with_lease w l) (option_map (fun before => (before, false)) p))
| ls_renew_commit w before fate : renewing = true -> pending w = Some (before, false) ->
    lease_step renewing w
      (let '(s, r) := renew_commit i (sys w) (dbnow w) fate in
       with_pending (with_sys w s (released w)) (if is_ok r then Some (before, true) else None))
| ls_renew_install w before r2 : renewing = true -> pending w = Some (before, true) -> reads w r2 ->
    lease_step renewing w
      (with_pending (with_lease w (fst (renew_install i (lease (sys w)) before r2))) None)
| ls_fence w : lease_step renewing w (with_lease w (fence (lease (sys w))))
| ls_others w db :
    nodes db !! incarnation_id i = nodes (database (sys w)) !! incarnation_id i ->
    lease_step renewing w (with_sys w {| lease := lease (sys w); database := db |} (released w)).

(** The registry moves by its own critical sections; [install_reserved], the
    only one that adds a tunnel, asks [is_ready] first. *)
Definition relay_step (l : NodeLease) (r r' : Registry) : Prop :=
  Registry.world_step None r r'
  /\ (tunnels r' ⊆ tunnels r \/ exists reading, snd (is_ready l reading) = true).

Definition alive (n : Process) : Prop := match phase n with Exited _ => False | _ => True end.

Inductive step : Process -> Process -> Prop :=
| st_main e n n' : event_reads (world n) e -> main_step e n = Some n' -> step n n'
| st_lease n w' : alive n ->
    lease_step (bool_decide (Renewals ∈ running (tasks n))) (world n) w' -> step n (at_world n w')
| st_relays n r' : alive n -> relay_step (lease (sys (world n))) (relays n) r' ->
    step n (at_relays n r')
| st_public e n p' : alive n -> PublicServer ∈ running (tasks n) ->
    public_step (cancelled (tasks n)) e (public n) = Some p' -> step n (at_public n p')
| st_public_end n r : alive n -> PublicServer ∈ running (tasks n) ->
    (r = Some true -> public_done (public n) = true) -> step n (end_public r n)
| st_fence_watch n : alive n -> FenceWatcher ∈ running (tasks n) ->
    fence_cancelled (lease (sys (world n))) = true -> step n (fence_watch n)
| st_task_end n t : alive n -> t <> PublicServer -> step n (at_tasks n (task_ended t (tasks n))).

(** Only [install_reserved] on a ready node adds a tunnel. *)
Lemma tunnels_only_installed r r' :
  Registry.world_step None r r' ->
  tunnels r' ⊆ tunnels r
  \/ exists machine connection id, r' = fst (install_reserved machine connection id true true r).
Proof.
  assert (forall m c x, tunnels (finish_pending m c x) = tunnels x) as Hfin
    by (intros; unfold finish_pending; by case_match).
  assert (forall m e x, tunnels (remove_exit m e x) = tunnels x) as Hexit
    by (intros; unfold remove_exit; by case_match).
  assert (forall m x, tunnels (fst (begin_transition m x r)) = tunnels r) as Htr
    by (intros; unfold begin_transition; by case_match).
  intros Hs. destruct Hs; try by left.
  - left. unfold reserve_claim. by repeat case_match.
  - left. by rewrite Hfin.
  - destruct b0, b1; try by left. right. by eexists _, _, _.
  - left. unfold begin_machine_transition. destruct (tunnel machine r) as [[id h]|]; [| done].
    case_bool_decide; [| done]. specialize (Htr machine route).
    destruct (begin_transition machine route r) as [r1 [|]]; cbn in *; [| done].
    rewrite Htr. apply delete_subseteq.
  - left. unfold finish_machine_transition. cbn. rewrite Hexit. apply delete_subseteq.
  - left. unfold begin_owner_release. by repeat case_match.
  - left. unfold finish_owner_release. rewrite Hexit. case_match; [apply delete_subseteq | done].
  - left. apply map_empty_subseteq.
Qed.

(** ** Draining and the membership row *)

Definition row (w : World) : option NodeRow := nodes (database (sys w)) !! incarnation_id i.
Definition drains (w : World) : Prop := draining (lease (sys w)) = true.

Lemma fence_draining l : draining (fence l) = draining l.
Proof. done. Qed.
Lemma now_draining l r : draining (fst (now_or_fence l r)) = draining l.
Proof. unfold now_or_fence. by repeat case_match. Qed.
Lemma check_draining l r : draining (fst (check l r)) = draining l.
Proof.
  unfold check. destruct (fenced l); [done |]. pose proof (now_draining l r) as Hn.
  destruct (now_or_fence l r) as [l' [n|]]; [| done]. by case_match.
Qed.
Lemma install_draining l b r : draining (fst (install_deadline i l b r)) = draining l.
Proof.
  unfold install_deadline. destruct (fenced l); [done |]. case_match; [done |].
  pose proof (now_draining l r) as Hn. destruct (now_or_fence l r) as [l' [n|]]; [| done].
  by case_match.
Qed.
Lemma renew_begin_draining l r0 r1 : draining (fst (renew_begin l r0 r1)) = draining l.
Proof.
  unfold renew_begin. pose proof (check_draining l r0) as Hc.
  destruct (check l r0) as [l1 [u|]]; [| done]. cbn in Hc. destruct (draining l1) eqn:Hd; [by rewrite <- Hc |].
  pose proof (now_draining l1 r1) as Hn. destruct (now_or_fence l1 r1) as [l2 [n|]]; cbn in *; congruence.
Qed.
Lemma renew_install_draining l b r : draining (fst (renew_install i l b r)) = draining l.
Proof.
  unfold renew_install. pose proof (install_draining l b r) as Hn.
  by destruct (install_deadline i l b r) as [l' [u|]].
Qed.

(** A body that touches no row but its own, and keeps it. *)
Lemma renew_row s now fate s' r :
  renew_commit i s now fate = (s', r) ->
  draining (lease s') = draining (lease s)
  /\ match nodes (database s) !! incarnation_id i with
     | Some n => exists n', nodes (database s') !! incarnation_id i = Some n'
                   /\ node_state n' = node_state n /\ (node_state n = Draining -> n' = n)
     | None => nodes (database s') !! incarnation_id i = None
     end.
Proof.
  unfold renew_commit. intros Hr.
  assert (forall db' u, (db', u) = transact fate DatabaseError (renew_body i now) (database s) ->
    match nodes (database s) !! incarnation_id i with
    | Some n => exists n', nodes db' !! incarnation_id i = Some n'
                  /\ node_state n' = node_state n /\ (node_state n = Draining -> n' = n)
    | None => nodes db' !! incarnation_id i = None
    end) as Hb.
  { intros db' u Ht. symmetry in Ht. apply transact_cases in Ht as [[-> _] | Hb];
      [by destruct (nodes (database s) !! _) as [n|] eqn:E; [exists n |] |].
    unfold renew_body in Hb. inv_ok. unfold own_row in *.
    destruct (nodes (database s) !! incarnation_id i) as [n|] eqn:E; [| done].
    cbn in *. case_match eqn:Hif; [| done]. simplify_eq. split_bools.
    eexists. cbn. rewrite lookup_insert_eq. split; [done |]. split; [done |]. congruence. }
  destruct (transact _ _ _ _) as [db' u] eqn:Ht. specialize (Hb db' u eq_refl).
  destruct u as [u|e]; simplify_eq; (split; [| exact Hb]); [done |]. by destruct e.
Qed.

(** The row stays, in its state; a draining row is not even renewed. *)
Definition row_kept (o o' : option NodeRow) : Prop :=
  match o with
  | Some n => exists n', o' = Some n' /\ node_state n' = node_state n
                /\ (node_state n = Draining -> n' = n)
  | None => o' = None
  end.
Lemma row_kept_refl o : row_kept o o.
Proof. destruct o as [n|]; [by exists n | done]. Qed.

Lemma lease_step_keeps b w w' :
  lease_step b w w' ->
  draining (lease (sys w')) = draining (lease (sys w)) /\ released w' = released w
  /\ row_kept (row w) (row w').
Proof.
  intros Hs. destruct Hs as [w bt d _ _ | w r _ | w r0 r1 _ _ _ _ | w before fate _ _
    | w before r2 _ _ _ | w | w db Hdb].
  - split; [done |]. split; [done | apply row_kept_refl].
  - split; [apply check_draining |]. split; [done | apply row_kept_refl].
  - pose proof (renew_begin_draining (lease (sys w)) r0 r1) as Hd.
    destruct (renew_begin _ _ _) as [l p]. split; [exact Hd |]. split; [done | apply row_kept_refl].
  - destruct (renew_commit _ _ _ _) as [s' r] eqn:Hr. apply renew_row in Hr as [Hd Hrow].
    split; [exact Hd |]. split; [done | exact Hrow].
  - split; [apply renew_install_draining |]. split; [done | apply row_kept_refl].
  - split; [done |]. split; [done | apply row_kept_refl].
  - split; [done |]. split; [done |]. unfold row. cbn. rewrite Hdb. apply row_kept_refl.
Qed.

Lemma begin_drain_row s r0 now fate :
  let s' := fst (begin_drain i s r0 now fate) in
  draining (lease s') = true
  /\ match nodes (database s) !! incarnation_id i with
     | Some n => exists n', nodes (database s') !! incarnation_id i = Some n'
                   /\ lease_until n' = lease_until n /\ (node_state n = Draining -> n' = n)
     | None => nodes (database s') !! incarnation_id i = None
     end.
Proof.
  cbn zeta. unfold begin_drain. pose proof (check_draining (set_draining (lease s)) r0) as Hd.
  destruct (check _ _) as [l [u|e]]; cbn [fst] in *.
  2:{ split; [exact Hd |]. destruct (nodes _ !! _) as [n|] eqn:E; [by exists n | done]. }
  destruct (transact _ _ _ _) as [db' r] eqn:Ht. cbn [fst lease database].
  split; [by destruct r as [|[]] |].
  apply transact_cases in Ht as [[-> _] | Hb].
  { destruct (nodes (database s) !! _) as [n|] eqn:E; [by exists n | done]. }
  unfold drain_body in Hb. inv_ok. unfold own_row in *.
  destruct (nodes (database s) !! incarnation_id i) as [n|] eqn:E; [| done].
  cbn in *. case_match eqn:Hif; [| done]. simplify_eq. split_bools.
  eexists. cbn. rewrite lookup_insert_eq. split; [done |]. split; [done |]. congruence.
Qed.

Lemma release_row s fate s' r :
  release i s fate = (s', r) ->
  fenced (lease s') = true /\ draining (lease s') = draining (lease s)
  /\ (r = Ok tt -> nodes (database s') !! incarnation_id i = None).
Proof.
  unfold release, release_commit. destruct (transact _ _ _ _) as [db' r'] eqn:Ht.
  intros [= <- <-]. cbn. split; [done |]. split; [done |]. intros ->.
  apply transact_Ok in Ht. unfold Lease.release_body in Ht. inv_ok. cbn. apply lookup_delete_eq.
Qed.

(** ** The invariant *)

(** Past the drain, past [close_all], past the wait, past the release. *)
Definition past_drain (p : Phase) : Prop :=
  match p with Serving | Exited SignalFailed | Exited ServerLost => False | _ => True end.
Definition past_close (p : Phase) : Prop := past_drain p /\ match p with Drained _ => False | _ => True end.
Definition past_wait (p : Phase) : Prop :=
  match p with
  | Stopped _ | Exited Clean | Exited ServerFailed | Exited ReleaseFailed => True
  | _ => False
  end.
Definition past_release (p : Phase) : Prop :=
  match p with Exited Clean | Exited ServerFailed | Exited ReleaseFailed => True | _ => False end.

Definition public_ok (p : Public) : Prop :=
  0 <= free p /\ 0 <= connections p
  /\ free p + (if held p then 1 else 0) + connections p = MAX_PUBLIC_CONNECTIONS.

Record process_ok (n : Process) : Prop := {
  po_row : ~ past_release (phase n) -> is_Some (row (world n));
  po_released : released (world n) = true -> past_release (phase n);
  po_drain : past_drain (phase n) -> drains (world n);
  po_close : past_close (phase n) -> tunnels (relays n) = ∅;
  po_wait : past_wait (phase n) -> running (tasks n) = [];
  po_clean : phase n = Exited Clean \/ phase n = Exited ServerFailed ->
    row (world n) = None /\ fenced (lease (sys (world n))) = true;
  po_public : public_ok (public n);
  po_connections : PublicServer ∉ running (tasks n) -> connections (public n) = 0;
}.

Lemma not_ready l reading : draining l = true -> snd (is_ready l reading) = false.
Proof. intros Hd. unfold is_ready. by rewrite Hd, andb_false_r. Qed.

Lemma public_step_ok token e p p' : public_step token e p = Some p' -> public_ok p -> public_ok p'.
Proof.
  unfold public_step, public_ok. intros Hs (H1 & H2 & H3).
  destruct e; repeat case_match; simplify_eq; cbn in *; split_bools; lia.
Qed.

Lemma ended_in t u x : u ∈ running (task_ended t x) -> u ∈ running x /\ u <> t.
Proof.
  intros [Hin Ht]%list_elem_of_In%filter_In. apply list_elem_of_In in Hin. split; [done |].
  by apply negb_true_iff, bool_decide_eq_false in Ht.
Qed.
Lemma ended_nil t x : running x = [] -> running (task_ended t x) = [].
Proof. intros Hx. unfold task_ended. cbn. by rewrite Hx. Qed.


(** Steps that leave the main task where it is. *)
Lemma ok_world n w' :
  process_ok n -> alive n -> released w' = released (world n) ->
  draining (lease (sys w')) = draining (lease (sys (world n))) ->
  row_kept (row (world n)) (row w') -> process_ok (at_world n w').
Proof.
  intros [H1 H0 H2 H3 H4 H5 H6 H7] Ha Hrel Hd Hk. constructor; cbn; try done.
  - intros Hp. destruct (H1 Hp) as [x Hx]. rewrite Hx in Hk. destruct Hk as (y & Hy & _). by exists y.
  - by rewrite Hrel.
  - intros Hp. unfold drains. rewrite Hd. by apply H2.
  - intros Hp. exfalso. unfold alive in Ha. by destruct Hp as [Hp | Hp]; rewrite Hp in Ha.
Qed.

Lemma ok_relays n r' :
  process_ok n -> (past_close (phase n) -> tunnels r' ⊆ tunnels (relays n)) ->
  process_ok (at_relays n r').
Proof.
  intros [H1 H0 H2 H3 H4 H5 H6 H7] Hr. constructor; cbn; try done.
  intros Hp. specialize (Hr Hp). rewrite (H3 Hp) in Hr. apply map_eq. intros k. rewrite lookup_empty.
  destruct (tunnels r' !! k) as [x|] eqn:E; [| done]. by apply (lookup_weaken _ _ _ _ E) in Hr; rewrite lookup_empty in Hr.
Qed.

Lemma ok_tasks n x :
  process_ok n -> (forall t, t ∈ running x -> t ∈ running (tasks n)) ->
  (PublicServer ∈ running (tasks n) -> PublicServer ∈ running x) ->
  process_ok (at_tasks n x).
Proof.
  intros [H1 H0 H2 H3 H4 H5 H6 H7] Hx Hp. constructor; cbn; try done.
  - intros Hw. specialize (H4 Hw). destruct (running x) as [|t l] eqn:E; [done |].
    exfalso. specialize (Hx t ltac:(left)). rewrite H4 in Hx. by apply not_elem_of_nil in Hx.
  - intros Hn. apply H7. by intros Hin%Hp.
Qed.

Lemma ended_other t u x : u ∈ running x -> u <> t -> u ∈ running (task_ended t x).
Proof.
  intros Hin Ht. apply list_elem_of_In, filter_In. split; [by apply list_elem_of_In |].
  by apply negb_true_iff, bool_decide_eq_false.
Qed.

(** The main task's own bookkeeping in an invariant. *)
Ltac phases := unfold past_close, past_drain, past_wait, past_release in *; cbn in *;
  first [done | tauto | by intros [? | ?]].

Lemma main_ok e n n' : process_ok n -> main_step e n = Some n' -> process_ok n'.
Proof.
  intros [H1 H0 H2 H3 H4 H5 H6 H7] Hs. unfold main_step in Hs.
  assert (forall server r0 fate, phase n = Serving -> process_ok (drain server r0 fate n)) as Hdrain.
  { intros server r0 fate Hp. unfold drain. rewrite Hp in H0.
    pose proof (begin_drain_row (sys (world n)) r0 (dbnow (world n)) fate) as [Hd Hr].
    constructor; try by phases.
    - intros _. destruct (H1 ltac:(rewrite Hp; cbn; tauto)) as [x Hx]. unfold row in *. cbn.
      rewrite Hx in Hr. destruct Hr as (y & Hy & _). by exists y. }
  destruct (phase n) as [|server|server [|id ids]|server|server|x] eqn:Hp;
    destruct e as [ok r0 fate|r0 fate| | | | |fate]; try discriminate Hs.
  - destruct ok; simplify_eq; [by apply Hdrain |].
    constructor; phases.
  - destruct (server_result n) as [[ok|]|]; simplify_eq; [by apply Hdrain |].
    constructor; phases.
  - simplify_eq. constructor; phases.
  - simplify_eq. constructor; phases.
  - simplify_eq. constructor; phases.
  - unfold all_ended in Hs. case_match eqn:Ha; simplify_eq. split_bools.
    constructor; phases.
  - simplify_eq. constructor; phases.
  - unfold release_node in Hs. destruct (release i (sys (world n)) fate) as [s' r] eqn:Hr. simplify_eq.
    apply release_row in Hr as (Hf & Hd & Hnone).
    constructor; cbn; try done.
    + intros Hx. destruct Hx. by destruct r as [|], server as [[]|].
    + intros _. by destruct r as [|], server as [[]|].
    + intros _. unfold drains. cbn. rewrite Hd. by apply H2.
    + intros _. by apply H3.
    + intros _. by apply H4.
    + intros Hx. destruct r as [[]|]; [| by destruct Hx]. split; [by apply Hnone | done].
Qed.

Lemma process_step_ok n n' : process_ok n -> step n n' -> process_ok n'.
Proof.
  intros Hok Hs. destruct Hs as [e n n' _ Hm | n w' Ha Hl | n r' Ha [_ Hr] | n e p' Ha Hin Hp
    | n r Ha Hin Hr | n Ha Hin Hf | n t Ha Ht].
  - by eapply main_ok.
  - apply lease_step_keeps in Hl as (Hd & Hrel & Hk). by apply ok_world.
  - apply ok_relays; [done |]. intros [Hp _]. destruct Hr as [Hr | [x Hx]]; [done |].
    rewrite not_ready in Hx; [done | by apply (po_drain _ Hok)].
  - pose proof (po_public _ Hok) as Hpub. destruct Hok as [H1 H0 H2 H3 H4 H5 H6 H7].
    constructor; cbn; try done. by eapply public_step_ok.
  - destruct Hok as [H1 H0 H2 H3 H4 H5 H6 H7]. constructor; cbn; try done.
    + intros Hw. apply ended_nil. by apply H4.
  - apply (ok_tasks (at_relays n (close_all (relays n)))).
    + apply ok_relays; [done |]. intros _. apply map_empty_subseteq.
    + intros t Hx%ended_in. by destruct Hx.
    + intros Hx. by apply (ended_other FenceWatcher).
  - apply ok_tasks; [done | intros u Hx%ended_in; by destruct Hx |]. intros Hx. by apply ended_other.
Qed.

(** The process refines the lease's own histories. *)
Lemma process_step_lease n n' : step n n' -> rtc (Lease.world_step i base) (world n) (world n').
Proof.
  intros Hs. destruct Hs as [e n n' Hread Hm | n w' Ha Hl | | | | |]; try apply rtc_refl.
  - unfold main_step in Hm.
    destruct (phase n) as [|server|server [|id ids]|server|server|x];
      destruct e as [[] r0 fate|r0 fate| | | | |fate]; try discriminate Hm;
      try (simplify_eq; apply rtc_refl).
    + simplify_eq. by apply rtc_once, ws_drain.
    + destruct (server_result n) as [[ok|]|]; simplify_eq; [| apply rtc_refl].
      by apply rtc_once, ws_drain.
    + case_match; simplify_eq. apply rtc_refl.
    + unfold release_node, release in Hm.
      pose proof (ws_release_commit i base (world n) fate) as Hc.
      destruct (release_commit i (sys (world n)) fate) as [s' r]. simplify_eq.
      eapply rtc_l; [exact Hc |]. apply rtc_once. apply (ws_fence i base {| sys := s' |}).
  - apply rtc_once. destruct Hl; by econstructor.
Qed.

(** Starting a process: the invariant holds. *)
Lemma started_ok internal w : registered i base w -> process_ok (started internal w).
Proof.
  intros Hreg. pose proof (registered_ok _ _ _ Hreg) as Hok.
  destruct Hreg as (db & b0 & bs & d & fate & _ & _ & _ & _ & _ & _ & _ & Hrel).
  constructor; try by phases.
  - intros _. destruct (wo_row _ _ _ Hok (wo_set _ _ _ Hok) Hrel) as (x & Hx & _). by exists x.
  - cbn. by rewrite Hrel.
Qed.

Lemma process_reachable internal w0 n :
  registered i base w0 -> rtc step (started internal w0) n ->
  process_ok n /\ rtc (Lease.world_step i base) w0 (world n).
Proof.
  intros Hreg Hs. split.
  - pose proof (started_ok internal w0 Hreg) as Hok. induction Hs as [|n0 n1 n2 H1 _ IH]; [done |].
    apply IH. by eapply process_step_ok.
  - change w0 with (world (started internal w0)). induction Hs as [|n0 n1 n2 H1 _ IH]; [apply rtc_refl |].
    etrans; [by apply process_step_lease | exact IH].
Qed.



(** ** The main task makes progress *)

(** How many steps the main task has at most before it, once it shuts down. *)
Definition remaining (n : Process) : nat :=
  match phase n with
  | Serving => 6 + size (tunnels (relays n))
  | Drained _ => 5 + size (tunnels (relays n))
  | Closing _ ids => 4 + length ids
  | Waiting _ => 2
  | Stopped _ => 1
  | Exited _ => 0
  end.

Definition shutting_down (n : Process) : Prop := alive n /\ phase n <> Serving.

Lemma main_enabled n : shutting_down n -> exists e n', event_reads (world n) e /\ main_step e n = Some n'.
Proof.
  intros [Ha Hp]. unfold alive in Ha. unfold main_step.
  destruct (phase n) as [|server|server [|id ids]|server|server|x]; try done.
  - by exists CloseAll; eexists.
  - by exists CloseNext; eexists.
  - by exists CloseNext; eexists.
  - by exists Deadline; eexists.
  - by exists (Release Committed); eexists.
Qed.

Lemma main_remaining e n n' : main_step e n = Some n' -> (remaining n' < remaining n)%nat.
Proof.
  unfold main_step, remaining. intros Hs.
  destruct (phase n) as [|server|server [|id ids]|server|server|x];
    destruct e as [[] r0 fate|r0 fate| | | | |fate]; try discriminate Hs;
    try (simplify_eq; cbn; lia).
  - destruct (server_result n) as [[ok|]|]; simplify_eq; cbn; lia.
  - simplify_eq. cbn. rewrite length_map, length_map_to_list. lia.
  - case_match; simplify_eq. cbn. lia.
  - unfold release_node in Hs. destruct (release _ _ _). simplify_eq. cbn. lia.
Qed.

(** Steps of the rest of the process do not add to it. *)
Lemma other_remaining n n' :
  process_ok n -> phase n <> Serving -> phase n' = phase n ->
  (tunnels (relays n') ⊆ tunnels (relays n) \/ exists x, snd (is_ready (lease (sys (world n))) x) = true) ->
  (remaining n' <= remaining n)%nat.
Proof.
  intros Hok Hs Hp Ht. unfold remaining. rewrite Hp.
  destruct (phase n) as [|server|server ids|server|server|x] eqn:E; try done.
  destruct Ht as [Ht | [x Hx]].
  - pose proof (subseteq_size _ _ (subseteq_dom _ _ Ht)) as Hsize. rewrite !size_dom in Hsize. lia.
  - rewrite not_ready in Hx; [done |]. apply (po_drain _ Hok). by rewrite E.
Qed.

(** A step of the main task. *)
Definition main_moves (n n' : Process) : Prop :=
  exists e, event_reads (world n) e /\ main_step e n = Some n'.

Lemma step_remaining n n' :
  process_ok n -> phase n <> Serving -> step n n' -> main_moves n n' \/ (remaining n' <= remaining n)%nat.
Proof.
  intros Hok Hp Hs. destruct Hs as [e n n' Hr Hm | n w' Ha Hl | n r' Ha [_ Hr] | n e p' Ha Hin Hp'
    | n r Ha Hin Hr | n Ha Hin Hf | n t Ha Ht]; [left; by exists e | right; apply other_remaining; auto ..].
  left. apply map_empty_subseteq.
Qed.

(** A history in which the main task moves [k] times. *)
Inductive moves : nat -> Process -> Process -> Prop :=
| mv_done n : moves 0 n n
| mv_main k n n1 n2 : main_moves n n1 -> moves k n1 n2 -> moves (S k) n n2
| mv_other k n n1 n2 : step n n1 -> moves k n1 n2 -> moves k n n2.

Lemma main_leaves_serving n n' : main_moves n n' -> phase n' <> Serving.
Proof.
  intros (e & _ & Hs). unfold main_step in Hs.
  destruct (phase n) as [|server|server [|id ids]|server|server|x];
    destruct e as [[] r0 fate|r0 fate| | | | |fate]; try discriminate Hs;
    try (simplify_eq; done).
  - destruct (server_result n) as [[ok|]|]; by simplify_eq.
  - case_match; by simplify_eq.
  - unfold release_node in Hs. destruct (release _ _ _). by simplify_eq.
Qed.

Lemma step_leaves_serving n n' : phase n <> Serving -> step n n' -> phase n' <> Serving.
Proof.
  intros Hp Hs. destruct Hs as [e n n' Hr Hm | | | | | |]; try exact Hp.
  apply (main_leaves_serving n). by exists e.
Qed.

Lemma moves_remaining k n n' :
  process_ok n -> phase n <> Serving -> moves k n n' -> (remaining n' + k <= remaining n)%nat.
Proof.
  intros Hok Hp Hm. induction Hm as [n | k n n1 n2 Hm _ IH | k n n1 n2 Hs _ IH]; [lia | |].
  - pose proof Hm as (e & Hr & Hs). specialize (IH ltac:(eapply process_step_ok; [done | by eapply st_main])
      (main_leaves_serving _ _ Hm)). apply main_remaining in Hs. lia.
  - specialize (IH ltac:(by eapply process_step_ok) (step_leaves_serving _ _ Hp Hs)).
    destruct (step_remaining _ _ Hok Hp Hs) as [(e & _ & Hm) | Hle]; [apply main_remaining in Hm |]; lia.
Qed.

(** ** Theorems *)


(** C16. Shutdown ends.  Once the main task has left its wait, it always has an enabled step until the process has exited, and
    in no history, however the rest of the process moves, does it take more
    than five steps beyond the tunnels it has to close: no tunnel added
    meanwhile, no task that hangs and no connection that stays open can keep
    the process from exiting. *)
Theorem shutdown_terminates (internal : bool) (w0 : World) (n n' : Process) (k : nat)
    (Hreg : registered i base w0) (Hn : rtc step (started internal w0) n)
    (Hshut : phase n <> Serving) (Hk : moves k n n') :
  (remaining n' + k <= remaining n)%nat
  /\ (remaining n <= 5 + size (tunnels (relays n))
       + match phase n with Closing _ ids => length ids | _ => 0 end)%nat
  /\ ((exists e, phase n' = Exited e) \/ exists n'', main_moves n' n'').
Proof.
  destruct (process_reachable internal w0 n Hreg Hn) as [Hok _].
  split; [by apply moves_remaining |]. split.
  - unfold remaining. destruct (phase n); try done; lia.
  - assert (phase n' <> Serving) as Hp.
    { clear Hok Hn. induction Hk as [| k n n1 n2 Hm _ IH | k n n1 n2 Hs _ IH]; [done | |].
      - by eapply IH, main_leaves_serving.
      - by eapply IH, step_leaves_serving. }
    destruct (phase n') as [| | | | |x] eqn:E; [done |..|left; by exists x]; right;
      (destruct (main_enabled n') as (e & n'' & He & Hm);
       [split; [unfold alive; by rewrite E | by rewrite E] | exists n'', e; done]).
Qed.
End process.

(** ** From the command line to a serving process *)

Inductive StartError : Type := StartInternal | StartBootstrap (e : BootstrapError) | StartListener.

Section start.
Context `{Haead : Aead} `{Hlower : Lower} `{Hsha : Sha256} `{Hhmac : Hmac} `{Huuid : UuidText}.
Variable BUILD_ID : bytes.

(** [main] up to its wait: the internal listener ([None]: its configuration or
    socket failed; otherwise whether the node is clustered), the bootstrap, the
    public listener.  [boot], [dbnow] are the clocks when it serves. *)
Definition main_start (c : Config) (internal : option bool) (x : StartInput) (listener : bool)
    (boot dbnow : Z) (s : Store) (root : Node) : Store * Node * result StartError Process :=
  match internal with
  | None => (s, root, Err StartInternal)
  | Some clustered =>
      match server_bootstrap BUILD_ID c x s root with
      | (s, root, Err e) => (s, root, Err (StartBootstrap e))
      | (s, root, Ok (i, l)) =>
          if negb listener then (s, root, Err StartListener)
          else (s, root, Ok (started clustered
                  {| sys := {| lease := l; database := base_of s |}; boot := boot; dbnow := dbnow;
                     pending := None; released := false |}))
      end
  end.

Lemma append_audit_tables d kind m c action s s' :
  append_audit d kind m c action s = Ok s' -> tables s' = tables s.
Proof. unfold append_audit, append_audit_outcome, insert_audit. intros Ha. by inv_ok. Qed.

Lemma insert_credential_tables id d name g t s s' :
  insert_credential id d name g t s = Some s' -> base (tables s') = base (tables s).
Proof. unfold insert_credential. case_match; [| done]. by intros [= <-]. Qed.

Lemma bootstrap_nodes c migrated critical ordinary fate t fresh s :
  nodes (base_of (fst (bootstrap BUILD_ID c migrated critical ordinary fate t fresh s)))
  = nodes (base_of s).
Proof.
  unfold bootstrap. destruct migrated; [| done]. destruct (_ || _); [done |].
  unfold initialize_or_validate.
  match goal with |- context [run ?f ?g ?a ?b s] =>
    destruct (run_tables f g a b s) as [-> | [id Hb]]; [done |];
    generalize dependent (fst (run f g a b s)); intros s' Hb end.
  cbv beta in Hb. unfold base_of. destruct (deployment (base (tables s))) as [d|].
  - unfold validate_body in Hb. apply bind_Ok in Hb as (u & _ & Hb).
    destruct (_ =? _); [by inv_ok; simplify_eq |]. destruct (_ =? _); [| done]. inv_ok.
    match goal with Ha : append_audit _ _ _ _ _ _ = Ok _ |- _ => apply append_audit_tables in Ha end.
    simplify_eq. by match goal with Ha : tables _ = _ |- _ => rewrite Ha end.
  - unfold initialize_body in Hb. inv_ok. simplify_eq.
    repeat match goal with
    | Ha : append_audit _ _ _ _ _ _ = Ok _ |- _ => apply append_audit_tables in Ha
    | Hi : insert_credential _ _ _ _ _ _ = Some _ |- _ => apply insert_credential_tables in Hi
    end.
    repeat match goal with Ha : tables _ = _ |- _ => rewrite Ha; clear Ha end.
    by match goal with Hi : base (tables _) = _ |- _ => rewrite Hi end.
Qed.

Lemma store_base_of db s : base_of (store_base db s) = db.
Proof. done. Qed.

Lemma register_nodes i db r0 r1 t fate s r :
  register i db r0 r1 t fate = (s, r) ->
  (nodes (database s) = nodes db
   \/ exists n, node_state n = Lease.Serving /\ lease_until n = t + ttl i
        /\ nodes db !! incarnation_id i = None /\ nodes (database s) = <[incarnation_id i := n]> (nodes db))
  /\ (r = Ok tt -> is_Some (nodes (database s) !! incarnation_id i)).
Proof.
  unfold register. intros Hr. destruct (now_or_fence new_lease r0) as [l [b|e]].
  2:{ simplify_eq. split; [by left | done]. }
  destruct (transact _ _ _ db) as [db' u] eqn:Ht.
  assert (nodes db' = nodes db \/ exists n, node_state n = Lease.Serving /\ lease_until n = t + ttl i
    /\ nodes db !! incarnation_id i = None /\ nodes db' = <[incarnation_id i := n]> (nodes db)) as Hn.
  { apply transact_cases in Ht as [[-> _] | Hb]; [by left | right].
    unfold Lease.register_body in Hb. inv_ok. destruct (nodes db !! _) eqn:E; [done |]. inv_ok.
    eexists. split_and!; [| | reflexivity | reflexivity]; done. }
  destruct u as [[]|e]; [| by simplify_eq].
  apply transact_Ok in Ht. destruct (install_deadline i l b r1) as [l' v]. simplify_eq.
  split; [exact Hn |]. intros _. cbn. unfold Lease.register_body in Ht. inv_ok.
  destruct (nodes db !! _); [done |]. inv_ok. cbn. by rewrite lookup_insert_eq.
Qed.

(** C30. Starting a server.  A start that fails before the lease leaves the
    membership table alone, and the runtime root too unless that is what
    failed; whatever happens, no row of another incarnation changes.  When the
    lease is registered but the public listener cannot be bound, the process
    ends with its row still in the table, serving, for the configured ttl.  A
    start that succeeds under sane clocks is a registered node at the start of
    its history, so the theorems on the lease and on the process's life apply
    to it. *)
Theorem main_start_exact (c : Config) (internal : option bool) (x : StartInput) (listener : bool)
    (b d : Z) (s : Store) (root : Node) :
  let '(s', root', r) := main_start c internal x listener b d s root in
  (forall k, k <> si_incarnation x -> nodes (base_of s') !! k = nodes (base_of s) !! k)
  /\ match r with
     | Err StartInternal => s' = s /\ root' = root
     | Err (StartBootstrap (BootStorage _)) => nodes (base_of s') = nodes (base_of s) /\ root' = root
     | Err (StartBootstrap (BootSsh _)) => nodes (base_of s') = nodes (base_of s)
     | Err (StartBootstrap (BootLease _)) => True
     | Err StartListener =>
         exists n, nodes (base_of s') !! si_incarnation x = Some n /\ node_state n = Lease.Serving
           /\ lease_until n = si_later x + lease_ttl c * 1000000000
     | Ok p => exists clustered deployment_id, internal = Some clustered
         /\ p = started clustered (world p) /\ database (sys (world p)) = base_of s'
         /\ forall base b0 bs, si_before x = Some b0 -> si_after x = Some b -> 0 <= b0 <= bs -> bs <= b ->
              let i := register_identity BUILD_ID c deployment_id (si_incarnation x) in
              drift_ok i base bs (si_later x) -> drift_ok i base b d -> registered i base (world p)
     end.
Proof.
  unfold main_start. destruct internal as [clustered|]; [| done]. unfold server_bootstrap.
  pose proof (bootstrap_nodes c (si_migrated x) (si_critical x) (si_ordinary x) (si_storage x)
                (si_now x) (si_fresh x) s) as Hn.
  destruct (bootstrap _ _ _ _ _ _ _ _ s) as [s1 [dep|e]]; cbn [fst] in Hn.
  2:{ split; [by rewrite Hn | done]. }
  destruct (create_runtime _ root _ _) as [root1 [name|e]].
  2:{ split; [by rewrite Hn | done]. }
  destruct (register _ _ _ _ _ _) as [sy r] eqn:Hr. pose proof Hr as Hreg.
  apply register_nodes in Hr as [Hnode Hok].
  assert (forall k, k <> si_incarnation x -> nodes (database sy) !! k = nodes (base_of s) !! k) as Hother.
  { intros k Hk. rewrite <- Hn. destruct Hnode as [-> | (n & _ & _ & _ & ->)]; [done |].
    by rewrite lookup_insert_ne. }
  destruct r as [[]|e]; [| done]. destruct listener; cbn [negb].
  - split; [exact Hother |]. exists clustered, dep. split; [done |]. split; [done |]. split; [done |].
    intros base b0 bs Hb0 Hb H0 H1 Hd1 Hd2. exists (base_of s1), b0, bs, (si_later x), (si_lease x).
    rewrite Hb0, Hb in Hreg. repeat split; try done; try lia; try apply Hd1; try apply Hd2.
    cbn [world started sys boot]. rewrite store_base_of, Hreg. by destruct sy.
  - split; [exact Hother |]. destruct (Hok eq_refl) as [n Hn']. exists n. split; [exact Hn' |].
    destruct Hnode as [Hsame | (n' & H1 & H2 & _ & Heq)]; cbn in *.
    + unfold register in Hreg. destruct (now_or_fence _ _) as [l [b1|]]; [| done].
      destruct (transact _ _ _ _) as [db' [[]|]] eqn:Ht; [| done]. apply transact_Ok in Ht.
      destruct (install_deadline _ _ _ _). simplify_eq. cbn in *.
      unfold Lease.register_body in Ht. inv_ok. destruct (nodes (base_of s1) !! _) eqn:E; [done |].
      rewrite Hsame in Hn'. cbn in *. congruence.
    + rewrite Heq, lookup_insert_eq in Hn'. by injection Hn' as <-.
Qed.
End start.

(** ** A short life *)

Definition ex_config : Config :=
  {| cf_address := Address.V4 [127; 0; 0; 1] 8080; web_dir := []; public_origin := [];
     database_url := []; api_key := []; encryption_key := sample_key; ssh_runtime_root := [];
     epoch := 1; lease_ttl := 30; lease_safety_margin := 5; shutdown_timeout := 10;
     node_name := None; cf_profile := SingleNode; cluster := None |}.

Definition ex_main (e : MainEvent) (n : Process) : Process := default n (main_step sample_identity e n).
Definition ex_started : Process := started false sample_world.
Definition ex_drained : Process := ex_main (Signal true (Some 300) Committed) ex_started.
Definition ex_waiting : Process := ex_main CloseNext (ex_main CloseAll ex_drained).

Abbreviation ex_steps := (rtc (step sample_identity 1000)).

Lemma ex_main_step e n :
  event_reads (world n) e -> is_Some (main_step sample_identity e n) ->
  step sample_identity 1000 n (ex_main e n).
Proof.
  intros Hr [n' Hn]. apply (st_main _ _ e); [exact Hr |]. unfold ex_main. by rewrite Hn.
Qed.

Lemma ex_reaches_drained : ex_steps ex_started ex_drained.
Proof. apply rtc_once, (ex_main_step (Signal true (Some 300) Committed)); [by right | by eexists]. Qed.



Lemma shutdown_terminates_witness :
  (remaining ex_waiting + 2 <= remaining ex_drained)%nat.
Proof.
  apply (shutdown_terminates sample_identity 1000 false sample_world ex_drained ex_waiting 2
           sample_registered ex_reaches_drained); [discriminate |].
  eapply mv_main; [exists CloseAll; split; [exact I | reflexivity] |].
  eapply mv_main; [exists CloseNext; split; [exact I | reflexivity] |]. apply mv_done.
Defined.

(** A first start on an empty database and an empty runtime root. *)
Section start_example.
#[local] Existing Instances toy_aead toy_hmac dec_uuid.
#[local] Instance same_lower : Lower := {| lower := fun v => v |}.
#[local] Instance same_sha256 : Sha256 := {| sha256 := fun v => v |}.

Definition ex_store : Store :=
  {| tables := {| base := {| deployment := None; nodes := ∅ |}; credentials := ∅;
                  default_credential := 0; machines := ∅; owners := ∅; enrollments := ∅;
                  attempts := ∅; bindings := ∅ |};
     rows := ∅; audit := [] |}.
Definition ex_root : Node :=
  Entry {| kind := Directory; uid := 1000; nlink := 2; mode := 448 |} [].
Definition ex_input : StartInput :=
  {| si_migrated := Ok tt; si_critical := true; si_ordinary := true; si_storage := FateCommitted;
     si_now := 1000;
     si_fresh := {| fs_deployment := 99; fs_credential := 21;
       fs_material := Some {| km_private := lit "private"; km_public := repeat "a"%byte 60;
         km_fingerprint := repeat "f"%byte 20; km_nonce := repeat "000"%byte 24 |} |};
     si_unlinks := fun _ => true;
     si_lock := Some ({| kind := Regular; uid := 1000; nlink := 1; mode := 384 |}, true);
     si_instance := 5; si_incarnation := 7; si_before := Some 100; si_after := Some 300;
     si_later := 1200; si_lease := Committed |}.

(** With its listener it serves as a registered node; without, its row is
    left serving. *)
Lemma main_start_exact_witness :
  (exists p d, snd (main_start (lit "build") ex_config (Some false) ex_input true 300 1400 ex_store ex_root) = Ok p
     /\ registered (register_identity (lit "build") ex_config d 7) 1000 (world p))
  /\ (snd (main_start (lit "build") ex_config (Some false) ex_input false 300 1400 ex_store ex_root)
      = Err StartListener).
Proof.
  split; [| vm_compute; reflexivity].
  pose proof (main_start_exact (lit "build") ex_config (Some false) ex_input true 300 1400 ex_store ex_root) as Hx.
  destruct (main_start _ _ _ _ _ _ _ _ _) as [[s' root'] r] eqn:E.
  destruct r as [p|e]; [| vm_compute in E; discriminate E].
  destruct Hx as [_ (clustered & d & _ & _ & _ & Hreg)].
  exists p, d. split; [reflexivity |].
  apply (Hreg 1000 100 200); [reflexivity | reflexivity | lia | lia | |]; unfold drift_ok; cbn; lia.
Defined.
End start_example.
