(* ===== verification/Enrollment.v ===== *)
(** * Enrollment: the server's enrollment and tunnel sessions

    Models [enrollment], [continue_enrollment],
    [resolve_enrollment_host_identity], [enrollment_credential],
    [open_provisional_stream], [run_provisional_stream], [tunnel],
    [claim_reserved_owner] and [complete_tunnel_owner_cleanup] of
    [crates/owlmux-server/src/relay/mod.rs], and the select of the tasks that
    run them against the fence of the node ([enroll_upgrade],
    [tunnel_upgrade]).  The transactions they call are
    those of Authority, the registry's sections those of Registry and the loop
    of an established tunnel is [Tunnel.run_tunnel]; here each call is an
    event of the log and its answer an input. *)

From S2P Require Import Prelude Text Contracts Secrets RelayProtocol Wire Session Ssh Authority Registry Tunnel.
Import Authority.Relay.

(** [ed25519_dalek]. *)
Class Ed25519 : Type := {
  signature_from_slice : bytes -> option bytes;
  key_valid : bytes -> bool;
  verifies : bytes -> bytes -> bytes -> bool;
}.

(** [RelayError::message]. *)
Definition message (e : RelayError) : bytes :=
  match e with
  | InvalidToken => lit "Enrollment token is invalid or expired."
  | InvalidState | Conflict => lit "Relay or Machine state is invalid."
  | ProofFailed => lit "Relay identity or SSH access proof failed."
  | Protocol => lit "Relay protocol frame is invalid."
  | OwnerConflict => lit "Machine already has a valid owner."
  | Unavailable | Overloaded | Ambiguous | Fenced =>
      lit "Relay service is temporarily unavailable."
  end.

Inductive Event : Type :=
| Got (f : ClientFrame)
| Did (x : Effect)
| TokenAccepted (acc : AcceptedEnrollment)
| Audited (action : bytes) (success : bool)
| DiscoverCalled | VerifyCalled (machine : Uuid) (host : bytes)
| ActivateCalled (acc : AcceptedEnrollment) (relay : Uuid) (key host : bytes)
| FailAttemptCalled (acc : AcceptedEnrollment)
| PermitsDropped
| ClaimReserved | OwnerClaimed (epoch : Z) | PendingFinished
| DispatchClosed | ReleaseCalled (epoch : Z) | CleanupComplete | ReleaseFinished.

(** A frame handed to the socket. *)
Abbreviation Out f := (Did (Sent f)).

(** What happens at the [select!] of [run_provisional_stream]. *)
Inductive StreamEvent (A : Type) : Type :=
| OperationDone (r : result SshError A)
| OutboundReady (f : ServerFrame)
| InboundReady (i : option Incoming) (taken : option nat) (shutdown_ok : bool).
Arguments OperationDone {A} r.
Arguments OutboundReady {A} f.
Arguments InboundReady {A} i taken shutdown_ok.

Section sessions.
Context `{Hbase : Base64} `{Hcodec : FrameCodec} `{Hkeys : SshKeys} `{Hed : Ed25519}.

Abbreviation relay_session := (session Event RelayError).

Definition effects (p : list Effect * result RelayError unit) : relay_session unit :=
  fun s => (s, Did <$> fst p, snd p).

Definition send (f : ServerFrame) : relay_session unit :=
  fate ← next_fate; effects (send_frame f fate).

Definition receive : relay_session ClientFrame :=
  i ← wait; f ← lift (receive_frame i); log (Got f) ;; mret f.

Definition send_error {A} (e : RelayError) : relay_session A :=
  attempt (send (ErrorFrame (code e) (message e))) ;; lift (Err e).

Definition decode_32 (value : bytes) : result RelayError bytes :=
  map_err (fun _ => Protocol) (decode_canonical_32 value).

Definition decode_signature (value : bytes) : result RelayError bytes :=
  decoded ← ok_or Protocol (b64_decode value);
  ok_or Protocol (signature_from_slice decoded).

Definition verify_signature (key signature statement : bytes) : result RelayError unit :=
  if negb (key_valid key) then Err Protocol
  else if verifies key statement signature then Ok tt else Err ProofFailed.

(** ** Provisional streams *)

Definition open_provisional_stream (stream : Z) : relay_session unit :=
  send (OpenStream stream) ;;
  f ← receive;
  match f with
  | ClientStreamOpened opened => if opened =? stream then mret tt else lift (Err ProofFailed)
  | _ => lift (Err ProofFailed)
  end.

(** The loop until the operation ends or the peer breaks the protocol; when
    nothing happens any more, the wait for a frame times out. *)
Fixpoint provisional_loop {A} (stream : Z) (history : list (StreamEvent A))
    : relay_session (result RelayError A) :=
  match history with
  | [] => lift (receive_frame None) ;; mret (Err Protocol)
  | OperationDone r :: _ => mret (map_err (fun _ => ProofFailed) r)
  | OutboundReady f :: rest => send f ;; provisional_loop stream rest
  | InboundReady i taken shutdown_ok :: rest =>
      f ← lift (receive_frame i);
      log (Got f) ;;
      match f with
      | ClientStreamData received data =>
          if received =? stream
          then effects (write_data stream data taken) ;; provisional_loop stream rest
          else mret (Err Protocol)
      | ClientStreamHalfClosed received | ClientStreamClosed received _ =>
          if received =? stream
          then (if shutdown_ok then log (Did (ShutDown stream)) else lift (Err Unavailable)) ;;
               provisional_loop stream rest
          else mret (Err Protocol)
      | _ => mret (Err Protocol)
      end
  end.

(** The loop that waits for the peer to close the stream, under a timeout. *)
Fixpoint drain_from (stream : Z) (frames : list (option Incoming))
    : list (option Incoming) * list Event * result RelayError unit :=
  match frames with
  | [] => ([], [], Err Protocol)
  | i :: rest =>
      match receive_frame i with
      | Err e => (rest, [], Err e)
      | Ok f =>
          match f with
          | ClientStreamClosed received _ =>
              (rest, [Got f], if received =? stream then Ok tt else Err Protocol)
          | ClientStreamData received _ | ClientStreamHalfClosed received =>
              if received =? stream
              then let '(unread, l, r) := drain_from stream rest in (unread, Got f :: l, r)
              else (rest, [Got f], Err Protocol)
          | _ => (rest, [Got f], Err Protocol)
          end
      end
  end.
Definition drain_closed (stream : Z) : relay_session unit := fun s =>
  let '(unread, l, r) := drain_from stream (inbox s) in
  ({| inbox := unread; fates := fates s |}, l, r).

Definition run_provisional_stream {A} (stream : Z) (history : list (StreamEvent A))
    : relay_session A :=
  outcome ← provisional_loop stream history;
  send (StreamClosed stream Eof) ;;
  drain_closed stream ;;
  lift outcome.

(** ** Enrollment *)

(** The answers of the calls one enrollment makes. *)
Record EnrollmentEnv : Type := {
  lease_valid : bool;
  accepted : result RelayError AcceptedEnrollment;
  credential : option (option ServerFrame);
  lease_after_query : bool;
  nonce : bytes;
  discovery : list (StreamEvent HostIdentity);
  proof : list (StreamEvent unit);
  activation : result RelayError unit;
  deadline : option nat;
}.

Definition enrollment_credential (env : EnrollmentEnv) : result RelayError ServerFrame :=
  row ← ok_or Unavailable (credential env);
  frame ← ok_or InvalidState row;
  fail_if (negb (lease_after_query env)) Fenced ;;
  Ok frame.

Definition resolve_enrollment_host_identity (env : EnrollmentEnv) (acc : AcceptedEnrollment)
    : relay_session (bytes * Z) :=
  match ae_host_identity acc with
  | Some host =>
      if negb (is_ed25519_host_identity host) then lift (Err InvalidState) else mret (host, 1)
  | None =>
      open_provisional_stream 1 ;;
      log DiscoverCalled ;;
      discovery ← attempt (run_provisional_stream 1 (discovery env));
      log (Audited (lit "ssh_discover_host_key") (is_ok discovery)) ;;
      discovered ← lift discovery;
      send (HostKey (public_key discovered) (fingerprint_sha256 discovered)) ;;
      f ← receive;
      match f with
      | HostKeyAccepted host =>
          if bool_decide (host = public_key discovered) then mret (public_key discovered, 2)
          else send_error InvalidState
      | _ => send_error InvalidState
      end
  end.

(** The statement an enrollment's signature covers. *)
Definition enrollment_statement (env : EnrollmentEnv) (acc : AcceptedEnrollment) (relay : Uuid)
    : bytes :=
  Server.signature_message Enrollment (ae_deployment_id acc) (ae_machine_id acc) relay None
    (ae_route_revision acc) (nonce env).

Definition LOOPBACK : bytes := lit "127.0.0.1:22".

Definition continue_enrollment (env : EnrollmentEnv) (acc : AcceptedEnrollment)
    : relay_session unit :=
  send (Accepted (ae_deployment_id acc) (ae_machine_id acc) (ae_attempt_id acc)
          (ae_route_revision acc)) ;;
  f ← receive;
  '(relay, key) ←
    match f with
    | Setup version relay public endpoint account =>
        if (version =? VERSION) && bool_decide (endpoint = LOOPBACK)
           && bool_decide (account = ae_target_account acc)
        then key ← lift (decode_32 public); mret (relay, key)
        else send_error InvalidState
    | _ => send_error InvalidState
    end;
  frame ← lift (enrollment_credential env);
  send frame ;;
  f ← receive;
  match f with Ready => mret tt | _ => send_error Protocol end ;;
  send (Challenge Enrollment (b64_encode (nonce env))) ;;
  f ← receive;
  signature ←
    match f with Signature value => lift (decode_signature value) | _ => send_error Protocol end;
  lift (verify_signature key signature (enrollment_statement env acc relay)) ;;
  '(host, stream) ← resolve_enrollment_host_identity env acc;
  open_provisional_stream stream ;;
  log (VerifyCalled (ae_machine_id acc) host) ;;
  proof ← attempt (run_provisional_stream stream (proof env));
  log (Audited (lit "ssh_verify_access") (is_ok proof)) ;;
  lift proof ;;
  log (ActivateCalled acc relay key host) ;;
  lift (activation env) ;;
  send (Activated (ae_route_revision acc)) ;;
  mret tt.

(** [timeout_at]: past the deadline the conversation is dropped where it
    stands. *)
Definition timeout_at {A} (cut : option nat) (m : relay_session A) : relay_session A := fun s =>
  let '(s, l, r) := m s in
  match cut with
  | Some n => if (n <? length l)%nat then (s, list.take n l, Err InvalidState) else (s, l, r)
  | None => (s, l, r)
  end.

Definition enrollment (env : EnrollmentEnv) : relay_session unit :=
  lift (fail_if (negb (lease_valid env)) Fenced) ;;
  f ← receive;
  match f with
  | Token _ =>
      acc ← lift (accepted env);
      log (TokenAccepted acc) ;;
      log PermitsDropped ;;
      outcome ← attempt (timeout_at (deadline env) (continue_enrollment env acc));
      (if is_ok outcome then mret tt else log (FailAttemptCalled acc)) ;;
      lift outcome
  | _ => send_error Protocol
  end.

(** [select!] against the fence of the node: the session may be dropped where
    it stands, after so many of its events; [None] is that exit. *)
Definition or_fenced {A} (fence : option nat) (m : relay_session A) : relay_session (option A) :=
  fun s =>
    let '(s, l, r) := m s in
    match fence with
    | Some n => if (n <=? length l)%nat then (s, list.take n l, Ok None) else (s, l, Some <$> r)
    | None => (s, l, Some <$> r)
    end.
Definition enrollment_task (fence : option nat) (env : EnrollmentEnv) : relay_session (option unit) :=
  or_fenced fence (enrollment env).

(** ** What the logs say *)

Definition is_activation (ev : Event) : bool :=
  match ev with ActivateCalled _ _ _ _ => true | _ => false end.
Definition is_failure (ev : Event) : bool :=
  match ev with FailAttemptCalled _ => true | _ => false end.
Definition is_claim (ev : Event) : bool := match ev with OwnerClaimed _ => true | _ => false end.
Definition reserves (ev : Event) : bool := match ev with ClaimReserved => true | _ => false end.
Definition closes (ev : Event) : bool := match ev with DispatchClosed => true | _ => false end.
(** Neither an activation, nor a failed attempt, nor an ownership claim. *)
Definition plain (ev : Event) : bool :=
  negb (is_activation ev) && negb (is_failure ev) && negb (is_claim ev) && negb (reserves ev).

Definition quiet {A} (m : relay_session A) : Prop :=
  forall l r, may m l r -> Forall (fun ev => plain ev = true) l.

Lemma quiet_ret {A} (a : A) : quiet (mret a).
Proof. intros l r [-> _]%may_ret. constructor. Qed.
Lemma quiet_lift {A} (x : result RelayError A) : quiet (lift x).
Proof. intros l r [-> _]%may_lift. constructor. Qed.
Lemma quiet_log ev : plain ev = true -> quiet (log ev).
Proof. intros H l r [-> _]%may_log. by repeat constructor. Qed.
Lemma quiet_wait : quiet wait.
Proof. intros l r [-> _]%may_wait. constructor. Qed.
Lemma quiet_fate : quiet next_fate.
Proof. intros l r [-> _]%may_fate. constructor. Qed.
Lemma quiet_bind {A B} (m : relay_session A) (f : A -> relay_session B) :
  quiet m -> (forall a, quiet (f a)) -> quiet (m ≫= f).
Proof.
  intros Hm Hf l r [(e & H & ->) | (a & l1 & l2 & H1 & H2 & ->)]%may_bind; [by eapply Hm |].
  apply Forall_app. split; [by eapply Hm | by eapply Hf].
Qed.
Lemma quiet_attempt {A} (m : relay_session A) : quiet m -> quiet (attempt m).
Proof. intros Hm l r (r' & -> & H)%may_attempt. by eapply Hm. Qed.
Lemma quiet_effects p : quiet (effects p).
Proof.
  intros l r (s & s' & [= _ <- _]). apply Forall_fmap, Forall_true. done.
Qed.

Create HintDb quiet.
Hint Resolve quiet_ret quiet_lift quiet_wait quiet_fate quiet_effects quiet_attempt : quiet.
Hint Extern 1 (quiet (log _)) => (apply quiet_log; reflexivity) : quiet.
Hint Extern 2 (quiet (_ ≫= _)) => (apply quiet_bind; [| intros ?]) : quiet.
Hint Extern 3 (quiet (match ?x with _ => _ end)) => destruct x : quiet.

Lemma quiet_send f : quiet (send f).
Proof. unfold send. auto with quiet. Qed.
Lemma quiet_receive : quiet receive.
Proof. unfold receive. auto 6 with quiet. Qed.
Hint Resolve quiet_send quiet_receive : quiet.
Lemma quiet_send_error {A} e : quiet (@send_error A e).
Proof. unfold send_error. auto with quiet. Qed.
Hint Resolve quiet_send_error : quiet.
Lemma quiet_open stream : quiet (open_provisional_stream stream).
Proof. unfold open_provisional_stream. auto 8 with quiet. Qed.
Lemma quiet_loop {A} stream (history : list (StreamEvent A)) :
  quiet (provisional_loop stream history).
Proof.
  induction history as [|[r|f|i taken ok] rest IH]; cbn [provisional_loop]; auto 10 with quiet.
Qed.
Lemma quiet_drain stream : quiet (drain_closed stream).
Proof.
  intros l r (s & s' & H). unfold drain_closed in H.
  destruct (drain_from stream (inbox s)) as [[left l'] r'] eqn:E. injection H as _ <- _.
  revert left l' r' E; induction (inbox s) as [|i rest IH]; intros left l' r' E; cbn in E.
  { injection E as <- <- <-. constructor. }
  destruct (receive_frame i) as [f|]; [| injection E as <- <- <-; constructor].
  destruct (drain_from stream rest) as [[left1 l1] r1]. specialize (IH _ _ _ eq_refl).
  destruct f; repeat case_match; injection E as <- <- <-; repeat constructor; done.
Qed.
Hint Resolve quiet_open quiet_loop quiet_drain : quiet.
Lemma quiet_run {A} stream (history : list (StreamEvent A)) :
  quiet (run_provisional_stream stream history).
Proof. unfold run_provisional_stream. auto 10 with quiet. Qed.
Hint Resolve quiet_run : quiet.
Lemma quiet_resolve env acc : quiet (resolve_enrollment_host_identity env acc).
Proof. unfold resolve_enrollment_host_identity. auto 14 with quiet. Qed.
Hint Resolve quiet_resolve : quiet.

Lemma may_effects p l r : may (effects p) l r -> l = Did <$> fst p /\ r = snd p.
Proof. intros (s & s' & [= _ <- <-]). done. Qed.

Lemma may_send_Ok f l u : may (send f) l (Ok u) -> l = [Out f].
Proof.
  unfold send. intros H. session_step H. session_step Hs.
  apply may_effects in H as [-> H]. unfold send_frame in *.
  destruct (print_server f), f0; done.
Qed.

Lemma may_receive_Ok l f : may receive l (Ok f) -> l = [Got f].
Proof.
  unfold receive. intros H. do 3 session_step H. session_step Hs. session_step Hs0.
  session_step Hs1. by session_step H.
Qed.

Lemma may_send_error {A} e l (a : A) : ~ may (send_error e) l (Ok a).
Proof. unfold send_error. intros H. session_step H. session_step H. Qed.

(** What must have happened before a machine is activated with these
    arguments. *)
Record proved (env : EnrollmentEnv) (acc : AcceptedEnrollment) (relay : Uuid)
    (key host : bytes) (l : list Event) : Prop := {
  proved_setup : exists public, decode_32 public = Ok key
    /\ Got (Setup VERSION relay public LOOPBACK (ae_target_account acc)) ∈ l;
  proved_challenge : Out (Challenge Enrollment (b64_encode (nonce env))) ∈ l;
  proved_signature : exists value signature, Got (Signature value) ∈ l
    /\ decode_signature value = Ok signature /\ key_valid key = true
    /\ verifies key (enrollment_statement env acc relay) signature = true;
  proved_host :
    (ae_host_identity acc = Some host /\ is_ed25519_host_identity host = true)
    \/ (ae_host_identity acc = None /\ Got (HostKeyAccepted host) ∈ l
       /\ exists fingerprint, Out (HostKey host fingerprint) ∈ l);
  proved_access : VerifyCalled (ae_machine_id acc) host ∈ l
    /\ Audited (lit "ssh_verify_access") true ∈ l;
}.

Lemma resolve_Ok env acc l host stream :
  may (resolve_enrollment_host_identity env acc) l (Ok (host, stream)) ->
  (ae_host_identity acc = Some host /\ is_ed25519_host_identity host = true)
  \/ (ae_host_identity acc = None /\ Got (HostKeyAccepted host) ∈ l
     /\ exists fingerprint, Out (HostKey host fingerprint) ∈ l).
Proof.
  unfold resolve_enrollment_host_identity. intros H.
  destruct (ae_host_identity acc) as [pinned|].
  - destruct (is_ed25519_host_identity pinned) eqn:E; cbn in H; session_step H. left. by subst.
  - right. split; [done |]. do 7 session_step H.
    apply may_send_Ok in Hs4 as ->. apply may_receive_Ok in Hs5 as ->.
    destruct a5; try (by apply may_send_error in H).
    case_bool_decide; [| by apply may_send_error in H]. session_step H.
    split; [set_solver |]. exists (fingerprint_sha256 a3). set_solver.
Qed.

Lemma plain_no_activation l ev l1 l2 :
  Forall (fun x => plain x = true) l -> is_activation ev = true -> l <> l1 ++ ev :: l2.
Proof.
  intros Hl Hev ->. apply Forall_app in Hl as [_ [Hc _]%Forall_cons].
  unfold plain in Hc. by rewrite Hev in Hc.
Qed.

(** The end of the conversation, once everything is proved. *)
Lemma continue_tail env acc relay key host l r :
  may (log (ActivateCalled acc relay key host) ;; lift (activation env) ;;
       send (Activated (ae_route_revision acc)) ;; mret tt) l r ->
  exists post, l = ActivateCalled acc relay key host :: post
  /\ Forall (fun x => plain x = true) post
  /\ (r = Ok tt -> activation env = Ok tt /\ Out (Activated (ae_route_revision acc)) ∈ post).
Proof.
  intros H. session_step H; [by apply may_log in H as [? ?] |]. session_step Hs.
  eexists. split; [reflexivity |].
  assert (quiet (lift (activation env) ;; send (Activated (ae_route_revision acc)) ;; mret tt))
    as Hq by auto with quiet.
  split; [by eapply Hq |]. intros ->.
  session_step H. session_step H. session_step Hs. apply may_send_Ok in Hs0 as ->.
  repeat match goal with u : () |- _ => destruct u end. split; [congruence | set_solver].
Qed.

(** Every log of a quiet session in the context is plain. *)
Local Ltac plain_logs :=
  repeat (apply Forall_app; split);
  match goal with
  | H : may ?m ?l _ |- Forall _ ?l =>
      let Hq := fresh in assert (quiet m) as Hq by auto 10 with quiet; exact (Hq _ _ H)
  end.
(** Take a step; the early return is the quiet outcome. *)
Local Ltac continue_step H :=
  session_step H; [left; split; [plain_logs | by eauto] |].

Local Ltac in_log :=
  first [ eassumption | apply list_elem_of_here | apply elem_of_app; first [left; in_log | right; in_log] ].

Lemma verify_signature_Ok key signature statement u :
  verify_signature key signature statement = Ok u ->
  key_valid key = true /\ verifies key statement signature = true.
Proof. unfold verify_signature. intros H. by destruct (key_valid key), (verifies _ _ _). Qed.

Lemma continue_activation env acc l r :
  may (continue_enrollment env acc) l r ->
  (Forall (fun x => plain x = true) l /\ exists e, r = Err e)
  \/ exists relay key host pre post,
       l = pre ++ ActivateCalled acc relay key host :: post
       /\ Forall (fun x => plain x = true) pre /\ Forall (fun x => plain x = true) post
       /\ proved env acc relay key host pre
       /\ (r = Ok tt -> activation env = Ok tt /\ Out (Activated (ae_route_revision acc)) ∈ post).
Proof.
  unfold continue_enrollment. intros H.
  continue_step H. continue_step H.
  continue_step H.
  destruct a1 as [relay key].
  assert (exists public, decode_32 public = Ok key
    /\ a0 = Setup VERSION relay public LOOPBACK (ae_target_account acc)) as (public & Hpublic & ->).
  { destruct a0; try (by apply may_send_error in Hs1).
    destruct (_ && _) eqn:Hg; [| by apply may_send_error in Hs1]. split_bools. subst.
    session_step Hs1. session_step Hs1. session_step Hs2. eauto. }
  continue_step H. continue_step H. continue_step H.
  continue_step H.
  continue_step H. continue_step H.
  continue_step H.
  rename a6 into signature.
  assert (exists value, decode_signature value = Ok signature /\ a5 = Signature value)
    as (value & Hvalue & ->).
  { destruct a5; try (by apply may_send_error in Hs8). session_step Hs8. eauto. }
  continue_step H. rename Hs9 into Hverify. continue_step H. rename Hs9 into Hresolve.
  match type of Hresolve with may _ _ (Ok ?p) => destruct p as [host stream] end.
  continue_step H. continue_step H. rename Hs10 into Hcalled. continue_step H.
  continue_step H. rename Hs11 into Haudit. continue_step H. rename Hs11 into Hproof.
  apply continue_tail in H as (post & -> & Hpost & Hend). right.
  exists relay, key, host. eexists _, post. split; [rewrite !app_assoc; reflexivity |].
  rewrite <- !app_assoc. split; [plain_logs |].
  split; [done |]. split; [| done].
  apply may_receive_Ok in Hs0, Hs7. apply may_send_Ok in Hs6.
  apply may_log in Hcalled as [-> _], Haudit as [-> _]. apply may_lift in Hproof as [_ <-].
  apply resolve_Ok in Hresolve. apply may_lift in Hverify as [_ Hverify].
  apply eq_sym, verify_signature_Ok in Hverify as [Hkey Hverify].
  constructor.
  - exists public. split; [done |]. subst. in_log.
  - subst. in_log.
  - exists value, signature. split_and!; try done. subst. in_log.
  - destruct Hresolve as [? | (? & ? & fp & ?)]; [by left | right].
    split_and!; [done | in_log | exists fp; in_log].
  - split; in_log.
Qed.

(** The shape of what a conversation leaves behind, cut anywhere. *)
Definition conversation (env : EnrollmentEnv) (acc : AcceptedEnrollment) (l : list Event) : Prop :=
  Forall (fun x => plain x = true) l
  \/ exists relay key host pre post,
       l = pre ++ ActivateCalled acc relay key host :: post
       /\ Forall (fun x => plain x = true) pre /\ Forall (fun x => plain x = true) post
       /\ proved env acc relay key host pre.

Lemma conversation_take env acc l n : conversation env acc l -> conversation env acc (list.take n l).
Proof.
  intros [H | (relay & key & host & pre & post & -> & Hpre & Hpost & Hp)].
  { left. by apply Forall_take. }
  destruct (decide (n <= length pre)%nat) as [Hn | Hn].
  - left. rewrite take_app_le by done. by apply Forall_take.
  - right. exists relay, key, host, pre, (list.take (n - S (length pre)) post).
    split; [| split; [done | split; [by apply Forall_take | done]]].
    rewrite take_app_ge by lia. destruct (n - length pre)%nat as [|k] eqn:E; [lia |].
    cbn. do 3 f_equal. lia.
Qed.

Lemma may_timeout {A} cut (m : relay_session A) l r :
  may (timeout_at cut m) l r ->
  exists l0 r0, may m l0 r0
  /\ ((l = l0 /\ r = r0) \/ exists n, l = list.take n l0 /\ r = Err InvalidState).
Proof.
  intros (s & s' & H). unfold timeout_at in H. destruct (m s) as [[s1 l0] r0] eqn:Hm.
  exists l0, r0. split; [by eapply may_run |].
  destruct cut as [n|]; [destruct (_ <? _)%nat |]; injection H as _ <- <-; eauto.
Qed.

Lemma may_receive_Err l e : may receive l (Err e) -> l = [].
Proof.
  unfold receive. intros H. session_step H; [by apply may_wait in H as [-> _] |].
  session_step Hs. session_step H; [by apply may_lift in H as [-> _] |].
  session_step H; [by apply may_log in H as [_ ?] | by apply may_ret in H as [_ ?]].
Qed.

Lemma may_send_error_log {A} e l (r : result RelayError A) :
  may (send_error e) l r -> exists xs, l = Did <$> xs.
Proof.
  unfold send_error, send. intros H.
  session_step H; [by apply may_attempt in H as (? & ? & _) |].
  apply may_lift in H as [-> _]. session_step Hs. rewrite app_nil_r.
  session_step Hs; [by apply may_fate in Hs as [_ [? ?]] |].
  session_step Hs0. apply may_effects in Hs as [-> _]. by eexists.
Qed.

(** Everything an enrollment may log. *)
Lemma enrollment_shape env l r :
  may (enrollment env) l r ->
  (Forall (fun x => plain x = true) l /\ (forall acc, TokenAccepted acc ∉ l) /\ exists e, r = Err e)
  \/ exists acc token body,
       accepted env = Ok acc
       /\ l = [Got (Token token); TokenAccepted acc; PermitsDropped] ++ body
              ++ (if is_ok r then [] else [FailAttemptCalled acc])
       /\ conversation env acc body
       /\ (r = Ok tt -> activation env = Ok tt
            /\ Out (Activated (ae_route_revision acc)) ∈ body).
Proof.
  unfold enrollment. intros H.
  session_step H; [apply may_lift in H as [-> _]; left; split_and!; [done | set_solver | eauto] |].
  apply may_lift in Hs as [-> _].
  session_step H; [apply may_receive_Err in H as ->; left; split_and!; [done | set_solver | eauto] |].
  apply may_receive_Ok in Hs as ->.
  assert (forall e l', may (send_error (A := ()) e) l' r ->
            Forall (fun x => plain x = true) ([Got a0] ++ l')
            /\ (forall acc, TokenAccepted acc ∉ [Got a0] ++ l') /\ exists e, r = Err e) as Hwrong.
  { intros e l' He. pose proof (may_send_error_log _ _ _ He) as [xs ->]. split_and!.
    - constructor; [done |]. by apply Forall_fmap, Forall_true.
    - intros acc [[=] | (? & [=] & _)%list_elem_of_fmap]%elem_of_cons.
    - destruct r as [u|]; [by apply may_send_error in He | eauto]. }
  destruct a0; try (left; by eapply Hwrong). clear Hwrong.
  session_step H.
  { apply may_lift in H as [-> _]. left. split_and!; [by repeat constructor | set_solver | eauto]. }
  apply may_lift in Hs as [-> Hacc]. rename a0 into acc.
  do 2 (session_step H; [by apply may_log in H as [? ?] |]).
  apply may_log in Hs as [-> _], Hs0 as [-> _].
  session_step H; [by apply may_attempt in H as (? & ? & _) |]. rename a2 into outcome.
  apply may_attempt in Hs as (outcome' & [= <-] & Hbody).
  session_step H.
  { exfalso. destruct (is_ok outcome); [by apply may_ret in H as [_ ?] | by apply may_log in H as [_ ?]]. }
  apply may_lift in H as [-> ->].
  right. exists acc, token, l. split; [congruence |].
  split.
  { rewrite app_nil_r. cbn [app]. do 4 f_equal.
    destruct (is_ok outcome); [by apply may_ret in Hs as [-> _] | by apply may_log in Hs as [-> _]]. }
  apply may_timeout in Hbody as (l0 & r0 & Hbody & Hcut). apply continue_activation in Hbody.
  assert (conversation env acc l0) as Hl0.
  { destruct Hbody as [[? _] | (relay & key & host & pre & post & Hb)]; [by left | right].
    exists relay, key, host, pre, post. tauto. }
  destruct Hcut as [[-> ->] | (n & -> & ->)]; [| split; [by apply conversation_take | done]].
  split; [done |]. intros ->.
  destruct Hbody as [[_ [? [=]]] | (relay & key & host & pre & post & -> & _ & _ & _ & Hend)].
  destruct (Hend eq_refl) as [? ?]. split; [done |]. apply elem_of_app. right. by right.
Qed.

Lemma proved_mono env acc relay key host l l' :
  proved env acc relay key host l -> (forall x, x ∈ l -> x ∈ l') ->
  proved env acc relay key host l'.
Proof.
  intros [(p & Hp & Hs) Hc (v & s & Hv & Hrest) Hh [Ha Hb]] Hsub.
  split; [eauto | eauto | exists v, s; split; [auto | done] | | auto].
  destruct Hh as [? | (? & ? & fp & ?)]; [by left | right].
  split_and!; [done | auto | exists fp; auto].
Qed.

Lemma plain_kinds x :
  plain x = true -> is_activation x = false /\ is_failure x = false /\ is_claim x = false
                    /\ reserves x = false.
Proof. unfold plain. intros Hx. by split_bools. Qed.
Lemma plain_not_activation l :
  Forall (fun x => plain x = true) l -> Forall (fun x => is_activation x = false) l.
Proof. intros H. eapply Forall_impl; [exact H |]. intros x Hx. by apply plain_kinds. Qed.
Lemma conversation_no_failure env acc l :
  conversation env acc l -> Forall (fun x => is_failure x = false) l.
Proof.
  intros [H | (relay & key & host & pre & post & -> & Hpre & Hpost & _)].
  - eapply Forall_impl; [exact H |]. intros x. by apply plain_kinds.
  - apply Forall_app. split; [| constructor; [done |]];
      (eapply Forall_impl; [eassumption |]; intros x; by apply plain_kinds).
Qed.

(** C11. A machine is activated only after proof.  Whatever the Relay sends and
    whatever fails, at most one activation happens in an enrollment and, when
    it does, the log before it holds: the accepted token; a setup for version
    1, the loopback endpoint and the machine's account; the challenge; a
    signature that verifies under the presented key over the enrollment
    statement of this deployment, machine, Relay, revision and nonce; a host
    key that is the pinned one, or the discovered one that the Relay accepted;
    and a successful strict SSH proof for exactly that host key. *)
Theorem enrollment_activates_only_proved (env : EnrollmentEnv) (l before after : list Event)
    (r : result RelayError unit) (acc : AcceptedEnrollment) (relay : Uuid) (key host : bytes)
    (Hrun : may (enrollment env) l r)
    (Hlog : l = before ++ ActivateCalled acc relay key host :: after) :
  accepted env = Ok acc /\ TokenAccepted acc ∈ before /\ proved env acc relay key host before
  /\ Forall (fun ev => is_activation ev = false) after.
Proof.
  apply enrollment_shape in Hrun as [(Hl & _) | (acc' & token & body & Hacc & Hl' & Hbody & _)].
  { exfalso. subst l. by eapply plain_no_activation in Hl. }
  set (tail := if is_ok r then [] else [FailAttemptCalled acc']) in Hl'.
  assert (Forall (fun x => is_activation x = false) tail) as Htail
    by (unfold tail; destruct (is_ok r); by repeat constructor).
  destruct Hbody as [Hbody | (relay' & key' & host' & pre & post & -> & Hpre & Hpost & Hproved)].
  - exfalso. rewrite Hlog in Hl'.
    assert (ActivateCalled acc relay key host
      ∈ [Got (Token token); TokenAccepted acc'; PermitsDropped] ++ body ++ tail) as Hin
      by (rewrite <- Hl'; set_solver).
    apply elem_of_app in Hin as [Hin | [Hin | Hin]%elem_of_app].
    + set_solver.
    + rewrite Forall_forall in Hbody. by specialize (Hbody _ Hin).
    + rewrite Forall_forall in Htail. by specialize (Htail _ Hin).
  - rewrite Hlog in Hl'. rewrite <- app_assoc in Hl'. cbn [app] in Hl'.
    change (Got (Token token) :: TokenAccepted acc' :: PermitsDropped :: pre ++ ?x)
      with ((Got (Token token) :: TokenAccepted acc' :: PermitsDropped :: pre) ++ x) in Hl'.
    apply (split_at_unique is_activation) in Hl' as (-> & [= -> -> -> ->] & ->); [| done | | ].
    + split_and!; [done | set_solver | |].
      * eapply proved_mono; [exact Hproved | intros x Hx; do 3 right; exact Hx].
      * apply Forall_app. split; [by apply plain_not_activation | done].
    + do 3 (constructor; [done |]). by apply plain_not_activation.
    + apply Forall_app. split; [by apply plain_not_activation | done].
Qed.

(** Every accepted attempt is settled: an enrollment that accepted a token
    either ends with [Ok], and then the activation committed, the Relay was
    told so and the attempt was not failed; or it ends with an error, and the
    very last thing it does is to fail the attempt, exactly once.  An
    enrollment that accepted none fails none.  (An attempt whose task the
    fence drops is left to the recovery of expired attempts.) *)
Theorem enrollment_settles (env : EnrollmentEnv) (l : list Event) (r : result RelayError unit)
    (Hrun : may (enrollment env) l r) :
  match r with
  | Ok _ => exists acc, accepted env = Ok acc /\ TokenAccepted acc ∈ l /\ activation env = Ok tt
      /\ Out (Activated (ae_route_revision acc)) ∈ l
      /\ Forall (fun ev => is_failure ev = false) l
  | Err _ => (forall acc, TokenAccepted acc ∉ l) /\ Forall (fun ev => is_failure ev = false) l
      \/ exists acc l', accepted env = Ok acc /\ l = l' ++ [FailAttemptCalled acc]
         /\ TokenAccepted acc ∈ l' /\ Forall (fun ev => is_failure ev = false) l'
  end.
Proof.
  apply enrollment_shape in Hrun as [(Hl & Hno & e & ->) | (acc & token & body & Hacc & -> & Hbody & Hend)].
  { left. split; [done |]. eapply Forall_impl; [exact Hl |]. intros x. by apply plain_kinds. }
  apply conversation_no_failure in Hbody.
  destruct r as [[]|e]; cbn [is_ok].
  - rewrite app_nil_r. destruct (Hend eq_refl) as [Ha Ho]. exists acc.
    split_and!; [done | set_solver | done | set_solver | by repeat constructor].
  - right. exists acc, ([Got (Token token); TokenAccepted acc; PermitsDropped] ++ body).
    split_and!; [done | done | set_solver | by repeat constructor].
Qed.

(** ** The tunnel session *)

(** The answers of the calls one tunnel makes; [turns] is the history of the
    established loop. *)
Record TunnelEnv : Type := {
  t_lease_valid : bool; t_deployment : Uuid;
  binding : Uuid -> Uuid -> Z -> result RelayError bytes;
  t_nonce : bytes;
  reserve : result RelayError unit; claim : result RelayError Z;
  install : result RelayError unit;
  started : Z; turns : list Turn;
  decision : result RelayError OwnerReleaseDecision; release : result RelayError unit;
}.

Definition tunnel_statement (env : TunnelEnv) (deployment machine relay connection : Uuid)
    (revision : Z) : bytes :=
  Server.signature_message Tunnel deployment machine relay (Some connection) revision
    (t_nonce env).

Definition claim_reserved_owner (env : TunnelEnv) : relay_session Z :=
  lift (reserve env) ;;
  log ClaimReserved ;;
  match claim env with
  | Ok epoch => log (OwnerClaimed epoch) ;; mret epoch
  | Err e => log PendingFinished ;; lift (Err e)
  end.

Definition release_owner (env : TunnelEnv) (epoch : Z) : relay_session (result RelayError unit) :=
  log (ReleaseCalled epoch) ;; mret (release env).

(** The loop; once nothing happens any more the inbound deadline ends it. *)
Definition run_established (env : TunnelEnv) : relay_session unit :=
  let '(_, e, flow) := run_tunnel (new_mux (started env)) (turns env) in
  effects (e, match flow with Return r => r | Continue => Err Unavailable end).

Definition complete_tunnel_owner_cleanup (env : TunnelEnv) (epoch : Z) : relay_session unit :=
  decision ← lift (decision env);
  released ← match decision with Defer => mret (Ok tt) | Release => release_owner env epoch end;
  log CleanupComplete ;;
  match decision with Defer => mret tt | Release => log ReleaseFinished end ;;
  lift released.

(** From the claim on: install the handle, run, and give the machine back. *)
Definition own_tunnel (env : TunnelEnv) (epoch : Z) : relay_session unit :=
  match install env with
  | Err e =>
      log DispatchClosed ;;
      released ← release_owner env epoch;
      log PendingFinished ;;
      lift released ;;
      lift (Err e)
  | Ok _ =>
      outcome ← attempt (send (TunnelEstablished epoch) ;; run_established env);
      log DispatchClosed ;;
      complete_tunnel_owner_cleanup env epoch ;;
      lift outcome
  end.

Definition tunnel (env : TunnelEnv) : relay_session unit :=
  lift (fail_if (negb (t_lease_valid env)) Fenced) ;;
  f ← receive;
  match f with
  | TunnelHello version deployment machine relay connection revision =>
      if negb (version =? VERSION) then send_error Protocol
      else
      key ← lift (binding env machine relay revision);
      if negb (deployment =? t_deployment env) then send_error InvalidState
      else
      send (Challenge Tunnel (b64_encode (t_nonce env))) ;;
      f ← receive;
      signature ←
        match f with Signature value => lift (decode_signature value) | _ => send_error Protocol end;
      lift (verify_signature key signature
              (tunnel_statement env deployment machine relay connection revision)) ;;
      log PermitsDropped ;;
      epoch ← claim_reserved_owner env;
      own_tunnel env epoch
  | _ => send_error Protocol
  end.

Definition tunnel_task (fence : option nat) (env : TunnelEnv) : relay_session (option unit) :=
  or_fenced fence (tunnel env).

Lemma may_fenced {A} fence (m : relay_session A) l r :
  may (or_fenced fence m) l r ->
  exists full r', may m full r'
  /\ (l = full /\ r = Some <$> r' \/ fence <> None /\ r = Ok None /\ exists lost, full = l ++ lost).
Proof.
  intros (s & s' & H). unfold or_fenced in H. destruct (m s) as [[s1 full] r'] eqn:E.
  exists full, r'. split; [by eapply may_run |].
  destruct fence as [n|]; [destruct (n <=? length full)%nat |]; injection H as _ <- <-; [right | by left..].
  split; [done |]. split; [done |]. exists (list.drop n full). by rewrite take_drop.
Qed.

(** What belongs to the end of a tunnel. *)
Definition sends (ev : Event) : bool := match ev with Did (Sent _) => true | _ => false end.

Lemma established_log env epoch l r :
  may (send (TunnelEstablished epoch) ;; run_established env) l r ->
  exists xs, l = Did <$> xs.
Proof.
  unfold run_established, send. destruct (run_tunnel _ _) as [[m e] flow]. intros H.
  session_step H.
  - session_step H; [by apply may_fate in H as [_ [? ?]] |].
    apply may_effects in H as [-> _]. apply may_fate in Hs as [-> _]. by eexists.
  - apply may_effects in H as [-> _]. session_step Hs. apply may_fate in Hs0 as [-> _].
    apply may_effects in Hs as [-> _]. cbn [app]. rewrite <- fmap_app. by eexists.
Qed.

Definition after_close (ev : Event) : bool :=
  negb (sends ev) && negb (is_claim ev) && negb (reserves ev) && negb (closes ev).
Definition running_event (ev : Event) : bool :=
  negb (is_claim ev) && negb (reserves ev) && negb (closes ev).

Lemma may_release_bind env epoch (f : result RelayError unit -> relay_session unit) l r :
  may (release_owner env epoch ≫= f) l r ->
  exists l', l = ReleaseCalled epoch :: l' /\ may (f (release env)) l' r.
Proof.
  unfold release_owner. intros [(e & H & _) | (x & l1 & l2 & H & Hf & ->)]%may_bind.
  - apply may_log_bind in H as (? & _ & [_ [=]]%may_ret).
  - apply may_log_bind in H as (? & -> & [-> [= ->]]%may_ret). eauto.
Qed.

Lemma cleanup_settles env epoch l r :
  may (complete_tunnel_owner_cleanup env epoch) l r ->
  Forall (fun ev => after_close ev = true) l
  /\ (ReleaseCalled epoch ∈ l \/ decision env <> Ok Release)
  /\ (r = Ok tt -> CleanupComplete ∈ l).
Proof.
  unfold complete_tunnel_owner_cleanup.
  intros [([|] & Hd & H) | (e & Hd & -> & ->)]%may_lift_bind; rewrite Hd.
  - apply may_ret_bind, may_log_bind in H as (l1 & -> & H).
    apply may_ret_bind, may_lift in H as [-> ->]. split_and!; [by repeat constructor | by right | set_solver].
  - apply may_release_bind in H as (l1 & -> & H). apply may_log_bind in H as (l2 & -> & H).
    apply may_log_bind in H as (l3 & -> & [-> ->]%may_lift).
    split_and!; [by repeat constructor | left; set_solver | set_solver].
  - split_and!; [constructor | by right | done].
Qed.

(** Every exit of an owned tunnel closes the dispatch first, sends nothing
    afterwards, and releases the owner unless the release was refused or left
    to a transition. *)
Lemma own_tunnel_settles env epoch l r :
  may (own_tunnel env epoch) l r ->
  exists l1 l2, l = l1 ++ DispatchClosed :: l2
  /\ Forall (fun ev => running_event ev = true) l1 /\ Forall (fun ev => after_close ev = true) l2
  /\ (ReleaseCalled epoch ∈ l2 \/ install env = Ok tt /\ decision env <> Ok Release).
Proof.
  unfold own_tunnel. intros H. destruct (install env) as [[]|e].
  - apply may_attempt_bind in H as (outcome & l1 & l2 & Hrun & H & ->).
    apply may_log_bind in H as (l3 & -> & H). exists l1, l3. split; [done |].
    apply established_log in Hrun as [xs ->].
    split; [by apply Forall_fmap, Forall_true |].
    apply may_bind in H as [(e & H & _) | (u & l4 & l5 & H & Hl & ->)];
      apply cleanup_settles in H as (Hl4 & Hrel & _).
    + tauto.
    + apply may_lift in Hl as [-> _]. rewrite app_nil_r. tauto.
  - apply may_log_bind in H as (l1 & -> & H). apply may_release_bind in H as (l2 & -> & H).
    apply may_log_bind in H as (l3 & -> & H).
    assert (l3 = []) as ->.
    { apply may_lift_bind in H as [(? & _ & H) | (? & _ & -> & _)]; [| done].
      by apply may_lift in H as [-> _]. }
    exists [], [ReleaseCalled epoch; PendingFinished].
    split_and!; [done | constructor | by repeat constructor | left; set_solver].
Qed.

(** What is known when an owner is claimed. *)
Definition claim_proved (env : TunnelEnv) (l : list Event) : Prop :=
  exists machine relay connection revision key value signature,
    Got (TunnelHello VERSION (t_deployment env) machine relay connection revision) ∈ l
    /\ binding env machine relay revision = Ok key
    /\ Out (Challenge Tunnel (b64_encode (t_nonce env))) ∈ l
    /\ Got (Signature value) ∈ l /\ decode_signature value = Ok signature
    /\ key_valid key = true
    /\ verifies key (tunnel_statement env (t_deployment env) machine relay connection revision)
         signature = true
    /\ reserve env = Ok tt.

Lemma claim_shape env l r :
  may (claim_reserved_owner env) l r ->
  (l = [] /\ exists e, r = Err e)
  \/ reserve env = Ok tt
     /\ ((l = [ClaimReserved; PendingFinished] /\ exists e, claim env = Err e /\ r = Err e)
         \/ exists epoch, l = [ClaimReserved; OwnerClaimed epoch] /\ claim env = Ok epoch
             /\ r = Ok epoch).
Proof.
  unfold claim_reserved_owner.
  intros [([] & Hres & H) | (e & _ & -> & ->)]%may_lift_bind; [| left; eauto].
  right. split; [done |].
  apply may_log_bind in H as (l1 & -> & H). destruct (claim env) as [epoch|e];
    apply may_log_bind in H as (l2 & -> & H).
  - apply may_ret in H as [-> ->]. right. eauto.
  - apply may_lift in H as [-> ->]. left. eauto.
Qed.

(** What follows the reservation of a claim. *)
Definition reserved_tail (env : TunnelEnv) (rest : list Event) (r : result RelayError unit) : Prop :=
  (rest = [PendingFinished] /\ exists e, claim env = Err e /\ r = Err e)
  \/ exists epoch post, rest = OwnerClaimed epoch :: post /\ claim env = Ok epoch
     /\ may (own_tunnel env epoch) post r.

Lemma claim_bind env l r :
  may (epoch ← claim_reserved_owner env; own_tunnel env epoch) l r ->
  (l = [] /\ exists e, r = Err e)
  \/ reserve env = Ok tt /\ exists rest, l = ClaimReserved :: rest /\ reserved_tail env rest r.
Proof.
  intros [(e & H & ->) | (epoch & lc & post & H & Hown & ->)]%may_bind;
    apply claim_shape in H as [[-> [e' He]] | (Hres & [(-> & e' & Hc & He) | (epoch' & -> & Hc & He)])];
    try discriminate He.
  - left. eauto.
  - right. split; [done |]. eexists. split; [done |]. left. injection He as <-. eauto.
  - injection He as <-. right. split; [done |]. eexists. split; [reflexivity |]. right. eauto.
Qed.

Lemma tunnel_shape env l r :
  may (tunnel env) l r ->
  (Forall (fun x => plain x = true) l /\ exists e, r = Err e)
  \/ exists pre rest,
       l = pre ++ ClaimReserved :: rest /\ Forall (fun x => plain x = true) pre
       /\ claim_proved env pre /\ reserved_tail env rest r.
Proof.
  unfold tunnel. intros H. continue_step H. continue_step H.
  apply may_receive_Ok in Hs0 as Hhello.
  destruct a0 as [| | | | | version deployment machine relay connection revision | | | | |];
    try (left; split; [plain_logs | destruct r; [by apply may_send_error in H | eauto]]).
  destruct (Z.eqb_spec version VERSION) as [-> |]; cbn [negb] in H;
    [| left; split; [plain_logs | destruct r; [by apply may_send_error in H | eauto]]].
  continue_step H. rename a0 into key. apply may_lift in Hs1 as Hkey.
  destruct (Z.eqb_spec deployment (t_deployment env)) as [-> |]; cbn [negb] in H;
    [| left; split; [plain_logs | destruct r; [by apply may_send_error in H | eauto]]].
  continue_step H. continue_step H. continue_step H.
  match type of Hs4 with may _ _ (Ok ?x) => rename x into signature end.
  match type of Hs3 with may _ _ (Ok ?x) => rename x into f end.
  apply may_send_Ok in Hs2 as Hchallenge. apply may_receive_Ok in Hs3 as Hsigned.
  assert (exists value, decode_signature value = Ok signature /\ f = Signature value)
    as (value & Hvalue & ->).
  { destruct f; try (by apply may_send_error in Hs4). apply may_lift in Hs4 as [_ Hs4]. eauto. }
  continue_step H. continue_step H.
  apply may_lift in Hs5 as Hverify. destruct Hverify as [_ Hverify].
  apply eq_sym, verify_signature_Ok in Hverify as [Hvalid Hverify].
  destruct Hkey as [_ Hkey].
  apply claim_bind in H as [(-> & e & ->) | (Hres & rest & -> & Htail)].
  { left. split; [| eauto]. repeat (apply Forall_app; split); try plain_logs. done. }
  right. eexists _, rest. split; [rewrite !app_assoc; reflexivity |]. rewrite <- !app_assoc.
  split; [repeat (apply Forall_app; split); try plain_logs; by repeat constructor |].
  split; [| done].
  exists machine, relay, connection, revision, key, value, signature.
  split_and!; try done; subst; try in_log.
Qed.

(** The log around a reservation and around a claim. *)
Lemma reserved_once env rest r :
  reserved_tail env rest r -> Forall (fun ev => reserves ev = false) rest.
Proof.
  intros [[-> _] | (epoch & post & -> & _ & Hown)]; [by repeat constructor |].
  apply own_tunnel_settles in Hown as (running & closing & -> & Hrun & Hclose & _).
  constructor; [done |]. apply Forall_app. split; [| constructor; [done |]];
    (eapply Forall_impl; [eassumption |]); intros x; unfold running_event, after_close;
    intros; by split_bools.
Qed.

(** Every exit of the tunnel itself closes and releases. *)
Definition given_back (env : TunnelEnv) (epoch : Z) (after : list Event) : Prop :=
  exists running closing, after = running ++ DispatchClosed :: closing
  /\ (ReleaseCalled epoch ∈ closing \/ install env = Ok tt /\ decision env <> Ok Release).

Lemma own_tunnel_prefix env epoch after lost r :
  may (own_tunnel env epoch) (after ++ lost) r ->
  Forall (fun ev => is_claim ev = false) after
  /\ (forall running closing, after = running ++ DispatchClosed :: closing ->
       Forall (fun ev => sends ev = false) closing)
  /\ (lost = [] -> given_back env epoch after).
Proof.
  intros (run & close & Heq & Hrun & Hclose & Hrel)%own_tunnel_settles.
  assert (Forall (fun ev => is_claim ev = false) (after ++ lost)) as Hno.
  { rewrite Heq. apply Forall_app. split; [| constructor; [done |]];
      (eapply Forall_impl; [eassumption |]); intros x; unfold running_event, after_close;
      intros; by split_bools. }
  apply Forall_app in Hno as [Hno _]. split; [done |]. split.
  - intros running closing ->. rewrite <- app_assoc in Heq. cbn [app] in Heq.
    apply (split_at_unique closes) in Heq as (_ & _ & Hc); [| done | |].
    + apply (Forall_app _ closing lost). rewrite Hc. eapply Forall_impl; [exact Hclose |].
      unfold after_close. intros. by split_bools.
    + eapply Forall_impl; [exact Hrun |]. unfold running_event. intros. by split_bools.
    + eapply Forall_impl; [exact Hclose |]. unfold after_close. intros. by split_bools.
  - intros ->. rewrite app_nil_r in Heq. by exists run, close.
Qed.

(** C12. A tunnel owns its machine only after proof, and gives it back on every
    exit of its own.  Whatever the Relay sends, whatever fails and wherever
    the fence of the node drops the task: at most one claim is begun; before
    it the log holds a hello of version 1 for this deployment, the challenge,
    and a signature that verifies, under the key bound to exactly that
    machine, Relay and revision, over the statement that also names the
    connection and the fresh nonce; once the dispatch is closed nothing is
    sent to the Relay any more; and a tunnel that was told of its ownership
    closes the dispatch and releases the exact owner epoch, unless the
    registry refused or a lifecycle transition took the release over.  The one
    exception is the task that the fence drops: it neither closes nor
    releases, and its row is left to the end of the lease that the node has
    lost. *)
Theorem tunnel_owns_only_proved (env : TunnelEnv) (fence : option nat) (l : list Event)
    (r : result RelayError (option unit)) (Hrun : may (tunnel_task fence env) l r) :
  (forall before after, l = before ++ ClaimReserved :: after ->
     claim_proved env before /\ Forall (fun ev => reserves ev = false) after)
  /\ (forall before after epoch, l = before ++ OwnerClaimed epoch :: after ->
     claim env = Ok epoch /\ (exists before', before = before' ++ [ClaimReserved])
     /\ Forall (fun ev => is_claim ev = false) after
     /\ (forall running closing, after = running ++ DispatchClosed :: closing ->
          Forall (fun ev => sends ev = false) closing)
     /\ (given_back env epoch after \/ fence <> None /\ r = Ok None)).
Proof.
  apply may_fenced in Hrun as (full & r' & Hrun & Hcut).
  assert (exists lost, full = l ++ lost /\ (lost = [] \/ fence <> None /\ r = Ok None))
    as (lost & -> & Hlost).
  { destruct Hcut as [[-> _] | (? & ? & lost & ->)]; [exists [] | exists lost]; rewrite ?app_nil_r; auto. }
  clear Hcut. apply tunnel_shape in Hrun as [[Hl _] | (pre & rest & Hl & Hpre & Hproved & Htail)].
  { apply Forall_app in Hl as [Hl _]. split; intros before after; [| intros epoch]; intros ->;
      apply Forall_app in Hl as [_ [Hl _]%Forall_cons]; done. }
  split.
  - intros before after ->. rewrite <- app_assoc in Hl. cbn [app] in Hl.
    apply (split_at_unique reserves) in Hl as (-> & _ & Hrest); [| done | | by eapply reserved_once].
    + split; [done |]. apply reserved_once in Htail. rewrite <- Hrest in Htail.
      by apply Forall_app in Htail as [? _].
    + eapply Forall_impl; [exact Hpre |]. intros x. by apply plain_kinds.
  - intros before after epoch ->. rewrite <- app_assoc in Hl. cbn [app] in Hl.
    assert (Forall (fun ev => is_claim ev = false) (pre ++ [ClaimReserved])) as Hbefore.
    { apply Forall_app. split; [| by repeat constructor].
      eapply Forall_impl; [exact Hpre |]. intros x. by apply plain_kinds. }
    destruct Htail as [[-> _] | (epoch' & post & -> & Hclaim & Hown)].
    { exfalso. assert (Forall (fun ev => is_claim ev = false) (before ++ OwnerClaimed epoch :: after ++ lost))
        as [_ [[=] _]%Forall_cons]%Forall_app.
      rewrite Hl. change (ClaimReserved :: [PendingFinished]) with ([ClaimReserved] ++ [PendingFinished]).
      rewrite app_assoc. apply Forall_app. split; [done | by repeat constructor]. }
    change (ClaimReserved :: OwnerClaimed epoch' :: post)
      with ([ClaimReserved] ++ OwnerClaimed epoch' :: post) in Hl. rewrite app_assoc in Hl.
    assert (Forall (fun ev => is_claim ev = false) post) as Hpost.
    { rewrite <- (app_nil_r post) in Hown. by apply own_tunnel_prefix in Hown as [? _]. }
    apply (split_at_unique is_claim) in Hl as (-> & [= ->] & <-); try done.
    apply own_tunnel_prefix in Hown as (Hno & Hsend & Hback).
    split_and!; try done; [eauto |]. destruct Hlost as [-> | ?]; auto.
Qed.

End sessions.

(** ** A concrete enrollment and a concrete tunnel *)

(** A codec for one script: the [i]-th frame of [frames] is the one-byte text [i]. *)
Definition script_codec (frames : list ClientFrame) : FrameCodec :=
  {| print_server := fun _ => Some []; parse_server := fun _ => None;
     print_client := fun _ => None;
     parse_client := fun t => match t with [c] => frames !! Z.to_nat (bval c) | _ => None end |}.
Definition script (frames : list ClientFrame) : Script :=
  {| inbox := map (fun i => Some (Received (TextMessage [byte_of (Z.of_nat i)])))
       (seq 0 (length frames));
     fates := [] |}.
Definition toy_keys : SshKeys :=
  {| PublicKey := bytes; from_openssh := Some; is_ed25519 := fun _ => true;
     to_openssh := Some; fingerprint_of := fun k => k |}.
Definition toy_ed25519 : Ed25519 :=
  {| signature_from_slice := Some; key_valid := fun _ => true;
     verifies := fun key message signature => bool_decide (signature = key ++ message) |}.

Definition sample_key : bytes := repeat "005"%byte 32.
Definition sample_accepted : AcceptedEnrollment :=
  {| ae_deployment_id := 1; ae_machine_id := 2; ae_attempt_id := 3; ae_route_revision := 4;
     ae_target_account := lit "owl"; ae_host_identity := Some (lit "host") |}.
Definition sample_enrollment : EnrollmentEnv :=
  {| lease_valid := true; accepted := Ok sample_accepted;
     credential := Some (Some (Credential 6 [] [] [])); lease_after_query := true;
     nonce := repeat "009"%byte 32; discovery := []; proof := [OperationDone (Ok tt)];
     activation := Ok tt; deadline := None |}.
Definition enrollment_frames : list ClientFrame :=
  [Token (lit "t"); Setup 1 7 sample_key LOOPBACK (lit "owl"); Ready;
   Signature (sample_key ++ enrollment_statement sample_enrollment sample_accepted 7);
   ClientStreamOpened 1; ClientStreamClosed 1 Eof].
Definition run_sample (env : EnrollmentEnv) : Script * list Event * result RelayError unit :=
  @enrollment plain_base64 (script_codec enrollment_frames) toy_keys toy_ed25519 env
    (script enrollment_frames).

Lemma enrollment_activates_only_proved_witness :
  snd (run_sample sample_enrollment) = Ok tt
  /\ TokenAccepted sample_accepted ∈ list.take 15 (snd (fst (run_sample sample_enrollment))).
Proof.
  split; [by vm_compute |].
  refine (proj1 (proj2 (enrollment_activates_only_proved (Hbase := plain_base64)
    (Hcodec := script_codec enrollment_frames) (Hkeys := toy_keys) (Hed := toy_ed25519)
    sample_enrollment (snd (fst (run_sample sample_enrollment))) _
    (list.drop 16 (snd (fst (run_sample sample_enrollment)))) (Ok tt) sample_accepted 7 sample_key
    (lit "host") _ _))).
  - exists (script enrollment_frames), (fst (fst (run_sample sample_enrollment))). by vm_compute.
  - by vm_compute.
Defined.

(** The strict proof fails: the attempt is failed. *)
Definition unproved_enrollment : EnrollmentEnv :=
  {| lease_valid := true; accepted := Ok sample_accepted;
     credential := Some (Some (Credential 6 [] [] [])); lease_after_query := true;
     nonce := repeat "009"%byte 32; discovery := []; proof := [OperationDone (Err SshProofFailed)];
     activation := Ok tt; deadline := None |}.

Lemma enrollment_settles_witness :
  snd (run_sample unproved_enrollment) = Err ProofFailed
  /\ exists acc l', snd (fst (run_sample unproved_enrollment)) = l' ++ [FailAttemptCalled acc].
Proof.
  split; [by vm_compute |].
  assert (@may Event RelayError unit (@enrollment plain_base64 (script_codec enrollment_frames)
            toy_keys toy_ed25519 unproved_enrollment)
            (snd (fst (run_sample unproved_enrollment))) (Err ProofFailed)) as Hrun.
  { exists (script enrollment_frames), (fst (fst (run_sample unproved_enrollment))). by vm_compute. }
  destruct (enrollment_settles (Hbase := plain_base64) (Hcodec := script_codec enrollment_frames)
    (Hkeys := toy_keys) (Hed := toy_ed25519) _ _ _ Hrun) as [[Hno _] | (acc & l' & _ & Hl & _)].
  - exfalso. apply (Hno sample_accepted). clear. by vm_compute; right; left.
  - by exists acc, l'.
Defined.

Definition sample_tunnel : TunnelEnv :=
  {| t_lease_valid := true; t_deployment := 1; binding := fun _ _ _ => Ok sample_key;
     t_nonce := repeat "009"%byte 32; reserve := Ok tt; claim := Ok 12; install := Ok tt;
     started := 0; turns := [command_turn true]; decision := Ok Release; release := Ok tt |}.
Definition tunnel_frames : list ClientFrame :=
  [TunnelHello 1 1 2 7 8 4; Signature (sample_key ++ tunnel_statement sample_tunnel 1 2 7 8 4)].
Definition run_tunnel_sample : Script * list Event * result RelayError unit :=
  @tunnel plain_base64 (script_codec tunnel_frames) toy_ed25519 sample_tunnel (script tunnel_frames).

(** The same tunnel, completed and dropped by the fence after its open. *)
Definition fenced_tunnel_sample : Script * list Event * result RelayError (option unit) :=
  @tunnel_task plain_base64 (script_codec tunnel_frames) toy_ed25519 (Some 9%nat) sample_tunnel
    (script tunnel_frames).

Lemma tunnel_owns_only_proved_witness :
  list.drop 5 (snd (fst run_tunnel_sample))
  = [OwnerClaimed 12; Out (TunnelEstablished 12); Did (Spawned 1); Out (OpenStream 1);
     Did (Answered (Ok 1)); DispatchClosed; ReleaseCalled 12; CleanupComplete; ReleaseFinished]
  /\ given_back sample_tunnel 12 (list.drop 6 (snd (fst run_tunnel_sample)))
  /\ snd fenced_tunnel_sample = Ok None
  /\ @claim_proved plain_base64 toy_ed25519 sample_tunnel (list.take 4 (snd (fst fenced_tunnel_sample))).
Proof.
  split; [by vm_compute |]. split; [| split; [by vm_compute |]].
  - destruct (tunnel_owns_only_proved (Hbase := plain_base64) (Hcodec := script_codec tunnel_frames)
      (Hed := toy_ed25519) sample_tunnel None (snd (fst run_tunnel_sample))
      (Some <$> snd run_tunnel_sample)) as [_ Hown].
    + exists (script tunnel_frames), (fst (fst run_tunnel_sample)). by vm_compute.
    + destruct (Hown (list.take 5 (snd (fst run_tunnel_sample)))
        (list.drop 6 (snd (fst run_tunnel_sample))) 12) as (_ & _ & _ & _ & [Hb | [[] _]]);
        [by vm_compute | exact Hb | done].
  - destruct (tunnel_owns_only_proved (Hbase := plain_base64) (Hcodec := script_codec tunnel_frames)
      (Hed := toy_ed25519) sample_tunnel (Some 9%nat) (snd (fst fenced_tunnel_sample))
      (snd fenced_tunnel_sample)) as [Hres _].
    + exists (script tunnel_frames), (fst (fst fenced_tunnel_sample)). by vm_compute.
    + by apply (Hres _ (list.drop 5 (snd (fst fenced_tunnel_sample)))); vm_compute.
Defined.
