(* ===== verification/RelayClient.v ===== *)
(** * RelayClient: the Relay process

    Models [crates/owlmux-relay/src/main.rs]: its options, the token, the host
    key confirmation, the enrollment conversation, the tunnel handshake and
    the loop of an established tunnel.  The terminal, the local SSH port and
    the websocket are inputs; the identity file is RelayState's. *)

From S2P Require Import Prelude Text Secrets RelayProtocol Wire Session Ssh RelayState.

Inductive RelayError : Type :=
| Input | StateMessage (text : bytes) | StateFile (e : StateError) | Protocol | Transport
| Remote (code : bytes).
Global Instance RelayError_eq_dec : EqDecision RelayError.
Proof. solve_decision. Defined.

(** Times in seconds. *)
Definition TUNNEL_INBOUND_TIMEOUT : Z := 45.

(** ** Options *)

Inductive Command : Type := Start | Enroll | Run | Reset.
Global Instance Command_eq_dec : EqDecision Command.
Proof. solve_decision. Defined.

Record Options : Type := {
  command : Command; server : option bytes; state_path : bytes; account : option bytes;
  confirm_ready : bool; expected_host_key_sha256 : option bytes;
}.

(** The options as they are collected. *)
Record Parsed : Type := {
  p_server : option bytes; p_state : option bytes; p_account : option bytes; p_ready : bool;
  p_expected : option bytes;
}.
Definition nothing_parsed : Parsed :=
  {| p_server := None; p_state := None; p_account := None; p_ready := false; p_expected := None |}.

Definition is_some {A} (o : option A) : bool := match o with Some _ => true | None => false end.

Definition validate_command_options (command : Command) (server account : option bytes)
    (confirm_ready : bool) (expected : option bytes) : result bytes unit :=
  match command with
  | Start => if negb (is_some server) then Err (lit "--server is required for start") else Ok tt
  | Enroll =>
      if negb (is_some server) then Err (lit "--server is required for enrollment")
      else if negb (is_some account) then Err (lit "--account is required for enrollment")
      else Ok tt
  | Run =>
      if negb (is_some server) then Err (lit "--server is required for run")
      else if is_some account || confirm_ready || is_some expected
      then Err (lit "run accepts only --server and --state") else Ok tt
  | Reset =>
      if is_some server || is_some account || confirm_ready || is_some expected
      then Err (lit "reset accepts only --state") else Ok tt
  end.

(** The option loop; the last occurrence of an option counts. *)
Fixpoint parse_arguments (fuel : nat) (arguments : list bytes) (p : Parsed)
    : result bytes Parsed :=
  match fuel, arguments with
  | _, [] => Ok p
  | O, _ => Ok p
  | S fuel, argument :: rest =>
      if bool_decide (argument = lit "--confirm-ready")
      then parse_arguments fuel rest
             {| p_server := p_server p; p_state := p_state p; p_account := p_account p;
                p_ready := true; p_expected := p_expected p |}
      else match rest with
      | [] => Err (lit "option value is missing")
      | value :: rest =>
          if bool_decide (argument = lit "--server")
          then parse_arguments fuel rest
                 {| p_server := Some value; p_state := p_state p; p_account := p_account p;
                    p_ready := p_ready p; p_expected := p_expected p |}
          else if bool_decide (argument = lit "--state")
          then parse_arguments fuel rest
                 {| p_server := p_server p; p_state := Some value; p_account := p_account p;
                    p_ready := p_ready p; p_expected := p_expected p |}
          else if bool_decide (argument = lit "--account")
          then parse_arguments fuel rest
                 {| p_server := p_server p; p_state := p_state p; p_account := Some value;
                    p_ready := p_ready p; p_expected := p_expected p |}
          else if bool_decide (argument = lit "--expected-host-key-sha256")
          then parse_arguments fuel rest
                 {| p_server := p_server p; p_state := p_state p; p_account := p_account p;
                    p_ready := p_ready p; p_expected := Some value |}
          else Err (lit "unknown option: " ++ argument)
      end
  end.

(** [str::trim_end_matches] of one byte. *)
Definition trim_end_matches (p : byte -> bool) (v : bytes) : bytes :=
  rev ((fix strip (w : bytes) : bytes :=
          match w with c :: w' => if p c then strip w' else w | [] => [] end) (rev v)).

Definition server_origin_ok (value : bytes) : bool :=
  (starts_with (lit "ws://") value || starts_with (lit "wss://") value)
  && negb (bool_decide ("?"%byte ∈ value)) && negb (bool_decide ("#"%byte ∈ value)).

(** [parse_options] on the arguments after the program's name; [None] stands
    for the exits of [--help] and [--version]. *)
Definition parse_options (arguments : list bytes) : option (result bytes Options) :=
  match arguments with
  | [] => None
  | word :: rest =>
      if bool_decide (word ∈ [lit "--version"; lit "-V"; lit "--help"; lit "-h"]) then None
      else Some (
        command ←
          (if bool_decide (word = lit "start") then Ok Start
           else if bool_decide (word = lit "enroll") then Ok Enroll
           else if bool_decide (word = lit "run") then Ok Run
           else if bool_decide (word = lit "reset") then Ok Reset
           else Err (lit "expected start, enroll, run, or reset"));
        p ← parse_arguments (length rest) rest nothing_parsed;
        fail_if (match p_server p with Some value => negb (server_origin_ok value) | None => false end)
          (lit "--server must be a ws:// or wss:// origin") ;;
        validate_command_options command (p_server p) (p_account p) (p_ready p) (p_expected p) ;;
        path ← ok_or (lit "--state is required") (p_state p);
        Ok {| command := command;
              server := trim_end_matches (fun c => bool_decide (c = "/"%byte)) <$> p_server p;
              state_path := path; account := p_account p; confirm_ready := p_ready p;
              expected_host_key_sha256 := p_expected p |})
  end.

(** ** Framing *)

Section client.
Context `{Hbase : Base64} `{Hcodec : FrameCodec} `{Hkeys : SshKeys}.

Definition decode_frame (m : Message) : result RelayError ServerFrame :=
  match m with
  | OtherMessage => Err Protocol
  | TextMessage text =>
      if MAX_FRAME_BYTES <? zlen text then Err Protocol else ok_or Protocol (parse_server text)
  end.

Definition receive_frame (i : option Incoming) : result RelayError ServerFrame :=
  match i with
  | Some (Received m) => decode_frame m
  | _ => Err Transport
  end.

Inductive Effect : Type :=
| Sent (f : ClientFrame)
| Connected (stream : Z)
| Wrote (stream : Z) (data : bytes)
| ShutDown (stream : Z).

Definition send_frame (f : ClientFrame) (fate : SendFate) : list Effect * result RelayError unit :=
  match print_client f with
  | None => ([], Err Protocol)
  | Some encoded =>
      if MAX_FRAME_BYTES <? zlen encoded then ([], Err Protocol)
      else match fate with
      | Delivered => ([Sent f], Ok tt)
      | Dropped => ([], Err Transport)
      | DeliveredUnseen => ([Sent f], Err Transport)
      end
  end.

Definition write_data (stream : Z) (data : bytes) (taken : option nat)
    : list Effect * result RelayError unit :=
  match b64_decode data with
  | None => ([], Err Protocol)
  | Some decoded =>
      if MAX_DATA_BYTES <? zlen decoded then ([], Err Protocol)
      else match taken with
           | None => ([Wrote stream decoded], Ok tt)
           | Some n => ([Wrote stream (take n decoded)], Err Transport)
           end
  end.

(** One iteration of the task of [spawn_target_reader]. *)
Definition target_reader (stream : Z) (r : ReadOutcome) : ClientFrame * bool :=
  match r with
  | ReadEof => (ClientStreamHalfClosed stream, false)
  | ReadBytes chunk => (ClientStreamData stream (b64_encode chunk), true)
  | ReadError => (ClientStreamClosed stream Shutdown, false)
  end.

Definition decode_32 (value : bytes) : result RelayError bytes :=
  map_err (fun _ => Protocol) (decode_canonical_32 value).

(** ** The terminal *)

(** [read_token] on what was typed or piped ([None]: reading failed); a pipe
    is read up to 128 bytes. *)
Definition read_token (terminal : bool) (input : option bytes) : result RelayError bytes :=
  value ← ok_or Input input;
  value ← (if terminal then Ok value else ok_or Input (from_utf8 (take 128 value)));
  let value := trim_end_matches (fun c => bool_decide (c ∈ ["013"; "010"]%byte)) value in
  if negb (starts_with (lit "owlmux_enroll_v1_") value) || (80 <? zlen value)
  then Err Input else Ok value.

Definition is_exact_yes (response : bytes) : bool :=
  bool_decide (response ∈ [lit "yes"; lit "yes" ++ ["010"%byte];
                           lit "yes" ++ ["013"; "010"]%byte]).

Definition confirm_host_key (terminal : bool) (response : option bytes)
    (host_identity advertised : bytes) (expected : option bytes) : result RelayError unit :=
  '(algorithm, encoded, more) ←
    match split_ascii_whitespace host_identity with
    | algorithm :: encoded :: more => Ok (algorithm, encoded, more)
    | _ => Err Protocol
    end;
  fail_if (negb (bool_decide (more = []))
           || negb (bool_decide (algorithm ++ lit " " ++ encoded = host_identity))) Protocol ;;
  key ← ok_or Protocol (from_openssh host_identity);
  fail_if (negb (is_ed25519 key)) Protocol ;;
  fail_if (negb (bool_decide (fingerprint_of key = advertised))) Protocol ;;
  match expected with
  | Some fingerprint =>
      fail_if (negb (bool_decide (fingerprint = fingerprint_of key)))
        (StateMessage (lit "discovered SSH host-key fingerprint does not match the expected fingerprint"))
  | None =>
      fail_if (negb terminal)
        (StateMessage (lit "SSH host-key confirmation requires --expected-host-key-sha256 in non-interactive mode")) ;;
      answer ← ok_or Input response;
      fail_if (negb (is_exact_yes answer)) (StateMessage (lit "SSH host key was not accepted"))
  end.

(** [response.trim()] is one of these words: exactly when the response
    consists of that one word. *)
Definition trimmed_yes (response : bytes) : bool :=
  match split_whitespace response with
  | [word] => bool_decide (word ∈ [lit "y"; lit "Y"; lit "yes"; lit "YES"])
  | _ => false
  end.

Definition confirm_target_authorization (f : ServerFrame) (confirmed terminal : bool)
    (response : option bytes) : result RelayError unit :=
  match f with
  | Credential _ _ _ _ =>
      if confirmed then Ok tt
      else
        fail_if (negb terminal)
          (StateMessage (lit "target authorization confirmation requires --confirm-ready in non-interactive mode")) ;;
        answer ← ok_or Input response;
        fail_if (negb (trimmed_yes answer))
          (StateMessage (lit "target authorization was not confirmed"))
  | _ => Err Protocol
  end.

(** ** The loop of an established tunnel *)

Record Targets : Type := { targets : gset Z; inbound_deadline : Z }.
Definition new_targets (now : Z) : Targets :=
  {| targets := ∅; inbound_deadline := now + TUNNEL_INBOUND_TIMEOUT |}.
Definition set_targets (t : Targets) (x : gset Z) : Targets :=
  {| targets := x; inbound_deadline := inbound_deadline t |}.

(** The branch the (unbiased) [select!] takes. *)
Inductive Branch : Type :=
| OnCtrlC (ok : bool)
| OnOutbound (f : ClientFrame)
| OnDeadline
| OnMessage (i : Incoming).

(** One turn: the branch and the answers it meets; [connected]: whether the
    loopback port accepted the connection in time. *)
Record Turn : Type := {
  branch : Branch; now : Z; connected : bool; fate : SendFate; taken : option nat;
}.

Inductive TunnelExit : Type := ExitShutdown | ExitDisconnected.
Inductive Flow : Type := Continue | Return (r : result RelayError TunnelExit).
Definition flow_of (r : result RelayError unit) : Flow :=
  match r with Ok _ => Continue | Err e => Return (Err e) end.

Definition on_frame (m : Targets) (t : Turn) (f : ServerFrame) : Targets * list Effect * Flow :=
  match f with
  | OpenStream stream =>
      if (stream =? 0) || (MAX_STREAMS <=? Z.of_nat (size (targets m)))
         || bool_decide (stream ∈ targets m)
      then (m, [], Return (Err Protocol))
      else if connected t
      then let '(sent, r) := send_frame (ClientStreamOpened stream) (fate t) in
           (set_targets m ({[stream]} ∪ targets m), Connected stream :: sent, flow_of r)
      else let '(sent, r) := send_frame (ClientStreamClosed stream ConnectFailed) (fate t) in
           (m, sent, flow_of r)
  | StreamData stream data =>
      if bool_decide (stream ∈ targets m)
      then let '(wrote, r) := write_data stream data (taken t) in (m, wrote, flow_of r)
      else (m, [], Return (Err Protocol))
  | StreamHalfClosed stream | StreamClosed stream _ =>
      if bool_decide (stream ∈ targets m)
      then (set_targets m (targets m ∖ {[stream]}), [ShutDown stream], Continue)
      else (m, [], Continue)
  | Ping nonce => let '(sent, r) := send_frame (Pong nonce) (fate t) in (m, sent, flow_of r)
  | ErrorFrame code _ => (m, [], Return (Err (Remote code)))
  | _ => (m, [], Return (Err Protocol))
  end.

Definition turn (m : Targets) (t : Turn) : Targets * list Effect * Flow :=
  match branch t with
  | OnCtrlC ok => (m, [], Return (if ok then Ok ExitShutdown else Err Transport))
  | OnOutbound f => let '(sent, r) := send_frame f (fate t) in (m, sent, flow_of r)
  | OnDeadline =>
      if inbound_deadline m <=? now t then (m, [], Return (Ok ExitDisconnected))
      else (m, [], Continue)
  | OnMessage i =>
      match i with
      | Received msg =>
          match decode_frame msg with
          | Err e => (m, [], Return (Err e))
          | Ok f =>
              on_frame {| targets := targets m;
                          inbound_deadline := now t + TUNNEL_INBOUND_TIMEOUT |} t f
          end
      | _ => (m, [], Return (Ok ExitDisconnected))
      end
  end.

Fixpoint relay_tunnel (m : Targets) (ts : list Turn) : Targets * list Effect * Flow :=
  match ts with
  | [] => (m, [], Continue)
  | t :: ts =>
      let '(m, effects, flow) := turn m t in
      match flow with
      | Return r => (m, effects, Return r)
      | Continue =>
          let '(m, later, flow) := relay_tunnel m ts in (m, effects ++ later, flow)
      end
  end.

(** [run_forever] over the outcomes of successive tunnels: [None] while it is
    still retrying. *)
Fixpoint run_forever (outcomes : list (result RelayError TunnelExit))
    : option (result RelayError unit) :=
  match outcomes with
  | [] => None
  | Ok ExitShutdown :: _ => Some (Ok tt)
  | Ok ExitDisconnected :: rest | Err Transport :: rest | Err (Remote _) :: rest =>
      run_forever rest
  | Err e :: _ => Some (Err e)
  end.

(** ** Conversations *)

Inductive Event : Type :=
| Did (x : Effect)
| Got (f : ServerFrame)
| Asked (host_identity : bytes)
| Persisted (s : RelayState)
| Signed (statement : bytes)
| HalfShut (stream : Z)
| SocketClosed.

Abbreviation client := (session Event RelayError).

Definition effects (p : list Effect * result RelayError unit) : client unit :=
  fun s => (s, Did <$> fst p, snd p).
Definition send (f : ClientFrame) : client unit := fate ← next_fate; effects (send_frame f fate).
Definition receive : client ServerFrame :=
  i ← wait; f ← lift (receive_frame i); log (Got f) ;; mret f.

(** The answers a conversation meets: the persisted writes, the terminal, the
    signer, the fresh connection id, and whether a websocket was obtained. *)
Record ClientEnv : Type := {
  token : result RelayError bytes;
  connect_enroll : bool; connect_tunnel : bool;
  persisted : result StateError unit;
  terminal : bool; ready_response : option bytes; host_response : option bytes;
  verifying_key : bytes -> bytes; signer : bytes -> bytes -> bytes;
  connection : Uuid;
}.

Definition receive_challenge : client (ChallengePurpose * bytes) :=
  f ← receive;
  match f with
  | Challenge purpose nonce => n ← lift (decode_32 nonce); mret (purpose, n)
  | ErrorFrame code _ => lift (Err (Remote code))
  | _ => lift (Err Protocol)
  end.

Definition send_signature (env : ClientEnv) (key : bytes) (purpose : ChallengePurpose)
    (deployment machine relay : Uuid) (connection : option Uuid) (revision : Z) (nonce : bytes)
    : client unit :=
  let statement := Relay.signature_message purpose deployment machine relay connection revision nonce in
  log (Signed statement) ;;
  send (Signature (b64_encode (signer env key statement))).

Definition incomplete {A} : result RelayError A :=
  Err (StateMessage (lit "Relay enrollment is incomplete")).

Definition open_tunnel (env : ClientEnv) (state : RelayState) : client (Uuid * Uuid * Z) :=
  match deployment_id state, machine_id state, route_revision state with
  | Some deployment, Some machine, Some revision =>
      key ← lift (map_err StateFile (signing_key state));
      lift (fail_if (negb (connect_tunnel env)) Transport) ;;
      send (TunnelHello VERSION deployment machine (relay_id state) (connection env) revision) ;;
      '(purpose, nonce) ← receive_challenge;
      lift (fail_if (negb (bool_decide (purpose = Tunnel))) Protocol) ;;
      send_signature env key purpose deployment machine (relay_id state)
        (Some (connection env)) revision nonce ;;
      f ← receive;
      match f with
      | TunnelEstablished epoch => mret (machine, connection env, epoch)
      | ErrorFrame code _ => lift (Err (Remote code))
      | _ => lift (Err Protocol)
      end
  | _, _, _ => lift incomplete
  end.

Definition confirm_enrollment (env : ClientEnv) (state : RelayState) : client unit :=
  open_tunnel env state ;; log SocketClosed ;; mret tt.

(** What happens at the [select!] of [enrollment_stream]. *)
Inductive StreamEvent : Type :=
| InboundReady (i : option Incoming) (connected : bool) (taken : option nat)
| OutboundReady (f : ClientFrame).

Definition outbound_stream (f : ClientFrame) : option Z :=
  match f with
  | ClientStreamData s _ | ClientStreamHalfClosed s | ClientStreamClosed s _ => Some s
  | _ => None
  end.

Definition with_revision (s : RelayState) (revision : Z) : RelayState :=
  {| protocol := protocol s; relay_id := relay_id s; secret_key := secret_key s;
     target_account := target_account s; deployment_id := deployment_id s;
     machine_id := machine_id s; route_revision := Some revision |}.

(** [state.persist(..)]. *)
Definition persist_state (env : ClientEnv) (s : RelayState) : client unit :=
  log (Persisted s) ;; lift (map_err StateFile (persisted env)).

Section stream.
Context (env : ClientEnv) (expected : option bytes) (state : RelayState).

(** [target], [next_stream_id] and [host_key_confirmed] are the loop's
    variables; the state of a successful enrollment is returned. *)
Fixpoint enrollment_stream (target : option Z) (next : Z) (confirmed : bool)
    (history : list StreamEvent) : client RelayState :=
  match history with
  | [] => lift (receive_frame None) ;; mret state
  | OutboundReady f :: rest =>
      match outbound_stream f with
      | None => lift (Err Protocol)
      | Some stream =>
          (if bool_decide (target = Some stream) then send f else mret tt) ;;
          enrollment_stream target next confirmed rest
      end
  | InboundReady i connected taken :: rest =>
      f ← lift (receive_frame i);
      log (Got f) ;;
      match f with
      | OpenStream stream =>
          if bool_decide (target = None) && (stream =? next) && (stream <=? 2)
          then
            lift (fail_if (negb connected) Transport) ;;
            next ← lift (ok_or Protocol (checked_add u32_max next 1));
            log (Did (Connected stream)) ;;
            send (ClientStreamOpened stream) ;;
            enrollment_stream (Some stream) next confirmed rest
          else lift (Err Protocol)
      | StreamData stream data =>
          if bool_decide (target = Some stream)
          then effects (write_data stream data taken) ;;
               enrollment_stream target next confirmed rest
          else lift (Err Protocol)
      | StreamHalfClosed stream =>
          if bool_decide (target = Some stream)
          then log (HalfShut stream) ;; enrollment_stream target next confirmed rest
          else lift (Err Protocol)
      | StreamClosed stream _ =>
          if bool_decide (target = Some stream)
          then log (Did (ShutDown stream)) ;;
               send (ClientStreamClosed stream Eof) ;;
               enrollment_stream None next confirmed rest
          else lift (Err Protocol)
      | HostKey host fingerprint =>
          if bool_decide (target = None) && (next =? 2) && negb confirmed
          then
            log (Asked host) ;;
            lift (confirm_host_key (terminal env) (host_response env) host fingerprint expected) ;;
            send (HostKeyAccepted host) ;;
            enrollment_stream target next true rest
          else lift (Err Protocol)
      | Activated revision =>
          if bool_decide (target = None)
          then
            persist_state env (with_revision state revision) ;;
            log SocketClosed ;;
            mret (with_revision state revision)
          else lift (Err Protocol)
      | Ping nonce => send (Pong nonce) ;; enrollment_stream target next confirmed rest
      | ErrorFrame code _ => lift (Err (Remote code))
      | _ => lift (Err Protocol)
      end
  end.
End stream.

Definition accept_state (s : RelayState) (deployment machine : Uuid) (revision : Z) : RelayState :=
  {| protocol := protocol s; relay_id := relay_id s; secret_key := secret_key s;
     target_account := target_account s; deployment_id := Some deployment;
     machine_id := Some machine; route_revision := Some revision |}.

Definition enroll (env : ClientEnv) (state : RelayState) (confirm_ready : bool)
    (expected : option bytes) (history : list StreamEvent) : client unit :=
  lift (fail_if (is_some (route_revision state)) (StateMessage (lit "Relay is already enrolled"))) ;;
  token ← lift (token env);
  lift (fail_if (negb (connect_enroll env)) Transport) ;;
  send (Token token) ;;
  f ← receive;
  '(deployment, machine, revision) ←
    match f with
    | Accepted deployment machine _ revision => mret (deployment, machine, revision)
    | ErrorFrame code _ => lift (Err (Remote code))
    | _ => lift (Err Protocol)
    end;
  let state := accept_state state deployment machine revision in
  persist_state env state ;;
  key ← lift (map_err StateFile (signing_key state));
  send (Setup VERSION (relay_id state) (b64_encode (verifying_key env key)) (lit "127.0.0.1:22")
          (target_account state)) ;;
  credential ← receive;
  lift (confirm_target_authorization credential confirm_ready (terminal env) (ready_response env)) ;;
  send Ready ;;
  '(purpose, nonce) ← receive_challenge;
  lift (fail_if (negb (bool_decide (purpose = Enrollment))) Protocol) ;;
  send_signature env key purpose deployment machine (relay_id state) None revision nonce ;;
  outcome ← attempt (enrollment_stream env expected state None 1 false history);
  match outcome with
  | Ok state => confirm_enrollment env state
  | Err Transport => confirm_enrollment env state
  | Err e => lift (Err e)
  end.

(** [run]: the four commands.  [exists_file], [loaded] and [created] are the
    answers of the identity file, [enrolled], [forever] and [reset] the
    outcomes of the conversations and of the reset. *)
Inductive Action : Type := Loads | LoadsOrCreates (account : bytes) | Enrolls | RunsForever | Resets.

Record RunEnv : Type := {
  exists_file : bool; loaded : result StateError RelayState;
  created : result StateError RelayState; enrolled : result RelayError unit;
  forever : result RelayError unit; reset : result StateError unit;
}.

Definition act (a : Action) {A} (r : result RelayError A)
    (k : A -> list Action * result RelayError unit) : list Action * result RelayError unit :=
  match r with
  | Ok x => let '(l, r') := k x in (a :: l, r')
  | Err e => ([a], Err e)
  end.

Definition not_enrolled (s : RelayState) : bool :=
  negb (is_some (deployment_id s) && is_some (machine_id s) && is_some (route_revision s)).

Definition run (o : Options) (env : RunEnv) : list Action * result RelayError unit :=
  let start_enrolling (k : unit -> list Action * result RelayError unit) :=
    act Enrolls (enrolled env) k in
  let run_on (_ : unit) := act RunsForever (forever env) (fun _ => ([], Ok tt)) in
  match command o with
  | Enroll =>
      match account o, server o with
      | None, _ => ([], Err (StateMessage (lit "--account is required for enrollment")))
      | _, None => ([], Err (StateMessage (lit "--server is required")))
      | Some account, Some _ =>
          act (LoadsOrCreates account) (map_err StateFile (created env))
            (fun _ => start_enrolling (fun _ => ([], Ok tt)))
      end
  | Run =>
      match server o with
      | None => ([], Err (StateMessage (lit "--server is required")))
      | Some _ => act Loads (map_err StateFile (loaded env)) (fun _ => run_on tt)
      end
  | Start =>
      let go (s : RelayState) := if not_enrolled s then start_enrolling run_on else run_on tt in
      match server o with
      | None => ([], Err (StateMessage (lit "--server is required")))
      | Some _ =>
          if exists_file env then act Loads (map_err StateFile (loaded env)) go
          else match account o with
          | None => ([], Err (StateMessage (lit "--account is required for first enrollment")))
          | Some account =>
              act (LoadsOrCreates account) (map_err StateFile (created env)) go
          end
      end
  | Reset =>
      act Loads (map_err StateFile (loaded env))
        (fun _ => act Resets (map_err StateFile (reset env)) (fun _ => ([], Ok tt)))
  end.

(** ** What the loops may do *)

Definition replay1 (open : gset Z) (x : Effect) : option (gset Z) :=
  match x with
  | Connected s => if bool_decide (s ∈ open) then None else Some ({[s]} ∪ open)
  | Wrote s _ => if bool_decide (s ∈ open) then Some open else None
  | ShutDown s => if bool_decide (s ∈ open) then Some (open ∖ {[s]}) else None
  | Sent _ => Some open
  end.
Fixpoint replay (open : gset Z) (e : list Effect) : option (gset Z) :=
  match e with
  | [] => Some open
  | x :: e => (open ← replay1 open x; replay open e)
  end.

Lemma client_replay_app open e1 e2 :
  replay open (e1 ++ e2) = (open' ← replay open e1; replay open' e2).
Proof.
  revert open; induction e1 as [|x e1 IH]; intros open; [done |].
  cbn. destruct (replay1 open x); [apply IH | done].
Qed.

Lemma client_send_effects f fate e r :
  send_frame f fate = (e, r) -> e = [] \/ e = [Sent f].
Proof.
  unfold send_frame. intros H. destruct (print_client f); [| naive_solver].
  destruct (_ <? _), fate; naive_solver.
Qed.
Lemma client_write_effects s data taken e r :
  write_data s data taken = (e, r) -> e = [] \/ exists v, e = [Wrote s v].
Proof.
  unfold write_data. intros Hw.
  destruct (b64_decode data) as [d|]; [destruct (_ <? _), taken |]; naive_solver.
Qed.

Definition targets_ok (m : Targets) : Prop :=
  (0 ∉ targets m) /\ Z.of_nat (size (targets m)) <= MAX_STREAMS.

Lemma shut_sound m stream m' e flow :
  0 ∉ targets m -> Z.of_nat (size (targets m)) <= MAX_STREAMS ->
  (if bool_decide (stream ∈ targets m)
   then (set_targets m (targets m ∖ {[stream]}), [ShutDown stream], Continue)
   else (m, [], Continue)) = (m', e, flow) ->
  targets_ok m' /\ replay (targets m) e = Some (targets m').
Proof.
  intros H0 Hsize H. destruct (bool_decide_reflect (stream ∈ targets m)) as [Hin |];
    injection H as <- <- <-; [| done].
  split; [split; cbn; [set_solver |] | cbn; by rewrite bool_decide_eq_true_2].
  assert (size (targets m ∖ {[stream]}) <= size (targets m))%nat; [| lia].
  apply subseteq_size. set_solver.
Qed.

Lemma relay_turn_sound m t m' e flow :
  targets_ok m -> turn m t = (m', e, flow) ->
  targets_ok m' /\ replay (targets m) e = Some (targets m').
Proof.
  intros [H0 Hsize] H. unfold turn in H.
  assert (forall f e r, send_frame f (fate t) = (e, r) -> forall open, replay open e = Some open)
    as Hsend by (intros f' e' r' [-> | ->]%client_send_effects; done).
  destruct (branch t) as [ok | f | | i].
  - injection H as <- <- <-. done.
  - destruct (send_frame f (fate t)) as [sent r] eqn:Hs. injection H as <- <- <-.
    split; [done | by eapply Hsend].
  - destruct (_ <=? _); injection H as <- <- <-; done.
  - destruct i as [msg | |]; try (by injection H as <- <- <-).
    destruct (decode_frame msg) as [f|]; [| by injection H as <- <- <-].
    destruct f; cbn in H; try (by injection H as <- <- <-).
    + destruct (Z.eqb_spec stream_id 0), (Z.leb_spec MAX_STREAMS (Z.of_nat (size (targets m)))),
        (bool_decide_reflect (stream_id ∈ targets m)); cbn in H; try (by injection H as <- <- <-).
      destruct (connected t).
      * destruct (send_frame _ _) as [sent r] eqn:Hs. injection H as <- <- <-. split.
        { split; cbn; [set_solver |]. rewrite size_union by set_solver. rewrite size_singleton. lia. }
        cbn. rewrite bool_decide_eq_false_2 by done. by eapply Hsend.
      * destruct (send_frame _ _) as [sent r] eqn:Hs. injection H as <- <- <-.
        split; [done | by eapply Hsend].
    + destruct (bool_decide_reflect (stream_id ∈ targets m)); [| by injection H as <- <- <-].
      destruct (write_data _ _ _) as [wrote r] eqn:Hw. injection H as <- <- <-.
      split; [done |]. apply client_write_effects in Hw as [-> | [v ->]]; [done |].
      cbn. by rewrite bool_decide_eq_true_2.
    + by apply (shut_sound (Build_Targets (targets m) _) _ _ _ _ H0 Hsize H).
    + by apply (shut_sound (Build_Targets (targets m) _) _ _ _ _ H0 Hsize H).
    + destruct (send_frame _ _) as [sent r] eqn:Hs. injection H as <- <- <-.
      split; [done | by eapply Hsend].
Qed.

Lemma relay_run_sound m ts m' e flow :
  targets_ok m -> relay_tunnel m ts = (m', e, flow) ->
  targets_ok m' /\ replay (targets m) e = Some (targets m').
Proof.
  revert m m' e flow; induction ts as [|t ts IH]; intros m m' e flow Hm H; cbn in H.
  - by injection H as <- <- <-.
  - destruct (turn m t) as [[m1 e1] [|r]] eqn:Ht; apply relay_turn_sound in Ht as [Hm1 Hr]; try done.
    + destruct (relay_tunnel m1 ts) as [[m2 e2] flow2] eqn:Hrun. injection H as <- <- <-.
      apply IH in Hrun as [? Hrun]; [| done]. split; [done |]. by rewrite client_replay_app, Hr.
    + injection H as <- <- <-. done.
Qed.


(** ** The enrollment conversation *)

Definition dids (l : list Event) : list Effect :=
  omap (fun ev => match ev with Did x => Some x | _ => None end) l.
Definition opened (l : list Event) : list Z :=
  omap (fun ev => match ev with Did (Connected s) => Some s | _ => None end) l.
Definition accepted_keys (l : list Event) : list bytes :=
  omap (fun ev => match ev with Did (Sent (HostKeyAccepted h)) => Some h | _ => None end) l.
Definition as_open (target : option Z) : gset Z :=
  match target with Some s => {[s]} | None => ∅ end.

Lemma may_send f l r :
  may (send f) l r -> (l = [] /\ exists e, r = Err e) \/ l = [Did (Sent f)].
Proof.
  unfold send. intros H. session_step H; [by apply may_fate in H as [_ [? ?]] |].
  apply may_fate in Hs as [-> _]. destruct H as (s & s' & H). unfold effects in H.
  injection H as _ <- <-. unfold send_frame.
  destruct (print_client f); [destruct (_ <? _); [| destruct a] |]; cbn; eauto.
Qed.

(** A step that neither opens, writes nor closes, and accepts no key. *)
Definition neutral (ev : Event) : bool :=
  match ev with
  | Did (Sent (HostKeyAccepted _)) => false
  | Did (Sent _) => true
  | Did _ => false
  | _ => true
  end.

Section stream_log.
Context (env : ClientEnv) (expected : option bytes).

Definition confirmed_key (l : list Event) (host : bytes) : Prop :=
  exists fingerprint, Got (HostKey host fingerprint) ∈ l
  /\ confirm_host_key (terminal env) (host_response env) host fingerprint expected = Ok tt.

(** What a log from the loop state [(target, next, confirmed)] looks like. *)
Record stream_log (target : option Z) (next : Z) (confirmed : bool) (l : list Event) : Prop := {
  sl_opened : opened l `prefix_of` seqZ next (3 - next);
  sl_replay : is_Some (replay (as_open target) (dids l));
  sl_keys : accepted_keys l = []
            \/ confirmed = false /\ exists host, accepted_keys l = [host] /\ confirmed_key l host;
}.

Lemma sl_nil target next confirmed : stream_log target next confirmed [].
Proof. split; [apply prefix_nil | by eexists | by left]. Qed.

Lemma confirmed_key_app l l' host : confirmed_key l host -> confirmed_key (l' ++ l) host.
Proof. intros (fp & Hin & Hc). exists fp. split; [set_solver | done]. Qed.

Lemma sl_neutral target next confirmed pre l :
  Forall (fun ev => neutral ev = true) pre ->
  stream_log target next confirmed l -> stream_log target next confirmed (pre ++ l).
Proof.
  intros Hpre [Ho Hr Hk].
  assert (opened (pre ++ l) = opened l /\ accepted_keys (pre ++ l) = accepted_keys l
          /\ forall open, replay open (dids (pre ++ l)) = replay open (dids l)) as (E1 & E2 & E3).
  { clear Ho Hr Hk. induction Hpre as [|ev pre Hev _ (E1 & E2 & E3)]; [done |].
    destruct ev as [[[]| | |]| | | | | |]; done. }
  split; rewrite ?E1, ?E2, ?E3; try done.
  destruct Hk as [? | (? & host & ? & ?)]; [by left | right]. split; [done |].
  exists host. split; [done | by apply confirmed_key_app].
Qed.

Lemma sl_send f target next confirmed l r :
  neutral (Did (Sent f)) = true -> may (send f) l r -> stream_log target next confirmed l.
Proof.
  intros Hf Hs. rewrite <- (app_nil_r l). apply sl_neutral; [| apply sl_nil].
  apply may_send in Hs as [[-> _] | ->]; by repeat constructor.
Qed.

(** Sending a frame and going on. *)
Lemma sl_send_then {A} f (k : client A) target next confirmed l r :
  neutral (Did (Sent f)) = true -> may (send f ;; k) l r ->
  (forall l', may k l' r -> stream_log target next confirmed l') ->
  stream_log target next confirmed l.
Proof.
  intros Hf Hm Hk. apply may_bind in Hm as [(e & Hm & _) | (u & l1 & l2 & Hm & H2 & ->)].
  - by eapply sl_send.
  - apply sl_neutral; [| by apply Hk].
    apply may_send in Hm as [[_ [e [=]]] | ->]. by repeat constructor.
Qed.

Lemma sl_connected stream next confirmed l :
  stream = next -> 1 <= next <= 2 -> stream_log (Some stream) (next + 1) confirmed l ->
  stream_log None next confirmed (Did (Connected stream) :: l).
Proof.
  intros -> Hn [Ho Hr Hk]. split.
  - change (opened (Did (Connected next) :: l)) with (next :: opened l).
    rewrite seqZ_cons by lia. apply prefix_cons.
    by replace (Z.pred (3 - next)) with (3 - (next + 1)) by lia.
  - cbn in Hr |- *. rewrite bool_decide_eq_false_2 by set_solver. cbn.
    by rewrite union_empty_r_L.
  - destruct Hk as [? | (? & host & ? & ?)]; [by left | right]. split; [done |].
    exists host. split; [done | by apply (confirmed_key_app _ [_])].
Qed.

Lemma sl_wrote stream v next confirmed l :
  stream_log (Some stream) next confirmed l ->
  stream_log (Some stream) next confirmed (Did (Wrote stream v) :: l).
Proof.
  intros [Ho Hr Hk]. split; [done | |].
  - cbn. by rewrite bool_decide_eq_true_2 by set_solver.
  - destruct Hk as [? | (? & host & ? & ?)]; [by left | right]. split; [done |].
    exists host. split; [done | by apply (confirmed_key_app _ [_])].
Qed.

Lemma sl_write stream data taken next confirmed l l' r :
  may (effects (write_data stream data taken)) l r ->
  stream_log (Some stream) next confirmed l' ->
  stream_log (Some stream) next confirmed (l ++ l').
Proof.
  intros (s & s' & H) Hl'. unfold effects in H. injection H as _ <- _.
  destruct (write_data stream data taken) as [e r'] eqn:Hw. cbn [fst].
  apply client_write_effects in Hw as [-> | [v ->]]; [done | by apply sl_wrote].
Qed.

Lemma sl_shut stream next confirmed l :
  stream_log None next confirmed l ->
  stream_log (Some stream) next confirmed (Did (ShutDown stream) :: l).
Proof.
  intros [Ho Hr Hk]. split; [done | |].
  - cbn. rewrite bool_decide_eq_true_2 by set_solver. by rewrite difference_diag_L.
  - destruct Hk as [? | (? & host & ? & ?)]; [by left | right]. split; [done |].
    exists host. split; [done | by apply (confirmed_key_app _ [_])].
Qed.

Lemma sl_key host fingerprint target next l :
  confirm_host_key (terminal env) (host_response env) host fingerprint expected = Ok tt ->
  stream_log target next true l ->
  stream_log target next false
    (Got (HostKey host fingerprint) :: Asked host :: Did (Sent (HostKeyAccepted host)) :: l).
Proof.
  intros Hc [Ho Hr Hk]. split; [done | done |]. right. split; [done |]. exists host.
  destruct Hk as [Hk | [? _]]; [| done].
  split; [change (host :: accepted_keys l = [host]); by rewrite Hk |].
  exists fingerprint. split; [by left | done].
Qed.
End stream_log.


(** The states of the loop. *)
Definition loop_state (target : option Z) (next : Z) : Prop :=
  1 <= next <= 3 /\ match target with Some s => s = next - 1 /\ 1 <= s | None => True end.

Lemma sl_cons env expected ev target next confirmed l :
  neutral ev = true -> stream_log env expected target next confirmed l ->
  stream_log env expected target next confirmed (ev :: l).
Proof. intros. by apply (sl_neutral _ _ _ _ _ [ev] l); [constructor |]. Qed.

Lemma may_persist {A} env s (k : client A) l r :
  may (persist_state env s ;; k) l r ->
  exists l', l = Persisted s :: l'
  /\ (persisted env = Ok tt /\ may k l' r \/ exists e, l' = [] /\ r = Err e).
Proof.
  unfold persist_state. intros H. apply may_bind in H as [(e & H & ->) | (u & l1 & l2 & H & Hk & ->)];
    apply may_log_bind in H as (l' & -> & H); apply may_lift in H as [-> H].
  - eexists. split; [done |]. right. eauto.
  - eexists. split; [done |]. left. split; [| done]. by destruct (persisted env) as [[]|].
Qed.

(** A list of neutral events. *)
Local Ltac neutral_log := repeat (apply sl_cons; [reflexivity |]); apply sl_nil.

(** A branch that only refuses the frame. *)
Local Ltac refused H :=
  apply may_lift in H; destruct H as [-> _]; apply sl_cons; [reflexivity | apply sl_nil].

Lemma enrollment_stream_log env expected state target next confirmed history l r :
  loop_state target next ->
  may (enrollment_stream env expected state target next confirmed history) l r ->
  stream_log env expected target next confirmed l.
Proof.
  revert target next confirmed l r.
  induction history as [|[i connected taken|f] rest IH]; intros target next confirmed l r Hst H;
    cbn [enrollment_stream] in H.
  - apply may_lift_bind in H as [(? & [=] & _) | (? & _ & -> & _)]. apply sl_nil.
  - apply may_lift_bind in H as [(f & _ & H) | (? & _ & -> & _)]; [| apply sl_nil].
    apply may_log_bind in H as (l1 & -> & H). destruct f; try (refused H).
    + destruct (_ && negb confirmed) eqn:Hg; [| refused H]. split_bools. subst confirmed target.
      apply may_log_bind in H as (l2 & -> & H).
      apply may_lift_bind in H as [([] & Hc & H) | (? & _ & -> & _)];
        [| do 2 (apply sl_cons; [done |]); apply sl_nil].
      apply may_bind in H as [(e & H & _) | (u & l3 & l4 & H3 & H4 & ->)].
      * apply may_send in H as [[-> _] | ->]; [do 2 (apply sl_cons; [done |]); apply sl_nil |].
        apply sl_key; [done | apply sl_nil].
      * apply may_send in H3 as [[_ [e [=]]] | ->]. apply sl_key; [done |]. by eapply IH.
    + destruct (bool_decide _); [| refused H]. apply sl_cons; [done |].
      apply may_persist in H as (l2 & -> & [(_ & H) | (? & -> & _)]); [| by neutral_log].
      apply may_log_bind in H as (l3 & -> & H). apply may_ret in H as [-> _]. by neutral_log.
    + destruct (_ && (stream_id <=? 2)) eqn:Hg; [| refused H]. split_bools. subst target.
      destruct Hst as [Hn _]. apply sl_cons; [done |].
      apply may_lift_bind in H as [(? & _ & H) | (? & _ & -> & _)]; [| apply sl_nil].
      apply may_lift_bind in H as [(next' & Hadd & H) | (? & _ & -> & _)]; [| apply sl_nil].
      apply may_log_bind in H as (l2 & -> & H).
      apply ok_or_Ok in Hadd. unfold checked_add in Hadd. destruct (_ <=? u32_max); [| done].
      injection Hadd as <-. apply sl_connected; [done | lia |].
      eapply sl_send_then; [| exact H |]; [done |]. intros l' H'. eapply IH; [| exact H'].
      split; [lia |]. lia.
    + destruct (bool_decide_reflect (target = Some stream_id)) as [-> |]; [| refused H].
      apply sl_cons; [done |]. apply may_bind in H as [(e & H & _) | (u & l2 & l3 & H & H3 & ->)].
      * rewrite <- (app_nil_r l1). eapply sl_write; [exact H | apply sl_nil].
      * eapply sl_write; [exact H |]. by eapply IH.
    + destruct (bool_decide _); [| refused H]. apply may_log_bind in H as (l2 & -> & H).
      do 2 (apply sl_cons; [done |]). by eapply IH.
    + destruct (bool_decide_reflect (target = Some stream_id)) as [-> |]; [| refused H].
      apply sl_cons; [done |]. apply may_log_bind in H as (l2 & -> & H). apply sl_shut.
      eapply sl_send_then; [| exact H |]; [done |]. intros l' H'. eapply IH; [| exact H'].
      by split; [apply Hst |].
    + apply sl_cons; [done |]. eapply sl_send_then; [| exact H |]; [done |]. intros l' H'.
      by eapply IH.
  - destruct (outbound_stream f) as [stream|] eqn:Hf; [| apply may_lift in H as [-> _]; apply sl_nil].
    destruct (bool_decide _).
    + eapply sl_send_then; [| exact H | intros l' H'; by eapply IH]. by destruct f.
    + apply may_ret_bind in H. by eapply IH.
Qed.

Lemma elem_of_tail {A} (x y : A) l : x ∈ l -> x ∈ y :: l.
Proof. by right. Qed.

(** How an enrollment conversation succeeds. *)
Lemma enrollment_stream_Ok env expected state target next confirmed history l s :
  may (enrollment_stream env expected state target next confirmed history) l (Ok s) ->
  exists revision, Got (Activated revision) ∈ l /\ s = with_revision state revision
  /\ Persisted s ∈ l /\ persisted env = Ok tt.
Proof.
  revert target next confirmed l.
  induction history as [|[i connected taken|f] rest IH]; intros target next confirmed l H;
    cbn [enrollment_stream] in H.
  - apply may_lift_bind in H as [(? & [=] & _) | (? & _ & _ & [=])].
  - apply may_lift_bind in H as [(f & _ & H) | (? & _ & _ & [=])].
    apply may_log_bind in H as (l1 & -> & H).
    assert (forall l2 target next confirmed,
      may (enrollment_stream env expected state target next confirmed rest) l2 (Ok s) ->
      l2 ⊆ Got f :: l1 ->
      exists revision, Got (Activated revision) ∈ Got f :: l1 /\ s = with_revision state revision
        /\ Persisted s ∈ Got f :: l1 /\ persisted env = Ok tt) as Hrest.
    { intros l2 t n c H2 Hsub. apply IH in H2 as (rev & ? & ? & ? & ?). exists rev. auto. }
    destruct f; try (by apply may_lift in H as [_ [=]]); try destruct (_ && _);
      try destruct (bool_decide _); try (by apply may_lift in H as [_ [=]]);
      try (repeat session_step H; eapply Hrest; [exact H | set_solver]).
    apply may_persist in H as (l2 & -> & [(Hp & H) | (? & _ & [=])]).
    apply may_log_bind in H as (l3 & -> & H). apply may_ret in H as [-> [= ->]].
    eexists. split_and!; [by left | done | set_solver | done].
  - destruct (outbound_stream f) as [stream|]; [| by apply may_lift in H as [_ [=]]].
    session_step H. apply IH in H as (rev & ? & ? & ? & ?). exists rev.
    split_and!; try done; apply elem_of_app; by right.
Qed.

(** C38. The Relay's enrollment conversation, for every sequence of frames the
    server may send: it connects to the loopback port at most twice, as
    streams 1 and 2 in that order and never both at once; it writes and closes
    only the stream that is open; it accepts at most one host key, and only
    one the server sent and whose confirmation (fingerprint recomputed from
    the key, then the expected fingerprint or an exact yes) succeeded; and it
    succeeds only after [Activated], with the revision written to the file. *)
Theorem enrollment_stream_safe (env : ClientEnv) (expected : option bytes) (state : RelayState)
    (history : list StreamEvent) (l : list Event) (r : result RelayError RelayState)
    (Hrun : may (enrollment_stream env expected state None 1 false history) l r) :
  opened l `prefix_of` [1; 2] /\ is_Some (replay ∅ (dids l))
  /\ (accepted_keys l = []
      \/ exists host, accepted_keys l = [host] /\ confirmed_key env expected l host)
  /\ (forall s, r = Ok s -> exists revision, Got (Activated revision) ∈ l
       /\ s = with_revision state revision /\ Persisted s ∈ l /\ persisted env = Ok tt).
Proof.
  assert (loop_state None 1) as Hst by (split; [lia | done]).
  pose proof (enrollment_stream_log _ _ _ _ _ _ _ _ _ Hst Hrun) as [Ho Hr Hk].
  split_and!; [exact Ho | exact Hr | | intros s ->; by eapply enrollment_stream_Ok].
  destruct Hk as [? | (_ & host & ? & ?)]; eauto.
Qed.

(** The Relay's side of an established tunnel, for every history: stream
    id 0 is never open and at most 32 streams are; a target is connected only
    under an id that is not open; every write and every shutdown goes to a
    target that is open at that moment.  The process itself ends only with a
    stop request or with an error that is neither a transport failure nor a
    refusal by the server. *)
Theorem relay_tunnel_safe (start : Z) (ts : list Turn)
    (outcomes : list (result RelayError TunnelExit)) :
  let '(m, e, _) := relay_tunnel (new_targets start) ts in
  targets_ok m /\ replay ∅ e = Some (targets m)
  /\ match run_forever outcomes with
     | None => Forall (fun o => o = Ok ExitDisconnected \/ o = Err Transport
                               \/ exists code, o = Err (Remote code)) outcomes
     | Some (Ok _) => Ok ExitShutdown ∈ outcomes
     | Some (Err e) => Err e ∈ outcomes /\ e <> Transport /\ forall code, e <> Remote code
     end.
Proof.
  destruct (relay_tunnel _ ts) as [[m e] flow] eqn:H. apply relay_run_sound in H as [? ?]; [| done].
  split_and!; try done. clear. induction outcomes as [|o rest IH]; cbn; [constructor |].
  destruct o as [[|]|[]]; try (split_and!; [by left | done | done]); try (by left);
    destruct (run_forever rest) as [[|]|]; try (by apply elem_of_tail);
    try (destruct IH as (? & ? & ?); split_and!; [by apply elem_of_tail | done | done]);
    constructor; eauto.
Qed.

End client.

(** ** A concrete enrollment conversation *)

Definition frames_codec (frames : list ServerFrame) : FrameCodec :=
  {| print_server := fun _ => None; print_client := fun _ => Some [];
     parse_client := fun _ => None;
     parse_server := fun t => match t with [c] => frames !! Z.to_nat (bval c) | _ => None end |}.
Definition frames_history (frames : list ServerFrame) : list StreamEvent :=
  map (fun i => InboundReady (Some (Received (TextMessage [byte_of (Z.of_nat i)]))) true None)
    (seq 0 (length frames)).
Definition plain_keys : SshKeys :=
  {| PublicKey := bytes; from_openssh := Some; is_ed25519 := fun _ => true;
     to_openssh := Some; fingerprint_of := fun k => k |}.
Definition sample_env : ClientEnv :=
  {| token := Ok []; connect_enroll := true; connect_tunnel := true; persisted := Ok tt;
     terminal := true; ready_response := None; host_response := Some (lit "yes");
     verifying_key := fun k => k; signer := fun k m => k ++ m; connection := 8 |}.
Definition sample_state : RelayState := @fresh_state plain_base64 9 sample_secret (lit "owl").
Definition sample_frames : list ServerFrame :=
  [OpenStream 1; StreamData 1 (lit "ssh"); StreamClosed 1 Eof;
   HostKey (lit "ssh-ed25519 key") (lit "ssh-ed25519 key"); OpenStream 2; StreamClosed 2 Eof;
   Activated 5].
Definition sample_conversation : Script * list Event * result RelayError RelayState :=
  @enrollment_stream plain_base64 (frames_codec sample_frames) plain_keys sample_env None
    sample_state None 1 false (frames_history sample_frames) {| inbox := []; fates := [] |}.

Lemma enrollment_stream_safe_witness :
  snd sample_conversation = Ok (with_revision sample_state 5)
  /\ opened (snd (fst sample_conversation)) = [1; 2]
  /\ accepted_keys (snd (fst sample_conversation)) = [lit "ssh-ed25519 key"]
  /\ is_Some (replay ∅ (dids (snd (fst sample_conversation)))).
Proof.
  do 3 (split; [by vm_compute |]).
  refine (proj1 (proj2 (enrollment_stream_safe (Hbase := plain_base64)
    (Hcodec := frames_codec sample_frames) (Hkeys := plain_keys) sample_env None sample_state
    (frames_history sample_frames) (snd (fst sample_conversation)) (snd sample_conversation) _))).
  exists {| inbox := []; fates := [] |}, (fst (fst sample_conversation)). by vm_compute.
Defined.

(** Options that were accepted never meet a missing option later, except the
    account of a first [start]. *)
Lemma run_options_complete arguments o env :
  parse_options arguments = Some (Ok o) ->
  (command o = Start -> is_some (account o) = true \/ exists_file env = true) ->
  fst (run o env) <> [].
Proof.
  unfold parse_options. intros H Hstart. destruct arguments as [|word rest]; [done |].
  destruct (bool_decide _); [done |]. injection H as H. inv_ok.
  match goal with Hv : validate_command_options ?c _ _ _ _ = _ |- _ =>
    destruct c; cbn in Hv, Hstart |- *; unfold run; cbn end;
    destruct (p_server _), (p_account _); cbn in *; try done; unfold act;
    repeat case_match; simplify_eq; try done.
  - by destruct Hstart.
Qed.
