(* ===== verification/Link.v ===== *)
(** * Link: server and Relay composed over one websocket

    Composes [Tunnel.turn] (server) and [RelayClient.turn] (Relay) with the two
    directions of their websocket, the outbound queues, the reader tasks and
    the endpoints of every stream (the SSH client inside the server, the
    loopback sshd at the Relay).  The composition refines one pair of byte
    pipes per stream. *)

From S2P Require Import Prelude Text Binary Secrets RelayProtocol Wire Authority Tunnel RelayClient.

(** The queues of the code are bounded (64 frames) and the duplex buffers hold
    64 KiB: a full one only delays the steps below.

    One end of a stream: all it has written, what the reader task has not yet
    taken of that, whether it has closed, whether its reader task runs, and
    what the tunnel has handed to it. *)
Record End : Type := {
  written : bytes; unread : bytes; closed : bool; reading : bool; received : bytes;
}.
Definition new_end : End :=
  {| written := []; unread := []; closed := false; reading := true; received := [] |}.
Definition end_write (v : bytes) (e : End) : End :=
  {| written := written e ++ v; unread := unread e ++ v; closed := closed e;
     reading := reading e; received := received e |}.
Definition end_close (e : End) : End :=
  {| written := written e; unread := unread e; closed := true; reading := reading e;
     received := received e |}.
Definition end_read (n : nat) (e : End) : End :=
  {| written := written e; unread := drop n (unread e); closed := closed e;
     reading := reading e; received := received e |}.
Definition end_stop (e : End) : End :=
  {| written := written e; unread := unread e; closed := closed e; reading := false;
     received := received e |}.
Definition end_receive (v : bytes) (e : End) : End :=
  {| written := written e; unread := unread e; closed := closed e; reading := reading e;
     received := received e ++ v |}.

Record Link : Type := {
  mux : Tunnel.Mux; server_live : bool; targets : RelayClient.Targets; relay_live : bool;
  to_relay : list bytes; to_server : list bytes;
  server_queue : list ServerFrame; relay_queue : list ClientFrame;
  callers : gmap Z End; sockets : gmap Z End;
}.

Definition set_callers (L : Link) (q : list ServerFrame) (c : gmap Z End) : Link :=
  {| mux := mux L; server_live := server_live L; targets := targets L; relay_live := relay_live L;
     to_relay := to_relay L; to_server := to_server L; server_queue := q;
     relay_queue := relay_queue L; callers := c; sockets := sockets L |}.
Definition set_sockets (L : Link) (q : list ClientFrame) (s : gmap Z End) : Link :=
  {| mux := mux L; server_live := server_live L; targets := targets L; relay_live := relay_live L;
     to_relay := to_relay L; to_server := to_server L; server_queue := server_queue L;
     relay_queue := q; callers := callers L; sockets := s |}.

Definition initial (start : Z) : Link :=
  {| mux := Tunnel.new_mux start; server_live := true;
     targets := RelayClient.new_targets start; relay_live := true; to_relay := []; to_server := [];
     server_queue := []; relay_queue := []; callers := ∅; sockets := ∅ |}.

Section link.
Context `{Hbase : Base64} `{Hcodec : FrameCodec}.

(** ** Turns of the two loops *)

Definition server_effect (x : Tunnel.Effect) (p : list bytes * gmap Z End)
    : list bytes * gmap Z End :=
  let '(wire, ends) := p in
  match x with
  | Tunnel.Sent f => (wire ++ option_list (print_server f), ends)
  | Tunnel.Spawned s => (wire, <[s := new_end]> ends)
  | Tunnel.Wrote s v => (wire, alter (end_receive v) s ends)
  | Tunnel.Answered _ | Tunnel.ShutDown _ => (wire, ends)
  end.
Definition relay_effect (x : RelayClient.Effect) (p : list bytes * gmap Z End)
    : list bytes * gmap Z End :=
  let '(wire, ends) := p in
  match x with
  | RelayClient.Sent f => (wire ++ option_list (print_client f), ends)
  | RelayClient.Connected s => (wire, <[s := new_end]> ends)
  | RelayClient.Wrote s v => (wire, alter (end_receive v) s ends)
  | RelayClient.ShutDown _ => (wire, ends)
  end.

Definition server_turn (t : Tunnel.Turn) (L : Link) : Link :=
  let '(m, effects, flow) := Tunnel.turn (mux L) t in
  let chosen := if Tunnel.lease_top t then Tunnel.select (mux L) t else None in
  let '(wire, ends) := fold_left (fun p x => server_effect x p) effects (to_relay L, callers L) in
  {| mux := m;
     server_live := match flow with Tunnel.Continue => true | Tunnel.Return _ => false end;
     targets := targets L; relay_live := relay_live L; to_relay := wire;
     to_server := match chosen with
                  | Some (Tunnel.OnMessage (Received _)) => tail (to_server L)
                  | _ => to_server L
                  end;
     server_queue := match chosen with
                     | Some (Tunnel.OnOutbound _) => tail (server_queue L)
                     | _ => server_queue L
                     end;
     relay_queue := relay_queue L; callers := ends; sockets := sockets L |}.

Definition relay_turn (t : RelayClient.Turn) (L : Link) : Link :=
  let '(m, effects, flow) := RelayClient.turn (targets L) t in
  let '(wire, ends) := fold_left (fun p x => relay_effect x p) effects (to_server L, sockets L) in
  {| mux := mux L; server_live := server_live L; targets := m;
     relay_live := match flow with RelayClient.Continue => true | RelayClient.Return _ => false end;
     to_relay := match RelayClient.branch t with
                 | RelayClient.OnMessage (Received _) => tail (to_relay L)
                 | _ => to_relay L
                 end;
     to_server := wire; server_queue := server_queue L;
     relay_queue := match RelayClient.branch t with
                    | RelayClient.OnOutbound _ => tail (relay_queue L)
                    | _ => relay_queue L
                    end;
     callers := callers L; sockets := ends |}.

(** What a waiting socket may yield: nothing yet, the oldest text in flight, or
    the end of the connection. *)
Definition arrives (wire : list bytes) (i : Incoming) : Prop :=
  (exists text, head wire = Some text /\ i = Received (TextMessage text))
  \/ i = SocketError \/ i = EndOfStream.

(** ** The steps *)

Inductive step : Link -> Link -> Prop :=
| caller_writes L s e v :
    callers L !! s = Some e -> closed e = false ->
    step L (set_callers L (server_queue L) (<[s := end_write v e]> (callers L)))
| caller_closes L s e :
    callers L !! s = Some e ->
    step L (set_callers L (server_queue L) (<[s := end_close e]> (callers L)))
| target_writes L s e v :
    sockets L !! s = Some e -> closed e = false ->
    step L (set_sockets L (relay_queue L) (<[s := end_write v e]> (sockets L)))
| target_closes L s e :
    sockets L !! s = Some e ->
    step L (set_sockets L (relay_queue L) (<[s := end_close e]> (sockets L)))
| server_reads L s e n :
    callers L !! s = Some e -> reading e = true -> (0 < n <= length (unread e))%nat ->
    Z.of_nat n <= MAX_DATA_BYTES ->
    step L (set_callers L
              (server_queue L ++ [fst (Tunnel.relay_reader s (ReadBytes (take n (unread e))))])
              (<[s := end_read n e]> (callers L)))
| server_reads_end L s e r :
    callers L !! s = Some e -> reading e = true ->
    r = ReadEof /\ unread e = [] /\ closed e = true \/ r = ReadError ->
    step L (set_callers L (server_queue L ++ [fst (Tunnel.relay_reader s r)])
              (<[s := end_stop e]> (callers L)))
| target_reads L s e n :
    sockets L !! s = Some e -> reading e = true -> (0 < n <= length (unread e))%nat ->
    Z.of_nat n <= MAX_DATA_BYTES ->
    step L (set_sockets L
              (relay_queue L ++ [fst (RelayClient.target_reader s (ReadBytes (take n (unread e))))])
              (<[s := end_read n e]> (sockets L)))
| target_reads_end L s e r :
    sockets L !! s = Some e -> reading e = true ->
    r = ReadEof /\ unread e = [] /\ closed e = true \/ r = ReadError ->
    step L (set_sockets L (relay_queue L ++ [fst (RelayClient.target_reader s r)])
              (<[s := end_stop e]> (sockets L)))
| server_turns L t :
    server_live L = true -> Tunnel.outbound_ready t = head (server_queue L) ->
    match Tunnel.message_ready t with Some i => arrives (to_server L) i | None => True end ->
    step L (server_turn t L)
| relay_turns L t :
    relay_live L = true ->
    match RelayClient.branch t with
    | RelayClient.OnOutbound f => head (relay_queue L) = Some f
    | RelayClient.OnMessage i => arrives (to_relay L) i
    | _ => True
    end ->
    step L (relay_turn t L).

(** ** The specification: a pair of byte pipes per stream *)

Record Pipe : Type := { up_sent : bytes; up_got : bytes; down_sent : bytes; down_got : bytes }.
Definition empty_pipe : Pipe := {| up_sent := []; up_got := []; down_sent := []; down_got := [] |}.

Inductive spec_step : gmap Z Pipe -> gmap Z Pipe -> Prop :=
| spec_stutter P : spec_step P P
| spec_open P s : P !! s = None -> spec_step P (<[s := empty_pipe]> P)
| spec_write_up P s p v :
    P !! s = Some p ->
    spec_step P (<[s := {| up_sent := up_sent p ++ v; up_got := up_got p;
                           down_sent := down_sent p; down_got := down_got p |}]> P)
| spec_write_down P s p v :
    P !! s = Some p ->
    spec_step P (<[s := {| up_sent := up_sent p; up_got := up_got p;
                           down_sent := down_sent p ++ v; down_got := down_got p |}]> P)
| spec_deliver_up P s p v :
    P !! s = Some p -> up_got p ++ v `prefix_of` up_sent p ->
    spec_step P (<[s := {| up_sent := up_sent p; up_got := up_got p ++ v;
                           down_sent := down_sent p; down_got := down_got p |}]> P)
| spec_deliver_down P s p v :
    P !! s = Some p -> down_got p ++ v `prefix_of` down_sent p ->
    spec_step P (<[s := {| up_sent := up_sent p; up_got := up_got p;
                           down_sent := down_sent p; down_got := down_got p ++ v |}]> P).

(** The pipes a state of the link stands for. *)
Definition pipe_of (L : Link) (s : Z) (e : End) : Pipe :=
  {| up_sent := written e; up_got := from_option received [] (sockets L !! s);
     down_sent := from_option written [] (sockets L !! s); down_got := received e |}.
Definition abs (L : Link) : gmap Z Pipe := map_imap (fun s e => Some (pipe_of L s e)) (callers L).

(** ** Lanes: one direction of one stream *)

(** The bytes of a stream that a frame, or a text in flight, carries. *)
Definition sdata (s : Z) (f : ServerFrame) : bytes :=
  match f with
  | StreamData s' data => if s' =? s then default [] (b64_decode data) else []
  | _ => []
  end.
Definition cdata (s : Z) (f : ClientFrame) : bytes :=
  match f with
  | ClientStreamData s' data => if s' =? s then default [] (b64_decode data) else []
  | _ => []
  end.
Definition up_text (s : Z) (t : bytes) : bytes := from_option (sdata s) [] (parse_server t).
Definition down_text (s : Z) (t : bytes) : bytes := from_option (cdata s) [] (parse_client t).

(** [sender] and [receiver]: the two loops are alive.  What was handed over,
    what is in flight, what is queued and what is unread make up what was
    written, as long as both live; a dead sender loses the tail, a dead
    receiver everything not handed over. *)
Definition lane_ok (sender receiver : bool) (got wire queue rest sent : bytes) : Prop :=
  got `prefix_of` sent
  /\ (receiver = true -> got ++ wire `prefix_of` sent)
  /\ (receiver = true -> sender = true -> got ++ wire ++ queue ++ rest = sent).

Lemma lane_empty sender receiver : lane_ok sender receiver [] [] [] [] [].
Proof. by split_and!. Qed.

Lemma lane_write sender receiver got wire queue rest sent v :
  lane_ok sender receiver got wire queue rest sent ->
  lane_ok sender receiver got wire queue (rest ++ v) (sent ++ v).
Proof.
  intros (H1 & H2 & H3). split_and!.
  - by apply prefix_app_r.
  - intros Hr. by apply prefix_app_r, H2.
  - intros Hr Hs. by rewrite <- (H3 Hr Hs), <- !app_assoc.
Qed.

Lemma lane_read sender receiver got wire queue rest sent n :
  lane_ok sender receiver got wire queue rest sent ->
  lane_ok sender receiver got wire (queue ++ take n rest) (drop n rest) sent.
Proof.
  intros (H1 & H2 & H3). split_and!; try done.
  intros Hr Hs. by rewrite <- app_assoc, take_drop, H3.
Qed.

Lemma lane_send sender receiver got wire x queue rest sent :
  lane_ok true receiver got wire (x ++ queue) rest sent ->
  lane_ok sender receiver got (wire ++ x) queue rest sent.
Proof.
  intros (H1 & H2 & H3). split_and!; [done | |].
  - intros Hr. rewrite <- (H3 Hr eq_refl). rewrite <- !app_assoc, !app_assoc.
    do 2 apply prefix_app_r. done.
  - intros Hr Hs. by rewrite <- (H3 Hr eq_refl), <- !app_assoc.
Qed.

(** The sender dies, whatever becomes of its queue. *)
Lemma lane_lost sender receiver got wire queue queue' rest sent :
  lane_ok sender receiver got wire queue rest sent ->
  lane_ok false receiver got wire queue' rest sent.
Proof. intros (H1 & H2 & H3). by split_and!. Qed.

Lemma lane_deliver sender got x wire queue rest sent :
  lane_ok sender true got (x ++ wire) queue rest sent ->
  lane_ok sender true (got ++ x) wire queue rest sent.
Proof.
  intros (H1 & H2 & H3). specialize (H2 eq_refl). rewrite app_assoc in H2. split_and!.
  - eapply prefix_app_l. exact H2.
  - by intros _.
  - intros _ Hs. by rewrite <- (H3 eq_refl Hs), <- !app_assoc.
Qed.

(** The receiver dies after a part of what is in flight. *)
Lemma lane_cut sender got x y wire wire' queue rest sent :
  lane_ok sender true got (x ++ y ++ wire) queue rest sent ->
  lane_ok sender false (got ++ x) wire' queue rest sent.
Proof.
  intros (H1 & H2 & H3). specialize (H2 eq_refl). rewrite app_assoc in H2. split_and!; try done.
  eapply prefix_app_l. exact H2.
Qed.

Lemma lane_deaf sender receiver got wire wire' queue rest sent :
  lane_ok sender receiver got wire queue rest sent ->
  lane_ok sender false got wire' queue rest sent.
Proof. intros (H1 & H2 & H3). by split_and!. Qed.


(** ** The invariant *)

Definition up_wire (s : Z) (l : list bytes) : bytes := concat (map (up_text s) l).
Definition down_wire (s : Z) (l : list bytes) : bytes := concat (map (down_text s) l).
Definition up_queue (s : Z) (l : list ServerFrame) : bytes := concat (map (sdata s) l).
Definition down_queue (s : Z) (l : list ClientFrame) : bytes := concat (map (cdata s) l).
#[local] Arguments up_wire : simpl never.
#[local] Arguments down_wire : simpl never.
#[local] Arguments up_queue : simpl never.
#[local] Arguments down_queue : simpl never.
(** The streams whose opening is in flight. *)
Definition opens (l : list bytes) : list Z :=
  omap (fun t => match parse_server t with Some (OpenStream s) => Some s | _ => None end) l.

Definition got_up (L : Link) (s : Z) : bytes := from_option received [] (sockets L !! s).
Definition sent_down (L : Link) (s : Z) : bytes := from_option written [] (sockets L !! s).
Definition rest_down (L : Link) (s : Z) : bytes := from_option unread [] (sockets L !! s).

Record stream_ok (L : Link) (s : Z) (e : End) : Prop := {
  stream_up : lane_ok (server_live L) (relay_live L) (got_up L s) (up_wire s (to_relay L))
                (up_queue s (server_queue L)) (unread e) (written e);
  stream_down : lane_ok (relay_live L) (server_live L) (received e) (down_wire s (to_server L))
                  (down_queue s (relay_queue L)) (rest_down L s) (sent_down L s);
}.

(** A frame of a queue is one a reader task makes, of a stream with an end. *)
Definition reader_frame (ends : gmap Z End) (f : ServerFrame) : Prop :=
  match f with
  | StreamData s _ | StreamHalfClosed s | StreamClosed s _ => is_Some (ends !! s)
  | _ => False
  end /\ server_tunnel_frame f.
Definition target_frame (ends : gmap Z End) (f : ClientFrame) : Prop :=
  match f with
  | ClientStreamData s _ | ClientStreamHalfClosed s | ClientStreamClosed s _ => is_Some (ends !! s)
  | _ => False
  end /\ client_tunnel_frame f.

Record link_ok (L : Link) : Prop := {
  ok_mux : Tunnel.mux_ok (mux L);
  ok_callers : forall s, is_Some (callers L !! s) -> 1 <= s < next_stream_id (mux L);
  ok_sockets : forall s, is_Some (sockets L !! s) -> is_Some (callers L !! s);
  ok_writers : forall s, s ∈ writers (mux L) -> is_Some (callers L !! s);
  ok_targets : forall s, s ∈ RelayClient.targets (targets L) -> is_Some (sockets L !! s);
  ok_opens : NoDup (opens (to_relay L))
             /\ forall s, s ∈ opens (to_relay L) -> is_Some (callers L !! s) /\ sockets L !! s = None;
  ok_server_queue : Forall (reader_frame (callers L)) (server_queue L);
  ok_relay_queue : Forall (target_frame (sockets L)) (relay_queue L);
  ok_streams : forall s e, callers L !! s = Some e -> stream_ok L s e;
  ok_fresh : forall s, callers L !! s = None ->
    up_wire s (to_relay L) = [] /\ up_queue s (server_queue L) = []
    /\ down_wire s (to_server L) = [] /\ down_queue s (relay_queue L) = [];
}.

Lemma link_initial_ok start : link_ok (initial start).
Proof.
  split; cbn; try done; try (by intros s []).
  - apply Tunnel.new_mux_ok.
  - split; [apply NoDup_nil_2 | by intros s ?%not_elem_of_nil].
Qed.

Lemma up_wire_app s l1 l2 : up_wire s (l1 ++ l2) = up_wire s l1 ++ up_wire s l2.
Proof. unfold up_wire. by rewrite map_app, concat_app. Qed.
Lemma down_wire_app s l1 l2 : down_wire s (l1 ++ l2) = down_wire s l1 ++ down_wire s l2.
Proof. unfold down_wire. by rewrite map_app, concat_app. Qed.
Lemma up_queue_app s l1 l2 : up_queue s (l1 ++ l2) = up_queue s l1 ++ up_queue s l2.
Proof. unfold up_queue. by rewrite map_app, concat_app. Qed.
Lemma down_queue_app s l1 l2 : down_queue s (l1 ++ l2) = down_queue s l1 ++ down_queue s l2.
Proof. unfold down_queue. by rewrite map_app, concat_app. Qed.
Lemma up_queue_one s f : up_queue s [f] = sdata s f.
Proof. apply app_nil_r. Qed.
Lemma down_queue_one s f : down_queue s [f] = cdata s f.
Proof. apply app_nil_r. Qed.

Context {Hb64 : Base64Laws} {Hlaws : FrameCodecLaws}.

Lemma sdata_reader s s' r :
  sdata s (fst (Tunnel.relay_reader s' r))
  = match r with ReadBytes v => if s' =? s then v else [] | _ => [] end.
Proof. destruct r; cbn; try done. destruct (s' =? s); [by rewrite b64_roundtrip | done]. Qed.
Lemma cdata_reader s s' r :
  cdata s (fst (RelayClient.target_reader s' r))
  = match r with ReadBytes v => if s' =? s then v else [] | _ => [] end.
Proof. destruct r; cbn; try done. destruct (s' =? s); [by rewrite b64_roundtrip | done]. Qed.

Lemma up_text_sent s f t :
  server_tunnel_frame f -> print_server f = Some t -> up_text s t = sdata s f.
Proof.
  intros Hf Ht. destruct (server_print f Hf) as (t' & Ht' & Hp & _). unfold up_text.
  rewrite Ht in Ht'. injection Ht' as <-. by rewrite Hp.
Qed.
Lemma down_text_sent s f t :
  client_tunnel_frame f -> print_client f = Some t -> down_text s t = cdata s f.
Proof.
  intros Hf Ht. destruct (client_print f Hf) as (t' & Ht' & Hp & _). unfold down_text.
  rewrite Ht in Ht'. injection Ht' as <-. by rewrite Hp.
Qed.

(** ** The steps of the ends *)

(** Only the callers and the server's queue change: the end of one stream and
    frames of that stream. *)
Lemma caller_step_ok L s e e' q :
  link_ok L -> callers L !! s = Some e -> received e' = received e ->
  Forall (reader_frame (callers L)) q ->
  (forall s', s' <> s -> up_queue s' q = []) ->
  (lane_ok (server_live L) (relay_live L) (got_up L s) (up_wire s (to_relay L))
     (up_queue s (server_queue L)) (unread e) (written e) ->
   lane_ok (server_live L) (relay_live L) (got_up L s) (up_wire s (to_relay L))
     (up_queue s (server_queue L) ++ up_queue s q) (unread e') (written e')) ->
  link_ok (set_callers L (server_queue L ++ q) (<[s := e']> (callers L))).
Proof.
  intros [Hm Hc Hsk Hw Ht Ho Hq Hrq Hst Hf] He Hrec Hnew Hother Hlane.
  assert (forall s', is_Some (<[s:=e']> (callers L) !! s') <-> is_Some (callers L !! s')) as Hdom.
  { intros s'. destruct (decide (s' = s)) as [-> |].
    - rewrite lookup_insert_eq, He. by split.
    - by rewrite lookup_insert_ne. }
  split; cbn; try done; try (intros s'; rewrite Hdom; auto).
  - destruct Ho as [Hnd Ho]. split; [done |]. intros s' Hs'. rewrite Hdom. auto.
  - assert (forall l, Forall (reader_frame (callers L)) l ->
              Forall (reader_frame (<[s:=e']> (callers L))) l) as Hmono.
    { intros l Hl. eapply Forall_impl; [exact Hl |]. intros f [Hin Hwf]. split; [| done].
      destruct f; try done; by apply Hdom. }
    apply Forall_app. split; by apply Hmono.
  - intros s' e0 He0. destruct (decide (s' = s)) as [-> | Hne].
    + rewrite lookup_insert_eq in He0. injection He0 as <-. destruct (Hst _ _ He) as [Hup Hdown].
      split; cbn; [rewrite up_queue_app; by apply Hlane | by rewrite Hrec].
    + rewrite lookup_insert_ne in He0 by done. destruct (Hst _ _ He0) as [Hup Hdown].
      split; cbn; [| done]. by rewrite up_queue_app, Hother, app_nil_r.
  - intros s' Hs'. destruct (decide (s' = s)) as [-> | Hne]; [by rewrite lookup_insert_eq in Hs' |].
    rewrite lookup_insert_ne in Hs' by done. rewrite up_queue_app, Hother, app_nil_r by done.
    by apply Hf.
Qed.


(** The same at the Relay. *)
Lemma target_step_ok L s e e' q :
  link_ok L -> sockets L !! s = Some e -> received e' = received e ->
  Forall (target_frame (sockets L)) q ->
  (forall s', s' <> s -> down_queue s' q = []) ->
  (forall c, lane_ok (relay_live L) (server_live L) (received c) (down_wire s (to_server L))
     (down_queue s (relay_queue L)) (unread e) (written e) ->
   lane_ok (relay_live L) (server_live L) (received c) (down_wire s (to_server L))
     (down_queue s (relay_queue L) ++ down_queue s q) (unread e') (written e')) ->
  link_ok (set_sockets L (relay_queue L ++ q) (<[s := e']> (sockets L))).
Proof.
  intros [Hm Hc Hsk Hw Ht Ho Hq Hrq Hst Hf] He Hrec Hnew Hother Hlane.
  assert (forall s', is_Some (<[s:=e']> (sockets L) !! s') <-> is_Some (sockets L !! s')) as Hdom.
  { intros s'. destruct (decide (s' = s)) as [-> |].
    - rewrite lookup_insert_eq, He. by split.
    - by rewrite lookup_insert_ne. }
  split; cbn; try done; try (intros s'; rewrite Hdom; auto).
  - destruct Ho as [Hnd Ho]. split; [done |]. intros s' Hs'. destruct (Ho s' Hs') as [Hi Hn].
    split; [done |]. rewrite lookup_insert_ne; [done |]. intros <-. congruence.
  - assert (forall l, Forall (target_frame (sockets L)) l ->
              Forall (target_frame (<[s:=e']> (sockets L))) l) as Hmono.
    { intros l Hl. eapply Forall_impl; [exact Hl |]. intros f [Hin Hwf]. split; [| done].
      destruct f; try done; by apply Hdom. }
    apply Forall_app. split; by apply Hmono.
  - intros s' c Hc'. destruct (Hst _ _ Hc') as [Hup Hdown]. unfold got_up, sent_down, rest_down in *.
    destruct (decide (s' = s)) as [-> | Hne].
    + rewrite He in Hup, Hdown.
      split; unfold got_up, sent_down, rest_down; cbn; rewrite lookup_insert_eq; cbn in *.
      * by rewrite Hrec.
      * rewrite down_queue_app. by apply Hlane.
    + split; unfold got_up, sent_down, rest_down; cbn; rewrite lookup_insert_ne by done; [done |].
      by rewrite down_queue_app, Hother, app_nil_r.
  - intros s' Hs'. rewrite down_queue_app, Hother, app_nil_r; [by apply Hf |].
    intros ->. destruct (Hsk s) as [c Hc']; [by rewrite He | congruence].
Qed.

Lemma set_callers_nil L c : set_callers L (server_queue L ++ []) c = set_callers L (server_queue L) c.
Proof. by rewrite app_nil_r. Qed.
Lemma set_sockets_nil L c : set_sockets L (relay_queue L ++ []) c = set_sockets L (relay_queue L) c.
Proof. by rewrite app_nil_r. Qed.

(** A frame of a reader task is well formed when its stream id is. *)
Lemma reader_frame_ok L s r :
  link_ok L -> is_Some (callers L !! s) ->
  reader_frame (callers L) (fst (Tunnel.relay_reader s r)).
Proof.
  intros HL Hs. assert (is_u32 s) as Hu.
  { apply (ok_callers L HL) in Hs. destruct (ok_mux L HL) as [Hr _ _ _ _ _ _].
    unfold is_u32. lia. }
  destruct r; split; cbn; eauto.
Qed.
Lemma target_frame_ok L s r :
  link_ok L -> is_Some (sockets L !! s) ->
  target_frame (sockets L) (fst (RelayClient.target_reader s r)).
Proof.
  intros HL Hs. assert (is_u32 s) as Hu.
  { pose proof (ok_sockets L HL s Hs) as Hc. apply (ok_callers L HL) in Hc.
    destruct (ok_mux L HL) as [Hr _ _ _ _ _ _]. unfold is_u32. lia. }
  destruct r; split; cbn; eauto.
Qed.


(** ** The server's turn *)

Definition with_server (L : Link) (m : Mux) (live : bool) (out down : list bytes)
    (q : list ServerFrame) (c : gmap Z End) : Link :=
  {| mux := m; server_live := live; targets := targets L; relay_live := relay_live L;
     to_relay := to_relay L ++ out; to_server := down; server_queue := q;
     relay_queue := relay_queue L; callers := c; sockets := sockets L |}.

(** What a turn does to one stream that was already there. *)
Definition server_lanes (L : Link) (live : bool) (out down : list bytes)
    (q : list ServerFrame) (s : Z) (e e' : End) : Prop :=
  written e' = written e /\ unread e' = unread e
  /\ (forall got rest sent,
        lane_ok true (relay_live L) got (up_wire s (to_relay L)) (up_queue s (server_queue L)) rest sent ->
        lane_ok live (relay_live L) got (up_wire s (to_relay L) ++ up_wire s out) (up_queue s q) rest sent)
  /\ (forall queue rest sent,
        lane_ok (relay_live L) true (received e) (down_wire s (to_server L)) queue rest sent ->
        lane_ok (relay_live L) live (received e') (down_wire s down) queue rest sent).

Lemma server_update_ok L m live out down q c :
  link_ok L -> server_live L = true -> Tunnel.mux_ok m ->
  (forall s, is_Some (c !! s) -> 1 <= s < next_stream_id m) ->
  (forall s, s ∈ writers m -> is_Some (c !! s)) ->
  (forall s, is_Some (callers L !! s) -> is_Some (c !! s)) ->
  (opens out = [] \/ exists s, opens out = [s] /\ callers L !! s = None /\ is_Some (c !! s)) ->
  Forall (reader_frame c) q ->
  (forall s e e', callers L !! s = Some e -> c !! s = Some e' -> server_lanes L live out down q s e e') ->
  (forall s, callers L !! s = None ->
     up_wire s out = [] /\ up_queue s q = [] /\ down_wire s down = []
     /\ match c !! s with Some e => e = new_end | None => True end) ->
  link_ok (with_server L m live out down q c).
Proof.
  intros HL Hlive Hm Hrange Hwr Hkeep Hopen Hq Hlanes Hnew.
  destruct HL as [Hm0 Hc Hsk Hw Ht [Hnd Ho] Hq0 Hrq Hst Hf].
  assert (forall s, callers L !! s = None -> sockets L !! s = None) as Hnosock.
  { intros s Hs. destruct (sockets L !! s) eqn:E; [| done].
    destruct (Hsk s) as [? ?]; [by eexists | congruence]. }
  split; cbn; try done.
  - intros s Hs. auto.
  - unfold opens in *. rewrite omap_app. destruct Hopen as [-> | (s & -> & Hs & Hs')].
    { rewrite app_nil_r. split; [done |]. intros s Hs. destruct (Ho s Hs). auto. }
    split.
    + apply NoDup_app. split; [done |]. split; [| apply NoDup_singleton].
      intros x Hx ->%list_elem_of_singleton. destruct (Ho s Hx) as [[? ?] _]. congruence.
    + intros x [Hx | ->%list_elem_of_singleton]%elem_of_app; [destruct (Ho x Hx); auto | auto].
  - intros s e' He'. destruct (callers L !! s) as [e|] eqn:He.
    + destruct (Hst s e He) as [Hup Hdown]. destruct (Hlanes s e e' He He') as (Hwe & Hue & H1 & H2).
      rewrite Hlive in Hup, Hdown. split; cbn; [rewrite up_wire_app, Hwe, Hue |]; auto.
    + destruct (Hnew s He) as (Ho' & Hq' & Hd' & Hend). rewrite He' in Hend. subst e'.
      destruct (Hf s He) as (F1 & F2 & F3 & F4).
      split; unfold got_up, rest_down, sent_down; cbn; rewrite ?up_wire_app, ?Ho', ?Hq', ?Hd', ?F1, ?F4, Hnosock
        by done; apply lane_empty.
  - intros s Hs. assert (callers L !! s = None) as He.
    { destruct (callers L !! s) eqn:E; [| done]. destruct (Hkeep s) as [? ?]; [by eexists | congruence]. }
    destruct (Hnew s He) as (Ho' & Hq' & Hd' & _). destruct (Hf s He) as (F1 & F2 & F3 & F4).
    rewrite up_wire_app, F1, Ho'. done.
Qed.


(** A turn that neither touches the ends nor the queue: it may send a frame
    without data, drop a frame without data, or stop the loop. *)
Lemma server_plain_ok L m live out down :
  link_ok L -> server_live L = true -> Tunnel.mux_ok m ->
  next_stream_id m = next_stream_id (mux L) ->
  (forall s, s ∈ writers m -> s ∈ writers (mux L)) ->
  opens out = [] -> (forall s, up_wire s out = []) ->
  (forall s, exists x, down_wire s (to_server L) = x ++ down_wire s down /\ (live = true -> x = [])) ->
  link_ok (with_server L m live out down (server_queue L) (callers L)).
Proof.
  intros HL Hlive Hm Hn Hw Hopen Hout Hdown. apply server_update_ok; try done.
  - intros s Hs. rewrite Hn. by apply (ok_callers L HL).
  - intros s Hs. by apply (ok_writers L HL), Hw.
  - by left.
  - apply HL.
  - intros s e e' He He'. rewrite He in He'. injection He' as <-. split_and!; try done.
    + intros got rest sent Hl. rewrite Hout, app_nil_r.
      destruct live; [done | by eapply lane_lost].
    + intros queue rest sent Hl. destruct (Hdown s) as (x & Hx & Hx'). rewrite Hx in Hl.
      destruct live; [by rewrite Hx' in Hl | by eapply lane_deaf].
  - intros s Hs. destruct (ok_fresh L HL s Hs) as (F1 & F2 & F3 & F4). rewrite Hs.
    destruct (Hdown s) as (x & Hx & _). rewrite F3 in Hx. symmetry in Hx.
    apply app_nil in Hx as [_ Hx]. done.
Qed.

(** The frame taken from the queue is sent, or lost with the loop. *)
Lemma server_outbound_ok L m live f q out :
  link_ok L -> server_live L = true -> server_queue L = f :: q -> m = mux L ->
  (out = option_list (print_server f) \/ out = [] /\ live = false) ->
  link_ok (with_server L m live out (to_server L) q (callers L)).
Proof.
  intros HL Hlive Hq -> Hout.
  pose proof (ok_server_queue L HL) as Hwf. rewrite Hq in Hwf. apply Forall_cons in Hwf as [[Hkind Hf] Hwf].
  destruct (server_print f Hf) as (t & Ht & Hp & _).
  assert (opens out = [] /\ forall s, up_wire s out = [] \/ up_wire s out = sdata s f) as [Hopen Hwire].
  { destruct Hout as [-> | [-> _]]; [| split; [done | by left]]. rewrite Ht. cbn. unfold opens, up_wire.
    cbn. rewrite Hp. split; [by destruct f |]. intros s. right. rewrite app_nil_r.
    by apply up_text_sent. }
  assert (live = true -> forall s, up_wire s out = sdata s f) as Hwire'.
  { intros -> s. destruct Hout as [-> | [_ [=]]]. rewrite Ht. unfold up_wire. cbn. rewrite app_nil_r.
    by apply up_text_sent. }
  apply server_update_ok; try done.
  - apply HL.
  - apply (ok_callers L HL).
  - apply (ok_writers L HL).
  - by left.
  - intros s e e' He He'. rewrite He in He'. injection He' as <-. split_and!; try done.
    + intros got rest sent Hl. rewrite Hq in Hl.
      change (up_queue s (f :: q)) with (sdata s f ++ up_queue s q) in Hl.
      destruct live; [rewrite Hwire' by done; by apply lane_send |].
      destruct (Hwire s) as [-> | ->]; [| by apply lane_send].
      rewrite app_nil_r. by eapply lane_lost.
    + intros queue rest sent Hl. destruct live; [done | by eapply lane_deaf].
  - intros s Hs. destruct (ok_fresh L HL s Hs) as (F1 & F2 & F3 & F4). rewrite Hs.
    rewrite Hq in F2. change (up_queue s (f :: q)) with (sdata s f ++ up_queue s q) in F2.
    apply app_nil in F2 as [F2 F2']. split_and!; try done.
    destruct (Hwire s) as [? | ->]; done.
Qed.

(** A stream is opened. *)
Lemma server_open_ok L m live s out :
  link_ok L -> server_live L = true -> Tunnel.mux_ok m ->
  s = next_stream_id (mux L) -> next_stream_id m = s + 1 -> writers m = {[s]} ∪ writers (mux L) ->
  (out = option_list (print_server (OpenStream s)) \/ out = []) ->
  link_ok (with_server L m live out (to_server L) (server_queue L) (<[s := new_end]> (callers L))).
Proof.
  intros HL Hlive Hm Hs Hn Hw Hout.
  assert (callers L !! s = None) as Hfresh.
  { destruct (callers L !! s) eqn:E; [| done].
    assert (is_Some (callers L !! s)) as Hc by by eexists. apply (ok_callers L HL) in Hc. lia. }
  destruct Hm as [Hr Hwo Hwb Hnr Hpb Hpd Hps] eqn:Hmeq. clear Hmeq.
  destruct (server_print (OpenStream s)) as (t & Ht & Hp & _).
  { cbn. unfold is_u32. pose proof (next_range _ (ok_mux L HL)). lia. }
  assert (forall s', up_wire s' out = []) as Hwire.
  { intros s'. destruct Hout as [-> | ->]; [| done]. rewrite Ht. unfold up_wire, up_text. cbn.
    by rewrite Hp. }
  apply server_update_ok; try done.
  - intros s' Hs'. destruct (decide (s' = s)) as [-> |].
    + pose proof (next_range _ (ok_mux L HL)). lia.
    + rewrite lookup_insert_ne in Hs' by done. apply (ok_callers L HL) in Hs'. lia.
  - rewrite Hw. intros s' [->%elem_of_singleton | Hs']%elem_of_union.
    + by rewrite lookup_insert_eq.
    + rewrite lookup_insert_is_Some'. right. by apply (ok_writers L HL).
  - intros s' Hs'. rewrite lookup_insert_is_Some'. by right.
  - destruct Hout as [-> | ->]; [right; exists s | by left]. rewrite Ht. unfold opens. cbn.
    rewrite Hp. split_and!; [done | done | by rewrite lookup_insert_eq].
  - eapply Forall_impl; [apply HL |]. intros f [Hk Hf]. split; [| done].
    destruct f; try done; rewrite lookup_insert_is_Some'; by right.
  - intros s' e e' He He'. rewrite lookup_insert_ne in He' by congruence.
    rewrite He in He'. injection He' as <-. split_and!; try done; intros; rewrite ?Hwire, ?app_nil_r;
      (destruct live; [done |]); [by eapply lane_lost | by eapply lane_deaf].
  - intros s' Hs'. destruct (ok_fresh L HL s' Hs') as (F1 & F2 & F3 & F4). split_and!; try done.
    destruct (decide (s' = s)) as [-> |]; [by rewrite lookup_insert_eq |].
    rewrite lookup_insert_ne by done. by rewrite Hs'.
Qed.

(** Data arrives for a stream: all of it is handed over, or the loop stops
    after a part of it. *)
Lemma server_deliver_ok L m live s text rest v n :
  link_ok L -> server_live L = true -> Tunnel.mux_ok m -> next_stream_id m = next_stream_id (mux L) ->
  writers m = writers (mux L) -> to_server L = text :: rest ->
  (forall s', down_text s' text = if s =? s' then v else []) ->
  (n = None /\ live = true \/ live = false) ->
  link_ok (with_server L m live [] rest (server_queue L)
             (alter (end_receive (from_option (fun k => take k v) v n)) s (callers L))).
Proof.
  intros HL Hlive Hm Hn Hw Hwire Hv Hcut.
  set (part := from_option (fun k => take k v) v n).
  assert (exists tail, v = part ++ tail /\ (live = true -> tail = [])) as (tail & Htail & Hall).
  { unfold part. destruct n as [k|]; cbn.
    - exists (drop k v). rewrite take_drop. split; [done |]. by destruct Hcut as [[? ?] | ->].
    - exists []. by rewrite app_nil_r. }
  assert (forall s', is_Some (alter (end_receive part) s (callers L) !! s') <-> is_Some (callers L !! s')) as Hdom.
  { intros s'. destruct (decide (s = s')) as [-> |].
    - rewrite lookup_alter_eq. by destruct (callers L !! s').
    - by rewrite lookup_alter_ne. }
  apply server_update_ok; try done.
  - intros s' Hs'. apply Hdom in Hs'. rewrite Hn. by apply (ok_callers L HL).
  - intros s' Hs'. apply Hdom, (ok_writers L HL). by rewrite <- Hw.
  - intros s' Hs'. by apply Hdom.
  - by left.
  - eapply Forall_impl; [apply HL |]. intros f [Hk Hf]. split; [| done].
    destruct f; try done; by apply Hdom.
  - intros s' e e' He He'. split_and!.
    + destruct (decide (s = s')) as [-> |];
        [rewrite lookup_alter_eq, He in He' | rewrite lookup_alter_ne, He in He' by done];
        by injection He' as <-.
    + destruct (decide (s = s')) as [-> |];
        [rewrite lookup_alter_eq, He in He' | rewrite lookup_alter_ne, He in He' by done];
        by injection He' as <-.
    + intros got rst sent Hl. rewrite app_nil_r. destruct live; [done | by eapply lane_lost].
    + intros queue rst sent Hl. rewrite Hwire in Hl. unfold down_wire in Hl. cbn in Hl.
      rewrite Hv in Hl. destruct (Z.eqb_spec s s') as [<- | Hne].
      * rewrite lookup_alter_eq, He in He'. injection He' as <-. cbn. rewrite Htail in Hl.
        destruct live.
        -- rewrite Hall, app_nil_r in Hl by done. by apply lane_deliver.
        -- rewrite <- app_assoc in Hl. by eapply lane_cut.
      * rewrite lookup_alter_ne, He in He' by done. injection He' as <-.
        destruct live; [done | by eapply lane_deaf].
  - intros s' Hs'. destruct (ok_fresh L HL s' Hs') as (F1 & F2 & F3 & F4).
    rewrite Hwire in F3. unfold down_wire in F3. cbn in F3. apply app_nil in F3 as [_ F3].
    split_and!; try done. destruct (alter _ _ _ !! s') eqn:E; [| done].
    assert (is_Some (callers L !! s')) as [? ?] by (apply Hdom; by eexists). congruence.
Qed.


(** Nothing but the control state changes. *)
Lemma server_still_ok L m live :
  link_ok L -> server_live L = true -> Tunnel.mux_ok m ->
  next_stream_id m = next_stream_id (mux L) -> (forall s, s ∈ writers m -> s ∈ writers (mux L)) ->
  link_ok (with_server L m live [] (to_server L) (server_queue L) (callers L)).
Proof. intros. apply server_plain_ok; try done. intros s. by exists []. Qed.

(** A text without data is taken off the wire. *)
Lemma server_take_ok L m live text rest :
  link_ok L -> server_live L = true -> Tunnel.mux_ok m ->
  next_stream_id m = next_stream_id (mux L) -> (forall s, s ∈ writers m -> s ∈ writers (mux L)) ->
  to_server L = text :: rest -> (live = true -> forall s, down_text s text = []) ->
  link_ok (with_server L m live [] rest (server_queue L) (callers L)).
Proof.
  intros ? ? ? ? ? Hwire Htext. apply server_plain_ok; try done. intros s. exists (down_text s text).
  rewrite Hwire. split; [done |]. intros. by apply Htext.
Qed.

Lemma server_turn_eq t L m e flow :
  Tunnel.turn (mux L) t = (m, e, flow) ->
  server_turn t L
  = let chosen := if Tunnel.lease_top t then Tunnel.select (mux L) t else None in
    let '(wire, ends) := fold_left (fun p x => server_effect x p) e (to_relay L, callers L) in
    {| mux := m;
       server_live := match flow with Tunnel.Continue => true | Tunnel.Return _ => false end;
       targets := targets L; relay_live := relay_live L; to_relay := wire;
       to_server := match chosen with
                    | Some (Tunnel.OnMessage (Received _)) => tail (to_server L)
                    | _ => to_server L
                    end;
       server_queue := match chosen with
                       | Some (Tunnel.OnOutbound _) => tail (server_queue L)
                       | _ => server_queue L
                       end;
       relay_queue := relay_queue L; callers := ends; sockets := sockets L |}.
Proof. unfold server_turn. by intros ->. Qed.

Lemma with_server_nil L m live down q c :
  {| mux := m; server_live := live; targets := targets L; relay_live := relay_live L;
     to_relay := to_relay L; to_server := down; server_queue := q; relay_queue := relay_queue L;
     callers := c; sockets := sockets L |} = with_server L m live [] down q c.
Proof. unfold with_server. by rewrite app_nil_r. Qed.

Lemma server_command_ok L t m e flow :
  link_ok L -> server_live L = true -> Tunnel.mux_ok m ->
  Tunnel.on_command (mux L) t = (m, e, flow) ->
  let '(wire, ends) := fold_left (fun p x => server_effect x p) e (to_relay L, callers L) in
  link_ok {| mux := m;
     server_live := match flow with Tunnel.Continue => true | Tunnel.Return _ => false end;
     targets := targets L; relay_live := relay_live L; to_relay := wire;
     to_server := to_server L; server_queue := server_queue L; relay_queue := relay_queue L;
     callers := ends; sockets := sockets L |}.
Proof.
  intros HL Hlive Hm H. unfold Tunnel.on_command in H.
  destruct (Tunnel.lease_ok t); cbn in H;
    [| injection H as <- <- <-; cbn; rewrite with_server_nil; by apply server_still_ok].
  destruct (_ || _); [injection H as <- <- <-; cbn; rewrite with_server_nil; by apply server_still_ok |].
  destruct (MAX_STREAMS <=? _); [injection H as <- <- <-; cbn; rewrite with_server_nil; by apply server_still_ok |].
  unfold checked_add in H. destruct (_ <=? u32_max);
    [| injection H as <- <- <-; cbn; rewrite with_server_nil; by apply server_still_ok].
  destruct (Tunnel.send_frame _ _) as [sent r] eqn:Hs. apply Tunnel.send_frame_effects in Hs.
  destruct Hs as [-> | ->], r; injection H as <- <- <-; cbn; try rewrite with_server_nil;
    apply server_open_ok; try done; auto.
Qed.


Lemma server_message_ok L t text rest m e flow :
  link_ok L -> server_live L = true -> Tunnel.mux_ok m -> to_server L = text :: rest ->
  Tunnel.on_message (mux L) t (Received (TextMessage text)) = (m, e, flow) ->
  let '(wire, ends) := fold_left (fun p x => server_effect x p) e (to_relay L, callers L) in
  link_ok {| mux := m;
     server_live := match flow with Tunnel.Continue => true | Tunnel.Return _ => false end;
     targets := targets L; relay_live := relay_live L; to_relay := wire;
     to_server := rest; server_queue := server_queue L; relay_queue := relay_queue L;
     callers := ends; sockets := sockets L |}.
Proof.
  intros HL Hlive Hm Hwire H. unfold Tunnel.on_message in H.
  assert (forall m', m = m' -> Tunnel.next_stream_id m' = next_stream_id (mux L) ->
    (forall s, s ∈ writers m' -> s ∈ writers (mux L)) -> forall live,
    (live = true -> forall s, down_text s text = []) ->
    link_ok (with_server L m live [] rest (server_queue L) (callers L))) as Htake
    by (intros m' -> ? ? live ?; by eapply server_take_ok).
  destruct (Tunnel.decode_frame (TextMessage text)) as [f|err] eqn:Hd;
    [| injection H as <- <- <-; cbn; rewrite with_server_nil; by eapply Htake].
  cbn in Hd. destruct (_ <? zlen text); [done |]. apply ok_or_Ok in Hd.
  assert (forall s, down_text s text = cdata s f) as Htext by (intros s; unfold down_text; by rewrite Hd).
  destruct f; cbn in H;
    try (injection H as <- <- <-; cbn; rewrite with_server_nil; by eapply Htake).
  - destruct (Tunnel.lease_ok t); cbn in H;
      [| injection H as <- <- <-; cbn; rewrite with_server_nil; by eapply Htake].
    destruct (bool_decide _);
      [| injection H as <- <- <-; cbn; rewrite with_server_nil; by eapply Htake].
    unfold Tunnel.write_data in H.
    destruct (b64_decode data) as [v|] eqn:Hv;
      [| injection H as <- <- <-; cbn; rewrite with_server_nil; by eapply Htake].
    destruct (_ <? zlen v);
      [injection H as <- <- <-; cbn; rewrite with_server_nil; by eapply Htake |].
    assert (forall s', down_text s' text = if stream_id =? s' then v else []) as Hdata
      by (intros s'; rewrite Htext; cbn; by rewrite Hv).
    destruct (Tunnel.taken t) as [n|]; injection H as <- <- <-; cbn; rewrite with_server_nil.
    + eapply (server_deliver_ok L _ _ stream_id text rest v (Some n)); try done. by right.
    + eapply (server_deliver_ok L _ _ stream_id text rest v None); try done. by left.
  - destruct (bool_decide _); injection H as <- <- <-; cbn; rewrite with_server_nil;
      eapply Htake; try done; cbn; set_solver.
  - destruct (bool_decide _); injection H as <- <- <-; cbn; rewrite with_server_nil;
      eapply Htake; try done; cbn; set_solver.
  - destruct (Tunnel.remove_ping _ _); injection H as <- <- <-; cbn; rewrite with_server_nil;
      by eapply Htake.
Qed.

Lemma ping_text_ok n out :
  is_u64 n -> out = option_list (print_server (Ping n)) \/ out = [] ->
  opens out = [] /\ forall s, up_wire s out = [].
Proof.
  intros Hn [-> | ->]; [| done]. destruct (server_print (Ping n) Hn) as (t & Ht & Hp & _).
  rewrite Ht. unfold opens, up_wire, up_text. cbn. by rewrite Hp.
Qed.

Lemma server_tick_ok L t m e flow :
  link_ok L -> server_live L = true -> Tunnel.mux_ok m ->
  Tunnel.on_tick (mux L) t = (m, e, flow) ->
  let '(wire, ends) := fold_left (fun p x => server_effect x p) e (to_relay L, callers L) in
  link_ok {| mux := m;
     server_live := match flow with Tunnel.Continue => true | Tunnel.Return _ => false end;
     targets := targets L; relay_live := relay_live L; to_relay := wire;
     to_server := to_server L; server_queue := server_queue L; relay_queue := relay_queue L;
     callers := ends; sockets := sockets L |}.
Proof.
  intros HL Hlive Hm H. unfold Tunnel.on_tick in H.
  destruct (MAX_PINGS <=? _); [injection H as <- <- <-; cbn; rewrite with_server_nil; by apply server_still_ok |].
  destruct (checked_add _ _ _) as [n|] eqn:Hn;
    [| injection H as <- <- <-; cbn; rewrite with_server_nil; by apply server_still_ok].
  destruct (Tunnel.send_route_frame _ _) as [sent r] eqn:Hs. apply Tunnel.send_route_effects in Hs.
  assert (forall out, out = option_list (print_server (Ping n)) \/ out = [] ->
            opens out = [] /\ forall s, up_wire s out = []) as Hping.
  { intros out. apply ping_text_ok. unfold checked_add in Hn.
    destruct (Z.leb_spec (ping_nonce (mux L) + 1) u64_max); [| done]. injection Hn as <-.
    pose proof (nonce_range _ (ok_mux L HL)). unfold is_u64. lia. }
  destruct Hs as [-> | (-> & _)], r; injection H as <- <- <-; cbn; try rewrite with_server_nil;
    apply server_plain_ok; try done; try (by apply Hping; auto); try (intros s; by exists []).
Qed.

Lemma server_turn_ok L t :
  link_ok L -> server_live L = true -> Tunnel.outbound_ready t = head (server_queue L) ->
  match Tunnel.message_ready t with Some i => arrives (to_server L) i | None => True end ->
  link_ok (server_turn t L).
Proof.
  intros HL Hlive Hout Hmsg. destruct (Tunnel.turn (mux L) t) as [[m e] flow] eqn:Ht.
  rewrite (server_turn_eq _ _ _ _ _ Ht).
  pose proof (turn_keeps _ _ _ (Tunnel.turn_sound _ _ _ _ _ (ok_mux L HL) Ht)) as Hm.
  unfold Tunnel.turn in Ht.
  destruct (Tunnel.lease_top t); cbn in Ht;
    [| injection Ht as <- <- <-; cbn; rewrite with_server_nil; by apply server_still_ok].
  destruct (Tunnel.select (mux L) t) as [[| | | f | | i |]|] eqn:Hsel;
    try (injection Ht as <- <- <-; cbn; rewrite with_server_nil; by apply server_still_ok).
  - pose proof (server_command_ok _ _ _ _ _ HL Hlive Hm Ht) as Hc. cbv zeta.
    by destruct (fold_left _ _ _).
  - assert (head (server_queue L) = Some f) as Hq.
    { unfold Tunnel.select in Hsel. rewrite <- Hout. by repeat case_match; simplify_eq. }
    destruct (server_queue L) as [|f' q] eqn:Hqueue; [done |]. cbn in Hq. injection Hq as ->.
    destruct (Tunnel.send_route_frame f t) as [sent r] eqn:Hs.
    pose proof (Tunnel.send_route_effects _ _ _ _ Hs) as He. injection Ht as <- <- <-.
    destruct He as [-> | (-> & _)]; cbn; try rewrite with_server_nil.
    + destruct r as [[]|]; cbn.
      * exfalso. unfold Tunnel.send_route_frame, Tunnel.send_frame in Hs. repeat case_match; simplify_eq.
      * eapply server_outbound_ok; try done. by right.
    + eapply server_outbound_ok; try done. by left.
  - assert (arrives (to_server L) i) as Hi.
    { unfold Tunnel.select in Hsel. by repeat case_match; simplify_eq. }
    destruct Hi as [(text & Hhead & ->) | [-> | ->]];
      try (injection Ht as <- <- <-; cbn; rewrite with_server_nil; by apply server_still_ok).
    destruct (to_server L) as [|text' rest] eqn:Hwire; [done |]. cbn in Hhead. injection Hhead as ->.
    pose proof (server_message_ok _ _ _ _ _ _ _ HL Hlive Hm Hwire Ht) as Hc. cbv zeta. cbn [tail].
    by destruct (fold_left _ _ _).
  - pose proof (server_tick_ok _ _ _ _ _ HL Hlive Hm Ht) as Hc. cbv zeta.
    by destruct (fold_left _ _ _).
Qed.


(** ** The Relay's turn *)

Definition with_relay (L : Link) (m : Targets) (live : bool) (up out : list bytes)
    (q : list ClientFrame) (c : gmap Z End) : Link :=
  {| mux := mux L; server_live := server_live L; targets := m; relay_live := live;
     to_relay := up; to_server := to_server L ++ out; server_queue := server_queue L;
     relay_queue := q; callers := callers L; sockets := c |}.

(** What a turn does to the two lanes of one stream. *)
Definition relay_lanes (L : Link) (live : bool) (up out : list bytes) (q : list ClientFrame)
    (s : Z) (old new : option End) : Prop :=
  (forall queue rest sent,
     lane_ok (server_live L) true (from_option received [] old) (up_wire s (to_relay L)) queue rest sent ->
     lane_ok (server_live L) live (from_option received [] new) (up_wire s up) queue rest sent)
  /\ (forall got,
     lane_ok true (server_live L) got (down_wire s (to_server L)) (down_queue s (relay_queue L))
       (from_option unread [] old) (from_option written [] old) ->
     lane_ok live (server_live L) got (down_wire s (to_server L) ++ down_wire s out) (down_queue s q)
       (from_option unread [] new) (from_option written [] new)).

Lemma relay_update_ok L m live up out q c :
  link_ok L -> relay_live L = true ->
  (forall s, s ∈ RelayClient.targets m -> is_Some (c !! s)) ->
  (forall s, is_Some (c !! s) -> is_Some (callers L !! s)) ->
  NoDup (opens up) ->
  (forall s, s ∈ opens up -> s ∈ opens (to_relay L) /\ c !! s = None) ->
  Forall (target_frame c) q ->
  (forall s, relay_lanes L live up out q s (sockets L !! s) (c !! s)) ->
  (forall s, callers L !! s = None ->
     up_wire s up = [] /\ down_wire s out = [] /\ down_queue s q = []) ->
  link_ok (with_relay L m live up out q c).
Proof.
  intros HL Hlive Htg Hdom Hnd Ho Hq Hlanes Hnew.
  destruct HL as [Hm Hc Hsk Hw Ht [_ Ho0] Hq0 Hrq Hst Hf]. split; cbn; try done.
  - split; [done |]. intros s Hs. destruct (Ho s Hs) as [Hin Hn]. by destruct (Ho0 s Hin).
  - intros s e He. destruct (Hst s e He) as [Hup Hdown], (Hlanes s) as [Lu Ld].
    unfold got_up, rest_down, sent_down in *. rewrite Hlive in Hup, Hdown.
    split; unfold got_up, rest_down, sent_down; cbn; [by apply Lu |].
    rewrite down_wire_app. by apply Ld.
  - intros s Hs. destruct (Hf s Hs) as (F1 & F2 & F3 & F4), (Hnew s Hs) as (? & Hd & ?).
    by rewrite down_wire_app, F3, Hd.
Qed.

Lemma opens_cons t l :
  opens (t :: l) = match parse_server t with Some (OpenStream s) => s :: opens l | _ => opens l end.
Proof. unfold opens. cbn. by destruct (parse_server t) as [[]|]. Qed.

(** The text a turn takes off the wire, if any. *)
Definition taken_off (L : Link) (up : list bytes) : Prop :=
  up = to_relay L \/ exists t, to_relay L = t :: up.

Lemma taken_opens L up :
  link_ok L -> taken_off L up ->
  NoDup (opens up) /\ forall s, s ∈ opens up -> s ∈ opens (to_relay L) /\ sockets L !! s = None.
Proof.
  intros HL Hup. destruct (ok_opens L HL) as [Hnd Ho].
  destruct Hup as [-> | [t Ht]]; [split; [done | by intros s Hs; split; [| apply Ho]] |].
  rewrite Ht, opens_cons in Hnd, Ho |- *.
  destruct (parse_server t) as [[]|]; try (by split; [| intros s Hs; split; [| apply Ho]]).
  apply NoDup_cons in Hnd as [_ Hnd]. split; [done |]. intros s Hs.
  split; [by right | apply Ho; by right].
Qed.

Lemma taken_fresh L up s :
  link_ok L -> taken_off L up -> callers L !! s = None -> up_wire s up = [].
Proof.
  intros HL Hup Hs. destruct (ok_fresh L HL s Hs) as (F1 & _).
  destruct Hup as [-> | [t Ht]]; [done |]. rewrite Ht in F1. by apply app_nil in F1 as [_ F1].
Qed.

(** A turn that keeps the sockets: it may take a text off the wire and queue a
    frame without data, or stop. *)
Lemma relay_plain_ok L m live up out :
  link_ok L -> relay_live L = true ->
  (forall s, s ∈ RelayClient.targets m -> s ∈ RelayClient.targets (targets L)) ->
  taken_off L up -> (live = true -> forall s, up_wire s (to_relay L) = up_wire s up) ->
  (forall s, down_wire s out = []) ->
  link_ok (with_relay L m live up out (relay_queue L) (sockets L)).
Proof.
  intros HL Hlive Htg Hup Hsame Hout. destruct (taken_opens L up HL Hup) as [Hnd Ho].
  apply relay_update_ok; try done.
  - intros s Hs. by apply (ok_targets L HL), Htg.
  - apply HL.
  - apply HL.
  - intros s. split.
    + intros queue rest sent Hl. destruct live; [by rewrite <- Hsame | by eapply lane_deaf].
    + intros got Hl. rewrite Hout, app_nil_r. destruct live; [done | by eapply lane_lost].
  - intros s Hs. destruct (ok_fresh L HL s Hs) as (_ & _ & _ & F4).
    split_and!; [by eapply taken_fresh | done | done].
Qed.

Lemma relay_outbound_ok L live f q out :
  link_ok L -> relay_live L = true -> relay_queue L = f :: q ->
  (out = option_list (print_client f) \/ out = [] /\ live = false) ->
  link_ok (with_relay L (targets L) live (to_relay L) out q (sockets L)).
Proof.
  intros HL Hlive Hq Hout.
  pose proof (ok_relay_queue L HL) as Hwf. rewrite Hq in Hwf. apply Forall_cons in Hwf as [[Hkind Hf] Hwf].
  destruct (client_print f Hf) as (t & Ht & Hp & _).
  assert (forall s, (out = option_list (print_client f) -> down_wire s out = cdata s f)) as Hwire.
  { intros s ->. rewrite Ht. unfold down_wire. cbn. rewrite app_nil_r. by apply down_text_sent. }
  destruct (ok_opens L HL) as [Hnd Ho].
  apply relay_update_ok; try done.
  - apply (ok_targets L HL).
  - apply HL.
  - intros s Hs. by destruct (Ho s Hs).
  - intros s. split.
    + intros queue rest sent Hl. destruct live; [done | by eapply lane_deaf].
    + intros got Hl. rewrite Hq in Hl.
      change (down_queue s (f :: q)) with (cdata s f ++ down_queue s q) in Hl.
      destruct Hout as [Hout | [-> ->]].
      * rewrite Hwire by done. by apply lane_send.
      * rewrite app_nil_r. by eapply lane_lost.
  - intros s Hs. destruct (ok_fresh L HL s Hs) as (F1 & F2 & F3 & F4).
    rewrite Hq in F4. change (down_queue s (f :: q)) with (cdata s f ++ down_queue s q) in F4.
    apply app_nil in F4 as [F4 F4']. split_and!; try done.
    destruct Hout as [Hout | [-> _]]; [by rewrite Hwire | done].
Qed.

(** A stream is connected. *)
Lemma relay_connect_ok L m live s text up out :
  link_ok L -> relay_live L = true -> to_relay L = text :: up -> parse_server text = Some (OpenStream s) ->
  (forall s', s' ∈ RelayClient.targets m -> s' = s \/ s' ∈ RelayClient.targets (targets L)) ->
  (forall s', down_wire s' out = []) ->
  link_ok (with_relay L m live up out (relay_queue L) (<[s := new_end]> (sockets L))).
Proof.
  intros HL Hlive Hwire Hparse Htg Hout.
  assert (taken_off L up) as Hup by (right; by eexists).
  destruct (taken_opens L up HL Hup) as [Hnd Ho].
  destruct (ok_opens L HL) as [Hnd0 Ho0]. rewrite Hwire, opens_cons, Hparse in Hnd0, Ho0.
  apply NoDup_cons in Hnd0 as [Hnotin _]. destruct (Ho0 s) as [Hcall Hsock]; [by left |].
  apply relay_update_ok; try done.
  - intros s' Hs'. rewrite lookup_insert_is_Some'.
    destruct (Htg s' Hs') as [-> | ?]; [by left | right; by apply (ok_targets L HL)].
  - intros s' [<- | Hs']%lookup_insert_is_Some'; [done | by apply (ok_sockets L HL)].
  - intros s' Hs'. split; [by apply Ho |]. rewrite lookup_insert_ne; [by apply Ho |]. by intros ->.
  - eapply Forall_impl; [apply HL |]. intros f [Hk Hf]. split; [| done].
    destruct f; try done; rewrite lookup_insert_is_Some'; by right.
  - intros s'. assert (up_wire s' (to_relay L) = up_wire s' up) as Hsame.
    { rewrite Hwire. unfold up_wire, up_text. cbn. by rewrite Hparse. }
    unfold relay_lanes. rewrite Hsame. destruct (decide (s' = s)) as [-> | Hne].
    + rewrite lookup_insert_eq, Hsock. split; cbn.
      * intros queue rest sent Hl. destruct live; [done | by eapply lane_deaf].
      * intros got Hl. rewrite Hout, app_nil_r. destruct live; [done | by eapply lane_lost].
    + rewrite lookup_insert_ne by done. split.
      * intros queue rest sent Hl. destruct live; [done | by eapply lane_deaf].
      * intros got Hl. rewrite Hout, app_nil_r. destruct live; [done | by eapply lane_lost].
  - intros s' Hs'. destruct (ok_fresh L HL s' Hs') as (_ & _ & _ & F4).
    split_and!; [by eapply taken_fresh | done | done].
Qed.

(** Data is handed to the target, all of it or a part before the loop stops. *)
Lemma relay_deliver_ok L m live s text up v n :
  link_ok L -> relay_live L = true -> to_relay L = text :: up ->
  RelayClient.targets m = RelayClient.targets (targets L) ->
  (forall s', up_text s' text = if s =? s' then v else []) -> is_Some (sockets L !! s) ->
  opens [text] = [] -> (n = None /\ live = true \/ live = false) ->
  link_ok (with_relay L m live up [] (relay_queue L)
             (alter (end_receive (from_option (fun k => take k v) v n)) s (sockets L))).
Proof.
  intros HL Hlive Hwire Htg Hv Hs Hnoopen Hcut.
  set (part := from_option (fun k => take k v) v n).
  assert (exists tail, v = part ++ tail /\ (live = true -> tail = [])) as (tail & Htail & Hall).
  { unfold part. destruct n as [k|]; cbn.
    - exists (drop k v). rewrite take_drop. split; [done |]. by destruct Hcut as [[? ?] | ->].
    - exists []. by rewrite app_nil_r. }
  assert (forall s', is_Some (alter (end_receive part) s (sockets L) !! s') <-> is_Some (sockets L !! s')) as Hdom.
  { intros s'. destruct (decide (s = s')) as [-> |].
    - rewrite lookup_alter_eq. by destruct (sockets L !! s').
    - by rewrite lookup_alter_ne. }
  assert (taken_off L up) as Hup by (right; by eexists).
  destruct (taken_opens L up HL Hup) as [Hnd Ho].
  apply relay_update_ok; try done.
  - intros s'. rewrite Htg, Hdom. apply (ok_targets L HL).
  - intros s'. rewrite Hdom. apply HL.
  - intros s' Hs'. destruct (Ho s' Hs') as [? Hn]. split; [done |].
    apply eq_None_not_Some. rewrite Hdom, Hn. by apply is_Some_None.
  - eapply Forall_impl; [apply HL |]. intros f [Hk Hf]. split; [| done].
    destruct f; try done; by apply Hdom.
  - intros s'. unfold relay_lanes. rewrite Hwire. change (up_wire s' (text :: up)) with (up_text s' text ++ up_wire s' up).
    rewrite Hv.
    destruct (Z.eqb_spec s s') as [<- | Hne].
    + rewrite lookup_alter_eq. destruct Hs as [e He]. rewrite He. cbn. split.
      * intros queue rest sent Hl. rewrite Htail in Hl.
        destruct live; [rewrite Hall, app_nil_r in Hl by done; by apply lane_deliver |].
        rewrite <- app_assoc in Hl. by eapply lane_cut.
      * intros got Hl. rewrite app_nil_r. destruct live; [done | by eapply lane_lost].
    + rewrite lookup_alter_ne by done. split.
      * intros queue rest sent Hl. destruct live; [done | by eapply lane_deaf].
      * intros got Hl. rewrite app_nil_r. destruct live; [done | by eapply lane_lost].
  - intros s' Hs'. destruct (ok_fresh L HL s' Hs') as (_ & _ & _ & F4).
    split_and!; [by eapply taken_fresh | done | done].
Qed.


Lemma with_relay_nil L m live up q c :
  {| mux := mux L; server_live := server_live L; targets := m; relay_live := live;
     to_relay := up; to_server := to_server L; server_queue := server_queue L; relay_queue := q;
     callers := callers L; sockets := c |} = with_relay L m live up [] q c.
Proof. unfold with_relay. by rewrite app_nil_r. Qed.

(** A text without data is read, and possibly answered by a frame without
    data. *)
Lemma relay_answer_ok L m live text up out :
  link_ok L -> relay_live L = true -> to_relay L = text :: up ->
  (forall s, s ∈ RelayClient.targets m -> s ∈ RelayClient.targets (targets L)) ->
  (live = true -> forall s, up_text s text = []) ->
  (exists f, out = option_list (print_client f) /\ client_tunnel_frame f /\ forall s, cdata s f = [])
  \/ out = [] ->
  link_ok (with_relay L m live up out (relay_queue L) (sockets L)).
Proof.
  intros HL Hlive Hwire Htg Htext Hout. apply relay_plain_ok; try done.
  - right. by eexists.
  - intros Hl s. rewrite Hwire. change (up_wire s (text :: up)) with (up_text s text ++ up_wire s up).
    by rewrite Htext.
  - intros s. destruct Hout as [(f & -> & Hf & Hd) | ->]; [| done].
    destruct (client_print f Hf) as (t & Ht & Hp & _). rewrite Ht. unfold down_wire. cbn.
    by rewrite app_nil_r, (down_text_sent s f), Hd.
Qed.

Lemma relay_message_ok L t text up m e flow :
  link_ok L -> relay_live L = true -> to_relay L = text :: up ->
  RelayClient.branch t = RelayClient.OnMessage (Received (TextMessage text)) ->
  RelayClient.turn (targets L) t = (m, e, flow) ->
  let '(wire, ends) := fold_left (fun p x => relay_effect x p) e (to_server L, sockets L) in
  link_ok {| mux := mux L; server_live := server_live L; targets := m;
     relay_live := match flow with RelayClient.Continue => true | RelayClient.Return _ => false end;
     to_relay := up; to_server := wire; server_queue := server_queue L;
     relay_queue := relay_queue L; callers := callers L; sockets := ends |}.
Proof.
  intros HL Hlive Hwire Hbranch H. unfold RelayClient.turn in H. rewrite Hbranch in H.
  destruct (RelayClient.decode_frame (TextMessage text)) as [f|err] eqn:Hd;
    [| injection H as <- <- <-; cbn; rewrite with_relay_nil; eapply relay_answer_ok; try done; by right].
  cbn in Hd. destruct (_ <? zlen text); [done |]. apply ok_or_Ok in Hd.
  assert (forall s, up_text s text = sdata s f) as Htext by (intros s; unfold up_text; by rewrite Hd).
  assert (forall m' live, (forall s, s ∈ RelayClient.targets m' -> s ∈ RelayClient.targets (targets L)) ->
    (live = true -> forall s, up_text s text = []) ->
    link_ok (with_relay L m' live up [] (relay_queue L) (sockets L))) as Hquiet
    by (intros; eapply relay_answer_ok; try done; by right).
  destruct f; cbn in H;
    try (injection H as <- <- <-; cbn; rewrite with_relay_nil; by apply Hquiet).
  - destruct (_ || bool_decide _);
      [injection H as <- <- <-; cbn; rewrite with_relay_nil; by apply Hquiet |].
    pose proof (server_parse_typed _ _ Hd) as Hu. cbn in Hu. destruct (RelayClient.connected t).
    + destruct (RelayClient.send_frame _ _) as [sent r] eqn:Hs.
      apply RelayClient.client_send_effects in Hs. injection H as <- <- <-.
      destruct Hs as [-> | ->]; cbn; try rewrite with_relay_nil;
        (eapply relay_connect_ok; try done; try (cbn; set_solver)).
      intros s'. destruct (client_print (ClientStreamOpened stream_id) Hu) as (tx & Htx & Hp & _).
      rewrite Htx. unfold down_wire, down_text. cbn. by rewrite Hp.
    + destruct (RelayClient.send_frame _ _) as [sent r] eqn:Hs.
      apply RelayClient.client_send_effects in Hs. injection H as <- <- <-.
      destruct Hs as [-> | ->]; cbn; try rewrite with_relay_nil; [by apply Hquiet |].
      eapply relay_answer_ok; try done. left. eauto.
  - destruct (bool_decide_reflect (stream_id ∈ RelayClient.targets (targets L))) as [Hin |];
      [| injection H as <- <- <-; cbn; rewrite with_relay_nil; by apply Hquiet].
    unfold RelayClient.write_data in H.
    destruct (b64_decode data) as [v|] eqn:Hv;
      [| injection H as <- <- <-; cbn; rewrite with_relay_nil; by apply Hquiet].
    destruct (_ <? zlen v); [injection H as <- <- <-; cbn; rewrite with_relay_nil; by apply Hquiet |].
    assert (forall s', up_text s' text = if stream_id =? s' then v else []) as Hdata
      by (intros s'; rewrite Htext; cbn; by rewrite Hv).
    assert (opens [text] = []) as Hno by (unfold opens; cbn; by rewrite Hd).
    apply (ok_targets L HL) in Hin.
    destruct (RelayClient.taken t) as [n|]; injection H as <- <- <-; cbn; rewrite with_relay_nil.
    + eapply (relay_deliver_ok L _ _ stream_id text up v (Some n)); try done. by right.
    + eapply (relay_deliver_ok L _ _ stream_id text up v None); try done. by left.
  - destruct (bool_decide _); injection H as <- <- <-; cbn; rewrite with_relay_nil; apply Hquiet;
      try done; cbn; set_solver.
  - destruct (bool_decide _); injection H as <- <- <-; cbn; rewrite with_relay_nil; apply Hquiet;
      try done; cbn; set_solver.
  - destruct (RelayClient.send_frame _ _) as [sent r] eqn:Hs.
    apply RelayClient.client_send_effects in Hs. injection H as <- <- <-.
    destruct Hs as [-> | ->]; cbn; try rewrite with_relay_nil; [by apply Hquiet |].
    eapply relay_answer_ok; try done. left. exists (Pong nonce). split_and!; [done | | done].
    by apply (server_parse_typed _ _ Hd).
Qed.


Lemma relay_still_ok L m live :
  link_ok L -> relay_live L = true ->
  (forall s, s ∈ RelayClient.targets m -> s ∈ RelayClient.targets (targets L)) ->
  link_ok (with_relay L m live (to_relay L) [] (relay_queue L) (sockets L)).
Proof. intros. apply relay_plain_ok; try done. by left. Qed.

Lemma relay_turn_ok L t :
  link_ok L -> relay_live L = true ->
  match RelayClient.branch t with
  | RelayClient.OnOutbound f => head (relay_queue L) = Some f
  | RelayClient.OnMessage i => arrives (to_relay L) i
  | _ => True
  end ->
  link_ok (relay_turn t L).
Proof.
  intros HL Hlive Hready. unfold relay_turn.
  destruct (RelayClient.turn (targets L) t) as [[m e] flow] eqn:Ht.
  destruct (RelayClient.branch t) as [ok | f | | i] eqn:Hb.
  - unfold RelayClient.turn in Ht. rewrite Hb in Ht. injection Ht as <- <- <-. cbn.
    rewrite with_relay_nil. by apply relay_still_ok.
  - unfold RelayClient.turn in Ht. rewrite Hb in Ht.
    destruct (relay_queue L) as [|f' q] eqn:Hq; [done |]. cbn in Hready. injection Hready as ->.
    destruct (RelayClient.send_frame f (RelayClient.fate t)) as [sent r] eqn:Hs.
    pose proof (RelayClient.client_send_effects _ _ _ _ Hs) as He. injection Ht as <- <- <-.
    destruct He as [-> | ->]; cbn; try rewrite with_relay_nil.
    + eapply relay_outbound_ok; try done. right. split; [done |].
      destruct r as [[]|]; [| done]. exfalso. unfold RelayClient.send_frame in Hs.
      repeat case_match; simplify_eq.
    + eapply relay_outbound_ok; try done. by left.
  - unfold RelayClient.turn in Ht. rewrite Hb in Ht.
    destruct (_ <=? _); injection Ht as <- <- <-; cbn; rewrite with_relay_nil; by apply relay_still_ok.
  - destruct Hready as [(text & Hhead & ->) | [-> | ->]];
      try (unfold RelayClient.turn in Ht; rewrite Hb in Ht; injection Ht as <- <- <-; cbn;
           rewrite with_relay_nil; by apply relay_still_ok).
    destruct (to_relay L) as [|text' up] eqn:Hwire; [done |]. cbn in Hhead. injection Hhead as ->.
    pose proof (relay_message_ok _ _ _ _ _ _ _ HL Hlive Hwire Hb Ht) as Hc. cbn [tail].
    by destruct (fold_left _ _ _).
Qed.

(** A reader task takes from its end and queues one frame of its stream. *)
Lemma server_reader_ok L s e e' r :
  link_ok L -> callers L !! s = Some e -> received e' = received e -> written e' = written e ->
  unread e = match r with ReadBytes v => v | _ => [] end ++ unread e' ->
  link_ok (set_callers L (server_queue L ++ [fst (Tunnel.relay_reader s r)])
             (<[s := e']> (callers L))).
Proof.
  intros HL He Hr Hw Hu. eapply caller_step_ok; try done.
  - apply Forall_singleton, reader_frame_ok; [done | by eexists].
  - intros s' Hne. rewrite up_queue_one, sdata_reader. destruct r; try done.
    destruct (Z.eqb_spec s s'); congruence.
  - intros Hl. rewrite up_queue_one, sdata_reader, Z.eqb_refl, Hw. rewrite Hu in Hl.
    destruct Hl as (H1 & H2 & H3). split_and!; try done. intros Hrl Hsl. rewrite <- (H3 Hrl Hsl).
    by rewrite <- !app_assoc.
Qed.
Lemma target_reader_ok L s e e' r :
  link_ok L -> sockets L !! s = Some e -> received e' = received e -> written e' = written e ->
  unread e = match r with ReadBytes v => v | _ => [] end ++ unread e' ->
  link_ok (set_sockets L (relay_queue L ++ [fst (RelayClient.target_reader s r)])
             (<[s := e']> (sockets L))).
Proof.
  intros HL He Hr Hw Hu. eapply target_step_ok; try done.
  - apply Forall_singleton, target_frame_ok; [done | by eexists].
  - intros s' Hne. rewrite down_queue_one, cdata_reader. destruct r; try done.
    destruct (Z.eqb_spec s s'); congruence.
  - intros c Hl. rewrite down_queue_one, cdata_reader, Z.eqb_refl, Hw. rewrite Hu in Hl.
    destruct Hl as (H1 & H2 & H3). split_and!; try done. intros Hrl Hsl. rewrite <- (H3 Hrl Hsl).
    by rewrite <- !app_assoc.
Qed.

Lemma step_ok L L' : link_ok L -> step L L' -> link_ok L'.
Proof.
  intros HL H. destruct H as [L s e v He _ | L s e He | L s e v He _ | L s e He | L s e n He _ Hn _
    | L s e r He _ Hr | L s e n He _ Hn _ | L s e r He _ Hr | L t Hlive Hout Hmsg | L t Hlive Hready].
  - rewrite <- set_callers_nil. eapply caller_step_ok; try done. intros Hl. rewrite app_nil_r.
    by apply lane_write.
  - rewrite <- set_callers_nil. eapply caller_step_ok; try done. intros Hl. by rewrite app_nil_r.
  - rewrite <- set_sockets_nil. eapply target_step_ok; try done. intros c Hl. rewrite app_nil_r.
    by apply lane_write.
  - rewrite <- set_sockets_nil. eapply target_step_ok; try done. intros c Hl. by rewrite app_nil_r.
  - eapply server_reader_ok; try done. cbn. by rewrite take_drop.
  - eapply server_reader_ok; try done. by destruct Hr as [(-> & _) | ->].
  - eapply target_reader_ok; try done. cbn. by rewrite take_drop.
  - eapply target_reader_ok; try done. by destruct Hr as [(-> & _) | ->].
  - by apply server_turn_ok.
  - by apply relay_turn_ok.
Qed.

Lemma link_reachable_ok start L : rtc step (initial start) L -> link_ok L.
Proof.
  intros H. pose proof (link_initial_ok start) as H0. induction H as [|L1 L2 L3 Hs _ IH]; [done |].
  apply IH. by eapply step_ok.
Qed.


(** ** Refinement *)

Definition keeps_ends (x : Tunnel.Effect) : Prop :=
  match x with Tunnel.Spawned _ | Tunnel.Wrote _ _ => False | _ => True end.

(** What a server turn may do to the callers. *)
Lemma server_turn_shape L t m e flow :
  Tunnel.turn (mux L) t = (m, e, flow) ->
  Forall keeps_ends e
  \/ (exists rest, e = Tunnel.Spawned (next_stream_id (mux L)) :: rest
      /\ Forall keeps_ends rest)
  \/ exists s v, e = [Tunnel.Wrote s v].
Proof.
  intros H. unfold Tunnel.turn in H. destruct (Tunnel.lease_top t); cbn in H;
    [| injection H as <- <- <-; by left; constructor].
  assert (forall f e r, Tunnel.send_route_frame f t = (e, r) ->
    Forall keeps_ends e) as Hroute
    by (intros f e0 r [-> | [-> _]]%Tunnel.send_route_effects; by repeat constructor).
  destruct (Tunnel.select (mux L) t) as [[| | | f | | i |]|];
    try (injection H as <- <- <-; left; by constructor).
  - unfold Tunnel.on_command in H. repeat case_match; simplify_eq; try (left; by repeat constructor);
      right; left; eexists; (split; [reflexivity |]);
      match goal with Hs : Tunnel.send_frame _ _ = _ |- _ =>
        apply Tunnel.send_frame_effects in Hs as [-> | ->]; by repeat constructor end.
  - destruct (Tunnel.send_route_frame f t) as [sent r] eqn:Hs. injection H as <- <- <-. left.
    by eapply Hroute.
  - destruct i as [msg| |]; cbn in H; try (injection H as <- <- <-; left; by constructor).
    destruct (Tunnel.decode_frame msg) as [f|]; [| injection H as <- <- <-; left; by constructor].
    destruct f; cbn in H; repeat case_match; simplify_eq; try (left; by repeat constructor).
    match goal with Hs : Tunnel.write_data _ _ _ = _ |- _ =>
      apply Tunnel.write_data_effects in Hs as [-> | [v ->]] end; [left; by constructor | eauto].
  - unfold Tunnel.on_tick in H. repeat case_match; simplify_eq; try (left; by constructor);
      left; by eapply Hroute.
Qed.

Lemma server_fold_neutral e wire ends :
  Forall keeps_ends e ->
  snd (fold_left (fun p x => server_effect x p) e (wire, ends)) = ends.
Proof.
  intros He. revert wire; induction He as [|x e Hx _ IH]; intros wire; [done |].
  cbn [fold_left]. destruct x; try done; cbn; apply IH.
Qed.

Lemma server_turn_callers L t :
  sockets (server_turn t L) = sockets L
  /\ (callers (server_turn t L) = callers L
      \/ callers (server_turn t L) = <[next_stream_id (mux L) := new_end]> (callers L)
      \/ exists s v, callers (server_turn t L) = alter (end_receive v) s (callers L)).
Proof.
  destruct (Tunnel.turn (mux L) t) as [[m e] flow] eqn:Ht. unfold server_turn. rewrite Ht.
  destruct (fold_left _ e _) as [wire ends] eqn:Hf. cbn. split; [done |].
  assert (ends = snd (fold_left (fun p x => server_effect x p) e (to_relay L, callers L))) as ->
    by by rewrite Hf.
  apply server_turn_shape in Ht as [He | [(rest & -> & He) | (s & v & ->)]].
  - left. by apply server_fold_neutral.
  - right. left. cbn [fold_left server_effect]. by apply server_fold_neutral.
  - right. right. by exists s, v.
Qed.

(** And a Relay turn to the sockets. *)
Lemma relay_turn_sockets L t :
  link_ok L ->
  match RelayClient.branch t with
  | RelayClient.OnMessage i => arrives (to_relay L) i | _ => True
  end ->
  callers (relay_turn t L) = callers L
  /\ (sockets (relay_turn t L) = sockets L
      \/ (exists s, sockets L !! s = None /\ sockets (relay_turn t L) = <[s := new_end]> (sockets L))
      \/ exists s v, sockets (relay_turn t L) = alter (end_receive v) s (sockets L)).
Proof.
  intros HL Hready. destruct (RelayClient.turn (targets L) t) as [[m e] flow] eqn:Ht.
  unfold relay_turn. rewrite Ht. unfold RelayClient.turn in Ht.
  assert (forall f fate e r, RelayClient.send_frame f fate = (e, r) -> forall wire ends,
    snd (fold_left (fun p x => relay_effect x p) e (wire, ends)) = ends) as Hsend
    by (intros f fate e0 r [-> | ->]%RelayClient.client_send_effects; done).
  assert (forall p : list bytes * gmap Z End, forall R : gmap Z End -> Prop, R (snd p) ->
    R (sockets (let '(wire, ends) := p in
      {| mux := mux L; server_live := server_live L; targets := m;
         relay_live := match flow with RelayClient.Continue => true | RelayClient.Return _ => false end;
         to_relay := match RelayClient.branch t with
                     | RelayClient.OnMessage (Received _) => tail (to_relay L) | _ => to_relay L end;
         to_server := wire; server_queue := server_queue L;
         relay_queue := match RelayClient.branch t with
                        | RelayClient.OnOutbound _ => tail (relay_queue L) | _ => relay_queue L end;
         callers := callers L; sockets := ends |}))) as Hproj by by intros [].
  split; [by destruct (fold_left _ e _) |]. apply Hproj. clear Hproj.
  destruct (RelayClient.branch t) as [ok | f | | i].
  - injection Ht as <- <- <-. by left.
  - destruct (RelayClient.send_frame f _) as [sent r] eqn:Hs. injection Ht as <- <- <-. left.
    by eapply Hsend.
  - destruct (_ <=? _); injection Ht as <- <- <-; by left.
  - destruct Hready as [(text & Hhead & ->) | [-> | ->]]; try (injection Ht as <- <- <-; by left).
    destruct (to_relay L) as [|text' up] eqn:Hwire; [done |]. injection Hhead as ->.
    destruct (RelayClient.decode_frame _) as [f|] eqn:Hd; [| injection Ht as <- <- <-; by left].
    cbn in Hd. destruct (_ <? zlen text); [done |]. apply ok_or_Ok in Hd.
    destruct f; cbn in Ht; try (injection Ht as <- <- <-; by left).
    + destruct (_ || _); [injection Ht as <- <- <-; by left |].
      destruct (RelayClient.connected t); destruct (RelayClient.send_frame _ _) as [sent r] eqn:Hs;
        injection Ht as <- <- <-; [right; left | left; by eapply Hsend].
      exists stream_id. split; [| cbn [fold_left relay_effect]; by eapply Hsend].
      destruct (ok_opens L HL) as [_ Ho]. rewrite Hwire, opens_cons, Hd in Ho.
      apply Ho. by left.
    + destruct (bool_decide _); [| injection Ht as <- <- <-; by left].
      destruct (RelayClient.write_data _ _ _) as [wrote r] eqn:Hs. injection Ht as <- <- <-.
      apply RelayClient.client_write_effects in Hs as [-> | [v ->]]; [by left | right; right; by eexists _, _].
    + destruct (bool_decide _); injection Ht as <- <- <-; by left.
    + destruct (bool_decide _); injection Ht as <- <- <-; by left.
    + destruct (RelayClient.send_frame _ _) as [sent r] eqn:Hs. injection Ht as <- <- <-. left.
      by eapply Hsend.
Qed.


Lemma abs_lookup L s : abs L !! s = pipe_of L s <$> callers L !! s.
Proof. unfold abs. rewrite map_lookup_imap. by destruct (callers L !! s). Qed.

(** Two states with the same pipe everywhere. *)
Lemma abs_same L L' :
  (forall s, pipe_of L' s <$> callers L' !! s = pipe_of L s <$> callers L !! s) -> abs L' = abs L.
Proof. intros H. apply map_eq. intros s. by rewrite !abs_lookup. Qed.

(** Two states that differ in one pipe. *)
Lemma abs_insert L L' s p :
  pipe_of L' s <$> callers L' !! s = Some p ->
  (forall s', s' <> s -> pipe_of L' s' <$> callers L' !! s' = pipe_of L s' <$> callers L !! s') ->
  abs L' = <[s := p]> (abs L).
Proof.
  intros Hs Hne. apply map_eq. intros s'. rewrite abs_lookup.
  destruct (decide (s' = s)) as [-> |]; [by rewrite lookup_insert_eq |].
  by rewrite lookup_insert_ne, abs_lookup, Hne.
Qed.

(** An end that changes without being written to keeps its pipe. *)
Lemma abs_caller L q s e e' :
  callers L !! s = Some e -> written e' = written e -> received e' = received e ->
  abs (set_callers L q (<[s := e']> (callers L))) = abs L.
Proof.
  intros He Hw Hr. apply abs_same. intros s'. cbn. destruct (decide (s' = s)) as [-> |].
  - rewrite lookup_insert_eq, He. cbn. unfold pipe_of. cbn. by rewrite Hw, Hr.
  - by rewrite lookup_insert_ne.
Qed.
Lemma abs_socket L q s e e' :
  sockets L !! s = Some e -> written e' = written e -> received e' = received e ->
  abs (set_sockets L q (<[s := e']> (sockets L))) = abs L.
Proof.
  intros He Hw Hr. apply abs_same. intros s'. cbn. unfold pipe_of. cbn.
  destruct (decide (s' = s)) as [-> |].
  - rewrite lookup_insert_eq, He. cbn. by rewrite Hw, Hr.
  - by rewrite lookup_insert_ne.
Qed.

Lemma abs_server_turn L t :
  link_ok L -> link_ok (server_turn t L) -> spec_step (abs L) (abs (server_turn t L)).
Proof.
  intros HL HL'. destruct (server_turn_callers L t) as [Hs [Hc | [Hc | (s & v & Hc)]]].
  - rewrite (abs_same L (server_turn t L)); [constructor |]. intros s. unfold pipe_of. by rewrite Hc, Hs.
  - set (s := next_stream_id (mux L)) in *.
    assert (callers L !! s = None) as Hn.
    { apply eq_None_not_Some. intros Hx. apply (ok_callers L HL) in Hx. unfold s in Hx. lia. }
    rewrite (abs_insert L (server_turn t L) s empty_pipe).
    + apply spec_open. by rewrite abs_lookup, Hn.
    + rewrite Hc, lookup_insert_eq. cbn. unfold pipe_of. rewrite Hs. cbn.
      destruct (sockets L !! s) eqn:E; [| done].
      destruct (ok_sockets L HL s) as [? ?]; [by eexists | congruence].
    + intros s' Hne. rewrite Hc, lookup_insert_ne by done. unfold pipe_of. by rewrite Hs.
  - destruct (callers L !! s) as [e|] eqn:He.
    + rewrite (abs_insert L (server_turn t L) s
        {| up_sent := up_sent (pipe_of L s e); up_got := up_got (pipe_of L s e);
           down_sent := down_sent (pipe_of L s e); down_got := down_got (pipe_of L s e) ++ v |}).
      * apply spec_deliver_down; [by rewrite abs_lookup, He |].
        assert (callers (server_turn t L) !! s = Some (end_receive v e)) as He'
          by (by rewrite Hc, lookup_alter_eq, He).
        destruct (stream_down _ _ _ (ok_streams _ HL' s _ He')) as (Hp & _).
        unfold sent_down in Hp. by rewrite Hs in Hp.
      * rewrite Hc, lookup_alter_eq, He. cbn. unfold pipe_of. by rewrite Hs.
      * intros s' Hne. rewrite Hc, lookup_alter_ne by done. unfold pipe_of. by rewrite Hs.
    + rewrite (abs_same L (server_turn t L)); [constructor |]. intros s'. rewrite Hc.
      unfold pipe_of. rewrite Hs. destruct (decide (s = s')) as [<- |];
        [by rewrite lookup_alter_eq, He | by rewrite lookup_alter_ne].
Qed.

Lemma abs_relay_turn L t :
  link_ok L -> link_ok (relay_turn t L) ->
  match RelayClient.branch t with
  | RelayClient.OnMessage i => arrives (to_relay L) i | _ => True
  end ->
  spec_step (abs L) (abs (relay_turn t L)).
Proof.
  intros HL HL' Hready.
  destruct (relay_turn_sockets L t HL Hready) as [Hc [Hs | [(s & Hn & Hs) | (s & v & Hs)]]].
  - rewrite (abs_same L (relay_turn t L)); [constructor |]. intros s. unfold pipe_of. by rewrite Hc, Hs.
  - rewrite (abs_same L (relay_turn t L)); [constructor |]. intros s'. unfold pipe_of. rewrite Hc, Hs.
    destruct (decide (s' = s)) as [-> |]; [by rewrite lookup_insert_eq, Hn | by rewrite lookup_insert_ne].
  - destruct (callers L !! s) as [e|] eqn:He.
    + destruct (sockets L !! s) as [o|] eqn:Ho.
      * rewrite (abs_insert L (relay_turn t L) s
          {| up_sent := up_sent (pipe_of L s e); up_got := up_got (pipe_of L s e) ++ v;
             down_sent := down_sent (pipe_of L s e); down_got := down_got (pipe_of L s e) |}).
        -- apply spec_deliver_up; [by rewrite abs_lookup, He |].
           assert (callers (relay_turn t L) !! s = Some e) as He' by by rewrite Hc.
           destruct (stream_up _ _ _ (ok_streams _ HL' s _ He')) as (Hp & _).
           unfold got_up in Hp. rewrite Hs, lookup_alter_eq, Ho in Hp. unfold pipe_of. cbn.
           by rewrite Ho.
        -- rewrite Hc, He. cbn. unfold pipe_of. by rewrite Hs, lookup_alter_eq, Ho.
        -- intros s' Hne. rewrite Hc. unfold pipe_of. by rewrite Hs, lookup_alter_ne.
      * rewrite (abs_same L (relay_turn t L)); [constructor |]. intros s'. unfold pipe_of.
        rewrite Hc, Hs. destruct (decide (s = s')) as [<- |];
          [by rewrite lookup_alter_eq, Ho | by rewrite lookup_alter_ne].
    + rewrite (abs_same L (relay_turn t L)); [constructor |]. intros s'. rewrite Hc. unfold pipe_of.
      rewrite Hs. destruct (decide (s = s')) as [<- |]; [by rewrite He | by rewrite lookup_alter_ne].
Qed.

(** Writing to an end extends what was sent. *)
Lemma step_abs L L' : link_ok L -> step L L' -> spec_step (abs L) (abs L').
Proof.
  intros HL Hstep. pose proof (step_ok L L' HL Hstep) as HL'.
  destruct Hstep as [L s e v He _ | L s e He | L s e v He _ | L s e He | L s e n He _ Hn _
    | L s e r He _ Hr | L s e n He _ Hn _ | L s e r He _ Hr | L t Hlive Hout Hmsg | L t Hlive Hready];
    try (rewrite (abs_caller L _ s e) by done; constructor);
    try (rewrite (abs_socket L _ s e) by done; constructor).
  - erewrite (abs_insert L (set_callers L (server_queue L) _) s); [apply (spec_write_up (abs L) s (pipe_of L s e) v) | |].
    + by rewrite abs_lookup, He.
    + cbn. by rewrite lookup_insert_eq.
    + intros s' Hne. cbn. by rewrite lookup_insert_ne.
  - destruct (ok_sockets L HL s) as [c Hc]; [by eexists |].
    erewrite (abs_insert L (set_sockets L (relay_queue L) _) s); [apply (spec_write_down (abs L) s (pipe_of L s c) v) | |].
    + by rewrite abs_lookup, Hc.
    + cbn. rewrite Hc. cbn. unfold pipe_of. cbn. by rewrite lookup_insert_eq, He.
    + intros s' Hne. cbn. unfold pipe_of. cbn. by rewrite lookup_insert_ne.
  - by apply abs_server_turn.
  - apply abs_relay_turn; [done | done |]. by destruct (RelayClient.branch t).
Qed.

(** Nothing is under way. *)
Definition quiescent (L : Link) : Prop :=
  server_live L = true /\ relay_live L = true /\ to_relay L = [] /\ to_server L = []
  /\ server_queue L = [] /\ relay_queue L = []
  /\ (forall s e, callers L !! s = Some e -> unread e = [])
  /\ (forall s e, sockets L !! s = Some e -> unread e = []).

Lemma stream_prefixes L s p :
  link_ok L -> abs L !! s = Some p ->
  up_got p `prefix_of` up_sent p /\ down_got p `prefix_of` down_sent p
  /\ (quiescent L -> up_got p = up_sent p /\ down_got p = down_sent p).
Proof.
  intros HL Hp. rewrite abs_lookup in Hp.
  destruct (callers L !! s) as [e|] eqn:He; [| done]. injection Hp as <-.
  destruct (ok_streams L HL s e He) as [(U1 & _ & U3) (D1 & _ & D3)].
  split_and!; [done | done |].
  intros (Hs & Hr & E1 & E2 & E3 & E4 & E5 & E6). specialize (U3 Hr Hs). specialize (D3 Hs Hr).
  unfold rest_down in D3. rewrite E1, E3, (E5 s e He) in U3. rewrite E2, E4 in D3.
  rewrite !app_nil_r in U3. cbn in D3. split; [done |].
  unfold sent_down in D3. cbn. rewrite <- D3.
  destruct (sockets L !! s) as [o|] eqn:Ho; cbn; [rewrite (E6 s o Ho) |]; by rewrite !app_nil_r.
Qed.

(** C3. The tunnel refines a pair of byte pipes per stream: every execution of
    server, Relay, reader tasks, queues and websocket - with every failure of
    either loop at any point - is, step by step, an execution of independent
    pipes in which what an end receives is always a prefix of what the other
    end wrote on the same stream: nothing is reordered, duplicated, altered or
    crossed over to another stream.  And nothing is lost while both loops
    live: once nothing is under way, every end has received exactly what the
    other end wrote. *)
Theorem link_refines_pipes (start : Z) (L : Link) (Hreach : rtc step (initial start) L) :
  rtc spec_step ∅ (abs L)
  /\ (forall L', step L L' -> spec_step (abs L) (abs L'))
  /\ (forall s p, abs L !! s = Some p ->
       up_got p `prefix_of` up_sent p /\ down_got p `prefix_of` down_sent p
       /\ (quiescent L -> up_got p = up_sent p /\ down_got p = down_sent p)).
Proof.
  split_and!.
  - assert (abs (initial start) = ∅) as <- by done.
    pose proof (link_initial_ok start) as H0. induction Hreach as [|L1 L2 L3 Hs _ IH]; [done |].
    eapply rtc_l; [by eapply step_abs |]. apply IH. by eapply step_ok.
  - intros L'. apply step_abs. by eapply link_reachable_ok.
  - intros s p. apply stream_prefixes. by eapply link_reachable_ok.
Qed.


(** ** Termination: what is under way runs dry *)

(** The internal steps: a reader task takes from its end, or a loop takes a
    frame from its queue or a text off the wire. *)
Inductive progress : Link -> Link -> Prop :=
| progress_server_reads L s e n :
    callers L !! s = Some e -> reading e = true -> (0 < n <= length (unread e))%nat ->
    Z.of_nat n <= MAX_DATA_BYTES ->
    progress L (set_callers L
              (server_queue L ++ [fst (Tunnel.relay_reader s (ReadBytes (take n (unread e))))])
              (<[s := end_read n e]> (callers L)))
| progress_server_ends L s e :
    callers L !! s = Some e -> reading e = true -> unread e = [] -> closed e = true ->
    progress L (set_callers L (server_queue L ++ [fst (Tunnel.relay_reader s ReadEof)])
              (<[s := end_stop e]> (callers L)))
| progress_target_reads L s e n :
    sockets L !! s = Some e -> reading e = true -> (0 < n <= length (unread e))%nat ->
    Z.of_nat n <= MAX_DATA_BYTES ->
    progress L (set_sockets L
              (relay_queue L ++ [fst (RelayClient.target_reader s (ReadBytes (take n (unread e))))])
              (<[s := end_read n e]> (sockets L)))
| progress_target_ends L s e :
    sockets L !! s = Some e -> reading e = true -> unread e = [] -> closed e = true ->
    progress L (set_sockets L (relay_queue L ++ [fst (RelayClient.target_reader s ReadEof)])
              (<[s := end_stop e]> (sockets L)))
| progress_server_sends L t f q :
    server_live L = true -> server_queue L = f :: q -> Tunnel.lease_top t = true ->
    Tunnel.outbound_ready t = Some f -> Tunnel.select (mux L) t = Some (Tunnel.OnOutbound f) ->
    match Tunnel.message_ready t with Some i => arrives (to_server L) i | None => True end ->
    progress L (server_turn t L)
| progress_server_takes L t text rest :
    server_live L = true -> to_server L = text :: rest -> Tunnel.lease_top t = true ->
    Tunnel.outbound_ready t = head (server_queue L) ->
    Tunnel.message_ready t = Some (Received (TextMessage text)) ->
    Tunnel.select (mux L) t = Some (Tunnel.OnMessage (Received (TextMessage text))) ->
    progress L (server_turn t L)
| progress_relay_sends L t f q :
    relay_live L = true -> relay_queue L = f :: q ->
    RelayClient.branch t = RelayClient.OnOutbound f -> progress L (relay_turn t L)
| progress_relay_takes L t text rest :
    relay_live L = true -> to_relay L = text :: rest ->
    RelayClient.branch t = RelayClient.OnMessage (Received (TextMessage text)) ->
    progress L (relay_turn t L).

Lemma progress_step L L' : progress L L' -> step L L'.
Proof.
  intros H. destruct H as [L s e n He Hr Hn Hm | L s e He Hr Hu Hc | L s e n He Hr Hn Hm
    | L s e He Hr Hu Hc | L t f q Hl Hq Ht Ho Hsel Hm | L t text rest Hl Hw Ht Ho Hm Hsel
    | L t f q Hl Hq Hb | L t text rest Hl Hw Hb].
  - by apply server_reads.
  - apply server_reads_end; auto.
  - by apply target_reads.
  - apply target_reads_end; auto.
  - apply server_turns; [done | | done]. by rewrite Ho, Hq.
  - apply server_turns; [done.. |]. rewrite Hm. left. exists text. by rewrite Hw.
  - apply relay_turns; [done |]. by rewrite Hb, Hq.
  - apply relay_turns; [done |]. rewrite Hb. left. exists text. by rewrite Hw.
Qed.

(** Every byte and frame weighs what it may still cause. *)
Definition end_weight (unit : nat) (e : End) : nat :=
  (unit * length (unread e) + (if reading e then unit else 0))%nat.
Definition ends_weight (unit : nat) (m : gmap Z End) : nat :=
  map_fold (fun _ e n => (end_weight unit e + n)%nat) 0%nat m.
Definition measure (L : Link) : nat :=
  (ends_weight 7 (callers L) + 6 * length (server_queue L) + 5 * length (to_relay L)
   + ends_weight 3 (sockets L) + 2 * length (relay_queue L) + length (to_server L))%nat.

Lemma ends_weight_insert unit s e m :
  m !! s = None -> ends_weight unit (<[s := e]> m) = (end_weight unit e + ends_weight unit m)%nat.
Proof.
  intros Hs. unfold ends_weight.
  rewrite (map_fold_insert_L (fun _ e n => (end_weight unit e + n)%nat)); [done | | done].
  intros. lia.
Qed.

Lemma ends_weight_update unit s e e' m :
  m !! s = Some e ->
  (ends_weight unit (<[s := e']> m) + end_weight unit e = ends_weight unit m + end_weight unit e')%nat.
Proof.
  intros Hs. rewrite <- (insert_delete_id m s e Hs) at 2. rewrite <- insert_delete_eq.
  rewrite !ends_weight_insert by apply lookup_delete_eq. lia.
Qed.

Lemma ends_weight_receive unit s v m :
  ends_weight unit (alter (end_receive v) s m) = ends_weight unit m.
Proof.
  destruct (m !! s) as [e|] eqn:He.
  - assert (alter (end_receive v) s m = <[s := end_receive v e]> m) as ->.
    { apply map_eq. intros s'. destruct (decide (s = s')) as [<- |].
      - by rewrite lookup_alter_eq, lookup_insert_eq, He.
      - by rewrite lookup_alter_ne, lookup_insert_ne. }
    pose proof (ends_weight_update unit s e (end_receive v e) m He) as H.
    change (end_weight unit (end_receive v e)) with (end_weight unit e) in H. lia.
  - f_equal. apply alter_id. intros x Hx. congruence.
Qed.

(** What the effects of a turn weigh. *)
Definition texts (e : list Tunnel.Effect) : nat :=
  length (omap (fun x => match x with Tunnel.Sent f => print_server f | _ => None end) e).
Lemma server_fold_wire e wire ends :
  length (fst (fold_left (fun p x => server_effect x p) e (wire, ends))) = (length wire + texts e)%nat.
Proof.
  revert wire ends; induction e as [|x e IH]; intros wire ends; [unfold texts; cbn; lia |].
  cbn [fold_left]. destruct x; cbn [server_effect]; rewrite IH; unfold texts; cbn [omap list_omap];
    try done.
  destruct (print_server f); cbn; rewrite ?length_app; cbn; lia.
Qed.

Lemma server_sends_measure L t f q :
  server_queue L = f :: q -> Tunnel.lease_top t = true ->
  Tunnel.select (mux L) t = Some (Tunnel.OnOutbound f) ->
  (measure (server_turn t L) < measure L)%nat.
Proof.
  intros Hq Ht Hsel. unfold server_turn, Tunnel.turn. rewrite Ht, Hsel. cbn [negb].
  destruct (Tunnel.send_route_frame f t) as [sent r] eqn:Hs. apply Tunnel.send_route_effects in Hs.
  unfold measure. rewrite Hq. destruct Hs as [-> | [-> _]]; cbn; [lia |].
  rewrite length_app. destruct (print_server f); cbn; lia.
Qed.

Lemma server_takes_measure L t text rest :
  to_server L = text :: rest -> Tunnel.lease_top t = true ->
  Tunnel.select (mux L) t = Some (Tunnel.OnMessage (Received (TextMessage text))) ->
  (measure (server_turn t L) < measure L)%nat.
Proof.
  intros Hw Ht Hsel. unfold server_turn, Tunnel.turn. rewrite Ht, Hsel. cbn [negb].
  destruct (Tunnel.on_message (mux L) t _) as [[m e] flow] eqn:Hm.
  assert (Forall keeps_ends e /\ texts e = 0%nat \/ exists s v, e = [Tunnel.Wrote s v]) as He.
  { unfold Tunnel.on_message in Hm. destruct (Tunnel.decode_frame _) as [f|];
      [| injection Hm as <- <- <-; left; by split].
    destruct f; cbn in Hm; repeat case_match; simplify_eq; try (left; by repeat constructor).
    match goal with Hs : Tunnel.write_data _ _ _ = _ |- _ =>
      apply Tunnel.write_data_effects in Hs as [-> | [v ->]] end; [left; by split | eauto]. }
  unfold measure. destruct He as [[Hk He] | (s & v & ->)].
  - pose proof (server_fold_wire e (to_relay L) (callers L)) as Hl.
    pose proof (server_fold_neutral e (to_relay L) (callers L) Hk) as Hc.
    destruct (fold_left _ e _) as [wire ends]. cbn in *. rewrite Hw. cbn. rewrite Hc, Hl, He. lia.
  - cbn. rewrite ends_weight_receive, Hw. cbn. lia.
Qed.

Definition is_sent (x : RelayClient.Effect) : bool :=
  match x with RelayClient.Sent _ => true | _ => false end.
Lemma relay_fold_wire e wire ends :
  (length (fst (fold_left (fun p x => relay_effect x p) e (wire, ends)))
   <= length wire + length (List.filter is_sent e))%nat.
Proof.
  revert wire ends; induction e as [|x e IH]; intros wire ends; [cbn; lia |].
  cbn [fold_left]. destruct x; cbn [relay_effect List.filter is_sent]; etrans; try apply IH; try done.
  rewrite length_app. destruct (print_client f); cbn; lia.
Qed.

(** A turn of the Relay sends at most one frame. *)
Lemma relay_turn_sends m t m' e flow :
  RelayClient.turn m t = (m', e, flow) -> (length (List.filter is_sent e) <= 1)%nat.
Proof.
  intros Ht.
  assert (forall f fate e r, RelayClient.send_frame f fate = (e, r) ->
            (length (List.filter is_sent e) <= 1)%nat) as Hsend
    by (intros f fate e0 r [-> | ->]%RelayClient.client_send_effects; cbn; lia).
  assert (forall s data taken e r, RelayClient.write_data s data taken = (e, r) ->
            (length (List.filter is_sent e) <= 1)%nat) as Hwrite
    by (intros s data taken e0 r [-> | [v ->]]%RelayClient.client_write_effects; cbn; lia).
  unfold RelayClient.turn, RelayClient.on_frame in Ht. repeat case_match; simplify_eq; cbn; try lia;
    first [by eapply Hsend | by eapply Hwrite].
Qed.

Lemma relay_sends_measure L t f q :
  relay_queue L = f :: q -> RelayClient.branch t = RelayClient.OnOutbound f ->
  (measure (relay_turn t L) < measure L)%nat.
Proof.
  intros Hq Hb. unfold relay_turn, RelayClient.turn. rewrite Hb.
  destruct (RelayClient.send_frame f _) as [sent r] eqn:Hs.
  apply RelayClient.client_send_effects in Hs. unfold measure. rewrite Hq.
  destruct Hs as [-> | ->]; cbn; [lia |]. rewrite length_app. destruct (print_client f); cbn; lia.
Qed.

Lemma relay_takes_measure L t text rest :
  link_ok L -> to_relay L = text :: rest ->
  RelayClient.branch t = RelayClient.OnMessage (Received (TextMessage text)) ->
  (measure (relay_turn t L) < measure L)%nat.
Proof.
  intros HL Hw Hb.
  assert (match RelayClient.branch t with RelayClient.OnMessage i => arrives (to_relay L) i | _ => True end)
    as Hready by (rewrite Hb, Hw; left; by exists text).
  assert (ends_weight 3 (sockets (relay_turn t L)) <= ends_weight 3 (sockets L) + 3)%nat as Hends.
  { destruct (relay_turn_sockets L t HL Hready) as [_ [-> | [(s & Hn & ->) | (s & v & ->)]]].
    - lia.
    - rewrite ends_weight_insert by done. cbn. lia.
    - rewrite ends_weight_receive. lia. }
  assert (length (to_server (relay_turn t L)) <= S (length (to_server L)))%nat as Hout.
  { unfold relay_turn. destruct (RelayClient.turn (targets L) t) as [[m e] flow] eqn:Ht.
    apply relay_turn_sends in Ht. pose proof (relay_fold_wire e (to_server L) (sockets L)) as Hl.
    destruct (fold_left _ e _) as [wire ends]. cbn in *. lia. }
  assert (callers (relay_turn t L) = callers L /\ server_queue (relay_turn t L) = server_queue L
          /\ relay_queue (relay_turn t L) = relay_queue L /\ to_relay (relay_turn t L) = rest)
    as (E1 & E2 & E3 & E4).
  { unfold relay_turn. destruct (RelayClient.turn (targets L) t) as [[m e] flow].
    destruct (fold_left _ e _). cbn. by rewrite Hb, Hw. }
  unfold measure. rewrite E1, E2, E3, E4, Hw. cbn [length]. lia.
Qed.

Lemma end_read_weight unit e n :
  (n <= length (unread e))%nat ->
  (end_weight unit (end_read n e) + unit * n = end_weight unit e)%nat.
Proof. intros Hn. unfold end_weight. cbn. rewrite length_drop. nia. Qed.
Lemma end_stop_weight unit e :
  reading e = true -> (end_weight unit (end_stop e) + unit = end_weight unit e)%nat.
Proof. intros Hr. unfold end_weight. cbn. rewrite Hr. lia. Qed.

Lemma progress_measure L L' : link_ok L -> progress L L' -> (measure L' < measure L)%nat.
Proof.
  intros HL H. destruct H as [L s e n He Hr Hn Hm | L s e He Hr Hu Hc | L s e n He Hr Hn Hm
    | L s e He Hr Hu Hc | L t f q Hl Hq Ht Ho Hsel Hm | L t text rest Hl Hw Ht Ho Hm Hsel
    | L t f q Hl Hq Hb | L t text rest Hl Hw Hb].
  - unfold measure. cbn. rewrite length_app. cbn.
    pose proof (ends_weight_update 7 s e (end_read n e) _ He).
    pose proof (end_read_weight 7 e n ltac:(lia)). lia.
  - unfold measure. cbn. rewrite length_app. cbn.
    pose proof (ends_weight_update 7 s e (end_stop e) _ He). pose proof (end_stop_weight 7 e Hr). lia.
  - unfold measure. cbn. rewrite length_app. cbn.
    pose proof (ends_weight_update 3 s e (end_read n e) _ He).
    pose proof (end_read_weight 3 e n ltac:(lia)). lia.
  - unfold measure. cbn. rewrite length_app. cbn.
    pose proof (ends_weight_update 3 s e (end_stop e) _ He). pose proof (end_stop_weight 3 e Hr). lia.
  - by eapply server_sends_measure.
  - by eapply server_takes_measure.
  - by eapply relay_sends_measure.
  - by eapply relay_takes_measure.
Qed.

(** Nothing is left for the internal steps: the queues and wires of live loops
    are empty, and so is what running reader tasks have not read. *)
Definition drained_end (e : End) : bool :=
  negb (reading e) || (bool_decide (unread e = []) && negb (closed e)).
Definition drained (L : Link) : Prop :=
  (server_live L = true -> server_queue L = [] /\ to_server L = [])
  /\ (relay_live L = true -> relay_queue L = [] /\ to_relay L = [])
  /\ (forall s e, callers L !! s = Some e -> drained_end e = true)
  /\ (forall s e, sockets L !! s = Some e -> drained_end e = true).

(** A turn of the server on its queue or wire is always possible. *)
Definition server_pick (L : Link) (f : option ServerFrame) (i : option Incoming) : Tunnel.Turn :=
  {| Tunnel.lease_top := true; Tunnel.barrier_ready := false; Tunnel.fence_ready := false;
     Tunnel.command_ready := false; Tunnel.outbound_ready := f;
     Tunnel.now := Tunnel.inbound_deadline (mux L) - 1; Tunnel.message_ready := i;
     Tunnel.tick_ready := false; Tunnel.lease_ok := true; Tunnel.dispatch_open := true;
     Tunnel.barrier := false; Tunnel.fate := Delivered; Tunnel.taken := None |}.
Definition relay_pick (b : RelayClient.Branch) : RelayClient.Turn :=
  {| RelayClient.branch := b; RelayClient.now := 0; RelayClient.connected := true;
     RelayClient.fate := Delivered; RelayClient.taken := None |}.

Lemma server_can L :
  server_live L = true -> (server_queue L = [] /\ to_server L = []) \/ exists L', progress L L'.
Proof.
  intros Hl. destruct (server_queue L) as [|f q] eqn:Hq.
  - destruct (to_server L) as [|text rest] eqn:Hw; [by left |]. right. eexists.
    eapply (progress_server_takes L (server_pick L None (Some (Received (TextMessage text)))));
      try done; [by rewrite Hq |].
    unfold Tunnel.select, server_pick. cbn.
    by destruct (Z.leb_spec (Tunnel.inbound_deadline (mux L)) (Tunnel.inbound_deadline (mux L) - 1)); [lia |].
  - right. eexists. by eapply (progress_server_sends L (server_pick L (Some f) None)).
Qed.
Lemma relay_can L :
  relay_live L = true -> (relay_queue L = [] /\ to_relay L = []) \/ exists L', progress L L'.
Proof.
  intros Hl. destruct (relay_queue L) as [|f q] eqn:Hq.
  - destruct (to_relay L) as [|text rest] eqn:Hw; [by left |]. right. eexists.
    by eapply (progress_relay_takes L (relay_pick (RelayClient.OnMessage (Received (TextMessage text))))).
  - right. eexists. by eapply (progress_relay_sends L (relay_pick (RelayClient.OnOutbound f))).
Qed.

Lemma reader_can (m : gmap Z End) :
  (forall s e, m !! s = Some e -> drained_end e = true)
  \/ exists s e, m !! s = Some e /\ reading e = true
     /\ (0 < length (unread e) \/ unread e = [] /\ closed e = true)%nat.
Proof.
  destruct (decide (map_Forall (fun _ e => drained_end e = true) m)) as [H | H].
  - left. exact H.
  - right. apply map_not_Forall in H as (s & e & He & Hd); [| apply _].
    exists s, e. split; [done |]. unfold drained_end in Hd.
    destruct (reading e); [| done]. split; [done |]. cbn in Hd.
    destruct (unread e); [| left; cbn; lia]. right. split; [done |]. by destruct (closed e).
Qed.

Lemma drained_or_progress L : drained L \/ exists L', progress L L'.
Proof.
  destruct (reader_can (callers L)) as [Hc | (s & e & He & Hr & [Hu | [Hu Hc]])].
  2:{ right. eexists. apply (progress_server_reads L s e 1); try done; unfold MAX_DATA_BYTES; lia. }
  2:{ right. eexists. by apply (progress_server_ends L s e). }
  destruct (reader_can (sockets L)) as [Hs | (s & e & He & Hr & [Hu | [Hu Hc']])].
  2:{ right. eexists. apply (progress_target_reads L s e 1); try done; unfold MAX_DATA_BYTES; lia. }
  2:{ right. eexists. by apply (progress_target_ends L s e). }
  destruct (decide (server_live L = true)) as [Hl | Hl];
    [destruct (server_can L Hl) as [? | ?]; [| by right] |];
    (destruct (decide (relay_live L = true)) as [Hl' | Hl'];
      [destruct (relay_can L Hl') as [? | ?]; [| by right] |]); left; split_and!; tauto.
Qed.

Lemma progress_steps_ok L L' : link_ok L -> rtc progress L L' -> link_ok L'.
Proof.
  intros HL H. induction H as [|L1 L2 L3 Hs _ IH]; [done |]. apply IH.
  eapply step_ok; [done | by apply progress_step].
Qed.

Lemma progress_bounded n L L' : link_ok L -> nsteps progress n L L' -> (n + measure L' <= measure L)%nat.
Proof.
  intros HL H. revert HL; induction H as [|n L1 L2 L3 Hs _ IH]; intros HL; [lia |].
  pose proof (progress_measure _ _ HL Hs). apply progress_step in Hs.
  specialize (IH (step_ok _ _ HL Hs)). lia.
Qed.

Lemma drains L : link_ok L -> exists L', rtc progress L L' /\ drained L'.
Proof.
  remember (measure L) as k eqn:Hk. revert L Hk.
  induction k as [k IH] using lt_wf_ind; intros L -> HL.
  destruct (drained_or_progress L) as [Hd | [L1 Hp]]; [by exists L |].
  pose proof (progress_measure _ _ HL Hp) as Hlt.
  destruct (IH _ Hlt L1 eq_refl) as (L' & Hr & Hd).
  { eapply step_ok; [done | by apply progress_step]. }
  exists L'. split; [by eapply rtc_l | done].
Qed.

(** C36. What is under way runs dry: from every reachable state the internal
    steps (readers taking bytes, loops taking frames and texts) are at most
    [measure] many - seven per unread byte and queued frame of the server's
    side, fewer elsewhere - whatever the interleaving; as long as they have
    not reached a drained state, one more is possible, so that every run of
    them ends in one, and some run does.  What a drained state has delivered
    depends on the loops: if both lived through the run and no reader task
    stopped on an error, nothing is under way and every end has received
    exactly what the other end wrote; a loop that ended on the way - as by a
    refused loopback connection, below - takes what it had not passed on with
    it. *)
Theorem link_drains (start : Z) (L : Link) (Hreach : rtc step (initial start) L) :
  (forall n L', nsteps progress n L L' -> (n <= measure L)%nat)
  /\ (exists L', rtc progress L L' /\ drained L')
  /\ forall L', rtc progress L L' ->
     (drained L' \/ exists L'', progress L' L'')
     /\ (drained L' -> server_live L' = true -> relay_live L' = true ->
         (forall s e, callers L' !! s = Some e \/ sockets L' !! s = Some e ->
                      reading e = false -> unread e = []) ->
         quiescent L'
         /\ forall s p, abs L' !! s = Some p ->
              up_got p = up_sent p /\ down_got p = down_sent p).
Proof.
  apply link_reachable_ok in Hreach as HL. split_and!.
  - intros n L' Hn. pose proof (progress_bounded _ _ _ HL Hn). lia.
  - by apply drains.
  - intros L' Hr. pose proof (progress_steps_ok _ _ HL Hr) as HL'.
    split; [apply drained_or_progress |].
    intros (D1 & D2 & D3 & D4) Hs Hl Hstop. destruct (D1 Hs), (D2 Hl).
    assert (forall e, drained_end e = true -> (reading e = false -> unread e = []) -> unread e = []) as He.
    { intros e Hde Hn. unfold drained_end in Hde. destruct (reading e); [| auto].
      cbn in Hde. by split_bools. }
    assert (quiescent L') as Hq.
    { unfold quiescent. split_and!; try done; intros s e Hse; (apply He; [eauto |]); apply (Hstop s); auto. }
    split; [exact Hq |]. intros s p Hp. by apply (stream_prefixes L' s p HL' Hp).
Qed.

(** A refused loopback connection ends the Relay process.  The server opens
    a stream and forwards the SSH client's bytes without waiting for the
    Relay's answer; when the loopback port refuses the connection, the Relay
    answers [StreamClosed] for that stream, but then reads the bytes already
    in flight, finds no such target, and leaves its loop with [Protocol] -
    which [run_forever] does not retry.  One refused stream thus takes down
    the tunnel with all its streams and the process. *)
Theorem refused_loopback_ends_relay (m : Targets) (s : Z) (data opening body : bytes)
    (t1 t2 : RelayClient.Turn) (later : list RelayClient.Turn)
    (rest : list (result RelayClient.RelayError TunnelExit))
    (Hs : 1 <= s <= u32_max) (Hfree : s ∉ RelayClient.targets m)
    (Hroom : Z.of_nat (size (RelayClient.targets m)) < MAX_STREAMS)
    (Hopening : print_server (OpenStream s) = Some opening)
    (Hbody : print_server (StreamData s (b64_encode data)) = Some body)
    (Hsize : zlen body <= MAX_FRAME_BYTES)
    (H1 : RelayClient.branch t1 = RelayClient.OnMessage (Received (TextMessage opening)))
    (Hrefused : RelayClient.connected t1 = false) (Hfate : RelayClient.fate t1 = Delivered)
    (H2 : RelayClient.branch t2 = RelayClient.OnMessage (Received (TextMessage body))) :
  (let '(_, e, flow) := relay_tunnel m (t1 :: t2 :: later) in
   e = [RelayClient.Sent (ClientStreamClosed s ConnectFailed)]
   /\ flow = RelayClient.Return (Err RelayClient.Protocol))
  /\ run_forever (Err RelayClient.Protocol :: rest) = Some (Err RelayClient.Protocol).
Proof.
  split; [| done].
  assert (is_u32 s) as Hu by (unfold is_u32; lia).
  destruct (server_print (OpenStream s) Hu) as (o & Ho & Hpo & Hlo).
  rewrite Ho in Hopening. injection Hopening as ->.
  destruct (server_print (StreamData s (b64_encode data))) as (b & Hb & Hpb & _); [cbn; eauto |].
  rewrite Hb in Hbody. injection Hbody as ->.
  destruct (client_print (ClientStreamClosed s ConnectFailed) Hu) as (c & Hc & _ & Hlc).
  cbn [server_payload client_payload] in Hlo, Hlc.
  assert (RelayClient.decode_frame (TextMessage opening) = Ok (OpenStream s)) as D1.
  { cbn. destruct (Z.ltb_spec MAX_FRAME_BYTES (zlen opening)); [unfold MAX_FRAME_BYTES in *; lia |].
    by rewrite Hpo. }
  assert (RelayClient.decode_frame (TextMessage body) = Ok (StreamData s (b64_encode data))) as D2.
  { cbn. destruct (Z.ltb_spec MAX_FRAME_BYTES (zlen body)); [lia |]. by rewrite Hpb. }
  cbn [relay_tunnel]. unfold RelayClient.turn at 1. rewrite H1, D1. cbn [RelayClient.on_frame].
  destruct (Z.eqb_spec s 0); [lia |].
  cbn [RelayClient.targets]. rewrite (bool_decide_eq_false_2 (s ∈ _)) by done.
  destruct (Z.leb_spec MAX_STREAMS (Z.of_nat (size (RelayClient.targets m)))); [lia |].
  rewrite Hrefused, Hfate. unfold RelayClient.send_frame. rewrite Hc.
  destruct (Z.ltb_spec MAX_FRAME_BYTES (zlen c)); [unfold MAX_FRAME_BYTES in *; lia |].
  cbn [orb RelayClient.flow_of].
  unfold RelayClient.turn at 1. rewrite H2, D2. cbn [RelayClient.on_frame RelayClient.targets].
  by rewrite bool_decide_eq_false_2.
Qed.

End link.

(** ** A concrete link *)

Definition sample_link : Link :=
  @server_turn plain_base64 toy_codec (Tunnel.command_turn true) (initial 0).
Definition banner : bytes := lit "SSH-2.0-".

Lemma sample_link_reachable : rtc (@step plain_base64 toy_codec) (initial 0) sample_link.
Proof. apply rtc_once. by apply server_turns. Qed.

Lemma link_refines_pipes_witness :
  rtc spec_step ∅ (abs sample_link) /\ abs sample_link !! 1 = Some empty_pipe.
Proof.
  split; [| by vm_compute].
  refine (proj1 (@link_refines_pipes plain_base64 toy_codec plain_base64_laws toy_codec_laws 0
    sample_link sample_link_reachable)).
Defined.

Lemma link_drains_witness :
  measure sample_link = 12%nat
  /\ exists L', rtc (@progress plain_base64 toy_codec) sample_link L' /\ drained L'.
Proof.
  split; [by vm_compute |].
  destruct (@link_drains plain_base64 toy_codec plain_base64_laws toy_codec_laws 0
    sample_link sample_link_reachable) as (_ & (L' & Hr & Hd) & _).
  by exists L'.
Defined.

(** The turn of the Relay that reads a text, with a refusing loopback port. *)
Definition refusing_turn (text : bytes) : RelayClient.Turn :=
  {| RelayClient.branch := RelayClient.OnMessage (Received (TextMessage text));
     RelayClient.now := 0; RelayClient.connected := false; RelayClient.fate := Delivered;
     RelayClient.taken := None |}.

Lemma refused_loopback_ends_relay_witness :
  let texts := omap toy_print_server [OpenStream 1; StreamData 1 banner] in
  to_relay sample_link = take 1 texts
  /\ snd (@relay_tunnel plain_base64 toy_codec (new_targets 0) (map refusing_turn texts))
     = RelayClient.Return (Err RelayClient.Protocol).
Proof.
  split; [by vm_compute |].
  assert (let '(_, e, flow) := @relay_tunnel plain_base64 toy_codec (new_targets 0)
            [refusing_turn (tagged 1 4 1 []); refusing_turn (tagged 2 4 1 banner)] in
          e = [RelayClient.Sent (ClientStreamClosed 1 ConnectFailed)]
          /\ flow = RelayClient.Return (Err RelayClient.Protocol)) as H.
  { eapply (proj1 (@refused_loopback_ends_relay plain_base64 toy_codec toy_codec_laws
      (new_targets 0) 1 banner (tagged 1 4 1 []) (tagged 2 4 1 banner)
      (refusing_turn (tagged 1 4 1 [])) (refusing_turn (tagged 2 4 1 banner)) [] []
      ltac:(done) ltac:(set_solver) ltac:(done) eq_refl eq_refl ltac:(by vm_compute) eq_refl
      eq_refl eq_refl eq_refl)). }
  change (map refusing_turn (omap toy_print_server [OpenStream 1; StreamData 1 banner]))
    with [refusing_turn (tagged 1 4 1 []); refusing_turn (tagged 2 4 1 banner)].
  destruct (relay_tunnel _ _) as [[m e] flow]. by destruct H as [_ ->].
Defined.
