(* ===== verification/AttachmentFrames.v ===== *)
(** * AttachmentFrames: the frames and the guards of a browser attachment

    Models the data and the pure functions of
    [crates/owlmux-server/src/attachment.rs]: the frames in both directions,
    operations and their outcomes, error codes, and the checks on what a
    browser sends.  [serde_json] is third-party code, the class
    [AttachmentCodec].  [Attachment] holds the session itself. *)

From S2P Require Import Prelude Text Contracts Secrets Ssh TmuxGrammar Writer.

(** ** Frames *)

Inductive Phase : Type := Connecting | Selecting | Ready | PhaseFailed.
Inductive WriterRole : Type := RoleObserver | RoleWriter.

Inductive Operation : Type :=
| WriterClaimOp | WriterTakeoverOp | SessionRefreshOp | SessionCreateOp | WindowSelectOp
| PaneSelectOp | PaneInputOp | ClientResizeOp | WorkspaceRefreshOp.
Global Instance Operation_eq_dec : EqDecision Operation.
Proof. solve_decision. Defined.

Inductive PublicOutcome : Type := PublicSucceeded | PublicFailed | PublicAmbiguous.
Global Instance PublicOutcome_eq_dec : EqDecision PublicOutcome.
Proof. solve_decision. Defined.

(** [Operation::audit_action]. *)
Definition audit_action (op : Operation) : option bytes :=
  match op with
  | WriterClaimOp => Some (lit "writer_claim")
  | WriterTakeoverOp => Some (lit "writer_takeover")
  | SessionCreateOp => Some (lit "tmux_session_create")
  | WindowSelectOp => Some (lit "tmux_window_select")
  | PaneSelectOp => Some (lit "tmux_pane_select")
  | WorkspaceRefreshOp => Some (lit "tmux_projection_refresh")
  | SessionRefreshOp | PaneInputOp | ClientResizeOp => None
  end.

(** [PublicOutcome::audit_outcome]. *)
Definition audit_outcome (o : PublicOutcome) : bytes :=
  match o with
  | PublicSucceeded => lit "success"
  | PublicFailed => lit "rejected"
  | PublicAmbiguous => lit "ambiguous"
  end.

Inductive AuthFrame : Type := ApiKeyFrame (api_key : bytes).

Inductive ClientFrame : Type :=
| WriterClaim (request_id : Uuid) (machine_connection_epoch : bytes) (attachment_epoch : Uuid)
    (size : ClientSize)
| WriterTakeover (request_id : Uuid) (machine_connection_epoch : bytes) (attachment_epoch : Uuid)
    (size : ClientSize)
| SessionSelect (machine_connection_epoch : bytes) (selection_epoch : Uuid)
    (session_id : bytes) (session_created : Z)
| SessionRefresh (request_id : Uuid) (machine_connection_epoch : bytes) (selection_epoch : Uuid)
| SessionCreate (request_id : Uuid) (machine_connection_epoch : bytes) (selection_epoch : Uuid)
    (name : bytes)
| WorkspaceReturnToChooser (machine_connection_epoch : bytes) (workspace_epoch : Uuid)
| WindowSelect (request_id : Uuid) (machine_connection_epoch : bytes) (workspace_epoch : Uuid)
    (window : bytes)
| PaneSelect (request_id : Uuid) (machine_connection_epoch : bytes) (workspace_epoch : Uuid)
    (pane : bytes)
| PaneInput (request_id : Uuid) (machine_connection_epoch : bytes) (workspace_epoch : Uuid)
    (pane data_base64 : bytes)
| ClientResize (request_id : Uuid) (machine_connection_epoch : bytes) (workspace_epoch : Uuid)
    (size : ClientSize)
| WorkspaceRefresh (request_id : Uuid) (machine_connection_epoch : bytes) (workspace_epoch : Uuid)
| WorkspaceDetach.

Inductive ServerFrame : Type :=
| PhaseFrame (phase : Phase)
| SessionList (machine_connection_epoch : bytes) (selection_epoch : Uuid)
    (tmux_client_version : bytes) (tmux_server_version : option bytes)
    (sessions : list SessionSummary)
| WriterState (machine_connection_epoch : bytes) (attachment_epoch : Uuid) (role : WriterRole)
    (writer_available : bool)
| OperationResult (request_id : Uuid) (operation : Operation) (outcome : PublicOutcome)
    (code message : bytes)
| Projection (machine_connection_epoch : bytes) (workspace_epoch : Uuid) (session_id : bytes)
    (session_created : Z) (windows : list WindowSummary) (window : WindowProjection)
    (panes : list PaneProjection)
| PaneSnapshotFrame (workspace_epoch : Uuid) (pane : bytes) (chunk_index : Z) (final_chunk : bool)
    (data_base64 : bytes)
| OutputFrame (workspace_epoch : Uuid) (pane data_base64 : bytes)
| ErrorFrame (code message : bytes).

(** [serde_json] on the three frame types. *)
Class AttachmentCodec : Type := {
  print_frame : ServerFrame -> option bytes;
  parse_frame : bytes -> option ClientFrame;
  parse_auth : bytes -> option AuthFrame;
}.

(** ** Errors *)

Inductive AttachmentWireError : Type := WireClosed | WireProtocol | WireUnavailable.

Inductive AttachmentError : Type :=
| ClientClosed | SshFailed | TmuxFailed | TmuxIncompatible | ProtocolError | Unavailable
| RouteChanged.
Global Instance AttachmentError_eq_dec : EqDecision AttachmentError.
Proof. solve_decision. Defined.

(** [AttachmentError::code]. *)
Definition error_code (e : AttachmentError) : bytes :=
  match e with
  | TmuxIncompatible => lit "tmux_incompatible"
  | ProtocolError => lit "protocol_error"
  | ClientClosed | SshFailed | TmuxFailed | Unavailable | RouteChanged => lit "target_unavailable"
  end.

(** [AttachmentError::message]. *)
Definition error_message (e : AttachmentError) : bytes :=
  match e with
  | TmuxIncompatible => lit "Target tmux is incompatible."
  | ProtocolError => lit "Attachment protocol failed closed."
  | ClientClosed | SshFailed | TmuxFailed | Unavailable | RouteChanged =>
      lit "Target is unavailable."
  end.

Definition map_wire_error (e : AttachmentWireError) : AttachmentError :=
  match e with
  | WireClosed => ClientClosed
  | WireProtocol => ProtocolError
  | WireUnavailable => Unavailable
  end.

Definition map_tmux (e : TmuxError) : AttachmentError :=
  if bool_decide (e = Incompatible) then TmuxIncompatible else TmuxFailed.

(** The close code of [send_fatal_error]. *)
Definition close_code (code : bytes) : Z :=
  if bool_decide (code = lit "protocol_error") then ATTACHMENT_CLOSE_PROTOCOL_ERROR
  else if bool_decide (code = lit "unauthenticated") || bool_decide (code = lit "invalid_origin")
          || bool_decide (code = lit "tmux_incompatible")
  then ATTACHMENT_CLOSE_POLICY_VIOLATION
  else ATTACHMENT_CLOSE_TEMPORARILY_UNAVAILABLE.

(** ** Guards *)

(** [i64::to_string] and the parse of [matches_connection_epoch]. *)
Definition matches_connection_epoch (value : bytes) (expected : Z) : bool :=
  (0 <? expected) && bool_decide (parse_i64 value = Some expected)
  && bool_decide (value = dec_signed expected).

(** The product of two [u32] values is taken in [u64]. *)
Definition valid_client_size (sz : ClientSize) : bool :=
  (0 <? columns sz) && (columns sz <=? ATTACHMENT_MAX_DIMENSION)
  && (0 <? rows sz) && (rows sz <=? ATTACHMENT_MAX_DIMENSION)
  && (columns sz * rows sz <=? ATTACHMENT_MAX_GRID_CELLS).

Definition valid_session_name (value : bytes) : bool :=
  negb (bool_decide (value = [])) && (zlen value <=? 64) && negb (has_outer_space value)
  && negb (chars_any is_control value).

Definition decode_input `{Base64} (value : bytes) : option bytes :=
  if bool_decide (value = []) || (1366 <? zlen value) then None
  else
    data ← b64_decode value;
    if bool_decide (data = []) || (ATTACHMENT_MAX_INPUT_BYTES <? zlen data)
       || negb (bool_decide (b64_encode data = value))
    then None else Some data.

(** The length check and the verification of [authenticate]. *)
Definition accepts_key `{Base64} (key candidate : bytes) : bool :=
  ((56 <=? zlen candidate) && (zlen candidate <=? 64)) && verify_api_key key candidate.

(** [decode_text_frame]. *)
Definition decode_text_frame `{AttachmentCodec} (text : bytes) : result AttachmentError ClientFrame :=
  if ATTACHMENT_MAX_FRAME_BYTES <? zlen text then Err ProtocolError
  else ok_or ProtocolError (parse_frame text).

(** The messages of the websocket. *)
Inductive WsMessage : Type := WsText (text : bytes) | WsClose | WsOther.

(** [decode_auth_frame]. *)
Definition decode_auth_frame `{AttachmentCodec} (m : WsMessage) : result AttachmentError AuthFrame :=
  match m with
  | WsText text =>
      if ATTACHMENT_MAX_FRAME_BYTES <? zlen text then Err ProtocolError
      else ok_or ProtocolError (parse_auth text)
  | WsClose => Err ClientClosed
  | WsOther => Err ProtocolError
  end.

(** [receive_auth]: [None] when the wait times out, [Some None] at the end of
    the stream, an error of the stream as [Some (Some None)]. *)
Definition receive_auth `{AttachmentCodec} (m : option (option (option WsMessage)))
    : result AttachmentError AuthFrame :=
  match m with
  | None => Err ProtocolError
  | Some None => Err Unavailable
  | Some (Some None) => Err ProtocolError
  | Some (Some (Some m)) => decode_auth_frame m
  end.

(** [WebSocket::receive_text]; [None]: the stream ended or failed. *)
Definition receive_text (m : option WsMessage) : result AttachmentWireError bytes :=
  match m with
  | None => Err WireClosed
  | Some (WsText text) => Ok text
  | Some WsClose => Err WireClosed
  | Some WsOther => Err WireProtocol
  end.

(** [RouteAttachmentSocket::send_text]: a write goes through the dispatch
    fence of the route, which may be closed. *)
Definition route_send_text (fence_open : bool) (inner : result AttachmentWireError unit)
    : result AttachmentWireError unit :=
  if fence_open then inner else Err WireUnavailable.

(** ** The projection a browser works on *)

Record WorkspaceState : Type := {
  epoch : Uuid; ws_connection_epoch : Z; windows : gset bytes; visible_panes : gset bytes;
  active_pane : bytes;
}.

(** [WorkspaceState::matches]. *)
Definition workspace_matches (w : WorkspaceState) (connection_epoch : bytes) (workspace_epoch : Uuid)
    : bool :=
  (workspace_epoch =? epoch w) && matches_connection_epoch connection_epoch (ws_connection_epoch w).

(** The chunks of one snapshot; an empty snapshot is one empty final chunk. *)
Definition snapshot_frames `{Base64} (e : Uuid) (pane : bytes) (parts : list bytes) : list ServerFrame :=
  match parts with
  | [] => [PaneSnapshotFrame e pane 0 true []]
  | _ => imap (fun i chunk => PaneSnapshotFrame e pane (Z.of_nat i)
                  (Z.of_nat i =? zlen parts - 1) (b64_encode chunk)) parts
  end.
