(* ===== verification/Internal.v ===== *)
(** * Internal: the owner connection between two server nodes

    Models [crates/owlmux-server/src/internal.rs]: the frames, both ends of
    the authentication, the invalidation conversation, the proxying of an
    attachment, the internal attachment socket and the connection limits.  A
    conversation is a [Session] over the script of its websocket; TCP, TLS and
    the websocket upgrade are inputs, and so are the answers of the lease, the
    database and the registry. *)

From S2P Require Import Prelude Text Contracts Binary Secrets Cluster Config Wire Session Lease Tables Authority Registry AttachmentFrames.
Import Authority.OwnerRs.

Definition MAX_FRAME_BYTES : Z := INTERNAL_MAX_FRAME_BYTES.
Definition MAX_CONNECTIONS : Z := INTERNAL_MAX_CONNECTIONS.
Definition MAX_CONTROL_CONNECTIONS : Z := INTERNAL_MAX_CONTROL_CONNECTIONS.
(** Nanoseconds. *)
Definition AUTH_TIMEOUT : Z := INTERNAL_AUTH_TIMEOUT_SECONDS * 1000000000.

(** ** Frames *)

Record Challenge : Type := {
  ch_type : bytes; ch_protocol : bytes; ch_destination : Uuid; ch_nonce : bytes;
}.
Record Authenticate : Type := {
  au_type : bytes; au_source : Uuid; au_destination : Uuid; au_machine : Uuid;
  au_route_revision : bytes; au_connection_epoch : bytes; au_connection_class : bytes;
  au_source_nonce : bytes; au_trace : Uuid; au_response : bytes;
}.

(** [Accepted], [InvalidationPrepare] and [InvalidationReady] are [FTyped]:
    one [type] field and no other. *)
Inductive Frame : Type :=
| FChallenge (c : Challenge)
| FAuthenticate (a : Authenticate)
| FTyped (message_type : bytes)
| FFinish (message_type : bytes) (committed : bool)
| FResult (message_type outcome : bytes).

(** [serde_json] on the frame structs. *)
Class InternalCodec : Type := {
  print_frame : Frame -> option bytes;
  parse_challenge : bytes -> option Challenge;
  parse_authenticate : bytes -> option Authenticate;
  parse_typed : bytes -> option bytes;
  parse_finish : bytes -> option (bytes * bool);
  parse_result : bytes -> option (bytes * bytes);
}.

(** The strings and identifiers of a frame. *)
Definition frame_texts (f : Frame) : list bytes :=
  match f with
  | FChallenge c => [ch_type c; ch_protocol c; ch_nonce c]
  | FAuthenticate a => [au_type a; au_route_revision a; au_connection_epoch a;
      au_connection_class a; au_source_nonce a; au_response a]
  | FTyped t | FFinish t _ => [t]
  | FResult t outcome => [t; outcome]
  end.
Definition frame_ids (f : Frame) : list Uuid :=
  match f with
  | FChallenge c => [ch_destination c]
  | FAuthenticate a => [au_source a; au_destination a; au_machine a; au_trace a]
  | _ => []
  end.
Definition frame_typed (f : Frame) : Prop :=
  Forall (fun v => from_utf8 v = Some v) (frame_texts f) /\ Forall is_uuid (frame_ids f).
Definition texts_length (l : list bytes) : Z := foldr (fun v n => zlen v + n) 0 l.

(** Documented: a frame whose strings are UTF-8 is printed, a string taking at
    most six bytes for each of its own, and parses back to itself. *)
Class InternalCodecLaws `{InternalCodec} : Prop := {
  print_frame_fits : forall f, frame_typed f ->
    exists t, print_frame f = Some t /\ zlen t <= 6 * texts_length (frame_texts f) + 512;
  challenge_roundtrip : forall c t, frame_typed (FChallenge c) ->
    print_frame (FChallenge c) = Some t -> parse_challenge t = Some c;
  authenticate_roundtrip : forall a t, frame_typed (FAuthenticate a) ->
    print_frame (FAuthenticate a) = Some t -> parse_authenticate t = Some a;
  typed_roundtrip : forall v t, frame_typed (FTyped v) ->
    print_frame (FTyped v) = Some t -> parse_typed t = Some v;
  finish_roundtrip : forall v b t, frame_typed (FFinish v b) ->
    print_frame (FFinish v b) = Some t -> parse_finish t = Some (v, b);
  result_roundtrip : forall v o t, frame_typed (FResult v o) ->
    print_frame (FResult v o) = Some t -> parse_result t = Some (v, o);
}.

(** Documented: base64 text is ASCII; an HMAC-SHA-256 tag has 32 bytes. *)
Class Base64Ascii `{Base64} : Prop := {
  b64_ascii : forall v, Forall (fun c => bval c < 128) (b64_encode v);
}.
Class HmacLength `{Hmac} : Prop := { hmac_length : forall k m, zlen (hmac k m) = 32 }.

(** What a node is and holds: its lease identity and deployment, and the
    cluster key of a clustered configuration. *)
Record Node : Type := { nd_server : Server; nd_key : option bytes }.
Definition nd_incarnation (nd : Node) : Uuid := sv_incarnation (nd_server nd).

Inductive Event : Type :=
| Got (f : Frame)
| Sent (f : Frame)
| Authorized (c : OwnerAuthContext) (route : RouteIdentity)
| PreauthDropped
| AttachmentServed (machine : Uuid) (route : RouteIdentity)
| TransitionBegun (machine : Uuid) (route : RouteIdentity)
| HardFenced
| TransitionFinished (committed : bool).

(** What [begin_machine_transition] comes to: refused under the lock; started,
    but the cleanup was late or the lease lost (the transition is dropped and
    fences the node); handed out. *)
Inductive BeginOutcome : Type := NotBegun | BegunNotQuiet | HandedOut.

Section internal.
Context `{Hbase : Base64} `{Hhmac : Hmac} `{Hurl : UrlParser} `{Hcodec : InternalCodec}.

Abbreviation internal_session := (session Event OwnerError).

(** ** JSON over the websocket *)

Definition send_json (f : Frame) : internal_session unit :=
  encoded ← lift (ok_or Invariant (print_frame f));
  lift (fail_if (MAX_FRAME_BYTES <? zlen encoded) Invariant) ;;
  fate ← next_fate;
  match fate with
  | Delivered => log (Sent f)
  | Dropped => lift (Err Unreachable)
  | DeliveredUnseen => log (Sent f) ;; lift (Err Unreachable)
  end.

(** [decode] and [frame] belong to the struct that is expected. *)
Definition receive_json {A} (decode : bytes -> option A) (frame : A -> Frame)
    : internal_session A :=
  i ← wait;
  match i with
  | Some (Received (TextMessage text)) =>
      lift (fail_if (MAX_FRAME_BYTES <? zlen text) Unreachable) ;;
      value ← lift (ok_or Unreachable (decode text));
      log (Got (frame value)) ;;
      mret value
  | _ => lift (Err Unreachable)
  end.

Definition receive_typed : internal_session bytes := receive_json parse_typed FTyped.
Definition receive_finish : internal_session (bytes * bool) :=
  receive_json parse_finish (fun p => FFinish p.1 p.2).
Definition receive_result : internal_session (bytes * bytes) :=
  receive_json parse_result (fun p => FResult p.1 p.2).

(** A received [type] must be the expected one. *)
Definition expect_typed (message_type : bytes) : internal_session unit :=
  t ← receive_typed;
  lift (fail_if (negb (bool_decide (t = message_type))) Unreachable).

(** ** Fields *)

Definition parse_epoch (value : bytes) : result OwnerError Z :=
  parsed ← ok_or Unreachable (parse_i64 value);
  fail_if ((parsed <=? 0) || negb (bool_decide (value = dec_signed parsed))) Unreachable ;;
  Ok parsed.

Definition decode_32 (value : bytes) : result OwnerError bytes :=
  map_err (fun _ => Unreachable) (decode_canonical_32 value).

Definition class_label (value : ConnectionClass) : bytes :=
  match value with Attachment => lit "attachment" | Control => lit "control" end.
Definition parse_class (value : bytes) : result OwnerError ConnectionClass :=
  if bool_decide (value = lit "attachment") then Ok Attachment
  else if bool_decide (value = lit "control") then Ok Control
  else Err Unreachable.

Definition validate_internal_url (value : bytes) : result OwnerError Url :=
  url ← ok_or Invariant (url_parse value);
  if negb (is_internal_url url) then Err Invariant else Ok url.

(** ** The connecting node *)

(** The steps of a dial and the random values of a connection. *)
Record ConnectEnv : Type := {
  ce_lease0 : bool; ce_tcp : bool; ce_server_name : bool; ce_tls : bool; ce_request : bool;
  ce_upgrade : bool; ce_nonce : bytes; ce_trace : Uuid; ce_lease1 : bool;
}.

(** The context the connecting node signs. *)
Definition source_context (nd : Node) (env : ConnectEnv) (machine : Uuid) (route : RouteIdentity)
    (destination : Uuid) (class : ConnectionClass) (challenge : bytes) : OwnerAuthContext :=
  {| deployment_id := sv_deployment (nd_server nd);
     Cluster.config_epoch := Lease.config_epoch (sv_identity (nd_server nd));
     source_incarnation_id := nd_incarnation nd; destination_incarnation_id := destination;
     machine_id := machine; Cluster.route_revision := rt_revision route;
     Cluster.connection_epoch := rt_epoch route; connection_class := class;
     challenge := challenge; source_nonce := ce_nonce env; trace_id := ce_trace env |}.

Definition authenticate_frame (c : OwnerAuthContext) (response : bytes) : Authenticate :=
  {| au_type := lit "owner.authenticate"; au_source := source_incarnation_id c;
     au_destination := destination_incarnation_id c; au_machine := machine_id c;
     au_route_revision := dec_signed (Cluster.route_revision c);
     au_connection_epoch := dec_signed (Cluster.connection_epoch c);
     au_connection_class := class_label (connection_class c);
     au_source_nonce := b64_encode (source_nonce c); au_trace := trace_id c;
     au_response := b64_encode response |}.

(** Every stage of the dial; [owner_response] panics on no context of this
    shape (see [Cluster.owner_transcript_binds]). *)
Definition connect_authenticated (nd : Node) (env : ConnectEnv) (machine : Uuid)
    (route : RouteIdentity) (destination : Uuid) (url : bytes) (class : ConnectionClass)
    : internal_session unit :=
  lift (guard_lease (ce_lease0 env)) ;;
  url ← lift (validate_internal_url url);
  lift (ok_or Invariant (host_str url)) ;;
  lift (ok_or Invariant (port_or_known_default url)) ;;
  lift (fail_if (negb (ce_tcp env)) Unreachable) ;;
  lift (fail_if (negb (ce_server_name env)) Invariant) ;;
  lift (fail_if (negb (ce_tls env)) Unreachable) ;;
  lift (fail_if (negb (ce_request env)) Invariant) ;;
  lift (fail_if (negb (ce_upgrade env)) Unreachable) ;;
  challenge ← receive_json parse_challenge FChallenge;
  lift (fail_if (negb (bool_decide (ch_protocol challenge = lit "owner.v1"))
                 || negb (ch_destination challenge =? destination)) Unreachable) ;;
  nonce ← lift (decode_32 (ch_nonce challenge));
  let context := source_context nd env machine route destination class nonce in
  key ← lift (ok_or Invariant (nd_key nd));
  response ← lift (ok_or Invariant (owner_response key context));
  send_json (FAuthenticate (authenticate_frame context response)) ;;
  expect_typed (lit "owner.accepted") ;;
  lift (guard_lease (ce_lease1 env)).

(** [prepare_invalidation]; [permit] tells whether an outbound control permit
    was free. *)
Definition prepare_invalidation (nd : Node) (env : ConnectEnv) (permit : bool) (machine : Uuid)
    (route : RouteIdentity) (destination : Uuid) (url : bytes) : internal_session unit :=
  lift (fail_if (negb permit) Unreachable) ;;
  connect_authenticated nd env machine route destination url Control ;;
  send_json (FTyped (lit "machine.invalidation.prepare")) ;;
  expect_typed (lit "machine.invalidation.ready").

Definition outcome_label (committed : bool) : bytes :=
  if committed then lit "completed" else lit "aborted".

(** [RemoteTransition::finish]; it consumes the transition, so the socket is
    always there. *)
Definition finish_remote (committed : bool) : internal_session unit :=
  send_json (FFinish (lit "machine.invalidation.finish") committed) ;;
  '(message_type, outcome) ← receive_result;
  lift (fail_if (negb (bool_decide (message_type = lit "machine.invalidation.result"))
                 || negb (bool_decide (outcome = outcome_label committed))) Unreachable).

(** ** The accepting node *)

(** Only the exact path without a query is upgraded. *)
Definition validate_upgrade (path : bytes) (query : option bytes) : bool :=
  bool_decide (path = INTERNAL_PATH) && bool_decide (query = None).

(** The joined rows of [validate_context]; the protocol version is 1 in
    every row (a CHECK of the schema). *)
Definition peer_serving (d : DeploymentRow) (now : Z) (n : NodeRow) : bool :=
  bool_decide (node_state n = Serving) && (node_epoch n =? dep_epoch d)
  && bool_decide (node_build n = dep_build d) && (now <? lease_until n).

Definition deployment_of (nd : Node) (d : DeploymentRow) : bool :=
  let i := sv_identity (nd_server nd) in
  (dep_id d =? sv_deployment (nd_server nd)) && (dep_epoch d =? Lease.config_epoch i)
  && bool_decide (dep_build d = build_id i) && (dep_protocol d =? 1)
  && bool_decide (dep_profile d = Clustered) && bool_decide (dep_proof d = Lease.config_proof i).

Definition context_current (nd : Node) (c : OwnerAuthContext) (now : Z) (t : Tables) : bool :=
  match deployment (base t), nodes (base t) !! source_incarnation_id c,
        nodes (base t) !! destination_incarnation_id c, machines t !! machine_id c,
        owners t !! machine_id c with
  | Some d, Some source, Some destination, Some m, Some o =>
      deployment_of nd d && peer_serving d now source && peer_serving d now destination
      && bool_decide (lifecycle m = Active) && (route_revision m =? Cluster.route_revision c)
      && bool_decide (fst <$> claimed o = Some (destination_incarnation_id c))
      && (owner_revision o =? Cluster.route_revision c)
      && (connection_epoch o =? Cluster.connection_epoch c)
      && exists_where (fun _ b => Relay.binding_of (machine_id c) (Cluster.route_revision c) b)
           (bindings t)
  | _, _, _, _, _ => false
  end.

Record AcceptEnv : Type := {
  ac_lease : bool;
  ac_upgrade : option (bytes * option bytes);
  ac_clock0 : option Z; ac_clock1 : option Z;
  ac_challenge : bytes;
  ac_lease0 : bool; ac_rows : option Tables; ac_now : Z; ac_lease1 : bool;
  ac_owner_rows : option Tables;
  ac_ready : bool; ac_registry : Registry;
  ac_permit : bool;
  ac_begin : BeginOutcome; ac_released : bool;
}.

Definition validate_context (nd : Node) (env : AcceptEnv) (c : OwnerAuthContext)
    : result OwnerError unit :=
  guard_lease (ac_lease0 env) ;;
  t ← ok_or DatabaseError (ac_rows env);
  fail_if (negb (context_current nd c (ac_now env) t) || negb (ac_lease1 env)) Unavailable.

Definition resolve_connection_id (env : AcceptEnv) (c : OwnerAuthContext)
    : result OwnerError Uuid :=
  t ← ok_or DatabaseError (ac_owner_rows env);
  ok_or Unavailable
    (o ← owners t !! machine_id c;
     '(incarnation, connection) ← claimed o;
     if (incarnation =? destination_incarnation_id c)
        && (owner_revision o =? Cluster.route_revision c)
        && (connection_epoch o =? Cluster.connection_epoch c)
     then Some connection else None).

Definition resolve_current_route (env : AcceptEnv) (c : OwnerAuthContext)
    : result OwnerError RouteIdentity :=
  connection ← resolve_connection_id env c;
  let route := {| rt_revision := Cluster.route_revision c; rt_epoch := Cluster.connection_epoch c;
                  rt_connection := connection |} in
  fail_if (negb (is_current_route (machine_id c) route (ac_ready env) (ac_registry env)))
    Unavailable ;;
  Ok route.

(** A transition that was handed out ends in exactly one way; [ac_released]
    is the outcome of the durable release of an aborted one, whose failure
    fences the node. *)
Definition finish_transition_local (env : AcceptEnv) (committed : bool) : internal_session unit :=
  if negb committed && negb (ac_released env)
  then log HardFenced ;; lift (Err Fenced)
  else log (TransitionFinished committed).

Definition handle_invalidation (env : AcceptEnv) (machine : Uuid) (route : RouteIdentity)
    : internal_session unit :=
  expect_typed (lit "machine.invalidation.prepare") ;;
  match ac_begin env with
  | NotBegun => lift (Err Unavailable)
  | BegunNotQuiet => log (TransitionBegun machine route) ;; log HardFenced ;; lift (Err Unavailable)
  | HandedOut =>
      log (TransitionBegun machine route) ;;
      sent ← attempt (send_json (FTyped (lit "machine.invalidation.ready")));
      if negb (is_ok sent) then log HardFenced ;; lift (Err Unreachable)
      else
        received ← attempt receive_finish;
        match received with
        | Err e => log HardFenced ;; lift (Err e)
        | Ok (message_type, committed) =>
            if negb (bool_decide (message_type = lit "machine.invalidation.finish"))
            then log HardFenced ;; lift (Err Unreachable)
            else
              finish_transition_local env committed ;;
              send_json (FResult (lit "machine.invalidation.result") (outcome_label committed))
        end
  end.

(** The context the accepting node verifies, from the frame it received. *)
Definition destination_context (nd : Node) (nonce : bytes) (a : Authenticate)
    : result OwnerError (OwnerAuthContext * bytes) :=
  revision ← parse_epoch (au_route_revision a);
  epoch ← parse_epoch (au_connection_epoch a);
  class ← parse_class (au_connection_class a);
  source_nonce ← decode_32 (au_source_nonce a);
  response ← decode_32 (au_response a);
  Ok ({| deployment_id := sv_deployment (nd_server nd);
         Cluster.config_epoch := Lease.config_epoch (sv_identity (nd_server nd));
         source_incarnation_id := au_source a; destination_incarnation_id := au_destination a;
         machine_id := au_machine a; Cluster.route_revision := revision;
         Cluster.connection_epoch := epoch; connection_class := class; challenge := nonce;
         Cluster.source_nonce := source_nonce; trace_id := au_trace a |}, response).

Definition challenge_frame (nd : Node) (nonce : bytes) : Challenge :=
  {| ch_type := lit "owner.challenge"; ch_protocol := lit "owner.v1";
     ch_destination := nd_incarnation nd; ch_nonce := b64_encode nonce |}.

Definition authenticates (nd : Node) (key : bytes) (a : Authenticate) (c : OwnerAuthContext)
    (response : bytes) : bool :=
  bool_decide (au_type a = lit "owner.authenticate")
  && (au_destination a =? nd_incarnation nd)
  && bool_decide (verify_owner_response key c response = Some true).

(** The elapsed boot time between two readings of a fresh clock. *)
Definition within_auth_timeout (started finished : Z) : bool :=
  (started <=? finished) && (finished - started <? AUTH_TIMEOUT).

(** From the accepted connection to the authorized route. *)
Definition authorize_connection (nd : Node) (env : AcceptEnv)
    : internal_session (OwnerAuthContext * RouteIdentity) :=
  lift (guard_lease (ac_lease env)) ;;
  '(path, query) ← lift (ok_or Unreachable (ac_upgrade env));
  lift (fail_if (negb (validate_upgrade path query)) Unreachable) ;;
  let '(last, reading) := clock_now None (ac_clock0 env) in
  started ← lift (map_err (fun _ => Fenced) reading);
  send_json (FChallenge (challenge_frame nd (ac_challenge env))) ;;
  a ← receive_json parse_authenticate FAuthenticate;
  '(context, response) ← lift (destination_context nd (ac_challenge env) a);
  key ← lift (ok_or Invariant (nd_key nd));
  lift (fail_if (negb (authenticates nd key a context response)) Unreachable) ;;
  lift (validate_context nd env context) ;;
  finished ← lift (map_err (fun _ => Fenced) (snd (clock_now last (ac_clock1 env))));
  lift (fail_if (negb (within_auth_timeout started finished)) Unreachable) ;;
  route ← lift (resolve_current_route env context);
  lift (fail_if (negb (ac_permit env)) Unavailable) ;;
  log (Authorized context route) ;;
  mret (context, route).

(** What follows the authorization: the pre-authentication permit is given
    back, the peer is told, and the connection serves its class (an
    attachment is [Attachment.run_owner_attachment] on the internal socket). *)
Definition serve_connection (env : AcceptEnv) (context : OwnerAuthContext) (route : RouteIdentity)
    : internal_session unit :=
  log PreauthDropped ;;
  send_json (FTyped (lit "owner.accepted")) ;;
  match connection_class context with
  | Attachment => log (AttachmentServed (machine_id context) route)
  | Control => handle_invalidation env (machine_id context) route
  end.

Definition accept_owner_connection (nd : Node) (env : AcceptEnv) : internal_session unit :=
  '(context, route) ← authorize_connection nd env;
  serve_connection env context route.

(** A transition is armed from its beginning to its end; [Drop] fences the
    node when its task is aborted in between. *)
Definition armed_after (armed : bool) (ev : Event) : bool :=
  match ev with
  | TransitionBegun _ _ => true
  | HardFenced | TransitionFinished _ => false
  | _ => armed
  end.
Definition armed (l : list Event) : bool := fold_left armed_after l false.

(** [abort_all] drops the task of a connection after [cut] of its events. *)
Definition aborted {A} (cut : nat) (m : internal_session A) : internal_session A := fun s =>
  let '(s, l, r) := m s in
  if (cut <? length l)%nat
  then let l := take cut l in
       (s, l ++ (if armed l then [HardFenced] else []), Err Unreachable)
  else (s, l, r).
End internal.
