(* ===== verification/Attachment.v ===== *)
(** * Attachment: the session of a browser attachment

    Models the session of [crates/owlmux-server/src/attachment.rs]: from the
    upgrade and the API key over the session chooser and the workspace loop to
    the release of the attachment.

    A session runs on a [World]: the writer scope it shares with the other
    attachments of the route, its tmux control adapter ([TmuxControl]) and the
    trace of what it did, newest event first.  Whatever it awaits from outside
    is a question to an oracle, which answers by the number of questions asked
    so far; every oracle is one environment, so a theorem about all oracles is
    about all environments.  Taking the dispatch mutex or the state lock of the
    scope first lets the other attachments act on it ([AskOthers]). *)

From S2P Require Import Prelude Text Contracts Secrets Ssh TmuxGrammar TmuxControl Authority Admission Registry Writer AttachmentFrames.

(** ** Effects *)

(** A write under its timeout: elapsed, or what the fence and the socket said. *)
Inductive WriteFate : Type :=
| WriteTimedOut
| WriteAnswered (fence_open : bool) (inner : result AttachmentWireError unit).

Definition write_result (f : WriteFate) : result AttachmentError unit :=
  match f with
  | WriteTimedOut => Err Unavailable
  | WriteAnswered fence_open inner => map_err map_wire_error (route_send_text fence_open inner)
  end.

Inductive Query : Type :=
| AskText       (* the next message of the browser *)
| AskWrite      (* the fate of a write *)
| AskPumps      (* control events pumped while a write is pending *)
| AskRelays     (* the local lease, readiness and the tunnel registry *)
| AskOthers     (* what the other attachments do to the scope *)
| AskDemote     (* whether a directive is accepted, and its response *)
| AskClosed     (* whether the route is closed *)
| AskCut        (* how many events happen before awaited work is dropped *)
| AskFresh      (* an identifier: a UUID, a channel *)
| AskStream     (* one attempt to open a Relay stream *)
| AskDeadline   (* whether the wait for a stream is over *)
| AskPermit     (* whether the connection limit has a permit left *)
| AskProbe | AskChild | AskCreate.

Definition Answer (q : Query) : Type :=
  match q with
  | AskText => result AttachmentWireError bytes
  | AskWrite => WriteFate
  | AskPumps => nat
  | AskRelays => bool * bool * Registry
  | AskOthers => list op
  | AskDemote => bool * option ControlOutcome
  | AskClosed => bool
  | AskCut => option nat
  | AskFresh => Z
  | AskStream => option RouteIdentity
  | AskDeadline | AskPermit => bool
  | AskProbe => result Contracts.SshError bytes
  | AskChild => result Contracts.SshError ControlChild
  | AskCreate => result Contracts.SshError CreateSessionOutcome
  end.

Definition Oracle : Type := nat -> forall q, Answer q.

(** The operations that change the target or its clients. *)
Inductive Mutation : Type :=
| SetWriter (writer : bool) | Resize (size : ClientSize) | Literal (pane data : bytes)
| ToWindow (window : bytes) | ToPane (pane : bytes) | NewSession (name : bytes).

Inductive Event : Type :=
| Got (f : ClientFrame)
| Wrote (f : ServerFrame) (fate : WriteFate)
| Audited (action outcome : bytes)
| CheckedRoute (ok : bool)
(* a mutation, its outcome, and the scope it was dispatched under *)
| Mutated (m : Mutation) (o : MutationOutcome) (held : bool) (writer : option WriterHandle)
| Demoted (c : ControlSender) (o : ControlOutcome)
(* a directive taken from the attachment's channel *)
| Directed (d : ControlDirective)
| ClosedControl (c : ControlSender)
| ClosedSocket (code : Z) (reason : bytes)
| Proxied (route : RouteIdentity) (incarnation : Uuid) (url : bytes).

Record World : Type := { clock : nat; shared : WriterScope; adapter : Adapter; trace : list Event }.

(** ** The monad of a session *)

Definition att (A : Type) : Type := World -> World * result AttachmentError A.
Global Instance att_ret : MRet att := fun A a w => (w, Ok a).
Global Instance att_bind : MBind att := fun A B f m w =>
  match m w with
  | (w, Ok a) => f a w
  | (w, Err e) => (w, Err e)
  end.
Definition fail {A} (e : AttachmentError) : att A := fun w => (w, Err e).
Definition lift {A} (r : result AttachmentError A) : att A := fun w => (w, r).
(** Run and keep the outcome as a value. *)
Definition attempt {A} (m : att A) : att (result AttachmentError A) := fun w =>
  let '(w, r) := m w in (w, Ok r).

Definition set_shared (s : WriterScope) (w : World) : World :=
  {| clock := clock w; shared := s; adapter := adapter w; trace := trace w |}.
Definition set_adapter (a : Adapter) (w : World) : World :=
  {| clock := clock w; shared := shared w; adapter := a; trace := trace w |}.
Definition set_trace (t : list Event) (w : World) : World :=
  {| clock := clock w; shared := shared w; adapter := adapter w; trace := t |}.

Definition emit (e : Event) : att unit := fun w => (set_trace (e :: trace w) w, Ok tt).
Definition get_scope : att WriterScope := fun w => (w, Ok (shared w)).
Definition modify (f : WriterScope -> WriterScope) : att unit := fun w =>
  (set_shared (f (shared w)) w, Ok tt).

(** An operation of the control adapter. *)
Definition on_control {A} (f : Adapter -> Adapter * tmux A) : att (tmux A) := fun w =>
  let '(a, r) := f (adapter w) in (set_adapter a w, Ok r).

(** A function body that holds the dispatch guard until it returns. *)
Definition holding_dispatch {A} (body : att A) : att A := fun w =>
  let '(w, r) := body w in (set_shared (drop_dispatch (shared w)) w, r).

(** What the other attachments do, one operation after the other. *)
Definition run_ops (ops : list op) (s : WriterScope) : WriterScope :=
  fold_left (fun s o => run_op o s) ops s.

(** Work that is dropped, after [k] of its events, with the error [e]. *)
Definition dropped_after (k : nat) (before : list Event) (w : World) : World :=
  set_trace (drop (length (trace w) - length before - k) (trace w)) w.

Definition drop_after {A} (k : nat) (e : AttachmentError) (m : att A) : att A := fun w =>
  let '(w', _) := m w in (dropped_after k (trace w) w', Err e).

(** A [mpsc::Sender::send] of [ControlDirective::Close] whose result is ignored. *)
Definition close_control (c : ControlSender) : att unit := emit (ClosedControl c).
Definition close_old (c : option ControlSender) : att unit :=
  match c with Some c => close_control c | None => mret tt end.

(** [Selection]; its scope is the one of the world. *)
Record Selection : Type := { sel_session : bytes; sel_created : Z; sel_route : RouteIdentity }.

Inductive WorkspaceExit : Type := ToChooser | ToDetach.
Inductive FrameExit : Type := FrameContinue | FrameChooser | FrameDetach.
Inductive ChooserExit : Type := Selected (sel : Selection) | Refreshed | Detached.

(** [WriterRequest]; [takeover] is [operation]. *)
Record WriterRequest : Type := {
  wr_request_id : Uuid; wr_takeover : bool; wr_connection_epoch : bytes; wr_epoch : Uuid;
  wr_size : ClientSize;
}.
Definition wr_operation (r : WriterRequest) : Operation :=
  if wr_takeover r then WriterTakeoverOp else WriterClaimOp.

(** What a [select!] of the chooser and of the workspace picks next. *)
Inductive ChooserTurn : Type := ChooserClosed | ChooserWriterChanged (ok : bool) | ChooserClient.
Inductive Turn : Type :=
| RouteClosed | WriterChanged (ok : bool) | Directive (d : option ControlDirective)
| Client | DispatchGranted | ControlEventReady.

Record LoopState : Type := { workspace_state : WorkspaceState; dirty : bool; pending : bool }.

Section session.
Context `{Hbase : Base64} `{Hcodec : AttachmentCodec} (oracle : Oracle).
(** [machine_id], and the identifier of this attachment. *)
Context (machine attachment : Uuid).

Definition ask (q : Query) : att (Answer q) := fun w =>
  ({| clock := S (clock w); shared := shared w; adapter := adapter w; trace := trace w |},
   Ok (oracle (clock w) q)).

(** ** The writer scope *)

(** [scope.dispatch().await]: returns once the mutex is free. *)
Definition dispatch_scope : att unit :=
  ops ← ask AskOthers; modify (fun s => set_dispatch (run_ops ops s) true).

(** [scope.lock().await]: the dispatch mutex stays with its holder. *)
Definition lock_scope : att unit :=
  ops ← ask AskOthers; modify (fun s => set_dispatch (run_ops ops s) (dispatch_held s)).

(** [scope.try_dispatch()]. *)
Definition try_dispatch_scope : att bool :=
  ops ← ask AskOthers;
  modify (run_ops ops) ;;
  s ← get_scope;
  match try_dispatch s with
  | None => mret false
  | Some s => modify (fun _ => s) ;; mret true
  end.

Definition current_route : att bool :=
  '(lease_ok, ready, registry) ← ask AskRelays;
  s ← get_scope;
  let ok := lease_ok && is_current_route machine (route s) ready registry in
  emit (CheckedRoute ok) ;; mret ok.

(** [if !current_route(..).await { return Err(RouteChanged) }]. *)
Definition require_route : att unit :=
  ok ← current_route; if ok : bool then mret tt else fail RouteChanged.

(** The same, after the writer has been given up by [clear]. *)
Definition require_route_or (yield_writer : att unit) : att unit :=
  ok ← current_route; if ok : bool then mret tt else (yield_writer ;; fail RouteChanged).

Definition clear_current : att unit := modify (fun s => fst (clear_if_current s attachment)).

(** ** The browser *)

Definition audit_event (action outcome : bytes) : att unit := emit (Audited action outcome).

(** [RouteAttachmentSocket::audit_operation]. *)
Definition audit_operation (operation : Operation) (outcome : PublicOutcome) : att unit :=
  match audit_action operation with
  | Some action => audit_event action (audit_outcome outcome)
  | None => mret tt
  end.

Definition encode (f : ServerFrame) : result AttachmentError bytes :=
  text ← ok_or ProtocolError (print_frame f);
  if ATTACHMENT_MAX_FRAME_BYTES <? zlen text then Err ProtocolError else Ok text.

Definition send (f : ServerFrame) : att unit :=
  lift (encode f) ;;
  fate ← ask AskWrite;
  emit (Wrote f fate) ;;
  lift (write_result fate).

Fixpoint pump (n : nat) : att unit :=
  match n with
  | O => mret tt
  | S n => r ← on_control pump_event; lift (map_err map_tmux r) ;; pump n
  end.

Definition send_with_control (f : ServerFrame) : att unit :=
  lift (encode f) ;;
  n ← ask AskPumps;
  pump n ;;
  fate ← ask AskWrite;
  emit (Wrote f fate) ;;
  lift (write_result fate).

Definition receive : att ClientFrame :=
  text ← ask AskText;
  text ← lift (map_err map_wire_error text);
  f ← lift (decode_text_frame text);
  emit (Got f) ;; mret f.

Definition send_operation_result (request_id : Uuid) (operation : Operation)
    (outcome : PublicOutcome) (code message : bytes) : att unit :=
  audit_operation operation outcome ;;
  send (OperationResult request_id operation outcome code message).

Definition send_writer_required (request_id : Uuid) (operation : Operation) : att unit :=
  send_operation_result request_id operation PublicFailed (lit "writer_required")
    (lit "Only the current OwlMux Browser writer may perform this operation.").

Definition send_stale_operation (request_id : Uuid) (operation : Operation) : att unit :=
  send_operation_result request_id operation PublicFailed (lit "stale_epoch")
    (lit "The workspace changed before dispatch.").

Definition send_workspace_error (code message : bytes) : att unit := send (ErrorFrame code message).

Definition send_fatal_error (code message : bytes) : att unit :=
  send (PhaseFrame PhaseFailed) ;;
  send_workspace_error code message ;;
  emit (ClosedSocket (close_code code) code).

(** [send_writer_state]: [scope.view] takes the state lock. *)
Definition send_writer_state (attachment_epoch : Uuid) : att unit :=
  lock_scope ;;
  s ← get_scope;
  let v := view s attachment in
  send (WriterState (dec_signed (rt_epoch (route s))) attachment_epoch
          (if is_writer v then RoleWriter else RoleObserver) (writer_available v)).

(** ** The target *)

Definition run_mutation (m : Mutation) (a : Adapter) : Adapter * tmux MutationOutcome :=
  match m with
  | SetWriter b => let '(a, o) := set_writer b a in (a, Ok o)
  | Resize sz => resize (columns sz) (rows sz) a
  | Literal pane data => send_literal pane data a
  | ToWindow window => select_window window a
  | ToPane pane => select_pane pane a
  | NewSession _ => (a, Err Protocol)
  end.

(** A mutation over the control adapter; refused, nothing is dispatched. *)
Definition mutate (m : Mutation) : att MutationOutcome :=
  r ← on_control (run_mutation m);
  o ← lift (map_err map_tmux r);
  s ← get_scope;
  emit (Mutated m o (dispatch_held s) (current s)) ;; mret o.

(** [ssh::create_tmux_session], whose outcome speaks of the target. *)
Definition create_outcome_of (o : CreateSessionOutcome) : MutationOutcome :=
  match o with
  | Ssh.Succeeded => Succeeded
  | Ssh.Failed => Failed
  | Ssh.Ambiguous => Ambiguous
  end.
Definition create_tmux_session (name : bytes) : att MutationOutcome :=
  r ← ask AskCreate;
  o ← lift (map_err (fun _ => SshFailed) r);
  s ← get_scope;
  let o := create_outcome_of o in
  emit (Mutated (NewSession name) o (dispatch_held s) (current s)) ;; mret o.

Definition demote_writer (c : ControlSender) : att ControlOutcome :=
  '(accepted, response) ← ask AskDemote;
  let o := if accepted : bool then default ControlAmbiguous response else ControlAmbiguous in
  emit (Demoted c o) ;; mret o.

(** [open_relay_stream]: an attempt every 100 ms for 5 s, so that the deadline
    has passed after fifty sleeps at the latest. *)
Fixpoint open_relay_stream_from (sleeps : nat) : att RouteIdentity :=
  stream ← ask AskStream;
  match stream with
  | Some route => mret route
  | None =>
      over ← ask AskDeadline;
      '(lease_ok, _, _) ← ask AskRelays;
      match sleeps with
      | O => fail Unavailable
      | S sleeps =>
          if over || negb lease_ok then fail Unavailable else open_relay_stream_from sleeps
      end
  end.
Definition open_relay_stream : att RouteIdentity := open_relay_stream_from 50.

(** A [select!] of [route_closed] against work that only waits. *)
Definition race_closed : att unit :=
  closed ← ask AskClosed; if closed : bool then fail RouteChanged else mret tt.

(** Awaited work under a timeout or against [route_closed]. *)
Definition or_dropped {A} (e : AttachmentError) (m : att A) : att A :=
  cut ← ask AskCut;
  match cut with None => m | Some k => drop_after k e m end.

(** ** Installing a projection *)

Fixpoint send_frames (fs : list ServerFrame) : att unit :=
  match fs with
  | [] => mret tt
  | f :: fs => send_with_control f ;; send_frames fs
  end.

Definition chunk_size : nat := Z.to_nat ATTACHMENT_MAX_TERMINAL_CHUNK_BYTES.

Fixpoint send_snapshots (e : Uuid) (snapshots : list PaneSnapshot) : att unit :=
  match snapshots with
  | [] => mret tt
  | s :: rest =>
      send_frames (snapshot_frames e (snapshot_pane_id s) (chunks chunk_size (content s))) ;;
      send_snapshots e rest
  end.

(** The errors of [hydrate] that lead back to the chooser. *)
Definition recoverable (e : TmuxError) : bool :=
  match e with
  | Changed | Target | TmuxSsh SshUnavailable => true
  | _ => false
  end.

Definition install_projection_inner (connection_epoch : Z) (session : bytes) (created : Z)
    : att (option WorkspaceState) :=
  send (PhaseFrame Connecting) ;;
  hydrated ← on_control (hydrate session created);
  match hydrated with
  | Err e => if recoverable e then mret None else fail (map_tmux e)
  | Ok projection =>
      workspace_epoch ← ask AskFresh;
      active ← lift (ok_or ProtocolError
                 (pane_id <$> List.find TmuxGrammar.active (wp_panes projection)));
      send_with_control (Projection (dec_signed connection_epoch) workspace_epoch session created
        (wp_windows projection) (wp_window projection) (wp_panes projection)) ;;
      send_snapshots workspace_epoch (wp_snapshots projection) ;;
      send_with_control (PhaseFrame Ready) ;;
      mret (Some {| epoch := workspace_epoch; ws_connection_epoch := connection_epoch;
                    windows := list_to_set (map ws_window_id (wp_windows projection));
                    visible_panes := list_to_set (map pane_id (wp_panes projection));
                    active_pane := active |})
  end.

Definition install_projection (sel : Selection) : att (option WorkspaceState) :=
  or_dropped Unavailable
    (install_projection_inner (rt_epoch (sel_route sel)) (sel_session sel) (sel_created sel)).

(** ** Becoming the writer *)

Definition public_of (o : MutationOutcome) : PublicOutcome :=
  match o with
  | Succeeded => PublicSucceeded | Failed => PublicFailed | Ambiguous => PublicAmbiguous
  end.
Definition control_outcome_of (o : MutationOutcome) : ControlOutcome :=
  match o with
  | Succeeded => ControlSucceeded | Failed => ControlFailed | Ambiguous => ControlAmbiguous
  end.

(** The reply to a transition that failed closed. *)
Definition send_transition_failed (r : WriterRequest) (ambiguous : bool) (message : bytes) : att unit :=
  send_operation_result (wr_request_id r) (wr_operation r)
    (if ambiguous then PublicAmbiguous else PublicFailed)
    (if ambiguous then lit "operation_ambiguous" else lit "writer_transition_failed") message.

Definition transition_failed : bytes :=
  lit "Writer transition failed closed; no writer was retained.".
Definition resize_failed : bytes := lit "Writer resize failed closed; no writer was retained.".

Definition stale_request (r : WriterRequest) (expected_epoch : Uuid) (connection_epoch : Z) : bool :=
  negb (wr_epoch r =? expected_epoch)
  || negb (matches_connection_epoch (wr_connection_epoch r) connection_epoch).

Definition reply (r : WriterRequest) : PublicOutcome -> bytes -> bytes -> att unit :=
  send_operation_result (wr_request_id r) (wr_operation r).

(** Demote the writer that holds [old]; whether the transition goes on. *)
Definition demote_old (r : WriterRequest) (old : option ControlSender) : att bool :=
  match old with
  | None => mret true
  | Some c =>
      o ← demote_writer c;
      require_route_or (modify clear ;; close_control c) ;;
      if bool_decide (o = ControlSucceeded) then mret true
      else
        modify clear ;;
        close_control c ;;
        send_transition_failed r (bool_decide (o = ControlAmbiguous)) transition_failed ;;
        mret false
  end.

Definition claimed_code (r : WriterRequest) : bytes :=
  if wr_takeover r then lit "writer_taken_over" else lit "writer_claimed".

(** [change_writer_without_control]. *)
Definition change_writer_without_control (expected_epoch : Uuid) (r : WriterRequest) : att unit :=
  s ← get_scope;
  if stale_request r expected_epoch (rt_epoch (route s)) then
    reply r PublicFailed (lit "stale_epoch") (lit "Writer state changed before dispatch.")
  else if negb (valid_client_size (wr_size r)) then
    reply r PublicFailed (lit "invalid_operation")
      (lit "The requested Browser size is outside the supported bounds.")
  else
    dispatch_scope ;;
    holding_dispatch (
      lock_scope ;;
      require_route ;;
      s ← get_scope;
      if is_current s attachment then
        modify (fun s => fst (update_size s attachment (wr_size r))) ;;
        reply r PublicSucceeded (lit "writer_current") (lit "This attachment is the current writer.")
      else if negb (is_available s) && negb (wr_takeover r) then
        reply r PublicFailed (lit "writer_busy")
          (lit "Another OwlMux Browser attachment is the current writer.")
      else
        go ← demote_old r (current_control s);
        if go : bool then
          modify (fun s => set_current s attachment (wr_size r) None) ;;
          reply r PublicSucceeded (claimed_code r) (lit "This attachment is now the current writer.")
        else mret tt).

(** [try_dispatch_operation]. *)
Definition try_dispatch_operation (request_id : Uuid) (operation : Operation) : att bool :=
  got ← try_dispatch_scope;
  if got : bool then mret true
  else
    send_operation_result request_id operation PublicFailed (lit "writer_busy")
      (lit "Another target operation is already being dispatched.") ;;
    mret false.

(** [control.set_writer(true)] of a transition: whether it goes on. *)
Definition promote (r : WriterRequest) (old : option ControlSender) (control_tx : ControlSender)
    : att bool :=
  o ← mutate (SetWriter true);
  require_route_or (modify clear ;; close_old old) ;;
  if bool_decide (o = Succeeded) then
    modify (fun s => set_current s attachment (wr_size r) (Some control_tx)) ;; mret true
  else
    modify clear ;;
    close_old old ;;
    send_transition_failed r (bool_decide (o = Ambiguous)) transition_failed ;;
    mret false.

(** The end of [change_writer_with_control]: size, projection, reply. *)
Definition settle_writer (sel : Selection) (ws : WorkspaceState) (r : WriterRequest)
    (old : option ControlSender) : att (FrameExit * WorkspaceState) :=
  o ← mutate (Resize (wr_size r));
  require_route_or (clear_current ;; close_old old) ;;
  if negb (bool_decide (o = Succeeded)) then
    clear_current ;;
    close_old old ;;
    send_transition_failed r (bool_decide (o = Ambiguous)) resize_failed ;;
    mret (FrameChooser, ws)
  else
    projection ← install_projection sel;
    match projection with
    | None => clear_current ;; mret (FrameChooser, ws)
    | Some next =>
        require_route_or clear_current ;;
        reply r PublicSucceeded (claimed_code r)
          (lit "Writer access is active after a fresh target projection.") ;;
        mret (FrameContinue, next)
    end.

(** [change_writer_with_control]. *)
Definition change_writer_with_control (sel : Selection) (control_tx : ControlSender)
    (ws : WorkspaceState) (r : WriterRequest) : att (FrameExit * WorkspaceState) :=
  if stale_request r (epoch ws) (rt_epoch (sel_route sel)) then
    send_stale_operation (wr_request_id r) (wr_operation r) ;; mret (FrameContinue, ws)
  else if negb (valid_client_size (wr_size r)) then
    reply r PublicFailed (lit "invalid_operation")
      (lit "The requested Browser size is outside the supported bounds.") ;;
    mret (FrameContinue, ws)
  else
    got ← try_dispatch_operation (wr_request_id r) (wr_operation r);
    if negb got then mret (FrameContinue, ws)
    else
      holding_dispatch (
        lock_scope ;;
        require_route ;;
        s ← get_scope;
        if negb (is_available s) && negb (is_current s attachment) && negb (wr_takeover r) then
          reply r PublicFailed (lit "writer_busy")
            (lit "Another OwlMux Browser attachment is the current writer.") ;;
          mret (FrameContinue, ws)
        else if is_current s attachment then
          modify (fun s => fst (update_size s attachment (wr_size r))) ;;
          modify (fun s => fst (set_control s attachment control_tx)) ;;
          settle_writer sel ws r None
        else
          let old := current_control s in
          go ← demote_old r old;
          if negb go then mret (FrameChooser, ws)
          else
            go ← promote r old control_tx;
            if negb go then mret (FrameChooser, ws) else settle_writer sel ws r old).

(** ** The frames of a workspace *)

(** [mutation_result]. *)
Definition mutation_result (request_id : Uuid) (operation : Operation) (o : MutationOutcome)
    : att FrameExit :=
  match o with
  | Succeeded =>
      send_operation_result request_id operation PublicSucceeded (lit "operation_succeeded")
        (lit "The target confirmed the operation.") ;;
      mret FrameContinue
  | Failed =>
      send_operation_result request_id operation PublicFailed (lit "target_rejected")
        (lit "The target rejected the operation without applying it.") ;;
      mret FrameContinue
  | Ambiguous =>
      clear_current ;;
      send_operation_result request_id operation PublicAmbiguous (lit "operation_ambiguous")
        (lit "The operation may have occurred. It will not be retried.") ;;
      mret FrameChooser
  end.

(** [refresh_after_mutation]. *)
Definition refresh_after_mutation (sel : Selection) (ws : WorkspaceState)
    : att (FrameExit * WorkspaceState) :=
  projection ← install_projection sel;
  match projection with
  | None => mret (FrameChooser, ws)
  | Some next => require_route ;; mret (FrameContinue, next)
  end.

(** The guards every operation of a workspace passes: the dispatch mutex, the
    writer pointer under the state lock, the route. *)
Definition as_writer (ws : WorkspaceState) (request_id : Uuid) (operation : Operation)
    (body : att (FrameExit * WorkspaceState)) : att (FrameExit * WorkspaceState) :=
  got ← try_dispatch_operation request_id operation;
  if negb got then mret (FrameContinue, ws)
  else
    holding_dispatch (
      lock_scope ;;
      s ← get_scope;
      if negb (is_current s attachment) then
        send_writer_required request_id operation ;; mret (FrameContinue, ws)
      else require_route ;; body).

(** A mutation by the writer, and the route check after it. *)
Definition mutate_checked (m : Mutation) : att MutationOutcome :=
  o ← mutate m; require_route_or clear_current ;; mret o.

(** The resize and the two selections: a confirmed mutation is reported and
    the projection installed again. *)
Definition mutate_and_refresh (sel : Selection) (ws : WorkspaceState) (request_id : Uuid)
    (operation : Operation) (m : Mutation) (on_success : att unit) (code message : bytes)
    : att (FrameExit * WorkspaceState) :=
  o ← mutate_checked m;
  if negb (bool_decide (o = Succeeded)) then
    exit ← mutation_result request_id operation o; mret (exit, ws)
  else
    on_success ;;
    send_operation_result request_id operation PublicSucceeded code message ;;
    refresh_after_mutation sel ws.

Definition handle_pane_input (ws : WorkspaceState) (request_id : Uuid) (connection_epoch : bytes)
    (workspace_epoch : Uuid) (pane data_base64 : bytes) : att (FrameExit * WorkspaceState) :=
  if negb (workspace_matches ws connection_epoch workspace_epoch)
     || negb (bool_decide (active_pane ws = pane)) then
    send_operation_result request_id PaneInputOp PublicFailed (lit "stale_epoch")
      (lit "Pane input was rejected before dispatch.") ;;
    mret (FrameContinue, ws)
  else
    data ← lift (ok_or ProtocolError (decode_input data_base64));
    as_writer ws request_id PaneInputOp (
      o ← mutate_checked (Literal pane data);
      exit ← mutation_result request_id PaneInputOp o;
      mret (exit, ws)).

Definition handle_resize (sel : Selection) (ws : WorkspaceState) (request_id : Uuid)
    (connection_epoch : bytes) (workspace_epoch : Uuid) (sz : ClientSize)
    : att (FrameExit * WorkspaceState) :=
  if negb (workspace_matches ws connection_epoch workspace_epoch) then
    send_stale_operation request_id ClientResizeOp ;; mret (FrameContinue, ws)
  else if negb (valid_client_size sz) then
    send_operation_result request_id ClientResizeOp PublicFailed (lit "invalid_operation")
      (lit "The requested Browser size is outside the supported bounds.") ;;
    mret (FrameContinue, ws)
  else
    as_writer ws request_id ClientResizeOp
      (mutate_and_refresh sel ws request_id ClientResizeOp (Resize sz)
        (modify (fun s => fst (update_size s attachment sz)))
        (lit "resize_applied") (lit "The target accepted the Browser client size.")).

Definition handle_select (sel : Selection) (ws : WorkspaceState) (request_id : Uuid)
    (operation : Operation) (fresh : bool) (m : Mutation) (code message : bytes)
    : att (FrameExit * WorkspaceState) :=
  if negb fresh then send_stale_operation request_id operation ;; mret (FrameContinue, ws)
  else
    as_writer ws request_id operation
      (mutate_and_refresh sel ws request_id operation m (mret tt) code message).

Definition handle_refresh (sel : Selection) (ws : WorkspaceState) (request_id : Uuid)
    (connection_epoch : bytes) (workspace_epoch : Uuid) : att (FrameExit * WorkspaceState) :=
  if negb (workspace_matches ws connection_epoch workspace_epoch) then
    send_stale_operation request_id WorkspaceRefreshOp ;; mret (FrameContinue, ws)
  else
    as_writer ws request_id WorkspaceRefreshOp (
      projection ← install_projection sel;
      match projection with
      | None => mret (FrameChooser, ws)
      | Some next =>
          require_route ;;
          send_operation_result request_id WorkspaceRefreshOp PublicSucceeded
            (lit "projection_refreshed") (lit "A fresh target projection was installed.") ;;
          mret (FrameContinue, next)
      end).

(** [handle_workspace_frame]. *)
Definition handle_workspace_frame (sel : Selection) (control_tx : ControlSender)
    (ws : WorkspaceState) (f : ClientFrame) : att (FrameExit * WorkspaceState) :=
  match f with
  | WorkspaceReturnToChooser ce we =>
      if workspace_matches ws ce we then mret (FrameChooser, ws)
      else
        send_workspace_error (lit "stale_epoch") (lit "Workspace state is stale.") ;;
        mret (FrameContinue, ws)
  | WorkspaceDetach => mret (FrameDetach, ws)
  | WriterClaim rid ce ae sz =>
      change_writer_with_control sel control_tx ws
        {| wr_request_id := rid; wr_takeover := false; wr_connection_epoch := ce; wr_epoch := ae;
           wr_size := sz |}
  | WriterTakeover rid ce ae sz =>
      change_writer_with_control sel control_tx ws
        {| wr_request_id := rid; wr_takeover := true; wr_connection_epoch := ce; wr_epoch := ae;
           wr_size := sz |}
  | PaneInput rid ce we pane data => handle_pane_input ws rid ce we pane data
  | ClientResize rid ce we sz => handle_resize sel ws rid ce we sz
  | WindowSelect rid ce we window =>
      handle_select sel ws rid WindowSelectOp
        (workspace_matches ws ce we && bool_decide (window ∈ windows ws)) (ToWindow window)
        (lit "window_selected") (lit "The target selected the observed window.")
  | PaneSelect rid ce we pane =>
      handle_select sel ws rid PaneSelectOp
        (workspace_matches ws ce we && bool_decide (pane ∈ visible_panes ws)) (ToPane pane)
        (lit "pane_selected") (lit "The target selected the observed pane.")
  | WorkspaceRefresh rid ce we => handle_refresh sel ws rid ce we
  | SessionSelect _ _ _ _ | SessionRefresh _ _ _ | SessionCreate _ _ _ _ => fail ProtocolError
  end.

(** ** The workspace *)

Definition with_workspace (st : LoopState) (ws : WorkspaceState) : LoopState :=
  {| workspace_state := ws; dirty := dirty st; pending := pending st |}.

(** A directive of the attachment that takes the writer over. *)
Definition on_directive (d : option ControlDirective) : att (option WorkspaceExit) :=
  match d with
  | None => mret (Some ToChooser)
  | Some Close => emit (Directed Close) ;; mret (Some ToChooser)
  | Some (Demote response) =>
      emit (Directed (Demote response)) ;;
      o ← mutate (SetWriter false);
      if bool_decide (control_outcome_of o = ControlSucceeded) then mret None
      else mret (Some ToChooser)
  end.

(** The pending dispatch guard has been granted. *)
Definition on_granted (sel : Selection) (st : LoopState) : att (LoopState + WorkspaceExit) :=
  let idle := {| workspace_state := workspace_state st; dirty := false; pending := false |} in
  if negb (pending st) then mret (inl st)
  else
    dispatch_scope ;;
    holding_dispatch (
      if negb (dirty st) then mret (inl idle)
      else
        require_route ;;
        projection ← install_projection sel;
        match projection with
        | None => mret (inr ToChooser)
        | Some next => require_route ;; mret (inl (with_workspace idle next))
        end).

Definition on_control_event (st : LoopState) : att (LoopState + WorkspaceExit) :=
  event ← on_control next_event;
  match event with
  | Err (TmuxSsh SshUnavailable) => mret (inr ToChooser)
  | Err e => fail (map_tmux e)
  | Ok (Output pane data) =>
      let ws := workspace_state st in
      (if bool_decide (pane ∈ visible_panes ws)
       then send (OutputFrame (epoch ws) pane (b64_encode data)) else mret tt) ;;
      mret (inl st)
  | Ok Refresh =>
      mret (inl {| workspace_state := workspace_state st; dirty := true; pending := true |})
  | Ok Exit => mret (inr ToChooser)
  end.

Definition on_client (sel : Selection) (control_tx : ControlSender) (st : LoopState)
    : att (LoopState + WorkspaceExit) :=
  f ← receive;
  '(exit, ws) ← handle_workspace_frame sel control_tx (workspace_state st) f;
  match exit with
  | FrameContinue => mret (inl (with_workspace st ws))
  | FrameChooser => mret (inr ToChooser)
  | FrameDetach => mret (inr ToDetach)
  end.

(** One turn of the [select!] of [workspace]. *)
Definition workspace_turn (sel : Selection) (control_tx : ControlSender) (t : Turn) (st : LoopState)
    : att (LoopState + WorkspaceExit) :=
  match t with
  | RouteClosed => fail RouteChanged
  | WriterChanged ok =>
      if negb ok then fail Unavailable
      else send_writer_state (epoch (workspace_state st)) ;; mret (inl st)
  | Directive d =>
      exit ← on_directive d;
      mret (match exit with Some e => inr e | None => inl st end)
  | Client => on_client sel control_tx st
  | DispatchGranted => on_granted sel st
  | ControlEventReady => on_control_event st
  end.

(** [None]: the loop is still running when the turns are used up. *)
Fixpoint workspace_loop (sel : Selection) (control_tx : ControlSender) (turns : list Turn)
    (st : LoopState) : att (option WorkspaceExit) :=
  match turns with
  | [] => mret None
  | t :: turns =>
      next ← workspace_turn sel control_tx t st;
      match next with
      | inl st => workspace_loop sel control_tx turns st
      | inr exit => mret (Some exit)
      end
  end.

(** The current writer's control client starts as a writer of its size. *)
Definition start_as_writer (control_tx : ControlSender) : att bool :=
  o ← mutate (SetWriter true);
  if negb (bool_decide (o = Succeeded)) then clear_current ;; mret false
  else
    modify (fun s => fst (set_control s attachment control_tx)) ;;
    s ← get_scope;
    match current_size s attachment with
    | None => mret true
    | Some sz =>
        o ← mutate (Resize sz);
        if negb (bool_decide (o = Succeeded)) then clear_current ;; mret false else mret true
    end.

(** The first projection, under the dispatch mutex. *)
Definition first_projection (sel : Selection) (control_tx : ControlSender)
    : att (option WorkspaceState) :=
  dispatch_scope ;;
  holding_dispatch (
    require_route ;;
    lock_scope ;;
    s ← get_scope;
    ready ← (if is_current s attachment then start_as_writer control_tx else mret true);
    if negb ready then mret None
    else
      projection ← or_dropped RouteChanged (install_projection sel);
      require_route_or clear_current ;;
      mret projection).

Definition audit_ok {E A} (r : result E A) : bytes := if is_ok r then lit "success" else lit "rejected".

(** [workspace]. *)
Definition workspace (sel : Selection) (turns : list Turn) : att (option WorkspaceExit) :=
  relay_route ← open_relay_stream;
  closed ← ask AskClosed;
  if negb (bool_decide (relay_route = sel_route sel)) || closed then fail RouteChanged
  else
    race_closed ;;
    child ← ask AskChild;
    audit_event (lit "ssh_tmux_control") (audit_ok child) ;;
    child ← lift (map_err (fun _ => SshFailed) child);
    race_closed ;;
    started ← on_control (fun _ => TmuxControl.start {| child := child; queue := empty_queue |});
    lift (map_err map_tmux started) ;;
    control_tx ← ask AskFresh;
    projection ← first_projection sel control_tx;
    match projection with
    | None => mret (Some ToChooser)
    | Some ws =>
        send_writer_state (epoch ws) ;;
        workspace_loop sel control_tx turns {| workspace_state := ws; dirty := false; pending := false |}
    end.

(** ** The chooser *)

(** A session creation once the guards on the request have passed. *)
Definition create_session (route : RouteIdentity) (request_id : Uuid) (name : bytes)
    : att (option ChooserExit) :=
  let answer := send_operation_result request_id SessionCreateOp in
  dispatch_scope ;;
  holding_dispatch (
    lock_scope ;;
    s ← get_scope;
    if negb (is_current s attachment) then
      answer PublicFailed (lit "writer_required")
        (lit "Claim writer access before creating a session.") ;; mret None
    else
      ok ← (if valid_session_name name then current_route else mret false);
      if negb ok then
        answer PublicFailed (lit "invalid_operation")
          (lit "The session could not be created before dispatch.") ;; mret None
      else
        stream ← ask AskStream;
        if negb (bool_decide (stream = Some route)) then
          answer PublicFailed (lit "target_unavailable")
            (lit "The target became unavailable before dispatch.") ;; mret None
        else
          o ← create_tmux_session name;
          require_route_or clear_current ;;
          match o with
          | Succeeded =>
              answer PublicSucceeded (lit "session_created")
                (lit "The target session was created. Refreshing the chooser.")
          | Failed =>
              answer PublicFailed (lit "session_create_failed")
                (lit "The target rejected session creation. Refreshing the chooser.")
          | Ambiguous =>
              modify clear ;;
              answer PublicAmbiguous (lit "operation_ambiguous")
                (lit "Session creation may have occurred. It will not be retried.")
          end ;;
          mret (Some Refreshed)).

Definition stale_selection (route : RouteIdentity) (probe : ProbeResult) (connection_epoch : bytes)
    (epoch : Uuid) : bool :=
  negb (matches_connection_epoch connection_epoch (rt_epoch route))
  || negb (epoch =? selection_epoch probe).

Definition listed (probe : ProbeResult) (session : bytes) (created : Z) : bool :=
  existsb (fun s => bool_decide (session_id s = session) && (session_created s =? created))
    (sessions probe).

(** [match frame] of [chooser]; [None]: it goes on. *)
Definition handle_chooser_frame (route : RouteIdentity) (probe : ProbeResult) (f : ClientFrame)
    : att (option ChooserExit) :=
  match f with
  | SessionSelect ce se session created =>
      if stale_selection route probe ce se || negb (listed probe session created) then
        send_workspace_error (lit "stale_selection") (lit "Session selection is stale.") ;;
        mret None
      else
        mret (Some (Selected {| sel_session := session; sel_created := created;
                                sel_route := route |}))
  | WriterClaim rid ce ae sz =>
      change_writer_without_control (selection_epoch probe)
        {| wr_request_id := rid; wr_takeover := false; wr_connection_epoch := ce; wr_epoch := ae;
           wr_size := sz |} ;;
      mret None
  | WriterTakeover rid ce ae sz =>
      change_writer_without_control (selection_epoch probe)
        {| wr_request_id := rid; wr_takeover := true; wr_connection_epoch := ce; wr_epoch := ae;
           wr_size := sz |} ;;
      mret None
  | SessionRefresh rid ce se =>
      if stale_selection route probe ce se then
        send_stale_operation rid SessionRefreshOp ;; mret None
      else
        send_operation_result rid SessionRefreshOp PublicSucceeded (lit "chooser_refreshed")
          (lit "Refreshing the target session chooser.") ;;
        mret (Some Refreshed)
  | SessionCreate rid ce se name =>
      if stale_selection route probe ce se then
        send_operation_result rid SessionCreateOp PublicFailed (lit "stale_epoch")
          (lit "The session chooser changed before dispatch.") ;;
        mret None
      else create_session route rid name
  | WorkspaceDetach => mret (Some Detached)
  | _ => fail ProtocolError
  end.

Definition chooser_turn (route : RouteIdentity) (probe : ProbeResult) (t : ChooserTurn)
    : att (option ChooserExit) :=
  match t with
  | ChooserClosed => fail RouteChanged
  | ChooserWriterChanged ok =>
      if negb ok then fail Unavailable
      else send_writer_state (selection_epoch probe) ;; mret None
  | ChooserClient => f ← receive; handle_chooser_frame route probe f
  end.

Fixpoint chooser_loop (route : RouteIdentity) (probe : ProbeResult) (turns : list ChooserTurn)
    : att (option ChooserExit) :=
  match turns with
  | [] => mret None
  | t :: turns =>
      exit ← chooser_turn route probe t;
      match exit with
      | None => chooser_loop route probe turns
      | Some e => mret (Some e)
      end
  end.

(** [state.writers.scope(machine_id, route)] for the scope registered for the
    machine: the same object for the same route, a new one otherwise
    ([Writer.scope]). *)
Definition take_scope (r : RouteIdentity) : att unit :=
  ops ← ask AskOthers;
  modify (fun s => let s := run_ops ops s in if decide (route s = r) then s else new_scope r).

(** [chooser]. *)
Definition chooser (expected_route : RouteIdentity) (turns : list ChooserTurn)
    : att (option ChooserExit) :=
  send (PhaseFrame Connecting) ;;
  route ← open_relay_stream;
  if negb (bool_decide (route = expected_route)) then fail RouteChanged
  else
    race_closed ;;
    stdout ← ask AskProbe;
    audit_event (lit "ssh_tmux_probe") (audit_ok stdout) ;;
    stdout ← lift (map_err (fun _ => SshFailed) stdout);
    new_epoch ← ask AskFresh;
    probe ← lift (map_err map_tmux (parse_probe stdout new_epoch));
    take_scope route ;;
    send (PhaseFrame Selecting) ;;
    send (SessionList (dec_signed (rt_epoch route)) (selection_epoch probe)
            (tmux_client_version probe) (tmux_server_version probe) (sessions probe)) ;;
    send_writer_state (selection_epoch probe) ;;
    chooser_loop route probe turns.

(** ** The session *)

Definition fatal (e : AttachmentError) : att unit :=
  attempt (send_fatal_error (error_code e) (error_message e)) ;; mret tt.

(** What ends a session silently: the browser left, the route changed. *)
Definition silent (e : AttachmentError) : bool :=
  match e with ClientClosed | RouteChanged => true | _ => false end.

(** The end of a workspace: its control is taken off the writer pointer. *)
Definition leave_workspace : att unit :=
  dispatch_scope ;;
  lock_scope ;;
  modify (fun s => fst (clear_control s attachment)).

(** [authenticated_session]: one round is a chooser and, after a selection, a
    workspace.  Whether the session has ended when the rounds are used up. *)
Fixpoint authenticated_session (expected_route : RouteIdentity)
    (rounds : list (list ChooserTurn * list Turn)) : att bool :=
  match rounds with
  | [] => mret false
  | (chooser_turns, turns) :: rounds =>
      chosen ← attempt (chooser expected_route chooser_turns);
      match chosen with
      | Ok None => mret false
      | Ok (Some Refreshed) => authenticated_session expected_route rounds
      | Ok (Some Detached) => mret true
      | Err e => if silent e then mret true else (fatal e ;; mret true)
      | Ok (Some (Selected sel)) =>
          left_with ← attempt (workspace sel turns);
          match left_with with
          | Ok None => mret false
          | _ =>
              over ← holding_dispatch (
                leave_workspace ;;
                match left_with with
                | Ok (Some ToChooser) => mret false
                | Err e => if silent e then mret true else (fatal e ;; mret true)
                | _ => mret true
                end);
              if over : bool then mret true else authenticated_session expected_route rounds
          end
      end
  end.

(** [state.writers.release_attachment(attachment_id)] on the scope of the
    machine: under its dispatch mutex ([Writer.release]). *)
Definition release_attachment : att unit :=
  dispatch_scope ;;
  holding_dispatch (lock_scope ;; clear_current).

Definition temporarily_unavailable (message : bytes) : att unit :=
  attempt (send_fatal_error (lit "temporarily_unavailable") message) ;; mret tt.

(** [run_owner_attachment]. *)
Definition run_owner_attachment (expected_route : RouteIdentity)
    (rounds : list (list ChooserTurn * list Turn)) : att bool :=
  '(lease_ok, _, registry) ← ask AskRelays;
  match route_fence machine expected_route lease_ok registry with
  | None => temporarily_unavailable (lit "The Machine route changed.") ;; mret true
  | Some _ =>
      permit ← ask AskPermit;
      if negb permit then
        attempt (send_fatal_error (lit "overloaded") (lit "Attachment capacity is exhausted.")) ;;
        mret true
      else
        audit_event (lit "attachment_start") (lit "success") ;;
        over ← authenticated_session expected_route rounds;
        if negb over then mret false
        else
          release_attachment ;;
          audit_event (lit "attachment_end") (lit "success") ;;
          emit (ClosedSocket ATTACHMENT_CLOSE_NORMAL (lit "attachment_closed")) ;;
          mret true
  end.

(** [authenticate]. *)
Definition authenticate (key : bytes) (lease_ok : bool)
    (first : option (option (option WsMessage))) : bool :=
  match receive_auth first with
  | Ok (ApiKeyFrame api_key) => accepts_key key api_key && lease_ok
  | Err _ => false
  end.

(** [attachment_session]; [resolved] is the answer of [owner::resolve] and a
    remote owner's attachment is handed to the internal transport. *)
Definition attachment_session (key : bytes) (lease_ok : bool)
    (first : option (option (option WsMessage))) (resolved : result OwnerRs.OwnerError OwnerRs.OwnerRoute)
    (rounds : list (list ChooserTurn * list Turn)) : att bool :=
  if negb (authenticate key lease_ok first) then
    attempt (send_fatal_error (lit "unauthenticated") (lit "Authentication failed.")) ;; mret true
  else
    match resolved with
    | Ok (OwnerRs.Local route) =>
        audit_event (lit "attachment_route_local") (lit "success") ;;
        run_owner_attachment route rounds
    | Ok (OwnerRs.Remote route incarnation url) =>
        audit_event (lit "attachment_route_remote") (lit "success") ;;
        emit (Proxied route incarnation url) ;; mret true
    | Ok (OwnerRs.NoValidOwner _) =>
        audit_event (lit "attachment_route") (lit "rejected") ;;
        temporarily_unavailable (lit "The Machine is temporarily unavailable.") ;; mret true
    | Err _ =>
        temporarily_unavailable (lit "The Machine is temporarily unavailable.") ;; mret true
    end.
End session.

(** ** The upgrade *)

Inductive UpgradeDecision : Type :=
| Forbidden | TooManyRequests | ServiceUnavailable | Upgraded.

(** [upgrade]: the origin, a permit of the source, a permit to attempt; a
    source permit is dropped when the attempt is refused. *)
Definition upgrade (origin : option bytes) (public_origin : bytes) (now source : Z)
    (attempt_permit : bool) (entries : gmap Z Admission.SourceEntry)
    : gmap Z Admission.SourceEntry * UpgradeDecision :=
  if negb (bool_decide (origin = Some public_origin)) then (entries, Forbidden)
  else
    let '(entries, got) := Admission.try_acquire now source entries in
    if negb got then (entries, TooManyRequests)
    else if negb attempt_permit then (Admission.drop_permit source entries, ServiceUnavailable)
    else (entries, Upgraded).
