(* ===== verification/AttachmentSafety.v ===== *)
(** * AttachmentSafety: what a browser attachment may do to its target

    The discipline of an attachment's trace: every mutation of the target is
    asked for by the browser's last frame and dispatched under the dispatch
    mutex, on a checked route, by the current writer; a writer is promoted
    only when nobody writes or the writer before has been demoted; every reply
    is truthful.  It is proved by running each handler on the pair of the
    shared scope and the essential history ([ensures]), step by step. *)

From S2P Require Import Prelude Text Contracts Secrets Ssh TmuxGrammar TmuxControl Authority Registry Writer AttachmentFrames Attachment.

(** ** Histories, newest event first *)

(** The events a later event can depend on. *)
Definition essential (e : Event) : bool :=
  match e with
  | Got _ | CheckedRoute _ | Mutated _ _ _ _ | Demoted _ _ | Directed _ | ClosedControl _ => true
  | Wrote (OperationResult _ _ _ _ _) _ => true
  | _ => false
  end.
Definition hist (w : World) : list Event := List.filter essential (trace w).

(** What happened since the browser's last frame. *)
Fixpoint since_request (t : list Event) : list Event :=
  match t with
  | [] | Got _ :: _ => []
  | e :: t => e :: since_request t
  end.
Fixpoint last_request (t : list Event) : option ClientFrame :=
  match t with
  | [] => None
  | Got f :: _ => Some f
  | _ :: t => last_request t
  end.
(** The last route check passed. *)
Fixpoint checked (t : list Event) : bool :=
  match t with
  | [] => false
  | CheckedRoute ok :: _ => ok
  | _ :: t => checked t
  end.
Fixpoint last_demotion (t : list Event) : option (ControlSender * ControlOutcome) :=
  match t with
  | [] => None
  | Demoted c o :: _ => Some (c, o)
  | _ :: t => last_demotion t
  end.
Fixpoint last_mutation (t : list Event) : option MutationOutcome :=
  match t with
  | [] => None
  | Mutated _ o _ _ :: _ => Some o
  | _ :: t => last_mutation t
  end.
Definition is_reply (e : Event) : bool :=
  match e with Wrote (OperationResult _ _ _ _ _) _ => true | _ => false end.
Definition uncertain (e : Event) : bool :=
  match e with
  | Mutated _ Ambiguous _ _ | Demoted _ ControlAmbiguous => true
  | _ => false
  end.

(** ** The discipline *)

Section discipline.
Context `{Hbase : Base64}.
Context (attachment : Uuid).

(** The frame [f] asks for the mutation [m]. *)
Definition asks_for (f : ClientFrame) (m : Mutation) : Prop :=
  match m, f with
  | Literal pane data, PaneInput _ _ _ pane' text => pane = pane' /\ decode_input text = Some data
  | Resize sz, (ClientResize _ _ _ sz' | WriterClaim _ _ _ sz' | WriterTakeover _ _ _ sz') => sz = sz'
  | ToWindow window, WindowSelect _ _ _ window' => window = window'
  | ToPane pane, PaneSelect _ _ _ pane' => pane = pane'
  | NewSession name, SessionCreate _ _ _ name' => name = name'
  (* opening a workspace restores the writer's mode and size *)
  | (SetWriter true | Resize _), SessionSelect _ _ _ _ => True
  | SetWriter true, (WriterClaim _ _ _ _ | WriterTakeover _ _ _ _) => True
  | _, _ => False
  end.

(** Who may dispatch [m] when the scope's writer is [writer]. *)
Definition entitled (m : Mutation) (writer : option WriterHandle) (past : list Event) : Prop :=
  match m with
  | SetWriter _ =>
      match writer with
      | None => True
      | Some h =>
          attachment_id h = attachment
          \/ match control h with
             | None => True
             | Some c => last_demotion (since_request past) = Some (c, ControlSucceeded)
             end
      end
  | _ => attachment_id <$> writer = Some attachment
  end.

Definition mutation_ok (m : Mutation) (held : bool) (writer : option WriterHandle)
    (past : list Event) : Prop :=
  held = true
  /\ checked (since_request past) = true
  /\ match last_request past with Some f => asks_for f m | None => False end
  /\ entitled m writer past.

(** The request a frame makes. *)
Definition request_of (f : ClientFrame) : option (Uuid * Operation) :=
  match f with
  | WriterClaim rid _ _ _ => Some (rid, WriterClaimOp)
  | WriterTakeover rid _ _ _ => Some (rid, WriterTakeoverOp)
  | SessionRefresh rid _ _ => Some (rid, SessionRefreshOp)
  | SessionCreate rid _ _ _ => Some (rid, SessionCreateOp)
  | WindowSelect rid _ _ _ => Some (rid, WindowSelectOp)
  | PaneSelect rid _ _ _ => Some (rid, PaneSelectOp)
  | PaneInput rid _ _ _ _ => Some (rid, PaneInputOp)
  | ClientResize rid _ _ _ => Some (rid, ClientResizeOp)
  | WorkspaceRefresh rid _ _ => Some (rid, WorkspaceRefreshOp)
  | SessionSelect _ _ _ _ | WorkspaceReturnToChooser _ _ | WorkspaceDetach => None
  end.

(** The operations whose success is the target's confirmation. *)
Definition confirmed_by_target (op : Operation) : bool :=
  match op with
  | SessionCreateOp | WindowSelectOp | PaneSelectOp | PaneInputOp | ClientResizeOp => true
  | _ => false
  end.

(** A reply answers the last request, once, and says what is known: success
    is the target's confirmation, failure leaves nothing uncertain, ambiguity
    is reported exactly when something is. *)
Definition reply_ok (rid : Uuid) (op : Operation) (outcome : PublicOutcome) (past : list Event)
    : Prop :=
  let recent := since_request past in
  (last_request past ≫= request_of = Some (rid, op))
  /\ existsb is_reply recent = false
  /\ (outcome = PublicAmbiguous <-> existsb uncertain recent = true)
  /\ (outcome = PublicSucceeded -> confirmed_by_target op = true ->
        last_mutation recent = Some Succeeded)
  /\ (outcome = PublicFailed -> confirmed_by_target op = true ->
        last_mutation recent = None \/ last_mutation recent = Some Failed).

(** A writer is demoted only on a takeover, on a checked route. *)
Definition demotion_ok (past : list Event) : Prop :=
  checked (since_request past) = true
  /\ match last_request past with Some (WriterTakeover _ _ _ _) => True | _ => False end.

(** What is served for the attachment that takes the writer over: a demotion
    answers the directive that was just taken from the channel. *)
Definition directed (past : list Event) : Prop :=
  match List.filter essential past with Directed (Demote _) :: _ => True | _ => False end.

Definition event_ok (e : Event) (past : list Event) : Prop :=
  match e with
  | Mutated (SetWriter false) _ _ _ => directed past
  | Mutated m _ held writer => mutation_ok m held writer past
  | Wrote (OperationResult rid op outcome _ _) _ => reply_ok rid op outcome past
  | Demoted _ _ => demotion_ok past
  | _ => True
  end.

Fixpoint disciplined (t : list Event) : Prop :=
  match t with
  | [] => True
  | e :: past => event_ok e past /\ disciplined past
  end.

(** ** The inessential events do not matter *)

Lemma since_request_filter t : List.filter essential (since_request t) = since_request (List.filter essential t).
Proof. induction t as [|[]]; cbn; repeat case_match; cbn; congruence. Qed.

Ltac filter_ind := intros t; induction t as [|[] ? IH]; cbn; rewrite ?IH;
  repeat (case_match; cbn; rewrite ?IH); try done; try congruence.

Lemma last_request_filter : forall t, last_request (List.filter essential t) = last_request t.
Proof. filter_ind. Qed.
Lemma checked_filter : forall t, checked (List.filter essential t) = checked t.
Proof. filter_ind. Qed.
Lemma last_demotion_filter : forall t, last_demotion (List.filter essential t) = last_demotion t.
Proof. filter_ind. Qed.
Lemma last_mutation_filter : forall t, last_mutation (List.filter essential t) = last_mutation t.
Proof. filter_ind. Qed.
Lemma is_reply_filter : forall t, existsb is_reply (List.filter essential t) = existsb is_reply t.
Proof. filter_ind. Qed.
Lemma uncertain_filter : forall t, existsb uncertain (List.filter essential t) = existsb uncertain t.
Proof. filter_ind. Qed.

Lemma filter_reply_essential t :
  List.filter is_reply (List.filter essential t) = List.filter is_reply t.
Proof.
  induction t as [|[|[]| | | | | | | |] t IH]; cbn; by rewrite ?IH.
Qed.

Lemma essential_filter t : List.filter essential (List.filter essential t) = List.filter essential t.
Proof. induction t as [|e t IH]; cbn; [done |]. destruct (essential e) eqn:E; cbn; by rewrite ?E, IH. Qed.

Lemma event_ok_filter e t : event_ok e (List.filter essential t) <-> event_ok e t.
Proof.
  unfold event_ok, mutation_ok, entitled, reply_ok, demotion_ok, directed.
  rewrite essential_filter, <-!since_request_filter, last_request_filter, checked_filter, last_demotion_filter,
    last_mutation_filter, is_reply_filter, uncertain_filter. done.
Qed.

Lemma inessential_ok e t : essential e = false -> event_ok e t.
Proof. by destruct e as [|[]| | | | | | | |]. Qed.

Lemma disciplined_filter t : disciplined (List.filter essential t) <-> disciplined t.
Proof.
  induction t as [|e t IH]; cbn; [done |].
  destruct (essential e) eqn:E; cbn; rewrite ?event_ok_filter; [tauto |].
  pose proof (inessential_ok e t E). tauto.
Qed.
End discipline.

(** ** Running a handler on scope and history *)

(** From scope [s] and essential history [h], [m] ends in [Q]. *)
Definition ensures {A} (m : att A)
    (Q : WriterScope -> list Event -> result AttachmentError A -> Prop) (s : WriterScope)
    (h : list Event) : Prop :=
  forall w, shared w = s -> hist w = h -> let '(w', r) := m w in Q (shared w') (hist w') r.

(** [m] neither touches the scope nor does anything essential. *)
Definition quiet {A} (m : att A) : Prop :=
  forall w, let '(w', _) := m w in
  shared w' = shared w
  /\ exists new, trace w' = new ++ trace w /\ Forall (fun e => essential e = false) new.

Lemma filter_inessential new t :
  Forall (fun e => essential e = false) new ->
  List.filter essential (new ++ t) = List.filter essential t.
Proof. induction 1 as [|e new He _ IH]; cbn; [done |]. by rewrite He. Qed.

Section rules.
Context {A B : Type}.
Implicit Types (m : att A) (f : A -> att B).
Implicit Types (s : WriterScope) (h : list Event).

Lemma ens_weaken m (P Q : WriterScope -> list Event -> result AttachmentError A -> Prop) s h :
  ensures m P s h -> (forall s' h' r, P s' h' r -> Q s' h' r) -> ensures m Q s h.
Proof. intros H HPQ w Hs Hh. specialize (H w Hs Hh). destruct (m w). eauto. Qed.

Lemma ens_ret (a : A) Q s h : Q s h (Ok a) -> ensures (mret a) Q s h.
Proof. intros H w <- <-. exact H. Qed.
Lemma ens_fail e Q s h : Q s h (Err e) -> ensures (A := A) (fail e) Q s h.
Proof. intros H w <- <-. exact H. Qed.
Lemma ens_lift r Q s h : Q s h r -> ensures (A := A) (lift r) Q s h.
Proof. intros H w <- <-. exact H. Qed.

Lemma ens_bind m f Q s h :
  ensures m (fun s' h' r => match r with
                            | Ok a => ensures (f a) Q s' h'
                            | Err e => Q s' h' (Err e)
                            end) s h ->
  ensures (m ≫= f) Q s h.
Proof.
  intros H w Hs Hh. specialize (H w Hs Hh). unfold mbind, att_bind.
  destruct (m w) as [w1 [a|e]]; [exact (H w1 eq_refl eq_refl) | exact H].
Qed.

Lemma ens_quiet m Q s h : quiet m -> (forall r, Q s h r) -> ensures m Q s h.
Proof.
  intros Hq H w <- <-. specialize (Hq w). destruct (m w) as [w' r].
  destruct Hq as (-> & new & Ht & Hn). unfold hist. rewrite Ht, filter_inessential by done. apply H.
Qed.

Lemma ens_holding m Q s h :
  ensures m (fun s' h' r => Q (drop_dispatch s') h' r) s h -> ensures (holding_dispatch m) Q s h.
Proof.
  intros H w Hs Hh. specialize (H w Hs Hh). unfold holding_dispatch.
  destruct (m w) as [w' r]. exact H.
Qed.

Lemma ens_attempt m Q s h :
  ensures m (fun s' h' r => Q s' h' (Ok r)) s h -> ensures (attempt m) Q s h.
Proof.
  intros H w Hs Hh. specialize (H w Hs Hh). unfold attempt. destruct (m w). exact H.
Qed.
End rules.

Lemma ens_get Q s h : Q s h (Ok s) -> ensures get_scope Q s h.
Proof. intros H w <- <-. exact H. Qed.
Lemma ens_modify g Q s h : Q (g s) h (Ok tt) -> ensures (modify g) Q s h.
Proof. intros H w <- <-. exact H. Qed.
Lemma ens_emit e Q s h :
  Q s (if essential e then e :: h else h) (Ok tt) -> ensures (emit e) Q s h.
Proof. intros H w <- <-. unfold emit, hist in *. cbn. by destruct (essential e). Qed.
Lemma ens_on_control {A} (g : Adapter -> Adapter * tmux A) Q s h :
  (forall r, Q s h (Ok r)) -> ensures (on_control g) Q s h.
Proof. intros H w <- <-. unfold on_control. destruct (g (adapter w)). apply H. Qed.

(** ** Quiet code *)

Section quiet.
Context {A B : Type}.
Implicit Types (m : att A) (f : A -> att B).

Lemma att_quiet_ret (a : A) : quiet (mret a).
Proof. intros w. split; [done | by exists []]. Qed.
Lemma quiet_fail e : quiet (A := A) (fail e).
Proof. intros w. split; [done | by exists []]. Qed.
Lemma att_quiet_lift r : quiet (A := A) (lift r).
Proof. intros w. split; [done | by exists []]. Qed.
Lemma att_quiet_bind m f : quiet m -> (forall a, quiet (f a)) -> quiet (m ≫= f).
Proof.
  intros Hm Hf w. unfold mbind, att_bind. specialize (Hm w).
  destruct (m w) as [w1 [a|e]]; [| exact Hm].
  destruct Hm as (Hs & n1 & Ht1 & Hn1). specialize (Hf a w1).
  destruct (f a w1) as [w2 r]. destruct Hf as (Hs2 & n2 & Ht2 & Hn2).
  split; [congruence |]. exists (n2 ++ n1). rewrite Ht2, Ht1, app_assoc. auto using Forall_app_2.
Qed.
Lemma att_quiet_attempt m : quiet m -> quiet (attempt m).
Proof. intros Hm w. specialize (Hm w). unfold attempt. by destruct (m w). Qed.
Lemma quiet_on_control (g : Adapter -> Adapter * tmux A) : quiet (on_control g).
Proof. intros w. unfold on_control. destruct (g (adapter w)). split; [done | by exists []]. Qed.
Lemma quiet_drop_after k e m : quiet m -> quiet (drop_after k e m).
Proof.
  intros Hm w. specialize (Hm w). unfold drop_after, dropped_after.
  destruct (m w) as [w' r]. destruct Hm as (Hs & new & Ht & Hn). cbn. split; [done |].
  rewrite Ht, length_app. exists (drop (length new - k) new). split; [| by apply Forall_drop].
  replace (length new + length (trace w) - length (trace w) - k)%nat with (length new - k)%nat by lia.
  rewrite drop_app. replace (length new - k - length new)%nat with 0%nat by lia. done.
Qed.
End quiet.

Lemma quiet_emit e : essential e = false -> quiet (emit e).
Proof. intros H w. split; [done |]. exists [e]. auto. Qed.
Lemma quiet_get : quiet get_scope.
Proof. intros w. split; [done | by exists []]. Qed.

Create HintDb quiet.
#[export] Hint Resolve att_quiet_ret quiet_fail att_quiet_lift att_quiet_attempt quiet_on_control
  quiet_drop_after quiet_get : quiet.
#[export] Hint Extern 1 (quiet (emit _)) => (apply quiet_emit; reflexivity) : quiet.

Ltac quiet_step :=
  first
    [ solve [eauto with quiet nocore]
    | lazymatch goal with
      | |- quiet (_ ≫= _) => apply att_quiet_bind; [| intros]
      | |- quiet (attempt _) => apply att_quiet_attempt
      | |- quiet (match ?x with _ => _ end) => destruct x
      end ].
Ltac solve_quiet := repeat quiet_step.

Section session.
Context `{Hbase : Base64} `{Hcodec : AttachmentCodec} (oracle : Oracle) (machine attachment : Uuid).

Lemma quiet_ask q : quiet (ask oracle q).
Proof. intros w. split; [done | by exists []]. Qed.
#[local] Hint Resolve quiet_ask : quiet.

Lemma quiet_or_dropped {A} e (m : att A) : quiet m -> quiet (or_dropped oracle e m).
Proof. intros H. unfold or_dropped. solve_quiet. Qed.
#[local] Hint Resolve quiet_or_dropped : quiet.

Lemma att_quiet_send f : (forall fate, essential (Wrote f fate) = false) -> quiet (send oracle f).
Proof. intros H. unfold send. solve_quiet. by apply quiet_emit. Qed.
Lemma quiet_pump n : quiet (pump n).
Proof. induction n; cbn [pump]; solve_quiet. Qed.
#[local] Hint Resolve quiet_pump : quiet.
Lemma quiet_send_with_control f :
  (forall fate, essential (Wrote f fate) = false) -> quiet (send_with_control oracle f).
Proof. intros H. unfold send_with_control. solve_quiet. by apply quiet_emit. Qed.
#[local] Hint Extern 1 (quiet (send _ _)) => (apply att_quiet_send; reflexivity) : quiet.
#[local] Hint Extern 1 (quiet (send_with_control _ _)) =>
  (apply quiet_send_with_control; reflexivity) : quiet.

Lemma quiet_send_frames fs :
  Forall (fun f => forall fate, essential (Wrote f fate) = false) fs -> quiet (send_frames oracle fs).
Proof. induction 1; cbn [send_frames]; solve_quiet. by apply quiet_send_with_control. Qed.

Lemma snapshot_frames_inessential e pane parts :
  Forall (fun f => forall fate, essential (Wrote f fate) = false) (snapshot_frames e pane parts).
Proof.
  destruct parts as [|p parts]; cbn [snapshot_frames]; [by repeat constructor |].
  apply Forall_forall. intros f (i & x & -> & _)%elem_of_lookup_imap. done.
Qed.
#[local] Hint Resolve quiet_send_frames snapshot_frames_inessential : quiet.

Lemma quiet_send_snapshots e ss : quiet (send_snapshots oracle e ss).
Proof. induction ss; cbn [send_snapshots]; solve_quiet. Qed.
#[local] Hint Resolve quiet_send_snapshots : quiet.

Lemma quiet_install_projection sel : quiet (install_projection oracle sel).
Proof. apply quiet_or_dropped. unfold install_projection_inner. solve_quiet. Qed.

Lemma quiet_open_relay_stream : quiet (open_relay_stream oracle).
Proof.
  unfold open_relay_stream. generalize 50%nat as n. intros n; induction n; cbn [open_relay_stream_from];
    solve_quiet.
Qed.
Lemma quiet_send_fatal_error code message : quiet (send_fatal_error oracle code message).
Proof. unfold send_fatal_error, send_workspace_error. solve_quiet. Qed.
Lemma quiet_audit op o : quiet (audit_operation op o).
Proof. unfold audit_operation, audit_event. solve_quiet. Qed.
Lemma quiet_audit_event a o : quiet (audit_event a o).
Proof. unfold audit_event. solve_quiet. Qed.

(** ** What the primitives ensure *)

Lemma ens_ask q Q s h : (forall a, Q s h (Ok a)) -> ensures (ask oracle q) Q s h.
Proof. intros H w <- <-. apply H. Qed.

Ltac ens := repeat lazymatch goal with |- ensures (_ ≫= _) _ _ _ => apply ens_bind end; cbv beta iota.

Ltac ask_any :=
  lazymatch goal with |- ensures (ask _ ?q) _ _ _ => refine (ens_ask q _ _ _ _) end.

Lemma ens_dispatch Q s h :
  (forall s', dispatch_held s' = true -> Q s' h (Ok tt)) -> ensures (dispatch_scope oracle) Q s h.
Proof. intros H. unfold dispatch_scope. ens. ask_any. intros ops. apply ens_modify. by apply H. Qed.

Lemma ens_lock Q s h :
  (forall s', dispatch_held s' = dispatch_held s -> Q s' h (Ok tt)) -> ensures (lock_scope oracle) Q s h.
Proof. intros H. unfold lock_scope. ens. ask_any. intros ops. apply ens_modify. by apply H. Qed.

Lemma ens_try_dispatch Q s h :
  (forall s', dispatch_held s' = true -> Q s' h (Ok true)) -> (forall s', Q s' h (Ok false)) ->
  ensures (try_dispatch_scope oracle) Q s h.
Proof.
  intros H1 H2. unfold try_dispatch_scope. ens. ask_any. intros ops. ens. apply ens_modify.
  ens. apply ens_get. unfold try_dispatch.
  destruct (dispatch_held _); [by apply ens_ret |]. ens. apply ens_modify. apply ens_ret. by apply H1.
Qed.

Lemma ens_route Q s h :
  (forall ok, Q s (CheckedRoute ok :: h) (Ok ok)) -> ensures (current_route oracle machine) Q s h.
Proof.
  intros H. unfold current_route. ens. ask_any. intros [[? ?] ?]. ens. apply ens_get.
  ens. apply ens_emit. apply ens_ret. apply H.
Qed.

Lemma ens_require Q s h :
  Q s (CheckedRoute true :: h) (Ok tt) -> Q s (CheckedRoute false :: h) (Err RouteChanged) ->
  ensures (require_route oracle machine) Q s h.
Proof.
  intros H1 H2. unfold require_route. ens. apply ens_route. intros [|]; [by apply ens_ret | by apply ens_fail].
Qed.

Lemma ens_require_or g Q s h :
  Q s (CheckedRoute true :: h) (Ok tt) ->
  ensures (g ;; fail RouteChanged) Q s (CheckedRoute false :: h) ->
  ensures (require_route_or oracle machine g) Q s h.
Proof. intros H1 H2. unfold require_route_or. ens. apply ens_route. intros [|]; [by apply ens_ret | done]. Qed.

Lemma ens_mutate m Q s h :
  (forall e, Q s h (Err e)) ->
  (forall o, Q s (Mutated m o (dispatch_held s) (current s) :: h) (Ok o)) -> ensures (mutate m) Q s h.
Proof.
  intros H1 H2. unfold mutate. ens. apply ens_on_control. intros r. ens. apply ens_lift.
  destruct r as [o|e]; cbn [map_err]; [| apply H1]. ens. apply ens_get. ens. apply ens_emit. apply ens_ret, H2.
Qed.

Lemma ens_create name Q s h :
  (forall e, Q s h (Err e)) ->
  (forall o, Q s (Mutated (NewSession name) o (dispatch_held s) (current s) :: h) (Ok o)) ->
  ensures (create_tmux_session oracle name) Q s h.
Proof.
  intros H1 H2. unfold create_tmux_session. ens. ask_any. intros r. ens. apply ens_lift.
  destruct r as [o|e]; cbn [map_err]; [| apply H1]. ens. apply ens_get. ens. apply ens_emit. apply ens_ret, H2.
Qed.

Lemma ens_demote c Q s h :
  (forall o, Q s (Demoted c o :: h) (Ok o)) -> ensures (demote_writer oracle c) Q s h.
Proof.
  intros H. unfold demote_writer. ens. ask_any. intros [? ?]. ens. apply ens_emit. apply ens_ret. apply H.
Qed.

Lemma ens_reply rid op outcome code message Q s h :
  (forall e, Q s h (Err e)) ->
  (forall fate r, write_result fate = r ->
     Q s (Wrote (OperationResult rid op outcome code message) fate :: h) r) ->
  ensures (send_operation_result oracle rid op outcome code message) Q s h.
Proof.
  intros H1 H2. unfold send_operation_result. ens. apply ens_quiet; [apply quiet_audit |].
  intros [u|e]; [| apply H1]. unfold send. ens. apply ens_lift.
  destruct (encode _); [| apply H1]. ens. ask_any. intros fate. ens. apply ens_emit.
  apply ens_lift. by apply H2.
Qed.

Lemma ens_close_old c Q s h :
  Q s (match c with Some c => ClosedControl c :: h | None => h end) (Ok tt) ->
  ensures (close_old c) Q s h.
Proof. destruct c; intros H; [by apply ens_emit | by apply ens_ret]. Qed.

Lemma quiet_send_workspace_error code message : quiet (send_workspace_error oracle code message).
Proof. unfold send_workspace_error. solve_quiet. Qed.

(** ** One frame *)

Definition replied (f : ClientFrame) (t : list Event) : Prop :=
  match request_of f with
  | None => True
  | Some (rid, op) =>
      exists outcome code message fate,
        List.filter is_reply (since_request t) = [Wrote (OperationResult rid op outcome code message) fate]
        /\ write_result fate = Ok tt
  end.

(** After the frame [f]: the discipline holds, [f] has been answered if the
    handler came to its end, and the attachment that left something uncertain
    is not the writer. *)
Record settled (f : ClientFrame) (answered : bool) (s : WriterScope) (t : list Event) : Prop := {
  settled_disciplined : disciplined attachment t;
  settled_request : last_request t = Some f;
  settled_reply : answered = true -> replied f t;
  settled_uncertain : existsb uncertain (since_request t) = true -> is_current s attachment = false;
}.

Definition continues {A} (r : result AttachmentError (FrameExit * A)) : bool :=
  match r with Ok (FrameContinue, _) => true | _ => false end.

Definition frame_post {A} (f : ClientFrame) (s : WriterScope) (t : list Event)
    (r : result AttachmentError (FrameExit * A)) : Prop :=
  settled f (continues r) s t
  /\ (existsb uncertain (since_request t) = true -> continues r = false).

(** Before a handler runs: its frame is the newest event. *)
Record received (f : ClientFrame) (t : list Event) : Prop := {
  received_disciplined : disciplined attachment t;
  received_request : last_request t = Some f;
  received_fresh : since_request t = [];
}.

Lemma is_current_attachment s :
  is_current s attachment = true -> attachment_id <$> current s = Some attachment.
Proof. unfold is_current. destruct (current s); cbn; [by intros ->%Z.eqb_eq | done]. Qed.
Lemma is_current_set s sz c : is_current (set_current s attachment sz c) attachment = true.
Proof. unfold is_current. cbn. by rewrite Z.eqb_refl. Qed.
Lemma is_current_clear s : is_current (clear s) attachment = false.
Proof. unfold clear. by destruct s as [? ? [] ?]. Qed.
Lemma is_current_clear_if s : is_current (fst (clear_if_current s attachment)) attachment = false.
Proof. unfold clear_if_current. by destruct (is_current s attachment) eqn:E. Qed.
Lemma is_current_update s sz :
  is_current (fst (update_size s attachment sz)) attachment = is_current s attachment.
Proof. unfold is_current, update_size. destruct s as [? ? [[i z c0]|] ?]; cbn; [| done]. by destruct (i =? attachment) eqn:E; cbn; rewrite ?E. Qed.
Lemma is_current_set_control s c :
  is_current (fst (set_control s attachment c)) attachment = is_current s attachment.
Proof. unfold is_current, set_control. destruct s as [? ? [[i z c0]|] ?]; cbn; [| done]. by destruct (i =? attachment) eqn:E; cbn; rewrite ?E. Qed.
Lemma held_update s sz : dispatch_held (fst (update_size s attachment sz)) = dispatch_held s.
Proof. unfold update_size. by repeat case_match. Qed.
Lemma held_set_control s c : dispatch_held (fst (set_control s attachment c)) = dispatch_held s.
Proof. unfold set_control. by repeat case_match. Qed.
End session.

Ltac ens_step :=
  lazymatch goal with
  | |- ensures (_ ≫= _) _ _ _ => apply ens_bind
  | |- ensures (mret _) _ _ _ => apply ens_ret
  | |- ensures (fail _) _ _ _ => apply ens_fail
  | |- ensures (lift _) _ _ _ => apply ens_lift
  | |- ensures get_scope _ _ _ => apply ens_get
  | |- ensures (modify _) _ _ _ => apply ens_modify
  | |- ensures (holding_dispatch _) _ _ _ => apply ens_holding
  | |- ensures (dispatch_scope _) _ _ _ => apply ens_dispatch; intros
  | |- ensures (lock_scope _) _ _ _ => apply ens_lock; intros
  | |- ensures (try_dispatch_scope _) _ _ _ => apply ens_try_dispatch; intros
  | |- ensures (require_route _ _) _ _ _ => apply ens_require
  | |- ensures (require_route_or _ _ _) _ _ _ => apply ens_require_or
  | |- ensures (current_route _ _) _ _ _ => apply ens_route; intros [|]
  | |- ensures (mutate _) _ _ _ => apply ens_mutate; [intros | intros [| |]]
  | |- ensures (create_tmux_session _ _) _ _ _ => apply ens_create; [intros | intros [| |]]
  | |- ensures (demote_writer _ _) _ _ _ => apply ens_demote; intros [| |]
  | |- ensures (send_operation_result _ _ _ _ _ _) _ _ _ =>
      apply ens_reply; [intros | intros ? [[]|?] ?]
  | |- ensures (send_workspace_error _ _ _) _ _ _ =>
      apply ens_quiet; [apply quiet_send_workspace_error | intros [[]|?]]
  | |- ensures (install_projection _ _) _ _ _ =>
      apply ens_quiet; [apply quiet_install_projection | intros [[?|]|?]]
  | |- ensures (close_old _) _ _ _ => apply ens_close_old
  | |- ensures (close_control _) _ _ _ => apply ens_emit
  | |- ensures (if ?b then _ else _) _ _ _ => let E := fresh "Hb" in destruct b eqn:E; try discriminate E
  | |- ensures (match ?x with _ => _ end) _ _ _ => let E := fresh "Hm" in destruct x eqn:E; try discriminate E
  | |- match ?r with Ok _ => _ | Err _ => _ end => let E := fresh "Hr" in destruct r eqn:E
  end; cbv beta iota.
Ltac ens_run := repeat ens_step.

Lemma no_replies t : existsb is_reply t = false -> List.filter is_reply t = [].
Proof. induction t as [|e t IH]; cbn; [done |]. destruct (is_reply e); cbn; [done | auto]. Qed.

(** Discharge what is left of a run: the history is a list of known events. *)
Ltac ens_facts :=
  repeat match goal with
  | H : negb _ = true |- _ => apply negb_true_iff in H
  | H : negb _ = false |- _ => apply negb_false_iff in H
  | H : is_current _ _ = true |- _ => apply is_current_attachment in H
  | H : ok_or _ _ = Ok _ |- _ => apply ok_or_Ok in H
  | H : _ && _ = true |- _ => apply andb_true_iff in H as [? ?]
  end.
Ltac ens_goal :=
  repeat match goal with
  | |- _ /\ _ => split
  | |- _ <-> _ => split
  | |- _ -> _ => intros; try done
  | |- exists _, _ => eexists
  | |- context [is_current (drop_dispatch ?s) ?a] => change (is_current (drop_dispatch s) a) with (is_current s a)
  end.
(** Use what is known of the history before the run. *)
Ltac known_history :=
  repeat match goal with
  | H : last_request ?h = _ |- context [last_request ?h] => rewrite H
  | H : request_of ?f = Some _ |- context [request_of ?f] => rewrite H
  | H : since_request ?h = _ |- context [since_request ?h] => rewrite H
  | H : existsb ?p (since_request ?h) = _ |- context [existsb ?p (since_request ?h)] => rewrite H
  | H : List.filter ?p (since_request ?h) = _ |- context [List.filter ?p (since_request ?h)] => rewrite H
  | H : checked (since_request ?h) = _ |- context [checked (since_request ?h)] => rewrite H
  end.
Ltac settle_frame :=
  ens_facts; cbn in *; unfold mutation_ok, reply_ok, demotion_ok, replied in *; cbn in *; known_history; cbn;
  ens_goal; known_history; cbn; try done;
  eauto using is_current_clear_if, is_current_clear; try congruence.

(** ** A concrete environment, for the witnesses *)

Definition sample_codec : AttachmentCodec :=
  {| print_frame := fun _ => Some []; parse_frame := fun _ => None; parse_auth := fun _ => None |}.
Definition sample_route : RouteIdentity := {| rt_revision := 1; rt_epoch := 7; rt_connection := 21 |}.
Definition sample_registry : Registry :=
  {| tunnels := {[ 1 := 5 ]}; pending_claims := ∅; owner_exits := ∅;
     handles := {[ 5 := new_handle 1 sample_route ]}; tokens := ∅; drained := [] |}.

(** Every write succeeds, the route stays current, nobody interferes. *)
Definition sample_oracle : Oracle := fun _ q =>
  match q with
  | AskText => Err WireClosed
  | AskWrite => WriteAnswered true (Ok tt)
  | AskPumps => O
  | AskRelays => (true, true, sample_registry)
  | AskOthers => []
  | AskDemote => (true, Some ControlSucceeded)
  | AskClosed | AskDeadline => false
  | AskPermit => true
  | AskCut => None
  | AskFresh => 9
  | AskStream => Some sample_route
  | AskProbe => Err SshUnavailable
  | AskChild => Err SshUnavailable
  | AskCreate => Ok Ssh.Succeeded
  end.

Definition sample_scope (writer : option WriterHandle) : WriterScope :=
  {| route := sample_route; dispatch_held := false; current := writer; revision := 0 |}.
Definition sample_handle (a : Uuid) (c : option ControlSender) : WriterHandle :=
  {| attachment_id := a; size := {| columns := 80; rows := 24 |}; control := c |}.
Definition sample_control (lines : list bytes) : Adapter :=
  {| child := {| wire := map Line lines; writes := []; identity_path := None; sent := [] |};
     queue := empty_queue |}.
Definition sample_workspace : WorkspaceState :=
  {| epoch := 3; ws_connection_epoch := 7; windows := ∅; visible_panes := {[ lit "%1" ]};
     active_pane := lit "%1" |}.
Definition sample_selection : Selection :=
  {| sel_session := lit "$1"; sel_created := 100; sel_route := sample_route |}.
(** The frame [f] has just been received. *)
Definition sample_world (s : WriterScope) (lines : list bytes) (f : ClientFrame) : World :=
  {| clock := 0; shared := s; adapter := sample_control lines; trace := [Got f] |}.
Definition newline (s : string) : bytes := lit s ++ ["010"%byte].
Definition sample_input : ClientFrame := PaneInput 40 (lit "7") 3 (lit "%1") (lit "x").
