(* ===== verification/InternalTheorems.v ===== *)
(** * InternalTheorems: the owner connection as an abstract protocol

    The conversation of an accepted connection refines a small state machine
    ([Phase], [phase_step]) in which a route is served only after its context
    was authorized and a transition that has begun is settled exactly once,
    also when the task is aborted.  Both ends of the authentication agree on
    the context, and the handshake completes when nothing fails. *)

From S2P Require Import Prelude Text Contracts Binary Secrets Cluster Config Wire Session Lease Tables Authority Registry AttachmentFrames Base64Url Internal.
Import Authority.OwnerRs.

Section internal_theorems.
Context `{Hbase : Base64} `{Hhmac : Hmac} `{Hurl : UrlParser} `{Hcodec : InternalCodec}.

(** ** The abstract connection *)

(** What the authorization of [c] and [route] by the answer [a] rests on. *)
Record authorized (nd : Node) (env : AcceptEnv) (a : Authenticate) (c : OwnerAuthContext)
    (route : RouteIdentity) : Prop := {
  az_lease : ac_lease env = true /\ ac_lease0 env = true /\ ac_lease1 env = true;
  az_context : exists key response, nd_key nd = Some key
    /\ destination_context nd (ac_challenge env) a = Ok (c, response)
    /\ owner_response key c = Some response;
  az_destination : au_type a = lit "owner.authenticate"
    /\ destination_incarnation_id c = nd_incarnation nd /\ challenge c = ac_challenge env;
  az_current : exists t, ac_rows env = Some t /\ context_current nd c (ac_now env) t = true;
  az_route : rt_revision route = Cluster.route_revision c
    /\ rt_epoch route = Cluster.connection_epoch c
    /\ is_current_route (machine_id c) route (ac_ready env) (ac_registry env) = true;
  az_time : exists t0 t1, ac_clock0 env = Some t0 /\ ac_clock1 env = Some t1
    /\ t0 <= t1 < t0 + AUTH_TIMEOUT;
  az_permit : ac_permit env = true;
}.

Inductive Phase : Type :=
| PStart | PChallenged | PAnswered (a : Authenticate)
| PAuthorized (c : OwnerAuthContext) (route : RouteIdentity)
| PReleased (c : OwnerAuthContext) (route : RouteIdentity)
| PAccepted (c : OwnerAuthContext) (route : RouteIdentity)
| PServing
| PPrepared (c : OwnerAuthContext) (route : RouteIdentity)
| PBegun | PReady | PAsked (message_type : bytes) (committed : bool)
| PFinished (committed : bool) | PReported | PClosed.

(** A transition has begun and is not settled. *)
Definition armed_phase (p : Phase) : bool :=
  match p with PBegun | PReady | PAsked _ _ => true | _ => false end.

Inductive phase_step (nd : Node) (env : AcceptEnv) : Phase -> Event -> Phase -> Prop :=
| ps_challenge :
    phase_step nd env PStart (Sent (FChallenge (challenge_frame nd (ac_challenge env)))) PChallenged
| ps_answer a : phase_step nd env PChallenged (Got (FAuthenticate a)) (PAnswered a)
| ps_authorize a c route :
    authorized nd env a c route ->
    phase_step nd env (PAnswered a) (Authorized c route) (PAuthorized c route)
| ps_release c route : phase_step nd env (PAuthorized c route) PreauthDropped (PReleased c route)
| ps_accept c route :
    phase_step nd env (PReleased c route) (Sent (FTyped (lit "owner.accepted"))) (PAccepted c route)
| ps_serve c route :
    connection_class c = Attachment ->
    phase_step nd env (PAccepted c route) (AttachmentServed (machine_id c) route) PServing
| ps_prepare c route :
    connection_class c = Control ->
    phase_step nd env (PAccepted c route) (Got (FTyped (lit "machine.invalidation.prepare")))
      (PPrepared c route)
| ps_other c route t :
    connection_class c = Control -> t <> lit "machine.invalidation.prepare" ->
    phase_step nd env (PAccepted c route) (Got (FTyped t)) PClosed
| ps_begin c route :
    phase_step nd env (PPrepared c route) (TransitionBegun (machine_id c) route) PBegun
| ps_ready :
    phase_step nd env PBegun (Sent (FTyped (lit "machine.invalidation.ready"))) PReady
| ps_asked t b : phase_step nd env PReady (Got (FFinish t b)) (PAsked t b)
| ps_finished b :
    phase_step nd env (PAsked (lit "machine.invalidation.finish") b) (TransitionFinished b)
      (PFinished b)
| ps_reported b :
    phase_step nd env (PFinished b)
      (Sent (FResult (lit "machine.invalidation.result") (outcome_label b))) PReported
| ps_fence p : armed_phase p = true -> phase_step nd env p HardFenced PClosed.

Inductive follows (nd : Node) (env : AcceptEnv) : Phase -> list Event -> Phase -> Prop :=
| fo_nil p : follows nd env p [] p
| fo_cons p ev q l p' :
    phase_step nd env p ev q -> follows nd env q l p' -> follows nd env p (ev :: l) p'.

Section with_env.
Variables (nd : Node) (env : AcceptEnv).

Lemma follows_app p l1 q l2 p' :
  follows nd env p l1 q -> follows nd env q l2 p' -> follows nd env p (l1 ++ l2) p'.
Proof. induction 1; cbn; [done |]. intros. econstructor; eauto. Qed.

Lemma follows_one p ev q : phase_step nd env p ev q -> follows nd env p [ev] q.
Proof. intros. econstructor; [done | constructor]. Qed.

Lemma follows_take p l p' n : follows nd env p l p' -> exists q, follows nd env p (take n l) q.
Proof.
  intros H. revert n; induction H as [|p ev q l p' Hs _ IH]; intros [|n]; cbn;
    try by eexists; constructor.
  destruct (IH n) as [q' Hq]. exists q'. by econstructor.
Qed.

Lemma phase_step_armed p ev q :
  phase_step nd env p ev q -> armed_after (armed_phase p) ev = armed_phase q.
Proof. by destruct 1. Qed.

Lemma follows_armed p l p' :
  follows nd env p l p' -> fold_left armed_after l (armed_phase p) = armed_phase p'.
Proof.
  induction 1 as [|p ev q l p' Hs _ IH]; cbn; [done |].
  by rewrite (phase_step_armed _ _ _ Hs).
Qed.

(** ** Sessions that follow the protocol *)

(** From phase [p], [m] follows the protocol and ends as [Q] says. *)
Definition drives {A} (p : Phase) (m : session Event OwnerError A)
    (Q : result OwnerError A -> Phase -> Prop) : Prop :=
  forall l r, may m l r -> exists q, follows nd env p l q /\ Q r q.

Lemma drives_ret {A} p (a : A) (Q : _ -> _ -> Prop) : Q (Ok a) p -> drives p (mret a) Q.
Proof. intros HQ l r [-> ->]%may_ret. exists p. by split; [constructor |]. Qed.
Lemma drives_lift {A} p (x : result OwnerError A) (Q : _ -> _ -> Prop) :
  Q x p -> drives p (lift x) Q.
Proof. intros HQ l r [-> ->]%may_lift. exists p. by split; [constructor |]. Qed.
Lemma drives_log p ev q (Q : _ -> _ -> Prop) :
  phase_step nd env p ev q -> Q (Ok tt) q -> drives p (log ev) Q.
Proof. intros Hs HQ l r [-> ->]%may_log. exists q. by split; [apply follows_one |]. Qed.

Lemma drives_bind {A B} p (m : session Event OwnerError A) (f : A -> session Event OwnerError B)
    (R : result OwnerError A -> Phase -> Prop) Q :
  drives p m R -> (forall e q, R (Err e) q -> Q (Err e) q) ->
  (forall a q, R (Ok a) q -> drives q (f a) Q) -> drives p (m ≫= f) Q.
Proof.
  intros Hm He Hf l r [(e & H & ->) | (a & l1 & l2 & H1 & H2 & ->)]%may_bind.
  - destruct (Hm _ _ H) as (q & Hq & HR). eauto.
  - destruct (Hm _ _ H1) as (q & Hq & HR). destruct (Hf a q HR _ _ H2) as (q' & Hq' & HQ).
    exists q'. by split; [eapply follows_app |].
Qed.

(** A pure step: the same phase, with what its success says. *)
Lemma drives_lift_bind {A B} p (x : result OwnerError A) (f : A -> session Event OwnerError B)
    (Q : result OwnerError B -> Phase -> Prop) :
  (forall e, x = Err e -> Q (Err e) p) -> (forall a, x = Ok a -> drives p (f a) Q) ->
  drives p (lift x ≫= f) Q.
Proof.
  intros He Hf. eapply (drives_bind _ _ _ (fun r q => q = p /\ r = x)).
  - by apply drives_lift.
  - intros e q [-> <-]. by apply He.
  - intros a q [-> <-]. by apply Hf.
Qed.

Lemma drives_log_bind {B} p ev q (f : unit -> session Event OwnerError B) Q :
  phase_step nd env p ev q -> drives q (f tt) Q -> drives p (log ev ≫= f) Q.
Proof.
  intros Hs Hf. eapply (drives_bind _ _ _ (fun r q' => q' = q /\ r = Ok tt)).
  - by eapply drives_log.
  - by intros e q' [_ [=]].
  - intros [] q' [-> _]. exact Hf.
Qed.

Lemma drives_attempt {A} p (m : session Event OwnerError A) (Q : _ -> _ -> Prop) :
  drives p m (fun r => Q (Ok r)) -> drives p (attempt m) Q.
Proof. intros Hm l r (r' & -> & H)%may_attempt. by apply Hm. Qed.

Lemma drives_attempt_bind {A B} p (m : session Event OwnerError A)
    (f : result OwnerError A -> session Event OwnerError B)
    (R : result OwnerError A -> Phase -> Prop) Q :
  drives p m R -> (forall r q, R r q -> drives q (f r) Q) -> drives p (attempt m ≫= f) Q.
Proof.
  intros Hm Hf l r (r1 & l1 & l2 & H1 & H2 & ->)%may_attempt_bind.
  destruct (Hm _ _ H1) as (q & Hq & HR). destruct (Hf _ _ HR _ _ H2) as (q' & Hq' & HQ).
  exists q'. by split; [eapply follows_app |].
Qed.

Lemma drives_weaken {A} p (m : session Event OwnerError A) (R Q : _ -> _ -> Prop) :
  (forall r q, R r q -> Q r q) -> drives p m R -> drives p m Q.
Proof. intros HRQ Hm l r H. destruct (Hm _ _ H) as (q & Hq & HR). eauto. Qed.

(** A frame either leaves ([q]) or not ([p]); success means that it left. *)
Definition sent_or_not (p q : Phase) (r : result OwnerError unit) (p' : Phase) : Prop :=
  r = Ok tt /\ p' = q \/ (exists e, r = Err e) /\ (p' = p \/ p' = q).

Lemma drives_send p f q :
  phase_step nd env p (Sent f) q -> drives p (send_json f) (sent_or_not p q).
Proof.
  intros Hs. unfold send_json, sent_or_not.
  apply drives_lift_bind; [intros e _; right; eauto |]. intros text _.
  apply drives_lift_bind; [intros e _; right; eauto |]. intros _ _.
  eapply (drives_bind _ _ _ (fun r p' => p' = p /\ exists x, r = Ok x)).
  - intros l r [-> [x ->]]%may_fate. exists p. by split; [constructor | eauto].
  - by intros e p' [_ [x [=]]].
  - intros x p' [-> _]. destruct x.
    + eapply drives_log; [exact Hs | by left].
    + apply drives_lift. right. eauto.
    + eapply drives_log_bind; [exact Hs |]. apply drives_lift. right. eauto.
Qed.

Lemma drives_receive {A} p decode frame (q : A -> Phase) :
  (forall a, phase_step nd env p (Got (frame a)) (q a)) ->
  drives p (receive_json decode frame)
    (fun r p' => (exists a, r = Ok a /\ p' = q a) \/ (exists e, r = Err e) /\ p' = p).
Proof.
  intros Hs. unfold receive_json.
  eapply (drives_bind _ _ _ (fun r p' => p' = p /\ exists x, r = Ok x)).
  - intros l r [-> [x ->]]%may_wait. exists p. by split; [constructor | eauto].
  - by intros e p' [_ [x [=]]].
  - intros i p' [-> _]. destruct i as [[[text|]| |]|]; try (apply drives_lift; eauto).
    apply drives_lift_bind; [eauto |]. intros _ _.
    apply drives_lift_bind; [eauto |]. intros a _.
    eapply drives_log_bind; [apply Hs |]. apply drives_ret. eauto.
Qed.

(** The end of a conversation: nothing is armed, and success means that the
    connection was served or the settlement reported. *)
Definition settled (r : result OwnerError unit) (p : Phase) : Prop :=
  armed_phase p = false /\ (r = Ok tt -> p = PServing \/ p = PReported).

Lemma settled_err e p : armed_phase p = false -> settled (Err e) p.
Proof. by split. Qed.

Lemma drives_fence_bind p (e : OwnerError) :
  armed_phase p = true -> drives p (log HardFenced ;; lift (Err e)) settled.
Proof.
  intros Hp. eapply drives_log_bind; [by apply ps_fence |]. apply drives_lift. by apply settled_err.
Qed.

Lemma drives_finish_local committed :
  drives (PAsked (lit "machine.invalidation.finish") committed)
    (finish_transition_local env committed)
    (fun r p => r = Ok tt /\ p = PFinished committed \/ (exists e, r = Err e) /\ p = PClosed).
Proof.
  unfold finish_transition_local. destruct (_ && _).
  - eapply drives_log_bind; [by apply ps_fence |]. apply drives_lift. eauto.
  - eapply drives_log; [apply ps_finished |]. eauto.
Qed.

Lemma drives_invalidation c route :
  connection_class c = Control ->
  drives (PAccepted c route) (handle_invalidation env (machine_id c) route) settled.
Proof.
  intros Hc. unfold handle_invalidation, expect_typed, receive_typed.
  set (next t := if decide (t = lit "machine.invalidation.prepare") then PPrepared c route
                 else PClosed).
  eapply (drives_bind _ _ _ (fun r p => r = Ok tt /\ p = PPrepared c route
                                    \/ (exists e, r = Err e) /\ armed_phase p = false)).
  { eapply (drives_bind _ _ _ _ _ (drives_receive _ _ _ next _)).
    Unshelve.
    3: { intros t. unfold next. case_decide as Ht; [subst t; by apply ps_prepare | by apply ps_other]. }
    - intros e q [(a & [=] & _) | [_ ->]]. right. eauto.
    - intros t q [(a & [= <-] & ->) | [[e [=]] _]]. apply drives_lift. unfold next, fail_if.
      case_bool_decide as Ht; cbn.
      + subst t. rewrite decide_True by done. by left.
      + rewrite decide_False by done. right. eauto. }
  { intros e q [[[=] _] | [_ Hq]]. by apply settled_err. }
  intros [] q [[_ ->] | [[e [=]] _]]. destruct (ac_begin env).
  - apply drives_lift. by apply settled_err.
  - eapply drives_log_bind; [apply ps_begin |]. by apply drives_fence_bind.
  - eapply drives_log_bind; [apply ps_begin |].
    eapply drives_attempt_bind; [apply drives_send, ps_ready |].
    intros sent q Hsent.
    assert (armed_phase q = true) as Hq by by destruct Hsent as [[-> ->] | [_ [-> | ->]]].
    destruct Hsent as [[-> ->] | [[e ->] _]]; cbn [is_ok negb]; [| by apply drives_fence_bind].
    eapply drives_attempt_bind;
      [apply (drives_receive _ _ _ (fun p => PAsked p.1 p.2)); intros ?; apply ps_asked |].
    intros received q [([t b] & -> & ->) | [[e ->] ->]]; [| by apply drives_fence_bind].
    case_bool_decide as Ht; cbn [negb]; [subst t | by apply drives_fence_bind].
    eapply drives_bind; [apply drives_finish_local | |].
    + intros e q [[[=] _] | [_ ->]]. by apply settled_err.
    + intros [] q [[_ ->] | [[e [=]] _]].
      eapply drives_weaken; [| apply drives_send, ps_reported].
      intros r q [[-> ->] | [[e ->] [-> | ->]]]; split; cbn; auto; done.
Qed.

Lemma drives_serve c route :
  drives (PAuthorized c route) (serve_connection env c route) settled.
Proof.
  unfold serve_connection. eapply drives_log_bind; [apply ps_release |].
  eapply drives_bind; [apply drives_send, ps_accept | |].
  - intros e q [[[=] _] | [_ [-> | ->]]]; by apply settled_err.
  - intros [] q [[_ ->] | [[e [=]] _]]. destruct (connection_class c) eqn:Hc.
    + eapply drives_log; [by apply ps_serve |]. split; auto.
    + by apply drives_invalidation.
Qed.

Lemma clock_pair r0 r1 last t0 t1 :
  clock_now None r0 = (last, Ok t0) -> snd (clock_now last r1) = Ok t1 ->
  r0 = Some t0 /\ r1 = Some t1 /\ t0 <= t1.
Proof.
  destruct r0 as [x|], r1 as [y|]; cbn; intros H1 H2; simplify_eq/=.
  destruct (Z.ltb_spec y t0); simplify_eq/=. done.
Qed.

Lemma verify_true key c response :
  verify_owner_response key c response = Some true -> owner_response key c = Some response.
Proof.
  unfold verify_owner_response, owner_response. destruct (transcript c) as [t|]; cbn; [| done].
  intros [= H]. split_bools. by subst.
Qed.

(** The context is made of the node's own deployment, epoch and challenge, and
    of what the peer claims. *)
Lemma destination_context_Ok nonce a c response :
  destination_context nd nonce a = Ok (c, response) ->
  challenge c = nonce /\ deployment_id c = sv_deployment (nd_server nd)
  /\ Cluster.config_epoch c = Lease.config_epoch (sv_identity (nd_server nd))
  /\ source_incarnation_id c = au_source a /\ destination_incarnation_id c = au_destination a
  /\ machine_id c = au_machine a /\ trace_id c = au_trace a.
Proof. intros H. unfold destination_context in H. inv_ok. by simplify_eq/=. Qed.

Lemma drives_authorize :
  drives PStart (authorize_connection nd env)
    (fun r p => (exists c route, r = Ok (c, route) /\ p = PAuthorized c route)
                \/ (exists e, r = Err e) /\ armed_phase p = false).
Proof.
  unfold authorize_connection.
  apply drives_lift_bind; [eauto |]. intros [] Hl.
  apply drives_lift_bind; [eauto |]. intros [up_path up_query] _.
  apply drives_lift_bind; [eauto |]. intros [] _.
  destruct (clock_now None (ac_clock0 env)) as [last reading] eqn:Hc0.
  apply drives_lift_bind; [eauto |]. intros t0 [= ->]%map_err_Ok.
  eapply drives_bind; [apply drives_send, ps_challenge | |].
  { intros e q [[[=] _] | [_ [-> | ->]]]; right; eauto. }
  intros [] q [[_ ->] | [[e [=]] _]].
  eapply drives_bind; [apply (drives_receive _ _ _ PAnswered); intros; apply ps_answer | |].
  { intros e q [(? & [=] & _) | [_ ->]]. right. eauto. }
  intros a q [(? & [= <-] & ->) | [[e [=]] _]].
  apply drives_lift_bind; [eauto |]. intros [c response] Hctx.
  apply drives_lift_bind; [eauto |]. intros key Hkey%ok_or_Ok.
  apply drives_lift_bind; [eauto |]. intros [] Hauth%fail_if_Ok.
  apply drives_lift_bind; [eauto |]. intros [] Hval.
  apply drives_lift_bind; [eauto |]. intros t1 Hc1%map_err_Ok.
  apply drives_lift_bind; [eauto |]. intros [] Htime%fail_if_Ok.
  apply drives_lift_bind; [eauto |]. intros route Hroute.
  apply drives_lift_bind; [eauto |]. intros [] Hpermit%fail_if_Ok.
  eapply drives_log_bind; [| apply drives_ret; eauto].
  apply ps_authorize.
  destruct (clock_pair _ _ _ _ _ Hc0 Hc1) as (E0 & E1 & Hle).
  apply negb_false_iff in Hauth, Htime, Hpermit. unfold within_auth_timeout in Htime.
  unfold authenticates in Hauth. split_bools.
  unfold validate_context in Hval. unfold resolve_current_route in Hroute.
  unfold guard_lease in *. inv_ok. split_bools.
  destruct (destination_context_Ok _ _ _ _ Hctx) as (? & _ & _ & _ & Hdest & _).
  split; cbn -[owner_response]; try done.
  - exists key, response. split_and!; [done | done |]. by apply verify_true.
  - split_and!; [done | congruence | done].
  - eexists. split; [eassumption | done].
  - exists t0, t1. split_and!; [done | done | lia | lia].
Qed.

Lemma drives_accept : drives PStart (accept_owner_connection nd env) settled.
Proof.
  unfold accept_owner_connection. eapply drives_bind; [apply drives_authorize | |].
  - intros e q [(? & ? & [=] & _) | [_ Hq]]. by apply settled_err.
  - intros [c route] q [(? & ? & [= <- <-] & ->) | [[e [=]] _]]. apply drives_serve.
Qed.

(** Aborting a task that follows the protocol leaves a log that follows it. *)
Lemma drives_aborted cut (m : session Event OwnerError unit) :
  drives PStart m settled -> drives PStart (aborted cut m) settled.
Proof.
  intros Hm l r (s & s' & H). unfold aborted in H. destruct (m s) as [[s1 l1] r1] eqn:E.
  destruct (Hm l1 r1 (may_run _ _ _ _ _ E)) as (q & Hq & HQ).
  destruct (cut <? length l1)%nat; injection H as _ <- <-; [| eauto].
  destruct (follows_take _ _ _ cut Hq) as [p Hp].
  pose proof (follows_armed _ _ _ Hp) as Ha. cbn in Ha. unfold armed. rewrite Ha.
  destruct (armed_phase p) eqn:Ep.
  - exists PClosed. split; [| by apply settled_err].
    eapply follows_app; [exact Hp |]. apply follows_one. by apply ps_fence.
  - exists p. rewrite app_nil_r. split; [done |]. by apply settled_err.
Qed.
End with_env.

(** C14. An accepted owner connection refines the abstract protocol: whatever
    the peer sends, whichever write fails and wherever the task is aborted,
    its log is a run of [phase_step] that ends with no transition in the air
    (one that has begun was either finished as the peer asked or has fenced
    the node), and the conversation succeeds only when an authorized
    attachment was served or the outcome of a transition was reported. *)
Theorem owner_connection_refines (nd : Node) (env : AcceptEnv) (cut : nat) (s : Script) :
  let '(_, l, r) := aborted cut (accept_owner_connection nd env) s in
  exists p, follows nd env PStart l p /\ armed_phase p = false
    /\ (r = Ok tt -> p = PServing \/ p = PReported).
Proof.
  destruct (aborted cut (accept_owner_connection nd env) s) as [[s' l] r] eqn:E.
  destruct (drives_aborted nd env cut _ (drives_accept nd env) l r (may_run _ _ _ _ _ E))
    as (p & Hp & Hs). by exists p.
Qed.

(** ** What the abstract protocol guarantees *)

(** The events that touch a machine. *)
Definition touches (ev : Event) : option (Uuid * RouteIdentity) :=
  match ev with
  | AttachmentServed m route | TransitionBegun m route => Some (m, route)
  | _ => None
  end.

(** What a phase remembers of the log that led to it. *)
Definition remembers (nd : Node) (env : AcceptEnv) (l : list Event) (p : Phase) : Prop :=
  let known c route := exists a, Got (FAuthenticate a) ∈ l /\ authorized nd env a c route in
  let ready := Sent (FTyped (lit "machine.invalidation.ready")) ∈ l in
  let begun := exists m route, TransitionBegun m route ∈ l in
  match p with
  | PAnswered a => Got (FAuthenticate a) ∈ l
  | PAuthorized c route | PReleased c route | PAccepted c route => known c route
  | PPrepared c route => known c route
      /\ Got (FTyped (lit "machine.invalidation.prepare")) ∈ l
  | PBegun => begun
  | PReady => ready
  | PAsked t b => ready /\ Got (FFinish t b) ∈ l
  | PFinished b => TransitionFinished b ∈ l
  | _ => True
  end.

(** The guarantee of one event after the log [l]. *)
Definition justified (nd : Node) (env : AcceptEnv) (l : list Event) (ev : Event) : Prop :=
  match ev with
  | AttachmentServed m route =>
      exists a c, Got (FAuthenticate a) ∈ l /\ authorized nd env a c route
        /\ machine_id c = m /\ connection_class c = Attachment
  | TransitionBegun m route =>
      exists a c, Got (FAuthenticate a) ∈ l /\ authorized nd env a c route /\ machine_id c = m
        /\ Got (FTyped (lit "machine.invalidation.prepare")) ∈ l
  | TransitionFinished b => Got (FFinish (lit "machine.invalidation.finish") b) ∈ l
        /\ Sent (FTyped (lit "machine.invalidation.ready")) ∈ l
  | Sent (FTyped t) => t = lit "machine.invalidation.ready" ->
        exists m route, TransitionBegun m route ∈ l
  | Sent (FResult _ outcome) => exists b, outcome = outcome_label b /\ TransitionFinished b ∈ l
  | _ => True
  end.


Lemma remembers_step nd env l p ev q :
  phase_step nd env p ev q -> remembers nd env l p ->
  justified nd env l ev /\ remembers nd env (l ++ [ev]) q.
Proof.
  assert (Hl : forall x, x ∈ l -> x ∈ l ++ [ev]) by (intros x Hx; apply elem_of_app; by left).
  assert (Hev : ev ∈ l ++ [ev]) by (apply elem_of_app; right; by apply list_elem_of_singleton).
  destruct 1; cbn; try naive_solver.
Qed.

Lemma follows_justified nd env p l q acc pre ev post :
  follows nd env p l q -> remembers nd env acc p -> l = pre ++ ev :: post ->
  justified nd env (acc ++ pre) ev.
Proof.
  intros H. revert acc pre; induction H as [|p x q l p' Hs _ IH]; intros acc pre Hr Hl.
  { by destruct pre. }
  destruct (remembers_step _ _ _ _ _ _ Hs Hr) as [Hj Hr'].
  destruct pre as [|y pre]; cbn in Hl; injection Hl as -> Hl.
  - by rewrite app_nil_r.
  - specialize (IH (acc ++ [y]) pre Hr' Hl). by rewrite <- app_assoc in IH.
Qed.

(** C13. Nothing touches a machine before its peer has proved itself: when an
    attachment is served or a transition begins, the log before holds an
    answer to this connection's own challenge whose response is the cluster
    key's tag of the very context it is served for, addressed to this
    incarnation, under valid leases, confirmed by the database and by the
    registry's current route, within the authentication time.  A transition
    finishes only as the peer asked after it was told that the machine is
    quiet, and an outcome is reported only for what was finished. *)
Theorem owner_connection_authorized (nd : Node) (env : AcceptEnv) (cut : nat) (s s' : Script)
    (l pre post : list Event) (ev : Event) (r : result OwnerError unit)
    (Hrun : aborted cut (accept_owner_connection nd env) s = (s', l, r))
    (Hlog : l = pre ++ ev :: post) :
  justified nd env pre ev.
Proof.
  destruct (drives_aborted nd env cut _ (drives_accept nd env) l r (may_run _ _ _ _ _ Hrun))
    as (p & Hp & _).
  by apply (follows_justified nd env PStart l p [] pre ev post).
Qed.

(** ** The handshake *)

(** The epochs on the wire are canonical decimal. *)
Lemma parse_epoch_Ok value n :
  parse_epoch value = Ok n <-> value = dec n /\ 0 < n <= i64_max.
Proof.
  unfold parse_epoch. split.
  - intros H. inv_ok. split_bools.
    match goal with H : parse_i64 _ = _ |- _ => rename H into Hp end.
    unfold dec_signed in *. rewrite (proj2 (Z.ltb_ge n 0)) in * by lia. split; [done |].
    split; [done |]. pose proof (parse_i64_range _ _ Hp). lia.
  - intros [-> Hn]. rewrite parse_i64_dec by lia. cbn.
    unfold dec_signed. rewrite (proj2 (Z.ltb_ge n 0)), (proj2 (Z.leb_gt n 0)) by lia.
    by rewrite bool_decide_true.
Qed.

Lemma parse_class_label class : parse_class (class_label class) = Ok class.
Proof. by destruct class. Qed.

Context `{Hlaws : !Base64Laws}.

(** The accepting node reads the connecting node's context back. *)
Lemma destination_reads_source nd c response :
  deployment_id c = sv_deployment (nd_server nd) ->
  Cluster.config_epoch c = Lease.config_epoch (sv_identity (nd_server nd)) ->
  0 < Cluster.route_revision c <= i64_max -> 0 < Cluster.connection_epoch c <= i64_max ->
  zlen (source_nonce c) = 32 -> zlen response = 32 ->
  destination_context nd (challenge c) (authenticate_frame c response) = Ok (c, response).
Proof.
  intros Hd He Hr Hc Hn Hs. unfold destination_context, authenticate_frame.
  cbn [au_route_revision au_connection_epoch au_connection_class au_source_nonce au_response].
  unfold dec_signed. rewrite !(proj2 (Z.ltb_ge _ 0)) by lia.
  rewrite (proj2 (parse_epoch_Ok _ _) (conj eq_refl Hr)). cbn [mbind result_bind].
  rewrite (proj2 (parse_epoch_Ok _ _) (conj eq_refl Hc)). cbn [mbind result_bind].
  rewrite parse_class_label. cbn [mbind result_bind]. unfold decode_32.
  rewrite (proj2 (decode_canonical_32_exact _ (source_nonce c)) (conj Hn eq_refl)).
  rewrite (proj2 (decode_canonical_32_exact _ response) (conj Hs eq_refl)).
  cbn. rewrite <- Hd, <- He. by destruct c.
Qed.

(** ** Runs on a script without failures *)

Lemma run_bind {A B} (m : session Event OwnerError A) (f : A -> session Event OwnerError B)
    s1 s2 s3 l1 l2 a r :
  m s1 = (s2, l1, Ok a) -> f a s2 = (s3, l2, r) -> (m ≫= f) s1 = (s3, l1 ++ l2, r).
Proof. intros H1 H2. unfold mbind, session_bind. by rewrite H1, H2. Qed.

Lemma run_lift_bind {A B} (x : result OwnerError A) (f : A -> session Event OwnerError B)
    a s1 s2 l r :
  x = Ok a -> f a s1 = (s2, l, r) -> (lift x ≫= f) s1 = (s2, l, r).
Proof. intros -> H. by apply (run_bind (lift (Ok a)) f s1 s1 s2 [] l a). Qed.

Lemma run_send f t l :
  print_frame f = Some t -> zlen t <= MAX_FRAME_BYTES ->
  send_json f {| inbox := l; fates := [] |} = ({| inbox := l; fates := [] |}, [Sent f], Ok tt).
Proof.
  intros Hp Hl. unfold send_json. eapply run_lift_bind; [by apply ok_or_Ok |].
  eapply run_lift_bind; [apply (fail_if_Ok _ _ tt); by apply Z.ltb_ge |]. reflexivity.
Qed.

Definition arrives (t : bytes) : option Incoming := Some (Received (TextMessage t)).

Lemma run_receive {A} decode frame t (a : A) l :
  decode t = Some a -> zlen t <= MAX_FRAME_BYTES ->
  receive_json decode frame {| inbox := arrives t :: l; fates := [] |}
  = ({| inbox := l; fates := [] |}, [Got (frame a)], Ok a).
Proof.
  intros Hp Hl. unfold receive_json.
  apply (run_bind wait _ _ {| inbox := l; fates := [] |} _ [] _ (arrives t)); [done |]. cbn.
  eapply run_lift_bind; [apply (fail_if_Ok _ _ tt); by apply Z.ltb_ge |].
  eapply run_lift_bind; [by apply ok_or_Ok |]. reflexivity.
Qed.

Context `{Hclaws : !InternalCodecLaws} `{Hascii : !Base64Ascii} `{Hblen : !Base64Length}
  `{Hhlen : !HmacLength}.

Lemma ascii_utf8 v : Forall (fun c => bval c < 128) v -> from_utf8 v = Some v.
Proof. apply from_utf8_ascii. Qed.

(** A string constant is ASCII by evaluation. *)
Definition is_ascii (v : bytes) : bool := forallb (fun c => bval c <? 128) v.
Lemma constant_utf8 v : is_ascii v = true -> from_utf8 v = Some v.
Proof.
  unfold is_ascii. rewrite forallb_forall. intros H. apply ascii_utf8, Forall_forall.
  intros c Hc. apply Z.ltb_lt, H. by apply list_elem_of_In.
Qed.

Lemma b64_32_length v : zlen v = 32 -> zlen (b64_encode v) <= 43.
Proof. intros Hv. pose proof (b64_length v). lia. Qed.

(** Every frame of a handshake is printed within the frame limit. *)
Lemma small_frame_prints f :
  frame_typed f -> texts_length (frame_texts f) <= 1000 ->
  exists t, print_frame f = Some t /\ zlen t <= MAX_FRAME_BYTES.
Proof.
  intros Hf Hl. destruct (print_frame_fits f Hf) as (t & Ht & Hlen).
  exists t. split; [done |]. unfold MAX_FRAME_BYTES, INTERNAL_MAX_FRAME_BYTES. lia.
Qed.

(** Both ends are nodes of one deployment and configuration. *)
Record peers (ns nd : Node) (key : bytes) : Prop := {
  pr_deployment : sv_deployment (nd_server ns) = sv_deployment (nd_server nd);
  pr_epoch : Lease.config_epoch (sv_identity (nd_server ns))
             = Lease.config_epoch (sv_identity (nd_server nd));
  pr_keys : nd_key ns = Some key /\ nd_key nd = Some key;
}.

Record dials (env : ConnectEnv) (url : bytes) : Prop := {
  dl_ok : ce_lease0 env && ce_tcp env && ce_server_name env && ce_tls env && ce_request env
          && ce_upgrade env && ce_lease1 env = true;
  dl_url : exists u, url_parse url = Some u /\ is_internal_url u = true
           /\ is_Some (port_or_known_default u);
}.

(** The accepting node finds everything in order for [c] and [route]. *)
Record admits (nd : Node) (env : AcceptEnv) (c : OwnerAuthContext) (route : RouteIdentity)
    : Prop := {
  ad_ok : ac_lease env && ac_lease0 env && ac_lease1 env && ac_permit env = true;
  ad_upgrade : ac_upgrade env = Some (INTERNAL_PATH, None);
  ad_clock : exists t0 t1, ac_clock0 env = Some t0 /\ ac_clock1 env = Some t1
             /\ t0 <= t1 < t0 + AUTH_TIMEOUT;
  ad_rows : exists t, ac_rows env = Some t /\ context_current nd c (ac_now env) t = true;
  ad_owner : exists t o, ac_owner_rows env = Some t /\ owners t !! machine_id c = Some o
             /\ claimed o = Some (nd_incarnation nd, rt_connection route)
             /\ owner_revision o = rt_revision route /\ connection_epoch o = rt_epoch route;
  ad_current : is_current_route (machine_id c) route (ac_ready env) (ac_registry env) = true;
}.

Definition script (l : list (option Incoming)) : Script := {| inbox := l; fates := [] |}.

Lemma is_uuid_list l : forallb (fun u => bool_decide (0 <= u < 2 ^ 128)) l = true -> Forall is_uuid l.
Proof.
  rewrite forallb_forall. intros H. apply Forall_forall. intros u Hu%list_elem_of_In.
  specialize (H u Hu). by apply bool_decide_eq_true in H.
Qed.

Lemma challenge_typed nd nonce :
  is_uuid (nd_incarnation nd) -> zlen nonce = 32 ->
  frame_typed (FChallenge (challenge_frame nd nonce))
  /\ texts_length (frame_texts (FChallenge (challenge_frame nd nonce))) <= 1000.
Proof.
  intros Hu Hn. pose proof (b64_32_length nonce Hn).
  split; [split | cbn -[lit]; change (zlen (lit "owner.challenge")) with 15;
                  change (zlen (lit "owner.v1")) with 8; lia].
  - repeat (apply Forall_cons; split); [by apply constant_utf8 .. | apply ascii_utf8, b64_ascii |].
    by apply Forall_nil.
  - by apply Forall_singleton.
Qed.

Lemma dec_utf8 n : 0 <= n -> from_utf8 (dec n) = Some (dec n).
Proof. intros Hn. by apply ascii_utf8, dec_ascii. Qed.

Lemma authenticate_typed c response :
  context_wf c -> 0 < Cluster.route_revision c -> 0 < Cluster.connection_epoch c ->
  zlen response = 32 ->
  frame_typed (FAuthenticate (authenticate_frame c response))
  /\ texts_length (frame_texts (FAuthenticate (authenticate_frame c response))) <= 1000.
Proof.
  intros (_ & _ & Hs & Hd & Hm & Hr & He & _ & Hn & Ht) Hr0 He0 Hl.
  unfold is_i64 in Hr, He.
  pose proof (b64_32_length _ Hn). pose proof (b64_32_length _ Hl).
  pose proof (dec_length (Cluster.route_revision c) ltac:(lia)).
  pose proof (dec_length (Cluster.connection_epoch c) ltac:(lia)).
  assert (zlen (class_label (connection_class c)) <= 10) by (by destruct (connection_class c)).
  unfold authenticate_frame, dec_signed. rewrite !(proj2 (Z.ltb_ge _ 0)) by lia.
  split; [split |].
  - repeat (apply Forall_cons; split);
      [ by apply constant_utf8 | apply dec_utf8; lia | apply dec_utf8; lia
      | destruct (connection_class c); by apply constant_utf8
      | apply ascii_utf8, b64_ascii | apply ascii_utf8, b64_ascii | by apply Forall_nil ].
  - by repeat (apply Forall_cons; split).
  - cbn -[lit dec]. change (zlen (lit "owner.authenticate")) with 18. lia.
Qed.

Lemma typed_typed v : is_ascii v = true -> frame_typed (FTyped v).
Proof. intros Hv. split; [apply Forall_singleton; by apply constant_utf8 | by apply Forall_nil]. Qed.

Lemma owner_response_length key c response :
  owner_response key c = Some response -> zlen response = 32.
Proof.
  unfold owner_response. destruct (transcript c) as [t|]; cbn; [| done].
  intros [= <-]. apply hmac_length.
Qed.

Lemma run_expect v t l :
  print_frame (FTyped v) = Some t -> zlen t <= MAX_FRAME_BYTES -> is_ascii v = true ->
  expect_typed v (script (arrives t :: l)) = (script l, [Got (FTyped v)], Ok tt).
Proof.
  intros Pt St Hv. unfold expect_typed, receive_typed.
  eapply (run_bind _ _ _ (script l) _ [Got (FTyped v)] [] v).
  - apply (run_receive parse_typed FTyped); [| done]. by apply typed_roundtrip; [apply typed_typed |].
  - by rewrite bool_decide_true.
Qed.

Lemma connect_runs ns nd key cenv machine route url class nonce response t_ch t_au t_ok :
  let c := source_context ns cenv machine route (nd_incarnation nd) class nonce in
  let ch := FChallenge (challenge_frame nd nonce) in
  let au := FAuthenticate (authenticate_frame c response) in
  let ok := FTyped (lit "owner.accepted") in
  nd_key ns = Some key -> dials cenv url -> owner_response key c = Some response ->
  zlen nonce = 32 -> frame_typed ch ->
  print_frame ch = Some t_ch -> zlen t_ch <= MAX_FRAME_BYTES ->
  print_frame au = Some t_au -> zlen t_au <= MAX_FRAME_BYTES ->
  print_frame ok = Some t_ok -> zlen t_ok <= MAX_FRAME_BYTES ->
  connect_authenticated ns cenv machine route (nd_incarnation nd) url class
    (script [arrives t_ch; arrives t_ok]) = (script [], [Got ch; Sent au; Got ok], Ok tt).
Proof.
  intros c ch au ok Hks [Hdl (u & Hu & Hiu & [port Hport])] Hresp Hcl32 Tch Pch Sch Pau Sau Pok Sok.
  split_bools.
  unfold connect_authenticated, validate_internal_url.
  eapply run_lift_bind; [by match goal with H : ce_lease0 _ = true |- _ => rewrite H end |].
  eapply run_lift_bind; [by rewrite Hu; cbn; rewrite Hiu |].
  apply is_internal_url_true in Hiu as (_ & [host Hhost] & _).
  eapply run_lift_bind; [by rewrite Hhost |]. eapply run_lift_bind; [by rewrite Hport |].
  do 5 (eapply run_lift_bind; [match goal with H : ?x = true |- context [?x] => by rewrite H end |]).
  eapply (run_bind _ _ _ _ _ [Got ch] [Sent (FAuthenticate (authenticate_frame c response)); Got ok]
           (challenge_frame nd nonce)).
  { apply (run_receive parse_challenge FChallenge); [by apply challenge_roundtrip | done]. }
  eapply run_lift_bind.
  { cbn. by rewrite Z.eqb_refl. }
  eapply run_lift_bind.
  { unfold decode_32. cbn [challenge_frame ch_nonce]. by rewrite (proj2 (decode_canonical_32_exact _ nonce) (conj Hcl32 eq_refl)). }
  eapply run_lift_bind; [by rewrite Hks |]. fold c.
  eapply run_lift_bind; [by rewrite Hresp |].
  eapply (run_bind _ _ _ _ _ [_] [Got ok] tt); [by eapply run_send |].
  eapply (run_bind _ _ _ (script []) _ [Got ok] [] tt); [by apply run_expect |].
  by match goal with H : ce_lease1 _ = true |- _ => rewrite H end.
Qed.

Lemma authorize_runs nd key env c route response t_ch t_au :
  let ch := FChallenge (challenge_frame nd (ac_challenge env)) in
  let au := FAuthenticate (authenticate_frame c response) in
  nd_key nd = Some key -> admits nd env c route -> owner_response key c = Some response ->
  destination_context nd (ac_challenge env) (authenticate_frame c response) = Ok (c, response) ->
  destination_incarnation_id c = nd_incarnation nd ->
  Cluster.route_revision c = rt_revision route -> Cluster.connection_epoch c = rt_epoch route ->
  frame_typed au ->
  print_frame ch = Some t_ch -> zlen t_ch <= MAX_FRAME_BYTES ->
  print_frame au = Some t_au -> zlen t_au <= MAX_FRAME_BYTES ->
  authorize_connection nd env (script [arrives t_au])
  = (script [], [Sent ch; Got au; Authorized c route], Ok (c, route)).
Proof.
  intros ch au Hkd [Ha Hup (t0 & t1 & Hc0 & Hc1 & Ht) (rows & Hrows & Hcur)
    (ot & o & Hot & Ho & Hcl & Hor & Hoe) Hcr] Hresp Hread Hdest Hrr Hre Tau Pch Sch Pau Sau.
  split_bools. unfold authorize_connection.
  eapply run_lift_bind; [by match goal with H : ac_lease _ = true |- _ => rewrite H end |].
  eapply run_lift_bind; [by rewrite Hup |]. eapply run_lift_bind; [by cbn |].
  rewrite Hc0. cbn [clock_now]. eapply run_lift_bind; [by cbn |].
  eapply (run_bind _ _ _ _ _ [Sent ch] [Got au; Authorized c route] tt); [by eapply run_send |].
  eapply (run_bind _ _ _ (script []) _ [Got au] [Authorized c route] (authenticate_frame c response)).
  { apply (run_receive parse_authenticate FAuthenticate); [by apply authenticate_roundtrip | done]. }
  eapply run_lift_bind; [exact Hread |]. eapply run_lift_bind; [by rewrite Hkd |].
  eapply run_lift_bind.
  { unfold authenticates. cbn [au_type au_destination authenticate_frame].
    rewrite Hdest, Z.eqb_refl. rewrite !bool_decide_true; [done | | done].
    unfold owner_response, verify_owner_response in *. destruct (transcript c); [| done].
    injection Hresp as <-. cbn. by rewrite bool_decide_true. }
  eapply run_lift_bind.
  { unfold validate_context. rewrite Hrows.
    match goal with H : ac_lease0 _ = true |- _ => rewrite H end. cbn. rewrite Hcur.
    by match goal with H : ac_lease1 _ = true |- _ => rewrite H end. }
  eapply run_lift_bind.
  { rewrite Hc1. cbn. by rewrite (proj2 (Z.ltb_ge t1 t0)) by lia. }
  eapply run_lift_bind.
  { unfold within_auth_timeout. by rewrite (proj2 (Z.leb_le t0 t1)), (proj2 (Z.ltb_lt _ _)) by lia. }
  eapply run_lift_bind.
  { unfold resolve_current_route, resolve_connection_id. rewrite Hot. cbn. rewrite Ho. cbn.
    rewrite Hcl. cbn. rewrite Hdest, Hor, Hoe, Hrr, Hre, !Z.eqb_refl. cbn.
    assert ({| rt_revision := rt_revision route; rt_epoch := rt_epoch route;
               rt_connection := rt_connection route |} = route) as -> by by destruct route.
    by rewrite Hcr. }
  eapply run_lift_bind; [by match goal with H : ac_permit _ = true |- _ => rewrite H end |].
  by eapply (run_bind _ _ _ (script []) _ [Authorized c route] [] tt).
Qed.

(** The handshake completes: between two nodes of one deployment that
    share the cluster key, with a dial that succeeds and an owner that finds
    the route current, each end answers the frames the other one sends, the
    connecting node succeeds and the accepting node authorizes exactly the
    context and the route the other one asked for. *)
Theorem handshake_completes (ns nd : Node) (key : bytes) (cenv : ConnectEnv) (env : AcceptEnv)
    (machine : Uuid) (route : RouteIdentity) (url : bytes) (class : ConnectionClass) :
  let c := source_context ns cenv machine route (nd_incarnation nd) class (ac_challenge env) in
  let ch := FChallenge (challenge_frame nd (ac_challenge env)) in
  let ok := FTyped (lit "owner.accepted") in
  peers ns nd key -> dials cenv url -> admits nd env c route -> context_wf c ->
  0 < rt_revision route -> 0 < rt_epoch route ->
  exists response t_ch t_au t_ok, owner_response key c = Some response
  /\ let au := FAuthenticate (authenticate_frame c response) in
     print_frame ch = Some t_ch /\ print_frame au = Some t_au /\ print_frame ok = Some t_ok
  /\ connect_authenticated ns cenv machine route (nd_incarnation nd) url class
       (script [arrives t_ch; arrives t_ok]) = (script [], [Got ch; Sent au; Got ok], Ok tt)
  /\ authorize_connection nd env (script [arrives t_au])
     = (script [], [Sent ch; Got au; Authorized c route], Ok (c, route)).
Proof.
  intros c ch ok [Hd He [Hks Hkd]] Hdl Hadm Hwf Hr Hep.
  pose proof Hwf as (_ & _ & _ & Hdu & _ & Hri & Hei & Hcl32 & Hn32 & _).
  destruct (owner_transcript_binds c key Hwf) as [_ (response & Hresp & _)].
  pose proof (owner_response_length _ _ _ Hresp) as Hrl.
  destruct (challenge_typed nd (ac_challenge env) Hdu Hcl32) as [Tch Lch].
  destruct (authenticate_typed c response Hwf Hr Hep Hrl) as [Tau Lau].
  pose proof (typed_typed (lit "owner.accepted") eq_refl) as Tok.
  destruct (small_frame_prints _ Tch Lch) as (t_ch & Pch & Sch).
  destruct (small_frame_prints _ Tau Lau) as (t_au & Pau & Sau).
  destruct (small_frame_prints _ Tok ltac:(by vm_compute)) as (t_ok & Pok & Sok).
  exists response, t_ch, t_au, t_ok. split; [done |]. cbv zeta. split_and!; [done .. | |].
  - by apply (connect_runs ns nd key cenv machine route url class (ac_challenge env) response t_ch t_au t_ok).
  - eapply (authorize_runs nd key); try done.
    apply destination_reads_source; try done; unfold is_i64 in *; cbn in *; lia.
Qed.
End internal_theorems.

(** ** Concrete codec and nodes, used by the witnesses *)

(** A text as marked bytes with an end mark; an identifier as its 16 bytes. *)
Definition put_text (v : bytes) : bytes := concat (map (fun c => ["001"%byte; c]) v) ++ ["000"%byte].
Fixpoint get_text (v : bytes) : option (bytes * bytes) :=
  match v with
  | "001"%byte :: c :: rest => '(t, rest) ← get_text rest; Some (c :: t, rest)
  | "000"%byte :: rest => Some ([], rest)
  | _ => None
  end.
Definition get_id (v : bytes) : option (Uuid * bytes) :=
  if (16 <=? zlen v) then Some (be_value (take 16 v), drop 16 v) else None.

Lemma get_put_text v rest : get_text (put_text v ++ rest) = Some (v, rest).
Proof.
  induction v as [|c v IH]; [done |]. unfold put_text in *.
  change (concat (map (fun c => ["001"%byte; c]) (c :: v)))
    with ("001"%byte :: c :: concat (map (fun c => ["001"%byte; c]) v)).
  cbn [app get_text]. by rewrite IH.
Qed.

Lemma put_text_length v : zlen (put_text v) = 2 * zlen v + 1.
Proof.
  unfold put_text. rewrite zlen_app. change (zlen ["000"%byte]) with 1.
  induction v as [|c v IH]; [done |]. cbn [map concat]. rewrite zlen_app, !zlen_cons, zlen_nil. lia.
Qed.

Lemma get_put_id u rest : is_uuid u -> get_id (uuid_bytes u ++ rest) = Some (u, rest).
Proof.
  intros Hu. unfold get_id, uuid_bytes. rewrite (proj2 (Z.leb_le _ _)).
  2: { rewrite zlen_app. unfold zlen at 1. rewrite length_be_bytes. pose proof (zlen_nonneg rest). lia. }
  pose proof (untag_tagged 16 u rest Hu) as H. unfold untag in H. f_equal. exact H.
Qed.

Definition put_frame (f : Frame) : bytes :=
  match f with
  | FFinish t b => put_text t ++ [if b then "001"%byte else "000"%byte]
  | _ => concat (map put_text (frame_texts f)) ++ concat (map uuid_bytes (frame_ids f))
  end.

Definition get_challenge (v : bytes) : option Challenge :=
  '(t, v) ← get_text v; '(p, v) ← get_text v; '(n, v) ← get_text v; '(d, v) ← get_id v;
  Some {| ch_type := t; ch_protocol := p; ch_destination := d; ch_nonce := n |}.
Definition get_authenticate (v : bytes) : option Authenticate :=
  '(t, v) ← get_text v; '(r, v) ← get_text v; '(e, v) ← get_text v; '(c, v) ← get_text v;
  '(n, v) ← get_text v; '(x, v) ← get_text v;
  '(s, v) ← get_id v; '(d, v) ← get_id v; '(m, v) ← get_id v; '(i, v) ← get_id v;
  Some {| au_type := t; au_source := s; au_destination := d; au_machine := m;
          au_route_revision := r; au_connection_epoch := e; au_connection_class := c;
          au_source_nonce := n; au_trace := i; au_response := x |}.
Definition get_typed (v : bytes) : option bytes := '(t, _) ← get_text v; Some t.
Definition get_finish (v : bytes) : option (bytes * bool) :=
  '(t, v) ← get_text v; b ← head v; Some (t, bool_decide (b = "001"%byte)).
Definition get_result (v : bytes) : option (bytes * bytes) :=
  '(t, v) ← get_text v; '(o, v) ← get_text v; Some (t, o).

Definition toy_internal_codec : InternalCodec :=
  {| print_frame := fun f => Some (put_frame f); parse_challenge := get_challenge;
     parse_authenticate := get_authenticate; parse_typed := get_typed;
     parse_finish := get_finish; parse_result := get_result |}.

Lemma put_frame_length f :
  zlen (put_frame f) <= 6 * texts_length (frame_texts f) + 512.
Proof.
  assert (forall l, zlen (concat (map put_text l)) = 2 * texts_length l + zlen l) as Ht.
  { induction l as [|v l IH]; [done |]. cbn [map concat texts_length foldr].
    rewrite zlen_app, put_text_length, zlen_cons, IH. unfold texts_length. lia. }
  assert (forall l, zlen (concat (map uuid_bytes l)) = 16 * zlen l) as Hu.
  { induction l as [|v l IH]; [done |]. cbn [map concat].
    rewrite zlen_app, zlen_cons, IH. unfold zlen at 1, uuid_bytes. rewrite length_be_bytes. lia. }
  assert (forall l, 0 <= texts_length l) as Hp.
  { induction l as [|v l IH]; cbn; [done |]. pose proof (zlen_nonneg v). unfold texts_length in IH. lia. }
  pose proof (Hp (frame_texts f)) as Hn.
  assert (zlen (frame_texts f) <= 6 /\ zlen (frame_ids f) <= 4) as [Ha Hb] by (by destruct f).
  assert (zlen (put_frame f) <= zlen (concat (map put_text (frame_texts f)))
                              + zlen (concat (map uuid_bytes (frame_ids f))) + 1) as Hf.
  { destruct f; unfold put_frame; rewrite zlen_app; try lia.
    cbn [frame_texts frame_ids map concat]. rewrite zlen_app, zlen_nil. unfold zlen; cbn [length concat]; lia. }
  rewrite Ht, Hu in Hf. lia.
Qed.

#[local] Opaque uuid_bytes.
Lemma toy_internal_codec_laws : @InternalCodecLaws toy_internal_codec.
Proof.
  split.
  - intros f _. exists (put_frame f). split; [done | apply put_frame_length].
  - intros c t [_ Hu] [= <-]. cbn in Hu. rewrite Forall_singleton in Hu.
    unfold parse_challenge, toy_internal_codec, get_challenge, put_frame.
    cbn [frame_texts frame_ids map concat]. rewrite <- !app_assoc.
    repeat (rewrite get_put_text; cbn [mbind option_bind]).
    change (concat []) with (@nil byte). rewrite ?app_nil_l, ?app_nil_r.
    rewrite <- (app_nil_r (uuid_bytes _)), get_put_id by done. by destruct c.
  - intros a t [_ Hu] [= <-]. cbn in Hu. rewrite !Forall_cons in Hu.
    destruct Hu as (? & ? & ? & ? & _).
    unfold parse_authenticate, toy_internal_codec, get_authenticate, put_frame.
    cbn [frame_texts frame_ids map concat]. rewrite <- !app_assoc.
    repeat (rewrite get_put_text; cbn [mbind option_bind]). rewrite ?app_nil_l.
    repeat (rewrite get_put_id by done; cbn [mbind option_bind]). by destruct a.
  - intros v t _ [= <-]. unfold parse_typed, toy_internal_codec, get_typed, put_frame.
    cbn [frame_texts frame_ids map concat]. rewrite <- !app_assoc. by rewrite get_put_text.
  - intros v b t _ [= <-]. unfold parse_finish, toy_internal_codec, get_finish, put_frame.
    rewrite get_put_text. by destruct b.
  - intros v o t _ [= <-]. unfold parse_result, toy_internal_codec, get_result, put_frame.
    cbn [frame_texts frame_ids map concat]. rewrite <- !app_assoc.
    by repeat (rewrite get_put_text; cbn [mbind option_bind]).
Qed.

Lemma toy_hmac_length : @HmacLength toy_hmac.
Proof.
  constructor. intros k m. cbn -[repeat]. unfold zlen.
  rewrite length_take, !length_app, repeat_length. lia.
Qed.

Definition sample_route : RouteIdentity := {| rt_revision := 6; rt_epoch := 7; rt_connection := 21 |}.
Definition sample_node (incarnation : Uuid) : Node :=
  {| nd_server := {| sv_identity :=
       {| incarnation_id := incarnation; Lease.config_epoch := 2; build_id := lit "1.0";
          profile := Clustered; Lease.config_proof := Some (lit "proof");
          internal_wss_url := Some (lit "wss://node/internal/v1/owner"); ttl_seconds := 30;
          safety_margin := 5000000000 |}; sv_deployment := 1 |};
     nd_key := Some sample_key |}.
Definition sample_node_row : NodeRow :=
  {| node_state := Serving; node_epoch := 2; node_build := lit "1.0";
     node_url := Some (lit "wss://node/internal/v1/owner"); lease_until := 1000 |}.
Definition sample_tables : Tables :=
  {| base := {| deployment := Some {| dep_id := 1; dep_epoch := 2; dep_build := lit "1.0";
                  dep_protocol := 1; dep_profile := Clustered; dep_proof := Some (lit "proof") |};
                nodes := <[3 := sample_node_row]> {[4 := sample_node_row]} |};
     credentials := {[9 := true]}; default_credential := 9;
     machines := {[5 := {| ssh_credential_id := 9; alias := lit "m"; lifecycle := Active;
       route_revision := 6; credential_revision := 1; target_account := lit "me";
       tmux_path := lit "/t"; tmux_socket_identity := lit "s"; host_identity := Some (lit "h") |}]};
     owners := {[5 := {| connection_epoch := 7; claimed := Some (4, 21); owner_revision := 6 |}]};
     enrollments := ∅; attempts := ∅;
     bindings := {[50 := {| bd_machine := 5; relay_id := 60; relay_public_key := lit "k";
       bd_revision := 6; bd_active := true |}]} |}.
Definition sample_registry : Registry :=
  set_tunnels (set_handles initial {[1 := installed_handle (new_handle 5 sample_route)]}) {[5 := 1]}.
Definition sample_connect_env : ConnectEnv :=
  {| ce_lease0 := true; ce_tcp := true; ce_server_name := true; ce_tls := true; ce_request := true;
     ce_upgrade := true; ce_nonce := repeat "002"%byte 32; ce_trace := 8; ce_lease1 := true |}.
Definition sample_accept_env (begin : BeginOutcome) : AcceptEnv :=
  {| ac_lease := true; ac_upgrade := Some (INTERNAL_PATH, None); ac_clock0 := Some 10;
     ac_clock1 := Some 20; ac_challenge := repeat "001"%byte 32; ac_lease0 := true;
     ac_rows := Some sample_tables; ac_now := 100; ac_lease1 := true;
     ac_owner_rows := Some sample_tables; ac_ready := true; ac_registry := sample_registry;
     ac_permit := true; ac_begin := begin; ac_released := true |}.
Definition sample_url : bytes := lit "wss://node/internal/v1/owner".
Definition sample_source_context (class : ConnectionClass) : OwnerAuthContext :=
  source_context (sample_node 3) sample_connect_env 5 sample_route 4 class (repeat "001"%byte 32).

Lemma sample_context_wf class : context_wf (sample_source_context class).
Proof. unfold context_wf. repeat split; by vm_compute. Qed.

Lemma sample_admits class :
  admits (sample_node 4) (sample_accept_env HandedOut) (sample_source_context class) sample_route.
Proof.
  split; try done.
  - exists 10, 20. split_and!; by vm_compute.
  - exists sample_tables. split; [done |]. by vm_compute.
  - exists sample_tables, {| connection_epoch := 7; claimed := Some (4, 21); owner_revision := 6 |}.
    by split_and!.
Qed.

Lemma sample_dials : @dials toy_url sample_connect_env sample_url.
Proof.
  split; [done |].
  destruct (toy_url_parse sample_url) as [u|] eqn:E; [| vm_compute in E; discriminate E].
  exists u. split; [exact E |]. vm_compute in E. injection E as <-. by split; [| eexists].
Qed.

Lemma handshake_completes_witness :
  exists response t_ch t_au t_ok,
    @owner_response toy_hmac sample_key (sample_source_context Attachment) = Some response
    /\ @connect_authenticated base64url toy_hmac toy_url toy_internal_codec (sample_node 3)
         sample_connect_env 5 sample_route 4 sample_url Attachment
         (script [arrives t_ch; arrives t_ok])
       = (script [], [Got (FChallenge (@challenge_frame base64url (sample_node 4) (repeat "001"%byte 32)));
            Sent (FAuthenticate (@authenticate_frame base64url (sample_source_context Attachment) response));
            Got (FTyped (lit "owner.accepted"))], Ok tt)
    /\ snd (@authorize_connection base64url toy_hmac toy_internal_codec (sample_node 4)
         (sample_accept_env HandedOut) (script [arrives t_au]))
       = Ok (sample_source_context Attachment, sample_route).
Proof.
  destruct (@handshake_completes base64url toy_hmac toy_url toy_internal_codec base64url_laws
    toy_internal_codec_laws (@Build_Base64Ascii base64url base64url_ascii) base64url_length toy_hmac_length
    (sample_node 3) (sample_node 4) sample_key sample_connect_env (sample_accept_env HandedOut)
    5 sample_route sample_url Attachment) as (response & t_ch & t_au & t_ok & H1 & H2 & H3 & H4 & H5 & H6).
  - by split.
  - exact sample_dials.
  - apply sample_admits.
  - apply sample_context_wf.
  - by vm_compute.
  - by vm_compute.
  - exists response, t_ch, t_au, t_ok. split; [exact H1 |]. split; [exact H5 |].
    exact (f_equal snd H6).
Defined.

Definition sample_answer : Authenticate :=
  @authenticate_frame base64url (sample_source_context Attachment)
    (default [] (@owner_response toy_hmac sample_key (sample_source_context Attachment))).
Definition sample_run : Script * list Event * result OwnerError unit :=
  aborted 100%nat (@accept_owner_connection base64url toy_hmac toy_internal_codec (sample_node 4)
    (sample_accept_env HandedOut)) (script [arrives (put_frame (FAuthenticate sample_answer))]).

Lemma owner_connection_authorized_witness :
  exists a c, Got (FAuthenticate a) ∈ take 5 (snd (fst sample_run))
  /\ @authorized base64url toy_hmac (sample_node 4) (sample_accept_env HandedOut) a c sample_route
  /\ machine_id c = 5.
Proof.
  assert (let '(_, l, _) := sample_run in
          l = take 5 l ++ AttachmentServed 5 sample_route :: []) as Hl by (vm_compute; reflexivity).
  destruct sample_run as [[s' l] r] eqn:E.
  destruct (@owner_connection_authorized base64url toy_hmac toy_internal_codec (sample_node 4)
    (sample_accept_env HandedOut) 100%nat _ s' l (take 5 l) [] (AttachmentServed 5 sample_route) r E Hl)
    as (a & c & Ha & Hc & Hm & _).
  exists a, c. split; [exact Ha |]. split; [exact Hc | exact Hm].
Defined.
