(* ===== verification/Transition.v ===== *)
(** * Transition: taking a machine out of service across nodes

    Models [transition_active_machine_protected] of
    [crates/owlmux-server/src/api/mod.rs] (behind the endpoints that disable,
    revoke and re-enroll): the owner's route is resolved, the owner is asked
    to stop (a local registry transition, or an invalidation conversation with
    the owning node), the durable transition of Authority is committed and
    settled, and the owner is told.  The theorems compose the requesting node
    with the accepting node of InternalTheorems. *)

From S2P Require Import Prelude Text Contracts Binary Secrets Cluster Config Wire Session Lease Tables Authority Ownership AuthorityInvariant AuthorityTheorems Registry Base64Url Internal InternalTheorems.
Import Authority.OwnerRs Authority.Api.

(** What the environment answers in one transition: the start of a local one
    and the release of its abandoned route; the dial, the control permit and
    the script of a remote one; the fate of the commit, its lease checks and
    clock readings, and the observation of an ambiguous commit. *)
Record TransitionEnv : Type := {
  te_begin : BeginOutcome; te_released : bool;
  te_client : bool; te_connect : ConnectEnv; te_permit : bool; te_script : Script;
  te_fate : Fate; te_l0 : bool; te_l1 : bool; te_instants : Relay.Instants;
  te_obs_l0 : bool; te_obs_l1 : bool; te_answer : option Tables; te_now : Z;
}.

Section transition.
Context `{Hbase : Base64} `{Hhmac : Hmac} `{Hurl : UrlParser} `{Hcodec : InternalCodec}.

(** The durable transition and its settlement. *)
Definition commit_and_settle (sv : Server) (env : TransitionEnv) (machine : Uuid)
    (target : Lifecycle) (expected : OwnerExpectation) (t : Tables)
    : Tables * TransitionCompletion :=
  let '(t, r) := commit_active_machine_transition sv (te_fate env) (te_l0 env) (te_l1 env)
                   (te_instants env) machine target expected t in
  (t, settle_transition_commit sv (te_obs_l0 env) (te_obs_l1 env) (te_answer env) (te_now env)
        machine target expected r).

(** The response: an owner that could not be told does not change it. *)
Definition completion_result (c : TransitionCompletion) : result ApiError unit :=
  match c with
  | TransitionCommitted => Ok tt
  | TransitionAborted e | TransitionIndeterminate e => Err e
  end.

(** [MachineTransition::finish] of a local transition, or its hard fence. *)
Definition settle_local (env : TransitionEnv) (c : TransitionCompletion) : list Event :=
  match c with
  | TransitionCommitted => [TransitionFinished true]
  | TransitionAborted _ => [if te_released env then TransitionFinished false else HardFenced]
  | TransitionIndeterminate _ => [HardFenced]
  end.

(** [RemoteTransition::finish]; an indeterminate transition is dropped, which
    closes the connection. *)
Definition settle_remote (c : TransitionCompletion) (s : Script) : list Event :=
  match c with
  | TransitionCommitted => snd (fst (finish_remote true s))
  | TransitionAborted _ => snd (fst (finish_remote false s))
  | TransitionIndeterminate _ => []
  end.

(** The tables, the log and the response.  [resolved]: the answer of
    [owner::resolve]. *)
Definition transition_active_machine_protected (nd : Node) (env : TransitionEnv) (machine : Uuid)
    (target : Lifecycle) (resolved : result OwnerError OwnerRoute) (t : Tables)
    : Tables * list Event * result ApiError unit :=
  let sv := nd_server nd in
  match resolved with
  | Err _ => (t, [], Err TemporarilyUnavailable)
  | Ok (Local route) =>
      match te_begin env with
      | NotBegun => (t, [], Err TemporarilyUnavailable)
      | BegunNotQuiet => (t, [TransitionBegun machine route; HardFenced], Err TemporarilyUnavailable)
      | HandedOut =>
          let '(t, c) := commit_and_settle sv env machine target
                           (Exact (sv_incarnation sv) route) t in
          (t, TransitionBegun machine route :: settle_local env c, completion_result c)
      end
  | Ok (Remote route incarnation url) =>
      if negb (te_client env) then (t, [], Err TemporarilyUnavailable)
      else
        let '(s, l, prepared) := prepare_invalidation nd (te_connect env) (te_permit env) machine
                                   route incarnation url (te_script env) in
        match prepared with
        | Err _ => (t, l, Err OwnerUnreachable)
        | Ok _ =>
            let '(t, c) := commit_and_settle sv env machine target (Exact incarnation route) t in
            (t, l ++ settle_remote c s, completion_result c)
        end
  | Ok (NoValidOwner revision) =>
      let '(t, c) := commit_and_settle sv env machine target (ExpectNoValidOwner revision) t in
      (t, [], completion_result c)
  end.

(** [re_enroll_machine] reads the lifecycle ([None]: the query failed) and
    takes one of two ways. *)
Definition re_enroll_machine (nd : Node) (env : TransitionEnv) (machine : Uuid)
    (row : option Tables) (resolved : result OwnerError OwnerRoute) (t : Tables)
    : Tables * list Event * result ApiError unit :=
  match row with
  | None => (t, [], Err TemporarilyUnavailable)
  | Some seen =>
      match lifecycle <$> machines seen !! machine with
      | Some Active => transition_active_machine_protected nd env machine Pending resolved t
      | Some Disabled =>
          let '(t, r) := re_enroll_disabled_machine (nd_server nd) (te_fate env) (te_l0 env)
                           (te_l1 env) (te_instants env) machine t in (t, [], r)
      | Some _ => (t, [], Err (ConflictWith (lit "invalid_lifecycle")))
      | None => (t, [], Err NotFound)
      end
  end.

Definition disable_machine (nd : Node) (env : TransitionEnv) (machine : Uuid)
    (resolved : result OwnerError OwnerRoute) (t : Tables)
    : Tables * list Event * result ApiError unit :=
  transition_active_machine_protected nd env machine Disabled resolved t.
Definition revoke_machine_relay (nd : Node) (env : TransitionEnv) (machine : Uuid)
    (resolved : result OwnerError OwnerRoute) (t : Tables)
    : Tables * list Event * result ApiError unit :=
  transition_active_machine_protected nd env machine Disabled resolved t.

(** ** The two ends of a connection *)

Definition sents : list Event -> list Frame :=
  omap (fun ev => match ev with Sent f => Some f | _ => None end).
Definition gots : list Event -> list Frame :=
  omap (fun ev => match ev with Got f => Some f | _ => None end).

(** The channel delivers frames in order: what one end has read is a prefix
    of what the other one wrote. *)
Definition linked (l l' : list Event) : Prop :=
  gots l `prefix_of` sents l' /\ gots l' `prefix_of` sents l.

Lemma gots_elem f l : f ∈ gots l <-> Got f ∈ l.
Proof.
  unfold gots. rewrite list_elem_of_omap. split.
  - intros ([] & Hin & [=]). by subst.
  - intros Hin. by exists (Got f).
Qed.
Lemma sents_elem f l : f ∈ sents l <-> Sent f ∈ l.
Proof.
  unfold sents. rewrite list_elem_of_omap. split.
  - intros ([] & Hin & [=]). by subst.
  - intros Hin. by exists (Sent f).
Qed.

Lemma linked_got l l' f : linked l l' -> Got f ∈ l -> Sent f ∈ l'.
Proof.
  intros [[k Hk] _] Hf%gots_elem. apply sents_elem. rewrite Hk. apply elem_of_app. by left.
Qed.
Lemma linked_sym l l' : linked l l' -> linked l' l.
Proof. unfold linked. tauto. Qed.

(** ** What the requesting node logs *)

(** Every event of [m] satisfies [P]. *)
Definition emits {A} (P : Event -> Prop) (m : session Event OwnerError A) : Prop :=
  forall l r, may m l r -> Forall P l.

Section emits.
Variable P : Event -> Prop.

Lemma emits_ret {A} (a : A) : emits P (mret a).
Proof. intros l r [-> _]%may_ret. constructor. Qed.
Lemma emits_lift {A} (x : result OwnerError A) : emits P (lift x).
Proof. intros l r [-> _]%may_lift. constructor. Qed.
Lemma emits_log ev : P ev -> emits P (log ev).
Proof. intros H l r [-> _]%may_log. by repeat constructor. Qed.
Lemma emits_wait : emits P wait.
Proof. intros l r [-> _]%may_wait. constructor. Qed.
Lemma emits_fate : emits P next_fate.
Proof. intros l r [-> _]%may_fate. constructor. Qed.
Lemma emits_bind {A B} (m : session Event OwnerError A) (f : A -> session Event OwnerError B) :
  emits P m -> (forall a, emits P (f a)) -> emits P (m ≫= f).
Proof.
  intros Hm Hf l r [(e & H & ->) | (a & l1 & l2 & H1 & H2 & ->)]%may_bind; [by eapply Hm |].
  apply Forall_app. split; [by eapply Hm | by eapply Hf].
Qed.

Lemma emits_send f : P (Sent f) -> emits P (send_json f).
Proof.
  intros HP. unfold send_json. repeat (apply emits_bind; [apply emits_lift | intros ?]).
  apply emits_bind; [apply emits_fate | intros []];
    [by apply emits_log | apply emits_lift |].
  apply emits_bind; [by apply emits_log | intros ?; apply emits_lift].
Qed.

Lemma emits_receive {A} decode (frame : A -> Frame) :
  (forall f, P (Got f)) -> emits P (receive_json decode frame).
Proof.
  intros HP. unfold receive_json. apply emits_bind; [apply emits_wait | intros i].
  destruct i as [[[text|]| |]|]; try apply emits_lift.
  repeat (apply emits_bind; [apply emits_lift | intros ?]).
  apply emits_bind; [by apply emits_log | intros ?; apply emits_ret].
Qed.

Lemma emits_expect v : (forall f, P (Got f)) -> emits P (expect_typed v).
Proof.
  intros HP. apply emits_bind; [by apply emits_receive | intros ?; apply emits_lift].
Qed.
End emits.

Lemma expect_got v l u : may (expect_typed v) l (Ok u) -> Got (FTyped v) ∈ l.
Proof.
  unfold expect_typed, receive_typed, receive_json.
  intros (t & l1 & l2 & H1 & [-> Ht]%may_lift & ->)%may_bind_Ok.
  apply may_bind_Ok in H1 as (i & k1 & k2 & [-> _]%may_wait & H1 & ->).
  destruct i as [[[text|]| |]|]; try by apply may_lift in H1 as [_ [=]].
  apply may_bind_Ok in H1 as (? & ? & ? & [-> _]%may_lift & H1 & ->).
  apply may_bind_Ok in H1 as (t0 & ? & ? & [-> _]%may_lift & H1 & ->).
  apply may_log_bind in H1 as (? & -> & [-> [= ->]]%may_ret).
  symmetry in Ht. apply fail_if_Ok in Ht. split_bools. subst. by left.
Qed.

(** The frames an ingress node may write: before the commit, its answer to the
    challenge, for the machine and route it was asked for, and [prepare];
    after it, the outcome. *)
Definition request_event (machine : Uuid) (route : RouteIdentity) (incarnation : Uuid)
    (ev : Event) : Prop :=
  match ev with
  | Got _ => True
  | Sent (FAuthenticate a) => au_machine a = machine /\ au_destination a = incarnation
      /\ au_route_revision a = dec_signed (rt_revision route)
      /\ au_connection_epoch a = dec_signed (rt_epoch route)
      /\ au_connection_class a = class_label Control
  | Sent (FTyped t) => t = lit "machine.invalidation.prepare"
  | _ => False
  end.
Definition outcome_event (committed : bool) (ev : Event) : Prop :=
  match ev with
  | Got _ => True
  | Sent f => f = FFinish (lit "machine.invalidation.finish") committed
  | _ => False
  end.

Lemma connect_emits nd env machine route incarnation url :
  emits (request_event machine route incarnation)
    (connect_authenticated nd env machine route incarnation url Control).
Proof.
  unfold connect_authenticated.
  do 9 (apply emits_bind; [apply emits_lift | intros ?]).
  apply emits_bind; [by apply emits_receive | intros ch].
  do 4 (apply emits_bind; [apply emits_lift | intros ?]).
  apply emits_bind; [by apply emits_send | intros ?].
  apply emits_bind; [by apply emits_expect | intros ?]. apply emits_lift.
Qed.

Lemma prepare_emits nd env permit machine route incarnation url :
  emits (request_event machine route incarnation)
    (prepare_invalidation nd env permit machine route incarnation url).
Proof.
  unfold prepare_invalidation. apply emits_bind; [apply emits_lift | intros ?].
  apply emits_bind; [apply connect_emits | intros ?].
  apply emits_bind; [by apply emits_send | intros ?]. by apply emits_expect.
Qed.

Lemma prepare_got nd env permit machine route incarnation url l u :
  may (prepare_invalidation nd env permit machine route incarnation url) l (Ok u) ->
  Got (FTyped (lit "machine.invalidation.ready")) ∈ l.
Proof.
  unfold prepare_invalidation.
  intros (? & ? & ? & _ & (? & ? & ? & _ & (? & ? & ? & _ & H%expect_got & ->)%may_bind_Ok
    & ->)%may_bind_Ok & ->)%may_bind_Ok. rewrite !elem_of_app. auto.
Qed.

Lemma finish_emits committed : emits (outcome_event committed) (finish_remote committed).
Proof.
  unfold finish_remote. apply emits_bind; [by apply emits_send | intros ?].
  apply emits_bind; [by apply emits_receive | intros [? ?]]. apply emits_lift.
Qed.

Lemma settle_remote_emits c s :
  Forall (fun ev => match ev with
                    | Got _ => True
                    | Sent (FFinish t b) => t = lit "machine.invalidation.finish"
                        /\ (if b : bool then c = TransitionCommitted
                            else exists e, c = TransitionAborted e)
                    | _ => False
                    end) (settle_remote c s).
Proof.
  destruct c as [|e|e]; cbn [settle_remote]; [| | constructor];
    destruct (finish_remote _ s) as [[s' l] r] eqn:E; apply may_run in E; apply finish_emits in E;
    (eapply Forall_impl; [exact E |]); intros [] Hev; cbn in *; try done; subst; split; eauto.
Qed.

(** ** What the owning node guarantees *)

Lemma owner_follows nd env cut s s' l r :
  aborted cut (accept_owner_connection nd env) s = (s', l, r) ->
  exists p, follows nd env PStart l p /\ armed_phase p = false.
Proof.
  intros E. destruct (drives_aborted nd env cut _ (drives_accept nd env) l r (may_run _ _ _ _ _ E))
    as (p & Hp & Hs & _). eauto.
Qed.

Lemma follows_event nd env p l ev :
  follows nd env PStart l p -> ev ∈ l ->
  exists pre, justified nd env pre ev /\ forall x, x ∈ pre -> x ∈ l.
Proof.
  intros Hf (pre & post & ->)%list_elem_of_split. exists pre. split.
  - by apply (follows_justified nd env PStart _ p [] pre ev post Hf).
  - intros x Hx. apply elem_of_app. by left.
Qed.

Definition settles (ev : Event) : bool :=
  match ev with HardFenced | TransitionFinished _ => true | _ => false end.

Lemma armed_stays l : Forall (fun ev => settles ev = false) l -> fold_left armed_after l true = true.
Proof.
  induction 1 as [|ev l Hev _ IH]; cbn; [done |].
  assert (armed_after true ev = true) as -> by by destruct ev. exact IH.
Qed.

(** A transition that has begun has been settled by the end of the log. *)
Lemma begun_is_settled nd env p l m route :
  follows nd env PStart l p -> armed_phase p = false -> TransitionBegun m route ∈ l ->
  HardFenced ∈ l \/ exists b, TransitionFinished b ∈ l.
Proof.
  intros Hf Hp (pre & post & ->)%list_elem_of_split.
  apply follows_armed in Hf. rewrite fold_left_app in Hf. cbn [fold_left armed_after] in Hf.
  destruct (decide (Forall (fun ev => settles ev = false) post)) as [Hq | Hq].
  - rewrite (armed_stays post Hq), Hp in Hf. done.
  - apply not_Forall_Exists in Hq; [| intros x; unfold decide_rel; apply _].
    apply Exists_exists in Hq as (ev & Hin & Hev).
    assert (Hall : ev ∈ pre ++ TransitionBegun m route :: post)
      by (apply elem_of_app; right; by right).
    destruct ev; cbn in Hev; try done; [by left | right; eauto].
Qed.

Lemma dec_signed_inj n k : 0 < n -> dec n = dec_signed k -> k = n.
Proof.
  intros Hn H. unfold dec_signed in H. destruct (Z.ltb_spec k 0) as [Hk | Hk].
  - pose proof (dec_head_digit n _ _ ltac:(lia) H) as Hd. by vm_compute in Hd.
  - destruct (dec_spec n ltac:(lia)) as (_ & Hvn & _). destruct (dec_spec k Hk) as (_ & Hvk & _).
    congruence.
Qed.

(** The owner acts on the machine and the route the requester named. *)
Lemma authorized_request nd env a c route' machine route incarnation :
  authorized nd env a c route' ->
  request_event machine route incarnation (Sent (FAuthenticate a)) ->
  machine_id c = machine /\ rt_revision route' = rt_revision route
  /\ rt_epoch route' = rt_epoch route.
Proof.
  intros Ha (Hm & _ & Hr & He & _).
  destruct (az_context _ _ _ _ _ Ha) as (key & response & _ & Hctx & _).
  destruct (az_route _ _ _ _ _ Ha) as (Hr' & He' & _).
  unfold destination_context in Hctx. inv_ok.
  repeat match goal with H : parse_epoch _ = Ok _ |- _ => apply parse_epoch_Ok in H as [? ?] end.
  simplify_eq/=. split_and!; [done | |]; rewrite ?Hr', ?He';
    symmetry; apply dec_signed_inj; (lia || congruence).
Qed.

Context `{Hsha : Sha256} `{Hkeys : Ssh.SshKeys}.

(** The requesting node either gave up before the commit or settled it. *)
Lemma remote_log ni env machine target route incarnation url t t1 li ri :
  transition_active_machine_protected ni env machine target (Ok (Remote route incarnation url)) t
    = (t1, li, ri) ->
  (t1 = t /\ ri <> Ok tt /\ Forall (request_event machine route incarnation) li)
  \/ exists c lp s, commit_and_settle (nd_server ni) env machine target (Exact incarnation route) t
                     = (t1, c)
       /\ ri = completion_result c /\ li = lp ++ settle_remote c s
       /\ Forall (request_event machine route incarnation) lp
       /\ Got (FTyped (lit "machine.invalidation.ready")) ∈ lp.
Proof.
  unfold transition_active_machine_protected. intros H.
  destruct (te_client env); cbn [negb] in H; [| injection H as <- <- <-; left; by split_and!].
  destruct (prepare_invalidation _ _ _ _ _ _ _ _) as [[s lp] [u|e]] eqn:Ep.
  - apply may_run in Ep. right. destruct (commit_and_settle _ _ _ _ _ _) as [t' c] eqn:Ec.
    injection H as <- <- <-. exists c, lp, s. split_and!; try done.
    + by eapply prepare_emits.
    + by eapply prepare_got.
  - apply may_run, prepare_emits in Ep. injection H as <- <- <-. left. by split_and!.
Qed.

(** Which outcome the requesting node may have written. *)
Lemma request_outcome machine route incarnation lp c s t b :
  Forall (request_event machine route incarnation) lp ->
  Sent (FFinish t b) ∈ lp ++ settle_remote c s ->
  if b then c = TransitionCommitted else exists e, c = TransitionAborted e.
Proof.
  intros Hlp [Hin | Hin]%elem_of_app.
  - rewrite Forall_forall in Hlp. by apply Hlp in Hin.
  - pose proof (settle_remote_emits c s) as Hs. rewrite Forall_forall in Hs.
    apply Hs in Hin as [_ Hb]. by destruct b.
Qed.

Lemma request_answer machine route incarnation lp c s a :
  Forall (request_event machine route incarnation) lp ->
  Sent (FAuthenticate a) ∈ lp ++ settle_remote c s ->
  request_event machine route incarnation (Sent (FAuthenticate a)).
Proof.
  intros Hlp [Hin | Hin]%elem_of_app.
  - rewrite Forall_forall in Hlp. by apply Hlp in Hin.
  - pose proof (settle_remote_emits c s) as Hs. rewrite Forall_forall in Hs. by apply Hs in Hin.
Qed.

(** What the settlement of the durable transition says, from any history. *)
Definition left_route (w : World) (machine : Uuid) (revision : Z) : Prop :=
  exists m, machines (tbl w) !! machine = Some m /\ revision < route_revision m
    /\ forall j b, bindings (tbl w) !! j = Some b -> bd_machine b = machine ->
       bd_revision b = revision -> bd_active b = false.

Lemma commit_and_settle_sound w w2 sv env machine target expected t1 c :
  authority_ok w -> target = Pending \/ target = Disabled ->
  commit_and_settle sv env machine target expected (tbl w) = (t1, c) ->
  rtc Ownership.world_step (at_tables w t1) w2 ->
  te_answer env = Some (tbl w2) \/ te_answer env = None ->
  match c with
  | TransitionCommitted => left_route w2 machine (expected_revision expected)
  | TransitionAborted _ => t1 = tbl w
  | TransitionIndeterminate _ => True
  end.
Proof.
  intros Hok Ht Hc Hs Ha. unfold commit_and_settle in Hc.
  destruct (commit_active_machine_transition _ _ _ _ _ _ _ _ _) as [t' r] eqn:E.
  injection Hc as <- <-.
  pose proof (settle_sound w sv _ _ _ _ machine target expected t' r w2 (te_obs_l0 env) (te_obs_l1 env)
    (te_answer env) (te_now env) _ Hok Ht E Hs Ha eq_refl) as H.
  by destruct (settle_transition_commit _ _ _ _ _ _ _ _ _).
Qed.

(** C5. Taking a machine that another node owns out of service is consistent
    across the two nodes, whatever the peers' scripts, the fate of the commit,
    what happens between the commit and its observation, and wherever the
    owner's task is aborted, as long as each end reads only what the other
    one wrote.  If the tables changed, the owner had stopped the machine that
    was asked for, at the route that was asked for, and in the end has either
    finished the transition as committed or fenced itself; it never resumes
    the machine.  The owner resumes (finishes as aborted) only when the tables
    did not change, and finishes as committed only when the machine has left
    its route for good; the API reports success only then. *)
Theorem remote_transition_consistent (w w2 : World) (ni no : Node) (env : TransitionEnv)
    (aenv : AcceptEnv) (cut : nat) (so so' : Script) (machine : Uuid) (target : Lifecycle)
    (route : RouteIdentity) (incarnation : Uuid) (url : bytes) (t1 : Tables) (li lo : list Event)
    (ri : result ApiError unit) (ro : result OwnerError unit)
    (Hok : authority_ok w) (Htarget : target = Pending \/ target = Disabled)
    (Hi : transition_active_machine_protected ni env machine target
            (Ok (Remote route incarnation url)) (tbl w) = (t1, li, ri))
    (Ho : aborted cut (accept_owner_connection no aenv) so = (so', lo, ro))
    (Hlink : linked li lo)
    (Hsteps : rtc Ownership.world_step (at_tables w t1) w2)
    (Hanswer : te_answer env = Some (tbl w2) \/ te_answer env = None) :
  (t1 <> tbl w -> (exists m route', TransitionBegun m route' ∈ lo)
                  /\ (TransitionFinished true ∈ lo \/ HardFenced ∈ lo)
                  /\ TransitionFinished false ∉ lo)
  /\ (forall m route', TransitionBegun m route' ∈ lo ->
       m = machine /\ rt_revision route' = rt_revision route /\ rt_epoch route' = rt_epoch route)
  /\ (TransitionFinished false ∈ lo -> t1 = tbl w)
  /\ (TransitionFinished true ∈ lo -> left_route w2 machine (rt_revision route))
  /\ (ri = Ok tt -> left_route w2 machine (rt_revision route)).
Proof.
  destruct (owner_follows _ _ _ _ _ _ _ Ho) as (p & Hp & Hpa). apply linked_sym in Hlink as Hlink'.
  assert (Hreq : forall b, TransitionFinished b ∈ lo -> exists t, Sent (FFinish t b) ∈ li).
  { intros b Hb. destruct (follows_event _ _ _ _ _ Hp Hb) as (pre & [Hj _] & Hsub).
    exists (lit "machine.invalidation.finish"). by eapply linked_got, Hsub. }
  assert (Hauth : forall m route', TransitionBegun m route' ∈ lo -> exists a c,
            Sent (FAuthenticate a) ∈ li /\ authorized no aenv a c route' /\ machine_id c = m).
  { intros m route' Hb. destruct (follows_event _ _ _ _ _ Hp Hb) as (pre & (a & c & Ha & Hc & Hm & _) & Hsub).
    exists a, c. split_and!; [by eapply linked_got, Hsub | done | done]. }
  destruct (remote_log _ _ _ _ _ _ _ _ _ _ _ Hi) as
    [(-> & Hri & Hli) | (c & lp & s & Hc & -> & -> & Hlp & Hready)].
  - rewrite Forall_forall in Hli. split_and!; [done | | | | done].
    + intros m route' (a & c & Ha & Hc & <-)%Hauth. apply Hli in Ha. by eapply authorized_request.
    + intros [t Ht]%Hreq. by apply Hli in Ht.
    + intros [t Ht]%Hreq. by apply Hli in Ht.
  - pose proof (commit_and_settle_sound _ _ _ _ _ _ _ _ _ Hok Htarget Hc Hsteps Hanswer) as Hsound.
    assert (Hout : forall b, TransitionFinished b ∈ lo ->
              if b then c = TransitionCommitted else exists e, c = TransitionAborted e).
    { intros b [t Ht]%Hreq. by eapply request_outcome. }
    split_and!.
    + intros Hne. assert (TransitionFinished false ∉ lo) as Hnf.
      { intros [e ->]%Hout. done. }
      assert (Sent (FTyped (lit "machine.invalidation.ready")) ∈ lo) as Hsr.
      { eapply linked_got; [exact Hlink |]. apply elem_of_app. by left. }
      destruct (follows_event _ _ _ _ _ Hp Hsr) as (pre & Hj & Hsub).
      destruct (Hj eq_refl) as (m & route' & Hb). apply Hsub in Hb.
      split; [by eauto |]. split; [| done].
      destruct (begun_is_settled _ _ _ _ _ _ Hp Hpa Hb) as [Hf | [[] Hf]]; auto. done.
    + intros m route' (a & c' & Ha & Hc' & <-)%Hauth. eapply authorized_request; [done |].
      by eapply request_answer.
    + intros [e ->]%Hout. exact Hsound.
    + intros ->%Hout. exact Hsound.
    + destruct c; cbn; [by intros _ | by intros [=] ..].
Qed.
End transition.

(** ** A cluster of two nodes, used by the witnesses *)

Section example.
#[local] Instance plain_sha256 : Sha256 := {| sha256 := fun v => v |}.
#[local] Instance plain_keys : Ssh.SshKeys := AuthorityTheorems.plain_keys.
Import Authority.Relay.

Definition cl_server (incarnation : Uuid) : Server :=
  {| sv_identity :=
       {| incarnation_id := incarnation; Lease.config_epoch := 1; build_id := lit "build";
          profile := Clustered; Lease.config_proof := Some (lit "proof");
          internal_wss_url := Some sample_url; ttl_seconds := 30; safety_margin := 5000000000 |};
     sv_deployment := 99 |}.
Definition cl_node (incarnation : Uuid) : Node :=
  {| nd_server := cl_server incarnation; nd_key := Some sample_key |}.
Definition cl_row : NodeRow :=
  {| node_state := Serving; node_epoch := 1; node_build := lit "build"; node_url := Some sample_url;
     lease_until := 1000 |}.
Definition cl_database : Database :=
  {| deployment := Some {| dep_id := 99; dep_epoch := 1; dep_build := lit "build";
       dep_protocol := 1; dep_profile := Clustered; dep_proof := Some (lit "proof") |};
     nodes := <[7 := cl_row]> {[8 := cl_row]} |}.

(** Node 7 enrolls machine 1 and owns it. *)
Definition cl_w0 : World := fresh_world cl_database {[ 5 := true ]} 5.
Definition cl_created : World :=
  at_tables cl_w0 (fst (create_machine (cl_server 7) FateCommitted true true (ex_at 10)
    {| id_machine := 1; id_enrollment := 2 |} ex_input (token_digest_of ex_token) (tbl cl_w0))).
Definition cl_accept : Tables * result RelayError AcceptedEnrollment :=
  accept_token (cl_server 7) FateCommitted true (ex_at 20) 3 ex_token (tbl cl_created).
Definition cl_accepted : World := {| tbl := fst cl_accept; held := [ex_acc] |}.
Definition cl_activated : World :=
  at_tables cl_accepted (fst (activate (cl_server 7) FateCommitted true (ex_at 30) 4 ex_acc 11
    (lit "relay key") ex_host (tbl cl_accepted))).
Definition cl_claimed : World :=
  at_tables cl_activated (fst (fst (claim_owner (cl_server 7) FateCommitted true (ex_at 40) 1 21 1
    (tbl cl_activated)))).

Lemma cl_reaches_accepted : rtc Ownership.world_step cl_w0 cl_accepted.
Proof.
  eapply rtc_r; [apply rtc_once, (ws_create cl_w0) |].
  unfold cl_accepted. change [ex_acc] with (ex_acc :: held cl_created).
  apply (ws_accept cl_created (cl_server 7) FateCommitted true (ex_at 20) 3 ex_token (fst cl_accept)
           (Ok ex_acc)).
  vm_compute. reflexivity.
Qed.
Lemma cl_reaches_activated : rtc Ownership.world_step cl_w0 cl_activated.
Proof. eapply rtc_r; [apply cl_reaches_accepted |]. apply ws_activate. left. Qed.
Lemma cl_reaches_claimed : rtc Ownership.world_step cl_w0 cl_claimed.
Proof. eapply rtc_r; [apply cl_reaches_activated |]. apply ws_claim. Qed.
Lemma cl_claimed_ok : authority_ok cl_claimed.
Proof. eapply steps_authority_ok; [apply fresh_world_ok | apply cl_reaches_claimed]. Qed.

Definition cl_route : RouteIdentity := {| rt_revision := 1; rt_epoch := 1; rt_connection := 21 |}.
Definition cl_accept_env : AcceptEnv :=
  {| ac_lease := true; ac_upgrade := Some (INTERNAL_PATH, None); ac_clock0 := Some 10;
     ac_clock1 := Some 20; ac_challenge := repeat "001"%byte 32; ac_lease0 := true;
     ac_rows := Some (tbl cl_claimed); ac_now := 50; ac_lease1 := true;
     ac_owner_rows := Some (tbl cl_claimed); ac_ready := true;
     ac_registry := set_tunnels (set_handles initial
       {[1 := installed_handle (new_handle 1 cl_route)]}) {[1 := 1]};
     ac_permit := true; ac_begin := HandedOut; ac_released := true |}.
Definition cl_context : OwnerAuthContext :=
  source_context (cl_node 8) sample_connect_env 1 cl_route 7 Control (repeat "001"%byte 32).
Definition cl_says (f : Frame) : option Incoming := arrives (put_frame f).
(** Node 8 asks node 7 to stop the machine, commits, and says so. *)
Definition cl_env : TransitionEnv :=
  {| te_begin := NotBegun; te_released := true; te_client := true; te_connect := sample_connect_env;
     te_permit := true;
     te_script := script [cl_says (FChallenge (@challenge_frame base64url (cl_node 7) (repeat "001"%byte 32)));
       cl_says (FTyped (lit "owner.accepted")); cl_says (FTyped (lit "machine.invalidation.ready"));
       cl_says (FResult (lit "machine.invalidation.result") (lit "completed"))];
     te_fate := FateCommitted; te_l0 := true; te_l1 := true; te_instants := ex_at 50;
     te_obs_l0 := true; te_obs_l1 := true; te_answer := None; te_now := 50 |}.
Abbreviation cl_request :=
  (@transition_active_machine_protected base64url toy_hmac toy_url toy_internal_codec (cl_node 8)
    cl_env 1 Disabled (Ok (Remote cl_route 7 sample_url)) (tbl cl_claimed)).
Abbreviation cl_owner :=
  (aborted 100%nat (@accept_owner_connection base64url toy_hmac toy_internal_codec (cl_node 7) cl_accept_env)
    (script [cl_says (FAuthenticate (@authenticate_frame base64url cl_context
               (default [] (@owner_response toy_hmac sample_key cl_context))));
             cl_says (FTyped (lit "machine.invalidation.prepare"));
             cl_says (FFinish (lit "machine.invalidation.finish") true)])).

Lemma remote_transition_consistent_witness :
  exists t1 li, cl_request = (t1, li, Ok tt)
  /\ TransitionFinished true ∈ snd (fst cl_owner)
  /\ left_route (at_tables cl_claimed t1) 1 1.
Proof.
  assert (let '(_, li, ri) := cl_request in let '(_, lo, _) := cl_owner in
          ri = Ok tt /\ (gots li = sents lo /\ gots lo = sents li)
          /\ existsb (fun ev => match ev with TransitionFinished b => b | _ => false end) lo = true)
    as Hrun by (vm_compute; repeat split).
  destruct cl_request as [[t1 li] ri] eqn:Ei, cl_owner as [[so' lo] ro] eqn:Eo.
  destruct Hrun as (-> & [Hg Hs] & Hf).
  apply existsb_exists in Hf as (ev & Hin & Hev). apply list_elem_of_In in Hin.
  destruct ev as [| | | | | | |b]; try discriminate Hev. subst b.
  exists t1, li. split; [exact eq_refl |]. split; [exact Hin |].
  assert (linked li lo) as Hlink by (split; [exists []; by rewrite app_nil_r | exists []; by rewrite app_nil_r]).
  destruct (@remote_transition_consistent base64url toy_hmac toy_url toy_internal_codec plain_sha256
    plain_keys cl_claimed (at_tables cl_claimed t1) (cl_node 8) (cl_node 7) cl_env cl_accept_env 100%nat
    _ so' 1 Disabled cl_route 7 sample_url t1 li lo (Ok tt) ro cl_claimed_ok (or_intror eq_refl) Ei Eo
    Hlink (rtc_refl _ _) (or_intror eq_refl)) as (_ & _ & _ & _ & Hleft).
  exact (Hleft eq_refl).
Defined.
End example.
