(* ===== verification/Proxy.v ===== *)
(** * Proxy: serving an attachment that another node owns

    Models the rest of [crates/owlmux-server/src/internal.rs]:
    [proxy_attachment], which copies messages between the public websocket
    and the owner connection, the attachment socket of the owner's end
    ([InternalAttachmentSocket]), and the connection limits with the accept
    loop of [InternalRuntime::serve]. *)

From S2P Require Import Prelude Text Contracts Binary Secrets Cluster Config Wire Session Lease Tables Authority Registry AttachmentFrames Internal InternalTheorems.
Import Authority.OwnerRs.

(** ** Messages *)

(** [Frame] stands for a raw frame, which only the internal websocket can yield; a
    close frame carries its code and reason. *)
Inductive ProxyMessage : Type :=
| PText (text : bytes) | PClose (frame : option (Z * bytes)) | PPing (value : bytes)
| PPong (value : bytes) | PBinary (value : bytes) | PFrame.

Inductive Side : Type := Public | InternalSide.
Global Instance Side_eq_dec : EqDecision Side.
Proof. solve_decision. Defined.
Definition other (s : Side) : Side := match s with Public => InternalSide | InternalSide => Public end.

(** The frames of [send_public_error]. *)
Inductive PublicFrame : Type := PhaseFailed | WorkspaceError (code message : bytes).

Inductive ProxyEffect : Type :=
| Copied (target : Side) (m : ProxyMessage)
| Told (f : PublicFrame).

(** A turn of the [select!]: the node fence fires, or one side yields the end
    of its stream ([None]), an error ([Some None]) or a message; then come the
    lease check and the fate of the write. *)
Inductive ProxyTurn : Type :=
| FenceFired
| Yielded (source : Side) (m : option (option ProxyMessage)) (lease_ok : bool) (fate : SendFate).

(** A write under a timeout. *)
Definition proxy_write (e : ProxyEffect) (fate : SendFate)
    : list ProxyEffect * result OwnerError unit :=
  match fate with
  | Delivered => ([e], Ok tt)
  | Dropped => ([], Err Unreachable)
  | DeliveredUnseen => ([e], Err Unreachable)
  end.

(** [CloseCode::from] and [into] are inverse on every [u16]: the code is kept. *)
Definition send_close (target : Side) (frame : option (Z * bytes)) (fate : SendFate)
    : list ProxyEffect * result OwnerError unit :=
  proxy_write (Copied target (PClose frame)) fate.

(** [None]: the loop goes on. *)
Definition flow_of (r : result OwnerError unit) : option (result OwnerError unit) :=
  match r with Ok _ => None | Err e => Some (Err e) end.

Definition proxy_message (source : Side) (m : ProxyMessage) (fate : SendFate)
    : list ProxyEffect * option (result OwnerError unit) :=
  match m with
  | PText text =>
      if MAX_FRAME_BYTES <? zlen text then ([], Some (Err Unreachable))
      else let '(e, r) := proxy_write (Copied (other source) (PText text)) fate in (e, flow_of r)
  | PClose frame => let '(e, r) := send_close (other source) frame fate in (e, Some r)
  | PPing value =>
      let '(e, r) := proxy_write (Copied (other source) (PPing value)) fate in (e, flow_of r)
  | PPong _ | PFrame => ([], None)
  | PBinary _ => ([], Some (Err Unreachable))
  end.

Definition proxy_turn (t : ProxyTurn) : list ProxyEffect * option (result OwnerError unit) :=
  match t with
  | FenceFired => ([], Some (Err Fenced))
  | Yielded source m lease_ok fate =>
      match m with
      | None => ([], Some (Ok tt))
      | Some None => ([], Some (Err Unreachable))
      | Some (Some m) =>
          if negb lease_ok then ([], Some (Err Fenced)) else proxy_message source m fate
      end
  end.

(** The loop over its turns; [None] means that it is still running. *)
Fixpoint proxy_loop (turns : list ProxyTurn)
    : list ProxyEffect * option (result OwnerError unit) :=
  match turns with
  | [] => ([], None)
  | t :: rest =>
      match proxy_turn t with
      | (e, Some r) => (e, Some r)
      | (e, None) => let '(e', r) := proxy_loop rest in (e ++ e', r)
      end
  end.

(** [send_public_error]; its own outcome is ignored by the callers. *)
Definition send_public_error (code message : bytes) (fate0 fate1 : SendFate) : list ProxyEffect :=
  match proxy_write (Told PhaseFailed) fate0 with
  | (e, Ok _) => e ++ fst (proxy_write (Told (WorkspaceError code message)) fate1)
  | (e, Err _) => e
  end.

Section proxy.
Context `{Hbase : Base64} `{Hhmac : Hmac} `{Hurl : UrlParser} `{Hcodec : InternalCodec}.

Record ProxyEnv : Type := {
  px_client : bool; px_permit : bool; px_connect : ConnectEnv; px_script : Script;
  px_fate0 : SendFate; px_fate1 : SendFate;
}.

Definition proxy_attachment (nd : Node) (env : ProxyEnv) (machine : Uuid) (route : RouteIdentity)
    (destination : Uuid) (url : bytes) (turns : list ProxyTurn)
    : list ProxyEffect * option (result OwnerError unit) :=
  if negb (px_client env) then ([], Some (Err Invariant))
  else if negb (px_permit env) then
    (send_public_error (lit "overloaded") (lit "Internal routing capacity is exhausted.")
       (px_fate0 env) (px_fate1 env), Some (Err Unreachable))
  else match snd (connect_authenticated nd (px_connect env) machine route destination url Attachment
                    (px_script env)) with
       | Err e =>
           (send_public_error (lit "owner_unreachable") (lit "The Machine owner is unreachable.")
              (px_fate0 env) (px_fate1 env), Some (Err e))
       | Ok _ => proxy_loop turns
       end.
End proxy.

(** ** The owner's end: [InternalAttachmentSocket] *)

Definition internal_receive_text (m : option (option ProxyMessage))
    : result AttachmentWireError bytes :=
  match m with
  | None | Some None => Err WireClosed
  | Some (Some (PText text)) => Ok text
  | Some (Some (PClose _)) => Err WireClosed
  | Some (Some _) => Err WireProtocol
  end.
Definition internal_send_text (delivered : bool) : result AttachmentWireError unit :=
  if delivered then Ok tt else Err WireUnavailable.

(** The public end of a local attachment sees the same messages, a ping
    included, as [AttachmentFrames.WsMessage]. *)
Definition ws_of (m : ProxyMessage) : WsMessage :=
  match m with PText t => WsText t | PClose _ => WsClose | _ => WsOther end.

(** ** The proxy is a pipe *)

(** What a turn that goes on copies to the other side. *)
Definition copied_by (t : ProxyTurn) : list ProxyEffect :=
  match t with
  | Yielded source (Some (Some (PText text))) _ _ => [Copied (other source) (PText text)]
  | Yielded source (Some (Some (PPing value))) _ _ => [Copied (other source) (PPing value)]
  | _ => []
  end.

(** A turn that goes on was made under a valid lease, by a message that fits
    and is not binary, and its write was seen to succeed. *)
Definition goes_on (t : ProxyTurn) : Prop :=
  match t with
  | Yielded _ (Some (Some (PText text))) lease fate =>
      lease = true /\ zlen text <= MAX_FRAME_BYTES /\ fate = Delivered
  | Yielded _ (Some (Some (PPing _))) lease fate => lease = true /\ fate = Delivered
  | Yielded _ (Some (Some (PPong _ | PFrame))) lease _ => lease = true
  | _ => False
  end.

Lemma proxy_turn_goes_on t e : proxy_turn t = (e, None) <-> goes_on t /\ e = copied_by t.
Proof.
  destruct t as [|source [[m|]|] lease fate]; cbn; try (split; [done | by intros [[] _]]).
  destruct lease; cbn; [| destruct m; naive_solver].
  destruct m as [text|f|v|v|v|]; cbn; try naive_solver.
  - destruct (Z.ltb_spec MAX_FRAME_BYTES (zlen text)); [naive_solver lia |].
    destruct fate; cbn; naive_solver.
  - destruct fate; cbn; naive_solver.
  - destruct fate; cbn; naive_solver.
Qed.

(** The turns of a source in a history, as messages. *)
Definition messages_of (s : Side) (turns : list ProxyTurn) : list ProxyMessage :=
  omap (fun t => match t with
                 | Yielded source (Some (Some m)) _ _ =>
                     match m with
                     | PText _ | PPing _ => if decide (source = s) then Some m else None
                     | _ => None
                     end
                 | _ => None
                 end) turns.
Definition copies_to (s : Side) (e : list ProxyEffect) : list ProxyMessage :=
  omap (fun x => match x with
                 | Copied target m => if decide (target = s) then Some m else None
                 | Told _ => None
                 end) e.

Lemma copies_to_app s e e' : copies_to s (e ++ e') = copies_to s e ++ copies_to s e'.
Proof. apply omap_app. Qed.

Lemma copied_by_messages s t :
  copies_to (other s) (copied_by t) = messages_of s [t].
Proof.
  destruct t as [|source [[m|]|] lease fate]; try done.
  destruct m; try done; cbn; by destruct s, source.
Qed.

Lemma copied_messages s turns :
  copies_to (other s) (concat (map copied_by turns)) = messages_of s turns.
Proof.
  induction turns as [|t turns IH]; [done |]. cbn [map concat].
  rewrite copies_to_app, IH, copied_by_messages. unfold messages_of.
  change (t :: turns) with ([t] ++ turns). by rewrite omap_app.
Qed.

(** The proxy is a pair of transparent pipes: up to the turn it ends at,
    each side receives exactly the texts and pings the other side sent, in
    their order and unchanged, all of them within the frame limit and copied
    under a valid lease.  The last turn copies at most one message, a close
    frame keeps its code and reason, and the loop reports success only when a
    side ended its stream or closed. *)
Theorem proxy_transparent (turns : list ProxyTurn) (e : list ProxyEffect)
    (r : option (result OwnerError unit)) (Hrun : proxy_loop turns = (e, r)) :
  exists n last, Forall goes_on (take n turns)
  /\ (forall s, copies_to (other s) e = messages_of s (take n turns) ++ copies_to (other s) last)
  /\ match r with
     | None => n = length turns /\ last = []
     | Some r => exists t, turns !! n = Some t /\ proxy_turn t = (last, Some r)
         /\ (length last <= 1)%nat
         /\ (r = Ok tt -> exists source lease fate,
               t = Yielded source None lease fate
               \/ exists frame, t = Yielded source (Some (Some (PClose frame))) lease fate
                    /\ lease = true /\ last = [Copied (other source) (PClose frame)])
     end.
Proof.
  revert e r Hrun; induction turns as [|t turns IH]; intros e r Hrun; cbn in Hrun.
  { simplify_eq. exists O, []. by split_and!. }
  destruct (proxy_turn t) as [e1 [r1|]] eqn:Et.
  - injection Hrun as <- <-. exists O, e1. cbn. split_and!; [done | done |].
    exists t. split_and!; try done.
    + destruct t as [|source [[m|]|] lease fate]; cbn in Et; simplify_eq/=; try lia.
      destruct lease; cbn in Et; [| simplify_eq/=; lia].
      destruct m; cbn in Et; try case_match; destruct fate; simplify_eq/=; lia.
    + intros ->. destruct t as [|source [[m|]|] lease fate]; cbn in Et; simplify_eq/=; eauto.
      destruct lease; cbn in Et; [| done].
      destruct m; cbn in Et; try case_match; destruct fate; simplify_eq/=; eauto 10.
  - destruct (proxy_loop turns) as [e2 r2]. injection Hrun as <- <-.
    apply proxy_turn_goes_on in Et as [Hg ->].
    destruct (IH e2 r2 eq_refl) as (n & last & Hf & Hc & Hr). exists (S n), last.
    split; [by constructor |]. split.
    + intros s. cbn [take]. rewrite copies_to_app, Hc, copied_by_messages, app_assoc.
      f_equal. unfold messages_of. change (t :: take n turns) with ([t] ++ take n turns).
      by rewrite omap_app.
    + destruct r2; [done |]. destruct Hr as [-> ->]. by split.
Qed.

(** Both implementations of [AttachmentSocket] read a message alike. *)
Lemma internal_receive_same m :
  internal_receive_text (Some (Some m)) = receive_text (Some (ws_of m)).
Proof. by destruct m. Qed.

(** ** Connection limits *)

(** [InternalLimits]: the permits left of each class. *)
Record InternalLimits : Type := { attachment_permits : Z; control_permits : Z }.
Definition new_limits : InternalLimits :=
  {| attachment_permits := MAX_CONNECTIONS; control_permits := MAX_CONTROL_CONNECTIONS |}.

Definition try_attachment (l : InternalLimits) : option InternalLimits :=
  if 0 <? attachment_permits l
  then Some {| attachment_permits := attachment_permits l - 1; control_permits := control_permits l |}
  else None.
Definition try_control (l : InternalLimits) : option InternalLimits :=
  if 0 <? control_permits l
  then Some {| attachment_permits := attachment_permits l; control_permits := control_permits l - 1 |}
  else None.
Definition acquire_class (l : InternalLimits) (class : ConnectionClass)
    : result OwnerError InternalLimits :=
  ok_or Unavailable (match class with Attachment => try_attachment l | Control => try_control l end).
(** Dropping a class permit. *)
Definition release_class (l : InternalLimits) (class : ConnectionClass) : InternalLimits :=
  match class with
  | Attachment => {| attachment_permits := attachment_permits l + 1;
                     control_permits := control_permits l |}
  | Control => {| attachment_permits := attachment_permits l;
                  control_permits := control_permits l + 1 |}
  end.

(** A connection task of [serve]: before its authorization it holds a
    pre-authentication permit, afterwards one of its class. *)
Inductive TaskState : Type := Preauth | Serving (class : ConnectionClass).
Global Instance TaskState_eq_dec : EqDecision TaskState.
Proof. solve_decision. Defined.

Record Runtime : Type := {
  preauth_permits : Z; limits : InternalLimits; tasks : gmap Z TaskState;
}.
Definition new_runtime : Runtime :=
  {| preauth_permits := MAX_CONNECTIONS; limits := new_limits; tasks := ∅ |}.

(** An accepted stream becomes a task, or is dropped when no permit is left. *)
Definition accept_stream (id : Z) (r : Runtime) : Runtime * bool :=
  if 0 <? preauth_permits r
  then ({| preauth_permits := preauth_permits r - 1; limits := limits r;
           tasks := <[id := Preauth]> (tasks r) |}, true)
  else (r, false).

(** [acquire_class] and the drop of the pre-authentication permit; a refused
    task ends and drops its permit as well. *)
Definition authorize_task (id : Z) (class : ConnectionClass) (r : Runtime) : Runtime :=
  match acquire_class (limits r) class with
  | Ok l => {| preauth_permits := preauth_permits r + 1; limits := l;
               tasks := <[id := Serving class]> (tasks r) |}
  | Err _ => {| preauth_permits := preauth_permits r + 1; limits := limits r;
                tasks := delete id (tasks r) |}
  end.

(** The end of a task drops what it holds. *)
Definition end_task (id : Z) (r : Runtime) : Runtime :=
  match tasks r !! id with
  | Some Preauth => {| preauth_permits := preauth_permits r + 1; limits := limits r;
                       tasks := delete id (tasks r) |}
  | Some (Serving class) => {| preauth_permits := preauth_permits r;
                               limits := release_class (limits r) class;
                               tasks := delete id (tasks r) |}
  | None => r
  end.

Inductive runtime_step : Runtime -> Runtime -> Prop :=
| rs_accept r id : tasks r !! id = None -> runtime_step r (fst (accept_stream id r))
| rs_authorize r id class :
    tasks r !! id = Some Preauth -> runtime_step r (authorize_task id class r)
| rs_end r id : runtime_step r (end_task id r).

(** The tasks in a state. *)
Definition running (s : TaskState) (m : gmap Z TaskState) : Z :=
  Z.of_nat (size (filter (fun kv => kv.2 = s) m)).

Lemma running_empty s : running s ∅ = 0.
Proof. unfold running. by rewrite map_filter_empty, map_size_empty. Qed.

Lemma running_delete s m id t :
  m !! id = Some t -> running s (delete id m) = running s m - (if decide (t = s) then 1 else 0).
Proof.
  intros Hm. unfold running. rewrite map_filter_delete. destruct (decide (t = s)) as [Ht | Ht].
  - assert (filter (fun kv => kv.2 = s) m !! id = Some t) as Hf by by apply map_lookup_filter_Some.
    rewrite (map_size_delete_Some _ _ (mk_is_Some _ _ Hf)).
    assert (size (filter (fun kv => kv.2 = s) m) <> 0%nat) as Hne.
    { intros Hz. apply map_size_empty_inv in Hz. rewrite Hz in Hf. by rewrite lookup_empty in Hf. }
    lia.
  - rewrite delete_id; [lia |]. apply map_lookup_filter_None. right. cbn. naive_solver.
Qed.

Lemma running_insert_new s m id t :
  m !! id = None -> running s (<[id := t]> m) = running s m + (if decide (t = s) then 1 else 0).
Proof.
  intros Hm. unfold running. destruct (decide (t = s)) as [Ht | Ht].
  - rewrite map_filter_insert_True by done. rewrite map_size_insert_None; [lia |].
    apply map_lookup_filter_None. by left.
  - rewrite map_filter_insert_False by done. rewrite delete_id by done. lia.
Qed.

Lemma running_insert s m id t t' :
  m !! id = Some t ->
  running s (<[id := t']> m) = running s m - (if decide (t = s) then 1 else 0)
                               + (if decide (t' = s) then 1 else 0).
Proof.
  intros Hm. rewrite <- (insert_delete_eq m id t').
  rewrite running_insert_new by apply lookup_delete_eq. by rewrite (running_delete s m id t Hm).
Qed.

Record runtime_ok (r : Runtime) : Prop := {
  ro_preauth : preauth_permits r + running Preauth (tasks r) = MAX_CONNECTIONS;
  ro_attachments : attachment_permits (limits r) + running (Serving Attachment) (tasks r)
                   = MAX_CONNECTIONS;
  ro_controls : control_permits (limits r) + running (Serving Control) (tasks r)
                = MAX_CONTROL_CONNECTIONS;
  ro_nonneg : 0 <= preauth_permits r /\ 0 <= attachment_permits (limits r)
              /\ 0 <= control_permits (limits r);
}.

Lemma runtime_step_ok r r' : runtime_ok r -> runtime_step r r' -> runtime_ok r'.
Proof.
  intros [Hp Ha Hc Hn]. destruct 1 as [r id Hid | r id class Hid | r id].
  - unfold accept_stream. destruct (Z.ltb_spec 0 (preauth_permits r)); [| by split].
    split; cbn; rewrite ?(running_insert_new _ _ _ _ Hid); repeat case_decide; simplify_eq; cbn; lia.
  - unfold authorize_task, acquire_class, try_attachment, try_control.
    destruct class;
      [destruct (Z.ltb_spec 0 (attachment_permits (limits r)))
      | destruct (Z.ltb_spec 0 (control_permits (limits r)))]; cbn; split; cbn;
      rewrite ?(running_insert _ _ _ _ _ Hid), ?(running_delete _ _ _ _ Hid); repeat case_decide; simplify_eq; cbn; lia.
  - unfold end_task. destruct (tasks r !! id) as [[|class]|] eqn:Hid; [| | by split];
      try destruct class; split; cbn; rewrite ?(running_delete _ _ _ _ Hid); repeat case_decide; simplify_eq; cbn; lia.
Qed.

Lemma runtime_steps_ok r : rtc runtime_step new_runtime r -> runtime_ok r.
Proof.
  intros H. assert (runtime_ok new_runtime) as Hok.
  { split; cbn; rewrite ?running_empty; by vm_compute. }
  revert Hok; induction H; eauto using runtime_step_ok.
Qed.

(** C32. Connection capacity is exact and separate per class: in every
    history of the accept loop, a stream is dropped only while 128 connections
    are still unauthenticated, an attachment is refused only while 128
    attachments are served, and an invalidation is refused only while 8
    invalidations run; no number of attachments takes that path away. *)
Theorem capacity_exact (r : Runtime) (Hr : rtc runtime_step new_runtime r) :
  (forall id, snd (accept_stream id r) = false <-> running Preauth (tasks r) = MAX_CONNECTIONS)
  /\ (acquire_class (limits r) Attachment = Err Unavailable
      <-> running (Serving Attachment) (tasks r) = MAX_CONNECTIONS)
  /\ (acquire_class (limits r) Control = Err Unavailable
      <-> running (Serving Control) (tasks r) = MAX_CONTROL_CONNECTIONS).
Proof.
  apply runtime_steps_ok in Hr as [Hp Ha Hc Hn].
  unfold accept_stream, acquire_class, try_attachment, try_control. split_and!.
  - intros id. destruct (Z.ltb_spec 0 (preauth_permits r)); cbn; split; done || lia.
  - destruct (Z.ltb_spec 0 (attachment_permits (limits r))); cbn; split; done || lia.
  - destruct (Z.ltb_spec 0 (control_permits (limits r))); cbn; split; done || lia.
Qed.

Lemma proxy_transparent_witness :
  exists e, proxy_loop [Yielded Public (Some (Some (PText (lit "hello")))) true Delivered;
                        Yielded InternalSide (Some (Some (PPing []))) true Delivered;
                        Yielded Public (Some (Some (PClose (Some (1000, []))))) true Delivered]
            = (e, Some (Ok tt))
  /\ copies_to InternalSide e = [PText (lit "hello"); PClose (Some (1000, []))].
Proof.
  destruct (proxy_loop _) as [e r] eqn:E.
  destruct (proxy_transparent _ _ _ E) as (n & last & Hg & Hc & Hr).
  exists e. vm_compute in E. injection E as <- <-. split; reflexivity.
Defined.

Lemma capacity_exact_witness :
  exists r, rtc runtime_step new_runtime r
  /\ ~ running (Serving Control) (tasks r) = MAX_CONTROL_CONNECTIONS.
Proof.
  exists (authorize_task 1 Attachment (fst (accept_stream 1 new_runtime))).
  assert (rtc runtime_step new_runtime
            (authorize_task 1 Attachment (fst (accept_stream 1 new_runtime)))) as Hr.
  { apply (rtc_l _ _ (fst (accept_stream 1 new_runtime))); [by apply rs_accept |].
    apply rtc_once. by apply rs_authorize. }
  split; [exact Hr |]. intros H.
  destruct (capacity_exact _ Hr) as (_ & _ & _ & Hc). apply Hc in H. vm_compute in H. discriminate H.
Defined.
