(* ===== verification/AttachmentTheorems.v ===== *)
(** * AttachmentTheorems: every handler of an attachment keeps the discipline

    Runs each handler of [Attachment] with the calculus of [AttachmentSafety]
    and puts the results together into the theorems on frames and sessions. *)

From S2P Require Import Prelude Text Contracts Secrets RelayProtocol Wire Ssh TmuxGrammar TmuxControl Authority Registry Writer AttachmentFrames Attachment AttachmentSafety.

Section handlers.
Context `{Hbase : Base64} `{Hcodec : AttachmentCodec} (oracle : Oracle) (machine attachment : Uuid).
Implicit Types (s : WriterScope) (h : list Event) (sel : Selection) (ws : WorkspaceState).

(** Unfold the small steps the handlers are made of. *)
Ltac open_handler :=
  unfold as_writer, try_dispatch_operation, send_writer_required, send_stale_operation, reply,
    mutate_and_refresh, mutate_checked, mutation_result, refresh_after_mutation, clear_current,
    demote_old, promote, send_transition_failed, wr_operation.
Ltac handle := open_handler; ens_run; (split; [split|]); settle_frame.

Lemma pane_input_post ws rid ce we pane data s h :
  received attachment (PaneInput rid ce we pane data) h ->
  ensures (handle_pane_input oracle machine attachment ws rid ce we pane data)
    (frame_post attachment (PaneInput rid ce we pane data)) s h.
Proof. intros [Hd Hl Hf]. unfold handle_pane_input. handle. Qed.

Lemma resize_post sel ws rid ce we sz s h :
  received attachment (ClientResize rid ce we sz) h ->
  ensures (handle_resize oracle machine attachment sel ws rid ce we sz)
    (frame_post attachment (ClientResize rid ce we sz)) s h.
Proof. intros [Hd Hl Hf]. unfold handle_resize. handle. Qed.

Lemma window_select_post sel ws rid ce we window b code message s h :
  received attachment (WindowSelect rid ce we window) h ->
  ensures (handle_select oracle machine attachment sel ws rid WindowSelectOp b (ToWindow window) code message)
    (frame_post attachment (WindowSelect rid ce we window)) s h.
Proof. intros [Hd Hl Hf]. unfold handle_select. handle. Qed.

Lemma pane_select_post sel ws rid ce we pane b code message s h :
  received attachment (PaneSelect rid ce we pane) h ->
  ensures (handle_select oracle machine attachment sel ws rid PaneSelectOp b (ToPane pane) code message)
    (frame_post attachment (PaneSelect rid ce we pane)) s h.
Proof. intros [Hd Hl Hf]. unfold handle_select. handle. Qed.

Lemma refresh_post sel ws rid ce we s h :
  received attachment (WorkspaceRefresh rid ce we) h ->
  ensures (handle_refresh oracle machine attachment sel ws rid ce we)
    (frame_post attachment (WorkspaceRefresh rid ce we)) s h.
Proof. intros [Hd Hl Hf]. unfold handle_refresh. handle. Qed.

Definition request_frame (r : WriterRequest) : ClientFrame :=
  if wr_takeover r
  then WriterTakeover (wr_request_id r) (wr_connection_epoch r) (wr_epoch r) (wr_size r)
  else WriterClaim (wr_request_id r) (wr_connection_epoch r) (wr_epoch r) (wr_size r).

(** A run in progress: what the rest of a handler can rely on. *)
Record running (f : ClientFrame) (h : list Event) : Prop := {
  running_disciplined : disciplined attachment h;
  running_request : last_request h = Some f;
  running_replies : existsb is_reply (since_request h) = false;
  running_certain : existsb uncertain (since_request h) = false;
  running_checked : checked (since_request h) = true;
}.

Lemma settle_writer_post sel ws r old f s h :
  running f h -> request_of f = Some (wr_request_id r, wr_operation r) ->
  asks_for f (Resize (wr_size r)) ->
  dispatch_held s = true -> attachment_id <$> current s = Some attachment ->
  ensures (settle_writer oracle machine attachment sel ws r old) (frame_post attachment f) s h.
Proof.
  intros [Hd Hl Hr Hu Hc] Hf Ha Hs Hcur. pose proof (no_replies _ Hr) as Hn.
  unfold settle_writer, close_old. unfold send_transition_failed, reply, clear_current. ens_run.
  all: (split; [split|]; settle_frame).
Qed.

(** Demoting the old writer: what the rest runs on when it goes on. *)
Lemma demote_old_post r f Q s h :
  received attachment f h -> request_of f = Some (wr_request_id r, wr_operation r) ->
  confirmed_by_target (wr_operation r) = false ->
  dispatch_held s = true -> is_current s attachment = false ->
  (is_Some (current_control s) -> exists rid ce ae sz, f = WriterTakeover rid ce ae sz) ->
  (forall s' h' e, settled attachment f false s' h' -> Q s' h' (Err e)) ->
  (forall s' h', settled attachment f true s' h' -> Q s' h' (Ok false)) ->
  (forall h', running f h' -> entitled attachment (SetWriter true) (current s) h' -> Q s h' (Ok true)) ->
  ensures (demote_old oracle machine r (current_control s)) Q s (CheckedRoute true :: h).
Proof.
  intros [Hd Hl Hf] Hreq Hop Hs Hcur Htake Herr Hstop Hgo.
  assert (forall c, current_control s = Some c -> demotion_ok (CheckedRoute true :: h)) as Hdem.
  { intros c Hc. destruct Htake as (? & ? & ? & ? & ->); [by exists c |]. split; [done |]. cbn. by rewrite Hl. }
  clear Htake. unfold demotion_ok in Hdem. cbn in Hdem. rewrite Hl in Hdem.
  unfold current_control in *. unfold demote_old, send_transition_failed. ens_run.
  all: first [apply Herr; split | apply Hstop; split | apply Hgo; [split|]].
  all: settle_frame.
  all: destruct (current s) as [[i sz c]|]; cbn in *; simplify_eq; auto.
  all: by destruct (Hdem _ eq_refl).
Qed.

(** A controlled writer is in the way of everything but a takeover. *)
Lemma takeover_of_control r s b :
  negb (is_available s) && b && negb (wr_takeover r) = false -> b = true ->
  is_Some (current_control s) -> exists rid ce ae sz, request_frame r = WriterTakeover rid ce ae sz.
Proof.
  unfold is_available, current_control, request_frame. destruct (current s); [| by intros _ _ [? [=]]].
  intros H -> _. destruct (wr_takeover r); [eauto | done].
Qed.

Lemma promote_post r f old control_tx Q s h :
  running f h -> entitled attachment (SetWriter true) (current s) h ->
  request_of f = Some (wr_request_id r, wr_operation r) ->
  confirmed_by_target (wr_operation r) = false -> asks_for f (SetWriter true) ->
  dispatch_held s = true ->
  (forall s' h' e, settled attachment f false s' h' -> Q s' h' (Err e)) ->
  (forall s' h', settled attachment f true s' h' -> Q s' h' (Ok false)) ->
  (forall h', running f h' -> Q (set_current s attachment (wr_size r) (Some control_tx)) h' (Ok true)) ->
  ensures (promote oracle machine attachment r old control_tx) Q s h.
Proof.
  intros [Hd Hl Hr Hu Hc] He Hreq Hop Ha Hs Herr Hstop Hgo. pose proof (no_replies _ Hr) as Hn.
  unfold promote, send_transition_failed. ens_run.
  all: first [apply Herr; split | apply Hstop; split | apply Hgo; split].
  all: destruct old; settle_frame.
Qed.

Lemma settled_post {A} f s h (e : AttachmentError) :
  settled attachment f false s h -> frame_post (A := A) attachment f s h (Err e).
Proof. by split. Qed.
Lemma settled_chooser {A} f s h (a : A) :
  settled attachment f true s h -> frame_post attachment f s h (Ok (FrameChooser, a)).
Proof. intros []. by split; [split|]. Qed.

Lemma frame_post_drop {A} f s h (r : result AttachmentError (FrameExit * A)) :
  frame_post attachment f s h r -> frame_post attachment f (drop_dispatch s) h r.
Proof. intros [[]]. by split; [split|]. Qed.

Lemma writer_with_control_post sel control_tx ws r s h :
  received attachment (request_frame r) h ->
  ensures (change_writer_with_control oracle machine attachment sel control_tx ws r)
    (frame_post attachment (request_frame r)) s h.
Proof.
  intros Hrec. pose proof Hrec as [Hd Hl Hf].
  assert (request_of (request_frame r) = Some (wr_request_id r, wr_operation r)
          /\ asks_for (request_frame r) (Resize (wr_size r))
          /\ asks_for (request_frame r) (SetWriter true)
          /\ confirmed_by_target (wr_operation r) = false) as (Hreq & Har & Has & Hop).
  { unfold request_frame, wr_operation. by destruct (wr_takeover r). }
  unfold change_writer_with_control, try_dispatch_operation, send_stale_operation, reply.
  pose proof (takeover_of_control r) as Htake. set (f := request_frame r) in *. clearbody f.
  ens_run.
  all: try (split; [split|]; settle_frame; fail).
  - eapply ens_weaken; [apply (settle_writer_post _ _ _ _ f) | intros; by apply frame_post_drop]; auto.
    + by split; cbn; rewrite ?Hf.
    + by rewrite held_set_control, held_update, H0.
    + apply is_current_attachment. by rewrite is_current_set_control, is_current_update.
  - eapply demote_old_post; cbv beta iota; eauto using frame_post_drop, settled_post.
    + intros. ens_run. auto using frame_post_drop, settled_chooser.
    + intros h1 Hrun Hent. cbn [negb]. ens_step.
      eapply promote_post; cbv beta iota; eauto using frame_post_drop, settled_post, eq_trans.
      * intros. ens_run. auto using frame_post_drop, settled_chooser.
      * intros h2 Hrun2. cbn [negb].
        eapply ens_weaken; [apply (settle_writer_post _ _ _ _ f) | intros; by apply frame_post_drop];
          auto using is_current_attachment, is_current_set; cbn; congruence.
Qed.

Lemma workspace_frame_post sel control_tx ws f s h :
  received attachment f h ->
  ensures (handle_workspace_frame oracle machine attachment sel control_tx ws f)
    (frame_post attachment f) s h.
Proof.
  intros Hrec. pose proof Hrec as [Hd Hl Hf].
  destruct f as [rid ce ae sz|rid ce ae sz| | | | | | | | | |]; unfold handle_workspace_frame;
    eauto using pane_input_post, resize_post, window_select_post, pane_select_post, refresh_post.
  1: by apply (writer_with_control_post _ _ _ (Build_WriterRequest rid false ce ae sz)).
  1: by apply (writer_with_control_post _ _ _ (Build_WriterRequest rid true ce ae sz)).
  all: ens_run; (split; [split|]); settle_frame.
Qed.

(** ** The chooser's frames *)

(** After a frame in the chooser: answered when the handler came to its end. *)
Definition chooser_post (f : ClientFrame) {A} s h (r : result AttachmentError A) : Prop :=
  settled attachment f (is_ok r) s h.

Lemma settled_drop f b s h : settled attachment f b s h -> settled attachment f b (drop_dispatch s) h.
Proof. intros []. by split. Qed.

Lemma writer_without_control_post expected r s h :
  received attachment (request_frame r) h ->
  ensures (change_writer_without_control oracle machine attachment expected r)
    (chooser_post (request_frame r)) s h.
Proof.
  intros Hrec. pose proof Hrec as [Hd Hl Hf].
  assert (request_of (request_frame r) = Some (wr_request_id r, wr_operation r)
          /\ confirmed_by_target (wr_operation r) = false) as (Hreq & Hop).
  { unfold request_frame, wr_operation. by destruct (wr_takeover r). }
  unfold change_writer_without_control, reply. pose proof (takeover_of_control r) as Htake.
  set (f := request_frame r) in *. clearbody f.
  ens_run.
  all: try (split; settle_frame; fail).
  eapply demote_old_post; cbv beta iota; unfold chooser_post; eauto using settled_drop, eq_trans.
  - intros Hsome. apply (Htake s'0 true); [by rewrite andb_true_r | done | done].
  - intros. ens_run. by apply settled_drop.
  - intros h1 [Hd1 Hl1 Hr1 Hu1 Hc1] _. pose proof (no_replies _ Hr1) as Hn1. ens_run.
    all: split; settle_frame.
Qed.

Lemma create_session_post route rid ce se name s h :
  received attachment (SessionCreate rid ce se name) h ->
  ensures (create_session oracle machine attachment route rid name)
    (chooser_post (SessionCreate rid ce se name)) s h.
Proof.
  intros [Hd Hl Hf]. unfold create_session, clear_current. ens_run.
  all: try (refine (ens_ask _ AskStream _ _ _ _); intros; ens_run).
  all: split; settle_frame.
Qed.

Lemma chooser_frame_post route probe f s h :
  received attachment f h ->
  ensures (handle_chooser_frame oracle machine attachment route probe f) (chooser_post f) s h.
Proof.
  intros Hrec. pose proof Hrec as [Hd Hl Hf].
  destruct f as [rid ce ae sz|rid ce ae sz| | | | | | | | | |]; unfold handle_chooser_frame, send_stale_operation.
  1: ens_step; eapply ens_weaken; [by apply (writer_without_control_post _ (Build_WriterRequest rid false ce ae sz)) |].
  2: ens_step; eapply ens_weaken; [by apply (writer_without_control_post _ (Build_WriterRequest rid true ce ae sz)) |].
  1,2: intros s' h' [[]|e] Hp; [by apply ens_ret | exact Hp].
  all: ens_run; eauto using create_session_post.
  all: split; settle_frame.
Qed.

(** ** The session *)

Lemma ens_receive Q s h :
  (forall e, Q s h (Err e)) -> (forall f, Q s (Got f :: h) (Ok f)) -> ensures (receive oracle) Q s h.
Proof.
  intros H1 H2. unfold receive. ens_step. refine (ens_ask _ AskText _ _ _ _). intros text. ens_step.
  apply ens_lift. destruct text; cbn [map_err]; [| apply H1]. ens_step. apply ens_lift.
  destruct (decode_text_frame _); [| apply H1]. ens_step. apply ens_emit. apply ens_ret, H2.
Qed.

Lemma ens_and {A} (m : att A) P Q s h :
  ensures m P s h -> ensures m Q s h -> ensures m (fun s' h' r => P s' h' r /\ Q s' h' r) s h.
Proof. intros HP HQ w Hs Hh. specialize (HP w Hs Hh). specialize (HQ w Hs Hh). by destruct (m w). Qed.

Lemma ens_any {A} (m : att A) Q s h : (forall s' h' r, Q s' h' r) -> ensures m Q s h.
Proof. intros H w _ _. by destruct (m w). Qed.

Lemma got_received f h : disciplined attachment h -> received attachment f (Got f :: h).
Proof. by split. Qed.

(** [m] keeps the discipline. *)
Definition keeps {A} (m : att A) : Prop :=
  forall s h, disciplined attachment h -> ensures m (fun _ h' _ => disciplined attachment h') s h.

Lemma keeps_ret {A} (a : A) : keeps (mret a).
Proof. intros s h H. by apply ens_ret. Qed.
Lemma keeps_fail {A} e : keeps (A := A) (fail e).
Proof. intros s h H. by apply ens_fail. Qed.
Lemma keeps_bind {A B} (m : att A) (f : A -> att B) :
  keeps m -> (forall a, keeps (f a)) -> keeps (m ≫= f).
Proof.
  intros Hm Hf s h H. apply ens_bind. eapply ens_weaken; [by apply Hm |].
  intros s' h' [a|e] H'; [by apply Hf | done].
Qed.
Lemma keeps_quiet {A} (m : att A) : quiet m -> keeps m.
Proof. intros Hq s h H. by apply ens_quiet. Qed.
Lemma keeps_holding {A} (m : att A) : keeps m -> keeps (holding_dispatch m).
Proof. intros Hm s h H. apply ens_holding. by apply Hm. Qed.
Lemma keeps_attempt {A} (m : att A) : keeps m -> keeps (attempt m).
Proof. intros Hm s h H. apply ens_attempt. by apply Hm. Qed.

Lemma keeps_dispatch : keeps (dispatch_scope oracle).
Proof. intros s h H. by apply ens_dispatch. Qed.
Lemma keeps_lock : keeps (lock_scope oracle).
Proof. intros s h H. by apply ens_lock. Qed.
Lemma keeps_get : keeps get_scope.
Proof. intros s h H. by apply ens_get. Qed.
Lemma keeps_modify g : keeps (modify g).
Proof. intros s h H. by apply ens_modify. Qed.
Lemma keeps_require : keeps (require_route oracle machine).
Proof. intros s h H. by apply ens_require. Qed.
Lemma keeps_ask q : keeps (ask oracle q).
Proof. intros s h H. by apply ens_ask. Qed.
Lemma keeps_receive_then {B} (k : ClientFrame -> att B) :
  (forall f s h, received attachment f h -> ensures (k f) (fun _ h' _ => disciplined attachment h') s h) ->
  keeps (receive oracle ≫= k).
Proof.
  intros Hk s h H. apply ens_bind. apply ens_receive; [done |]. intros f. by apply Hk, got_received.
Qed.
End handlers.

Create HintDb keeps.
#[export] Hint Resolve keeps_ret keeps_fail keeps_dispatch keeps_lock keeps_get keeps_modify
  keeps_require keeps_ask keeps_receive_then : keeps.
#[export] Hint Extern 2 (keeps _ (emit _)) => (apply keeps_quiet, quiet_emit; reflexivity) : keeps.
#[export] Hint Extern 2 (keeps _ (lift _)) => (apply keeps_quiet, att_quiet_lift) : keeps.
#[export] Hint Extern 2 (keeps _ (on_control _)) => (apply keeps_quiet, quiet_on_control) : keeps.
#[export] Hint Extern 2 (keeps _ (send _ _)) => (apply keeps_quiet, att_quiet_send; reflexivity) : keeps.
#[export] Hint Extern 2 (keeps _ (install_projection _ _)) =>
  (apply keeps_quiet, quiet_install_projection) : keeps.
#[export] Hint Extern 2 (keeps _ (open_relay_stream _)) =>
  (apply keeps_quiet, quiet_open_relay_stream) : keeps.
#[export] Hint Extern 2 (keeps _ (send_fatal_error _ _ _)) =>
  (apply keeps_quiet, quiet_send_fatal_error) : keeps.
#[export] Hint Extern 2 (keeps _ (audit_event _ _)) => (apply keeps_quiet, quiet_audit_event) : keeps.

Ltac keeps_step :=
  first
    [ solve [eauto with keeps nocore]
    | lazymatch goal with
      | |- keeps _ (_ ≫= _) => apply keeps_bind; [| intros]
      | |- keeps _ (holding_dispatch _) => apply keeps_holding
      | |- keeps _ (attempt _) => apply keeps_attempt
      | |- keeps _ (match ?x with _ => _ end) => destruct x
      end ].
Ltac solve_keeps := repeat keeps_step.

Section sessions.
Context `{Hbase : Base64} `{Hcodec : AttachmentCodec} (oracle : Oracle) (machine attachment : Uuid).
Implicit Types (s : WriterScope) (h : list Event) (sel : Selection).

Lemma keeps_send_writer_state e : keeps attachment (send_writer_state oracle attachment e).
Proof. unfold send_writer_state. solve_keeps. Qed.
#[local] Hint Resolve keeps_send_writer_state : keeps.

Lemma keeps_on_directive d : keeps attachment (on_directive d).
Proof.
  unfold on_directive. destruct d as [[response|]|]; [| |solve_keeps]; intros s h H.
  - apply ens_bind, ens_emit. apply ens_bind, ens_mutate; [intros e; by split |]. intros o.
    destruct (bool_decide _); apply ens_ret; by repeat split.
  - apply ens_bind, ens_emit. apply ens_ret. by split.
Qed.

Lemma keeps_on_granted sel st : keeps attachment (on_granted oracle machine sel st).
Proof. unfold on_granted. solve_keeps. Qed.

Lemma keeps_on_control_event st : keeps attachment (on_control_event oracle st).
Proof. unfold on_control_event. solve_keeps. Qed.

Lemma keeps_on_client sel control_tx st :
  keeps attachment (on_client oracle machine attachment sel control_tx st).
Proof.
  unfold on_client. apply keeps_receive_then. intros f s h Hrec. apply ens_bind.
  eapply ens_weaken; [by apply workspace_frame_post |].
  intros s' h' [[exit ws]|e] [[Hd _ _ _] _]; [| done]. by destruct exit; apply ens_ret.
Qed.
#[local] Hint Resolve keeps_on_directive keeps_on_granted keeps_on_control_event keeps_on_client : keeps.

Lemma keeps_workspace_turn sel control_tx t st :
  keeps attachment (workspace_turn oracle machine attachment sel control_tx t st).
Proof. destruct t; unfold workspace_turn; solve_keeps. Qed.
#[local] Hint Resolve keeps_workspace_turn : keeps.

Lemma keeps_workspace_loop sel control_tx turns st :
  keeps attachment (workspace_loop oracle machine attachment sel control_tx turns st).
Proof. revert st; induction turns; intros st; cbn [workspace_loop]; solve_keeps. Qed.

(** The frame that opens a workspace. *)
Definition selecting (h : list Event) : Prop :=
  exists ce se session created, last_request h = Some (SessionSelect ce se session created).

(** The writer's own mutations are in order. *)
Lemma own_mutation m o s h f :
  disciplined attachment h -> dispatch_held s = true -> is_current s attachment = true ->
  checked (since_request h) = true -> last_request h = Some f -> asks_for f m ->
  disciplined attachment (Mutated m o (dispatch_held s) (current s) :: h).
Proof.
  intros Hd Hs Hc%is_current_attachment Hr Hl Ha. split; [| done].
  assert (mutation_ok attachment m (dispatch_held s) (current s) h); [| by destruct m as [[]| | | | |]].
  split_and!; [done.. | by rewrite Hl |].
  destruct (current s) as [w|]; cbn in *; [| done]. simplify_eq. destruct m; cbn; eauto.
Qed.

Lemma start_as_writer_keeps control_tx s h f :
  disciplined attachment h -> dispatch_held s = true -> is_current s attachment = true ->
  checked (since_request h) = true -> last_request h = Some f ->
  asks_for f (SetWriter true) -> (forall sz, asks_for f (Resize sz)) ->
  ensures (start_as_writer attachment control_tx) (fun _ h' _ => disciplined attachment h') s h.
Proof.
  intros. assert (forall o, disciplined attachment (Mutated (SetWriter true) o (dispatch_held s) (current s) :: h))
    by eauto using own_mutation.
  unfold start_as_writer, clear_current. ens_run; try done.
  all: eapply own_mutation; rewrite ?held_set_control, ?is_current_set_control; eauto.
Qed.

Lemma keeps_require_or g : keeps attachment g -> keeps attachment (require_route_or oracle machine g).
Proof.
  intros Hg s h H. unfold require_route_or. apply ens_bind, ens_route.
  intros [|]; [by apply ens_ret |]. revert s. generalize (CheckedRoute false :: h) (conj I H : disciplined attachment (CheckedRoute false :: h)).
  intros h' H' s. revert s h' H'. apply keeps_bind; [done | intros; apply keeps_fail].
Qed.
Lemma keeps_or_dropped {A} e (m : att A) : quiet m -> keeps attachment (or_dropped oracle e m).
Proof. intros H. by apply keeps_quiet, quiet_or_dropped. Qed.
#[local] Hint Resolve keeps_require_or keeps_or_dropped quiet_install_projection : keeps.

(** Opening the workspace the browser has selected. *)
Lemma first_projection_keeps sel control_tx s h :
  disciplined attachment h -> selecting h ->
  ensures (first_projection oracle machine attachment sel control_tx)
    (fun _ h' _ => disciplined attachment h') s h.
Proof.
  intros Hd (ce & se & session & created & Hl). unfold first_projection.
  apply ens_bind, ens_dispatch. intros s1 Hs1. apply ens_holding.
  apply ens_bind, ens_require; [| by split].
  apply ens_bind, ens_lock. intros s2 Hs2. apply ens_bind, ens_get, ens_bind.
  eapply (ens_weaken _ (fun _ h' _ => disciplined attachment h')).
  - destruct (is_current s2 attachment) eqn:Ec; [| by apply ens_ret].
    eapply start_as_writer_keeps; [by split | congruence | done | done | exact Hl | done..].
  - intros s' h' [ready|e] H; [| done]. revert H. revert s' h'.
    match goal with |- forall s' h', _ -> ensures ?m _ s' h' => change (keeps attachment m) end.
    unfold clear_current. solve_keeps.
Qed.

Lemma workspace_keeps sel turns s h :
  disciplined attachment h -> selecting h ->
  ensures (workspace oracle machine attachment sel turns) (fun _ h' _ => disciplined attachment h') s h.
Proof.
  intros Hd Hsel. unfold workspace, race_closed.
  apply ens_bind, ens_quiet; [apply quiet_open_relay_stream |]. intros [r|]; [| done].
  apply ens_bind. refine (ens_ask _ AskClosed _ _ _ _). intros closed.
  destruct (negb _ || closed); [by apply ens_fail |].
  apply ens_bind, ens_bind. refine (ens_ask _ AskClosed _ _ _ _). intros [|]; [by apply ens_fail |]. apply ens_ret.
  apply ens_bind. refine (ens_ask _ AskChild _ _ _ _). intros child.
  apply ens_bind, ens_quiet; [apply quiet_audit_event |]. intros [u|]; [| done].
  apply ens_bind, ens_lift. destruct (map_err _ child); [| done].
  apply ens_bind, ens_bind. refine (ens_ask _ AskClosed _ _ _ _). intros [|]; [by apply ens_fail |]. apply ens_ret.
  apply ens_bind, ens_on_control. intros started.
  apply ens_bind, ens_lift. destruct (map_err _ started); [| done].
  apply ens_bind. refine (ens_ask _ AskFresh _ _ _ _). intros control_tx.
  apply ens_bind. eapply ens_weaken; [by apply first_projection_keeps |].
  intros s' h' [[ws|]|e] H; [| by apply ens_ret | done].
  apply (keeps_bind attachment); [| intros; apply keeps_workspace_loop | done].
  apply keeps_send_writer_state.
Qed.

(** A selection comes from the frame that selects. *)
Definition chosen (h : list Event) (r : result AttachmentError (option ChooserExit)) : Prop :=
  disciplined attachment h /\ forall sel, r = Ok (Some (Selected sel)) -> selecting h.

Lemma selected_by_select route probe f s h :
  received attachment f h ->
  ensures (handle_chooser_frame oracle machine attachment route probe f) (fun _ => chosen) s h.
Proof.
  intros Hrec. destruct f.
  3: { unfold handle_chooser_frame. destruct Hrec as [Hd Hl _]. ens_run; split; try done.
       all: intros; unfold selecting; eauto. }
  all: eapply ens_weaken;
    [apply ens_and; [by apply chooser_frame_post |
       instantiate (1 := fun _ _ r => forall sel, r <> Ok (Some (Selected sel)))] |
     intros ??? [[]]; split; [done | intros sel ->; by exfalso; eapply H]].
  all: unfold handle_chooser_frame, create_session, send_stale_operation, clear_current; ens_run.
  all: try (apply ens_any; intros ?? [[]|]; [apply ens_ret|]).
  all: try (refine (ens_ask _ AskStream _ _ _ _); intros; ens_run).
  all: done.
Qed.

Lemma ens_chosen_bind {A} (m : att A) (f : A -> att (option ChooserExit)) s h :
  keeps attachment m -> disciplined attachment h ->
  (forall a s' h', disciplined attachment h' -> ensures (f a) (fun _ => chosen) s' h') ->
  ensures (m ≫= f) (fun _ => chosen) s h.
Proof.
  intros Hm Hd Hf. apply ens_bind. eapply ens_weaken; [by apply Hm |].
  intros s' h' [a|e] H; [by apply Hf | by split].
Qed.

Lemma chooser_loop_keeps route probe turns s h :
  disciplined attachment h ->
  ensures (chooser_loop oracle machine attachment route probe turns) (fun _ => chosen) s h.
Proof.
  revert s h; induction turns as [|t turns IH]; intros s h Hd; cbn [chooser_loop].
  { apply ens_ret. by split. }
  apply ens_bind. eapply (ens_weaken _ (fun _ => chosen)).
  - destruct t as [|[|]|]; unfold chooser_turn; cbn [negb]; try (apply ens_fail; by split).
    + apply ens_chosen_bind; [apply keeps_send_writer_state | done |].
      intros. apply ens_ret. by split.
    + apply ens_bind, ens_receive; [by split |]. intros f. by apply selected_by_select, got_received.
  - intros s' h' [[exit|]|e] [Hd' Hsel]; [| by apply IH | by split].
    apply ens_ret. split; [done |]. intros sel [= ->]. by eapply Hsel.
Qed.

Lemma chooser_keeps expected turns s h :
  disciplined attachment h ->
  ensures (chooser oracle machine attachment expected turns) (fun _ => chosen) s h.
Proof.
  intros Hd. unfold chooser, race_closed, take_scope.
  assert (forall e, ensures (fail e) (fun _ => chosen) s h) as Hfail.
  { intros e. apply ens_fail. by split. }
  apply ens_chosen_bind; [solve_keeps | done | intros _ s1 h1 H1].
  apply ens_chosen_bind; [solve_keeps | done | intros route s2 h2 H2].
  destruct (negb _); [apply ens_fail; by split |].
  repeat (apply ens_chosen_bind; [by (unfold audit_ok; solve_keeps) | done | intros ??? ?]).
  by apply chooser_loop_keeps.
Qed.

Lemma keeps_fatal e : keeps attachment (fatal oracle e).
Proof. unfold fatal. solve_keeps. Qed.
#[local] Hint Resolve keeps_fatal : keeps.

Lemma keeps_session expected rounds :
  keeps attachment (authenticated_session oracle machine attachment expected rounds).
Proof.
  induction rounds as [|[chooser_turns turns] rounds IH]; cbn [authenticated_session]; [solve_keeps |].
  intros s h Hd. apply ens_bind, ens_attempt. eapply ens_weaken; [by apply chooser_keeps |].
  intros s1 h1 r [Hd1 Hsel]. destruct r as [[[sel| |]|]|e]; [| by apply IH | by apply ens_ret..|].
  - apply ens_bind, ens_attempt. eapply ens_weaken; [by apply workspace_keeps; eauto |].
    intros s2 h2 r2 Hd2. revert s2 h2 Hd2.
    match goal with |- forall s' h', _ -> ensures ?m _ s' h' => change (keeps attachment m) end.
    unfold leave_workspace. solve_keeps.
  - revert s1 h1 Hd1 Hsel. intros s1 h1 Hd1 _. revert s1 h1 Hd1.
    match goal with |- forall s' h', _ -> ensures ?m _ s' h' => change (keeps attachment m) end.
    solve_keeps.
Qed.
#[local] Hint Resolve keeps_session : keeps.

Lemma keeps_attachment_session key lease_ok first resolved rounds :
  keeps attachment (attachment_session oracle machine attachment key lease_ok first resolved rounds).
Proof.
  unfold attachment_session, run_owner_attachment, temporarily_unavailable, release_attachment,
    clear_current. solve_keeps.
Qed.
End sessions.

(** ** The theorems *)

Section theorems.
Context `{Hbase : Base64} `{Hcodec : AttachmentCodec} (oracle : Oracle) (machine attachment : Uuid).

(** C2. Whatever the browser, the target, the other attachments and the
    network do, the whole trace of an attachment is disciplined: a mutation of
    the target is dispatched only while the dispatch mutex is held, after a
    route check that passed since the browser's last frame, when that frame
    asks for this very mutation, and by the current writer; a control client
    becomes a writer only if nobody writes, the attachment is the writer, or
    the writer's control has just confirmed its demotion, and it is demoted
    only for a directive just taken from its channel; and every reply
    answers the last frame, at most once, reports ambiguity exactly when
    something is uncertain, and success of a target operation only on the
    target's confirmation. *)
Theorem attachment_disciplined (key : bytes) (lease_ok : bool)
    (first : option (option (option WsMessage))) (resolved : result OwnerRs.OwnerError OwnerRs.OwnerRoute)
    (rounds : list (list ChooserTurn * list Turn)) (s : WriterScope) (a : Adapter) :
  let '(w', _) := attachment_session oracle machine attachment key lease_ok first resolved rounds
                    {| clock := 0; shared := s; adapter := a; trace := [] |} in
  disciplined attachment (trace w').
Proof.
  pose proof (keeps_attachment_session oracle machine attachment key lease_ok first resolved rounds
    s [] I {| clock := 0; shared := s; adapter := a; trace := [] |} eq_refl eq_refl) as H.
  destruct (attachment_session _ _ _ _ _ _ _ _ _) as [w' r]. by apply disciplined_filter.
Qed.

Definition frame_received (w : World) (f : ClientFrame) : Prop :=
  exists t, trace w = Got f :: t /\ disciplined attachment t.

Lemma frame_received_hist w f : frame_received w f -> received attachment f (hist w).
Proof.
  intros (t & Ht & Hd). unfold hist. rewrite Ht. split; cbn; [|done..].
  split; [done |]. by apply disciplined_filter.
Qed.

Lemma workspace_frame_run w f sel control_tx ws :
  frame_received w f ->
  let '(w', r) := handle_workspace_frame oracle machine attachment sel control_tx ws f w in
  frame_post attachment f (shared w') (hist w') r.
Proof.
  intros Hf. exact (workspace_frame_post oracle machine attachment sel control_tx ws f _ _
    (frame_received_hist _ _ Hf) w eq_refl eq_refl).
Qed.

(** C35. A frame of the workspace is answered exactly once: when its handler
    lets the workspace go on and the frame carries a request, then since the
    frame exactly one operation result was written, for that request and its
    operation, and the write succeeded. *)
Theorem workspace_frame_answered (w w' : World) (f : ClientFrame) (sel : Selection)
    (control_tx : ControlSender) (ws ws' : WorkspaceState) (rid : Uuid) (op : Operation)
    (Hf : frame_received w f) (Hop : request_of f = Some (rid, op))
    (Hrun : handle_workspace_frame oracle machine attachment sel control_tx ws f w
            = (w', Ok (FrameContinue, ws'))) :
  exists outcome code message fate,
    List.filter is_reply (since_request (trace w'))
    = [Wrote (OperationResult rid op outcome code message) fate]
    /\ write_result fate = Ok tt.
Proof.
  pose proof (workspace_frame_run w f sel control_tx ws Hf) as H. rewrite Hrun in H.
  destruct H as [[_ _ Hreply _] _]. specialize (Hreply eq_refl). unfold replied in Hreply.
  rewrite Hop in Hreply. unfold hist in Hreply. rewrite <-since_request_filter in Hreply.
  by rewrite filter_reply_essential in Hreply.
Qed.

(** C21. Uncertainty fails closed: when a mutation or a demotion since the
    frame has an ambiguous outcome, the attachment is not the writer when the
    handler returns, however it returns, and the workspace does not go on. *)
Theorem ambiguity_fails_closed (w w' : World) (f : ClientFrame) (sel : Selection)
    (control_tx : ControlSender) (ws : WorkspaceState)
    (r : result AttachmentError (FrameExit * WorkspaceState))
    (Hf : frame_received w f)
    (Hrun : handle_workspace_frame oracle machine attachment sel control_tx ws f w = (w', r))
    (Hu : existsb uncertain (since_request (trace w')) = true) :
  is_current (shared w') attachment = false /\ continues r = false.
Proof.
  pose proof (workspace_frame_run w f sel control_tx ws Hf) as H. rewrite Hrun in H.
  assert (existsb uncertain (since_request (hist w')) = true) as Hu'.
  { unfold hist. by rewrite <-since_request_filter, uncertain_filter. }
  destruct H as [[_ _ _ Hs] Hc]. auto.
Qed.
End theorems.

Definition sample_start (lines : list bytes) : World :=
  sample_world (sample_scope (Some (sample_handle 2 None))) lines sample_input.
Lemma sample_received lines : @frame_received plain_base64 2 (sample_start lines) sample_input.
Proof. exists []. by split. Qed.
Definition sample_run (lines : list bytes) :=
  @handle_workspace_frame plain_base64 sample_codec sample_oracle 1 2 sample_selection 8
    sample_workspace sample_input (sample_start lines).
Definition sample_outcomes (t : list Event) : list PublicOutcome :=
  omap (fun e => match e with Wrote (OperationResult _ _ o _ _) _ => Some o | _ => None end) t.

(** The writer types one byte: the target confirms it, and the browser is
    told. *)
Lemma workspace_frame_answered_witness :
  exists w' outcome code message fate,
    sample_run [newline "%begin 1 2 1"; newline "%end 1 2 1"] = (w', Ok (FrameContinue, sample_workspace))
    /\ last_mutation (trace w') = Some Succeeded
    /\ sample_outcomes (trace w') = [PublicSucceeded]
    /\ List.filter is_reply (since_request (trace w'))
       = [Wrote (OperationResult 40 PaneInputOp outcome code message) fate].
Proof.
  assert (let '(w', r) := sample_run [newline "%begin 1 2 1"; newline "%end 1 2 1"] in
          last_mutation (trace w') = Some Succeeded /\ sample_outcomes (trace w') = [PublicSucceeded]
          /\ r = Ok (FrameContinue, sample_workspace)) as Hc by (vm_compute; repeat split).
  destruct (sample_run _) as [w' r] eqn:E. destruct Hc as (Hm & Ho & ->).
  destruct (@workspace_frame_answered plain_base64 sample_codec sample_oracle 1 2
    (sample_start [newline "%begin 1 2 1"; newline "%end 1 2 1"]) w' sample_input
    sample_selection 8 sample_workspace sample_workspace 40 PaneInputOp
    (sample_received _) eq_refl E) as (outcome & code & message & fate & H & _).
  exists w', outcome, code, message, fate. exact (conj eq_refl (conj Hm (conj Ho H))).
Defined.

(** The target's answer is lost: the writer is given up. *)
Lemma ambiguity_fails_closed_witness :
  exists w' r,
    sample_run [newline "%begin 1 2 1"] = (w', r)
    /\ last_mutation (trace w') = Some Ambiguous
    /\ is_current (shared w') 2 = false /\ continues r = false.
Proof.
  assert (let '(w', _) := sample_run [newline "%begin 1 2 1"] in
          last_mutation (trace w') = Some Ambiguous /\ existsb uncertain (since_request (trace w')) = true)
    as Hc by (vm_compute; repeat split).
  destruct (sample_run _) as [w' r] eqn:E. destruct Hc as (Hm & Hu).
  exists w', r. refine (conj eq_refl (conj Hm _)).
  exact (@ambiguity_fails_closed plain_base64 sample_codec sample_oracle 1 2
    (sample_start [newline "%begin 1 2 1"]) w' sample_input
    sample_selection 8 sample_workspace r (sample_received _) E Hu).
Defined.
