(* ===== verification/AttachmentResults.v ===== *)
(** * AttachmentResults: guards, snapshots and the end of an attachment

    The checks on what a browser sends decide exactly what they mean to; a
    browser that puts the chunks of a snapshot together has the captured
    content; an attachment that has ended is not a writer. *)

From S2P Require Import Prelude Text Contracts Secrets RelayProtocol Wire Ssh TmuxGrammar TmuxPanes TmuxControl TmuxSafety Authority Registry Writer AttachmentFrames Attachment AttachmentSafety AttachmentTheorems.

(** ** Guards *)

Lemma dec_signed_pos n : 0 <= n -> dec_signed n = dec n.
Proof. intros H. unfold dec_signed. by destruct (Z.ltb_spec n 0); [lia |]. Qed.

(** An epoch sent by a browser matches exactly the canonical decimal form
    of a positive epoch: no sign, no leading zero, no other number. *)
Theorem connection_epoch_exact (value : bytes) (expected : Z) :
  matches_connection_epoch value expected = true
  <-> 0 < expected <= i64_max /\ value = dec expected.
Proof.
  unfold matches_connection_epoch. split.
  - intros [[He%Z.ltb_lt Hp%bool_decide_eq_true]%andb_true_iff Hv%bool_decide_eq_true]%andb_true_iff.
    apply parse_i64_le in Hp. rewrite dec_signed_pos in Hv by lia. split; [lia | done].
  - intros [H ->]. rewrite dec_signed_pos, parse_i64_dec by lia.
    rewrite !bool_decide_true by done. by destruct (Z.ltb_spec 0 expected); [| lia].
Qed.

Section input.
Context `{Hbase : Base64} {Hlaws : Base64Laws} {Hlength : Base64Length}.

Lemma b64_encode_nil : b64_encode [] = [].
Proof. pose proof (b64_length []) as H. zlen_simpl. apply zlen_zero. pose proof (zlen_nonneg (b64_encode [])). lia. Qed.

Lemma b64_encode_inj v1 v2 : b64_encode v1 = b64_encode v2 -> v1 = v2.
Proof. intros H. pose proof (b64_roundtrip v1) as H1. rewrite H, b64_roundtrip in H1. congruence. Qed.

(** Pane input is exactly the base64 form of one to 1024 bytes: every such
    form is accepted with its bytes, the bound on the text never refuses
    one, and nothing else is. *)
Theorem decode_input_exact (value data : bytes) :
  decode_input value = Some data
  <-> value = b64_encode data /\ 1 <= zlen data <= ATTACHMENT_MAX_INPUT_BYTES.
Proof.
  unfold decode_input. split.
  - destruct (bool_decide (value = []) || _); [done |].
    destruct (b64_decode value) as [d|]; cbn; [| done].
    destruct (bool_decide (d = []) || _ || _) eqn:E; [done |]. intros [= <-].
    split_bools. split; [done |]. pose proof (zlen_nonneg d).
    destruct (decide (zlen d = 0)) as [?%zlen_zero|]; [done | lia].
  - intros [-> Hd]. pose proof (b64_length data) as Hlen. unfold ATTACHMENT_MAX_INPUT_BYTES in *.
    assert (data <> []) as Hne by (intros ->; rewrite zlen_nil in Hd; lia).
    rewrite bool_decide_false by (rewrite <-b64_encode_nil; intros Hnil%b64_encode_inj; done).
    destruct (Z.ltb_spec 1366 (zlen (b64_encode data))); [lia |]. cbn [orb].
    rewrite b64_roundtrip. cbn. rewrite bool_decide_false, (bool_decide_true (_ = _)) by done.
    destruct (Z.ltb_spec 1024 (zlen data)); [lia | done].
Qed.
End input.

(** ** The end of an attachment *)

Section ending.
Context `{Hbase : Base64} `{Hcodec : AttachmentCodec} (oracle : Oracle) (machine attachment : Uuid).

Definition total {A} (s : WriterScope) (h : list Event) (r : result AttachmentError A) : Prop :=
  exists a, r = Ok a.

Lemma fatal_total e s h : ensures (fatal oracle e) total s h.
Proof.
  unfold fatal. apply ens_bind, ens_attempt, ens_any. intros. apply ens_ret. by eexists.
Qed.

(** The session handles every error itself. *)
Lemma session_total expected rounds s h :
  ensures (authenticated_session oracle machine attachment expected rounds) total s h.
Proof.
  assert (forall e s h, ensures (if silent e then mret true else (fatal oracle e ;; mret true)) total s h) as Hend.
  { intros e s0 h0. destruct (silent e); [apply ens_ret; by eexists |]. apply ens_bind.
    eapply ens_weaken; [apply fatal_total |]. intros s1 h1 r [a ->]. apply ens_ret. by eexists. }
  revert s h; induction rounds as [|[chooser_turns turns] rounds IH]; intros s h; cbn [authenticated_session].
  { apply ens_ret. by eexists. }
  apply ens_bind, ens_attempt, ens_any. intros s1 h1 [[[sel| |]|]|e]; [| apply IH | apply ens_ret; by eexists.. | apply Hend].
  apply ens_bind, ens_attempt, ens_any. intros s2 h2 left_with.
  assert (forall over : att bool, (forall s h, ensures over total s h) -> forall s h,
    ensures (over ← holding_dispatch (leave_workspace oracle attachment ;; over);
             if over : bool then mret true
             else authenticated_session oracle machine attachment expected rounds) total s h) as Hleave.
  { intros over Hover s3 h3. apply ens_bind, ens_holding, ens_bind.
    unfold leave_workspace. apply ens_bind, ens_dispatch. intros s4 _.
    apply ens_bind, ens_lock. intros s5 _. apply ens_modify.
    eapply ens_weaken; [apply Hover |]. intros s6 h6 r [[|] ->]; [apply ens_ret; by eexists | apply IH]. }
  destruct left_with as [[[|]|]|e]; [| | apply ens_ret; by eexists |]; apply Hleave; intros.
  - apply ens_ret. by eexists.
  - apply ens_ret. by eexists.
  - apply Hend.
Qed.

(** However an attachment ends, it leaves no writer behind: its run never
    fails with an error of its own, and once it is over the attachment is not
    the writer of the scope and holds no dispatch mutex, unless it was turned
    away before it began, which leaves the scope as it was. *)
Theorem ended_attachment_is_no_writer (expected : RouteIdentity)
    (rounds : list (list ChooserTurn * list Turn)) (w : World) :
  let '(w', r) := run_owner_attachment oracle machine attachment expected rounds w in
  exists over, r = Ok over
  /\ (over = true ->
      shared w' = shared w
      \/ is_current (shared w') attachment = false /\ dispatch_held (shared w') = false).
Proof.
  pose (Q := fun (s' : WriterScope) (_ : list Event) (r : result AttachmentError bool) =>
    exists over, r = Ok over
    /\ (over = true -> s' = shared w
        \/ is_current s' attachment = false /\ dispatch_held s' = false)).
  enough (ensures (run_owner_attachment oracle machine attachment expected rounds) Q (shared w) (hist w))
    as H by exact (H w eq_refl eq_refl).
  assert (forall code message h, ensures (attempt (send_fatal_error oracle code message) ;; mret true) Q (shared w) h)
    as Hreject.
  { intros code message h. apply ens_bind, ens_attempt, ens_quiet; [apply quiet_send_fatal_error |].
    intros x. apply ens_ret. exists true. auto. }
  unfold run_owner_attachment. apply ens_bind. refine (ens_ask _ AskRelays _ _ _ _). intros [[? ?] ?].
  destruct (route_fence _ _ _ _) as [id|].
  2: { unfold temporarily_unavailable. apply ens_bind, ens_bind, ens_attempt, ens_quiet;
       [apply quiet_send_fatal_error |]. intros x. do 2 apply ens_ret. exists true. auto. }
  apply ens_bind. refine (ens_ask _ AskPermit _ _ _ _). intros [|]; cbn [negb]; [| apply Hreject].
  apply ens_bind, ens_emit, ens_bind. eapply ens_weaken; [apply session_total |].
  intros s1 h1 x [over ->]. destruct over; cbn [negb]; [| apply ens_ret; by exists false].
  unfold release_attachment, clear_current.
  apply ens_bind, ens_bind, ens_dispatch. intros s2 _. apply ens_holding, ens_bind, ens_lock. intros s3 _.
  apply ens_modify. apply ens_bind, ens_emit. apply ens_bind, ens_emit. apply ens_ret.
  exists true. split; [done |]. intros _. right. split; [| done].
  exact (is_current_clear_if attachment s3).
Qed.
End ending.

(** ** Sizes of frames *)

(** Documented: JSON text carries every byte of a string that needs no escape,
    and takes at most 256 bytes around the pane and the data of a snapshot. *)
Class AttachmentCodecSizes `{Hcodec : AttachmentCodec} : Prop := {
  snapshot_frame_size : forall e pane index final data, is_pane_id pane = true ->
    exists t, print_frame (PaneSnapshotFrame e pane index final data) = Some t
              /\ zlen t <= zlen pane + zlen data + 256;
  projection_frame_size : forall ce e session created ws w ps t,
    print_frame (Projection ce e session created ws w ps) = Some t ->
    total_bytes (map ws_name ws) + zlen (layout w) + total_bytes (map title ps)
    + total_bytes (map current_command ps) <= zlen t;
}.

Section sizes.
Context `{Hbase : Base64} `{Hcodec : AttachmentCodec} {Hlength : Base64Length} {Hsizes : AttachmentCodecSizes}.

Lemma pane_id_length pane : is_pane_id pane = true -> zlen pane <= 31.
Proof.
  unfold is_pane_id, is_numeric_id. destruct (strip_prefix _ pane) as [d|] eqn:E; [| done].
  apply strip_prefix_Some in E as ->. intros Hp. split_bools. zlen_simpl. lia.
Qed.

(** No snapshot is refused for its size: every frame that carries a chunk
    of a pane's snapshot fits the frame limit of the attachment. *)
Theorem snapshot_frames_fit (e : Uuid) (pane data : bytes) (Hp : is_pane_id pane = true) :
  Forall (fun f => is_ok (encode f) = true) (snapshot_frames e pane (chunks chunk_size data)).
Proof.
  assert (forall index final chunk, zlen chunk <= ATTACHMENT_MAX_TERMINAL_CHUNK_BYTES ->
    is_ok (encode (PaneSnapshotFrame e pane index final (b64_encode chunk))) = true) as Hfit.
  { intros index final chunk Hc. unfold encode.
    destruct (snapshot_frame_size e pane index final (b64_encode chunk) Hp) as (t & -> & Ht). cbn.
    pose proof (b64_length chunk). pose proof (pane_id_length pane Hp).
    unfold ATTACHMENT_MAX_TERMINAL_CHUNK_BYTES, ATTACHMENT_MAX_FRAME_BYTES in *.
    destruct (Z.ltb_spec 32768 (zlen t)); [lia | done]. }
  destruct (chunks_spec chunk_size data ltac:(done)) as [_ Hall].
  destruct (chunks chunk_size data) as [|c parts]; cbn [snapshot_frames].
  - constructor; [| done]. unfold encode. destruct (snapshot_frame_size e pane 0 true [] Hp) as (t & -> & Ht).
    cbn. pose proof (pane_id_length pane Hp). change (zlen (@nil Byte.byte)) with 0 in Ht.
    unfold ATTACHMENT_MAX_FRAME_BYTES. destruct (Z.ltb_spec 32768 (zlen t)); [lia | done].
  - apply Forall_forall. intros f (i & x & -> & Hx)%elem_of_lookup_imap.
    apply Hfit. rewrite Forall_lookup in Hall. exact (proj2 (Hall _ _ Hx)).
Qed.

(** A projection at the limits: 128 windows, 32 panes, text as long as the
    target may report it. *)
Definition text_of (n : nat) : bytes := repeat "a"%byte n.
Definition big_windows : list WindowSummary :=
  map (fun i => {| ws_window_id := lit "@" ++ dec (Z.of_nat i); ws_name := text_of 128;
                   ws_active := (i =? 0)%nat |}) (seq 0 128).
Definition big_window : WindowProjection :=
  {| window_id := lit "@0"; window_name := lit "w"; window_width := 80; window_height := 32;
     layout := lit "x" |}.
Definition big_panes : list PaneProjection :=
  map (fun i => {| pane_id := lit "%" ++ dec (Z.of_nat i); active := (i =? 0)%nat; width := 80;
                   height := 1; left := 0; top := Z.of_nat i; title := text_of 256;
                   current_command := text_of 256;
                   terminal := {| cursor_x := 0; cursor_y := 0; modes := 0; scroll_upper := 0;
                                  scroll_lower := 0 |} |}) (seq 0 32).
Definition big_projection : WorkspaceProjection :=
  {| wp_windows := big_windows; wp_window := big_window; wp_panes := big_panes;
     wp_snapshots := map (fun p => {| snapshot_pane_id := pane_id p; content := [] |}) big_panes |}.

Lemma big_projection_ok : projection_ok big_projection.
Proof.
  constructor.
  - by vm_compute.
  - apply (bool_decide_unpack _). by vm_compute.
  - eexists. by vm_compute.
  - by vm_compute.
  - by vm_compute.
  - unfold big_projection, big_panes, wp_panes. cbn [seq map].
    repeat (constructor; [constructor; vm_compute; (done || intuition congruence) |]). constructor.
  - by vm_compute.
  - apply (bool_decide_unpack _). by vm_compute.
  - by vm_compute.
  - apply Forall_forall. intros p (i & -> & _)%list_elem_of_fmap. by vm_compute.
  - by vm_compute.
  - by vm_compute.
  - apply Forall_forall. intros s (p & -> & _)%list_elem_of_fmap. by vm_compute.
Qed.

(** A projection can be within every limit the server checks and yet be
    refused by the frame limit: the attachment of such a workspace fails with
    a protocol error before the browser has seen a pane. *)
Theorem large_projection_refused (ce session : bytes) (e : Uuid) (created : Z) :
  projection_ok big_projection
  /\ encode (Projection ce e session created (wp_windows big_projection) (wp_window big_projection)
       (wp_panes big_projection)) = Err ProtocolError.
Proof.
  split; [exact big_projection_ok |]. unfold encode.
  destruct (print_frame _) as [t|] eqn:E; [| done]. cbn.
  apply projection_frame_size in E.
  assert (ATTACHMENT_MAX_FRAME_BYTES < zlen t) as H.
  { eapply Z.lt_le_trans; [| exact E]. by vm_compute. }
  by destruct (Z.ltb_spec ATTACHMENT_MAX_FRAME_BYTES (zlen t)); [| lia].
Qed.
End sizes.

(** ** Witnesses *)

(** A codec that prints the fields and nothing around them. *)
Definition field_codec : AttachmentCodec :=
  {| print_frame := fun f => match f with
       | PaneSnapshotFrame _ pane _ _ data => Some (pane ++ data)
       | Projection _ _ _ _ ws w ps =>
           Some (concat (map ws_name ws) ++ layout w ++ concat (map title ps)
                 ++ concat (map current_command ps))
       | _ => Some []
       end;
     parse_frame := fun _ => None; parse_auth := fun _ => None |}.

Lemma zlen_concat (l : list bytes) : zlen (concat l) = total_bytes l.
Proof. induction l as [|v l IH]; cbn [concat total_bytes]; [done |]. by rewrite zlen_app, IH. Qed.

Lemma field_codec_sizes : @AttachmentCodecSizes field_codec.
Proof.
  constructor.
  - intros. eexists; split; [reflexivity |]. rewrite zlen_app. lia.
  - intros * [= <-]. rewrite !zlen_app, !zlen_concat. lia.
Qed.

Lemma decode_input_exact_witness :
  @decode_input plain_base64 (lit "ls") = Some (lit "ls").
Proof.
  apply (proj2 (@decode_input_exact plain_base64 plain_base64_laws plain_base64_length (lit "ls") (lit "ls"))).
  split; [reflexivity |]. vm_compute. split; discriminate.
Defined.

Lemma snapshot_frames_fit_witness :
  Forall (fun f => is_ok (@encode field_codec f) = true)
    (@snapshot_frames plain_base64 3 (lit "%1") (chunks chunk_size (lit "hello"))).
Proof.
  exact (@snapshot_frames_fit plain_base64 field_codec plain_base64_length field_codec_sizes
    3 (lit "%1") (lit "hello") eq_refl).
Defined.

Lemma large_projection_refused_witness :
  @encode field_codec (Projection (lit "7") 3 (lit "$1") 100 (wp_windows big_projection)
    (wp_window big_projection) (wp_panes big_projection)) = Err ProtocolError.
Proof.
  exact (proj2 (@large_projection_refused field_codec field_codec_sizes (lit "7") (lit "$1") 3 100)).
Defined.
