(* ===== verification/Browser.v ===== *)
(** * Browser: the projection protocol between a workspace and a browser

    Models the receiving side of an attachment in the web application
    ([apps/web/src/client.ts], [validateSequence]; [attachment.ts], the checks
    on a pane snapshot), which refuses every frame out of sequence, and proves
    that it accepts what [install_projection] of [attachment.rs] sends and
    puts together what was captured.  A thrown error is [None]; a frame that
    is ignored leaves the state as it is. *)

From S2P Require Import Prelude Text Contracts Secrets RelayProtocol Wire Ssh TmuxGrammar TmuxPanes TmuxControl TmuxSafety Authority Registry Writer AttachmentFrames Attachment AttachmentSafety.

Section browser.
Context `{Hbase : Base64}.

(** [decodeBase64Url]; the length bound is [Math.ceil (maximum * 4 / 3)]. *)
Definition decode_base64_url (value : bytes) (maximum : Z) (allow_empty : bool) : option bytes :=
  if (negb allow_empty && bool_decide (value = [])) || ((maximum * 4 + 2) / 3 <? zlen value) then None
  else
    d ← b64_decode value;
    if (maximum <? zlen d) || negb (bool_decide (b64_encode d = value)) then None else Some d.

(** The checks of [parseAttachmentFrame] on a pane snapshot. *)
Definition parse_snapshot_data (pane : bytes) (chunk_index : Z) (data_base64 : bytes) : option bytes :=
  if negb (is_pane_id pane) || (32 <? zlen pane) || (chunk_index <? 0)
     || (ATTACHMENT_MAX_PANE_SNAPSHOT_BYTES / ATTACHMENT_MAX_TERMINAL_CHUNK_BYTES - 1 <? chunk_index)
  then None
  else decode_base64_url data_base64 ATTACHMENT_MAX_TERMINAL_CHUNK_BYTES true.

Record PendingProjection : Type := {
  pp_epoch : Uuid; pp_panes : gset bytes; next_chunk : gmap bytes Z; completed : gset bytes;
  pane_bytes : gmap bytes Z; total_received : Z;
}.

Record BrowserState : Type := {
  pending_projection : option PendingProjection;
  current_connection_epoch : option bytes; current_attachment_epoch : option Uuid;
  current_workspace_epoch : option Uuid; current_panes : gset bytes;
}.

(** The projection is dropped, the rest is kept. *)
Definition without_projection (b : BrowserState) : BrowserState :=
  {| pending_projection := None; current_connection_epoch := current_connection_epoch b;
     current_attachment_epoch := current_attachment_epoch b;
     current_workspace_epoch := None; current_panes := ∅ |}.

Definition zero_map (panes : gset bytes) : gmap bytes Z := gset_to_gmap 0 panes.

(** A pane snapshot in [validateSequence]. *)
Definition on_snapshot (p : PendingProjection) (e : Uuid) (pane : bytes) (index : Z) (final : bool)
    (data : bytes) : option PendingProjection :=
  if negb (e =? pp_epoch p) || negb (bool_decide (pane ∈ pp_panes p))
     || bool_decide (pane ∈ completed p) || negb (bool_decide (next_chunk p !! pane = Some index))
     || (negb final && bool_decide (data = []))
  then None
  else
    let bytes := default 0 (pane_bytes p !! pane) + zlen data in
    let total := total_received p + zlen data in
    if (ATTACHMENT_MAX_PANE_SNAPSHOT_BYTES <? bytes) || (ATTACHMENT_MAX_PROJECTION_BYTES <? total)
    then None
    else Some {| pp_epoch := pp_epoch p; pp_panes := pp_panes p;
                 next_chunk := <[pane := index + 1]> (next_chunk p);
                 completed := if final then {[pane]} ∪ completed p else completed p;
                 pane_bytes := <[pane := bytes]> (pane_bytes p); total_received := total |}.

(** [validateSequence] on a parsed frame: the state after it. *)
Definition validate_sequence (b : BrowserState) (f : ServerFrame) : option BrowserState :=
  match f with
  | PhaseFrame (Connecting | Selecting | PhaseFailed) => Some (without_projection b)
  | PhaseFrame Ready =>
      p ← pending_projection b;
      if negb (bool_decide (base.size (completed p) = base.size (pp_panes p))) then None
      else Some {| pending_projection := None; current_connection_epoch := current_connection_epoch b;
                   current_attachment_epoch := current_attachment_epoch b;
                   current_workspace_epoch := Some (pp_epoch p); current_panes := pp_panes p |}
  | SessionList ce se _ _ _ =>
      Some {| pending_projection := None; current_connection_epoch := Some ce;
              current_attachment_epoch := Some se; current_workspace_epoch := None;
              current_panes := ∅ |}
  | Projection ce e _ _ _ _ panes =>
      if negb (bool_decide (current_connection_epoch b = Some ce)) then None
      else
        let ids := list_to_set (map pane_id panes) in
        Some {| pending_projection := Some {| pp_epoch := e; pp_panes := ids;
                  next_chunk := zero_map ids; completed := ∅; pane_bytes := zero_map ids;
                  total_received := 0 |};
                current_connection_epoch := current_connection_epoch b;
                current_attachment_epoch := Some e; current_workspace_epoch := None;
                current_panes := ∅ |}
  | PaneSnapshotFrame e pane index final text =>
      data ← parse_snapshot_data pane index text;
      p ← pending_projection b;
      p ← on_snapshot p e pane index final data;
      Some {| pending_projection := Some p; current_connection_epoch := current_connection_epoch b;
              current_attachment_epoch := current_attachment_epoch b;
              current_workspace_epoch := current_workspace_epoch b; current_panes := current_panes b |}
  | WriterState _ _ _ _ | OperationResult _ _ _ _ _ | OutputFrame _ _ _ | ErrorFrame _ _ => Some b
  end.

Fixpoint validate_frames (b : BrowserState) (fs : list ServerFrame) : option BrowserState :=
  match fs with
  | [] => Some b
  | f :: fs => b ← validate_sequence b f; validate_frames b fs
  end.

(** The bytes of a pane, put together from its chunks. *)
Definition chunk_of (pane : bytes) (f : ServerFrame) : option bytes :=
  match f with
  | PaneSnapshotFrame _ pane' index _ text =>
      if bool_decide (pane' = pane) then parse_snapshot_data pane' index text else None
  | _ => None
  end.
Definition received_content (pane : bytes) (fs : list ServerFrame) : bytes :=
  concat (omap (chunk_of pane) fs).

Lemma validate_frames_cons b f fs :
  validate_frames b (f :: fs) = (b ← validate_sequence b f; validate_frames b fs).
Proof. reflexivity. Qed.

Lemma validate_frames_app b fs gs :
  validate_frames b (fs ++ gs) = (b ← validate_frames b fs; validate_frames b gs).
Proof.
  revert b; induction fs as [|f fs IH]; intros b; cbn; [done |].
  destruct (validate_sequence b f); cbn; [apply IH | done].
Qed.
End browser.

(** ** What the browser accepts *)

Section acceptance.
Context `{Hbase : Base64} {Hlaws : Base64Laws} {Hlength : Base64Length}.
Implicit Types (b : BrowserState) (p : PendingProjection) (pane : bytes).

Lemma b64_nil : b64_encode [] = [].
Proof.
  pose proof (b64_length []) as Hl. change (zlen (@nil Byte.byte)) with 0 in Hl. apply zlen_zero.
  pose proof (zlen_nonneg (b64_encode [])). lia.
Qed.

Lemma parse_snapshot_chunk pane index chunk :
  is_pane_id pane = true -> 0 <= index <= 15 -> zlen chunk <= ATTACHMENT_MAX_TERMINAL_CHUNK_BYTES ->
  parse_snapshot_data pane index (b64_encode chunk) = Some chunk.
Proof.
  intros Hp Hi Hc. unfold parse_snapshot_data, decode_base64_url. rewrite Hp. cbn [negb orb andb].
  assert (zlen pane <= 32) as Hl.
  { unfold is_pane_id, is_numeric_id in Hp. destruct (strip_prefix _ pane) as [d|] eqn:E; [| done].
    apply strip_prefix_Some in E as ->. split_bools. zlen_simpl. lia. }
  pose proof (b64_length chunk) as Hlen. unfold ATTACHMENT_MAX_TERMINAL_CHUNK_BYTES in *.
  change (ATTACHMENT_MAX_PANE_SNAPSHOT_BYTES / 16384 - 1) with 15.
  change ((16384 * 4 + 2) / 3) with 21846.
  repeat match goal with |- context [?x <? ?y] => destruct (Z.ltb_spec x y); [lia |] end. cbn [orb].
  rewrite b64_roundtrip. cbn.
  destruct (Z.ltb_spec 16384 (zlen chunk)); [lia |]. by rewrite bool_decide_true.
Qed.

Definition with_pending b p : BrowserState :=
  {| pending_projection := Some p; current_connection_epoch := current_connection_epoch b;
     current_attachment_epoch := current_attachment_epoch b;
     current_workspace_epoch := current_workspace_epoch b; current_panes := current_panes b |}.

(** [pane] has received [k] chunks with [n] bytes and expects more. *)
Record expects p pane (k n : Z) : Prop := {
  ex_pane : pane ∈ pp_panes p;
  ex_open : pane ∉ completed p;
  ex_next : next_chunk p !! pane = Some k;
  ex_bytes : default 0 (pane_bytes p !! pane) = n;
}.

(** The state after a chunk. *)
Definition after_chunk p pane (k n : Z) (final : bool) (total : Z) : PendingProjection :=
  {| pp_epoch := pp_epoch p; pp_panes := pp_panes p; next_chunk := <[pane := k]> (next_chunk p);
     completed := if final then {[pane]} ∪ completed p else completed p;
     pane_bytes := <[pane := n]> (pane_bytes p); total_received := total |}.

Lemma snapshot_frame_accepted b p pane k n final chunk :
  expects p pane k n -> is_pane_id pane = true -> 0 <= k <= 15 ->
  zlen chunk <= ATTACHMENT_MAX_TERMINAL_CHUNK_BYTES -> (final = false -> chunk <> []) ->
  n + zlen chunk <= ATTACHMENT_MAX_PANE_SNAPSHOT_BYTES ->
  total_received p + zlen chunk <= ATTACHMENT_MAX_PROJECTION_BYTES ->
  validate_sequence (with_pending b p) (PaneSnapshotFrame (pp_epoch p) pane k final (b64_encode chunk))
  = Some (with_pending b (after_chunk p pane (k + 1) (n + zlen chunk) final (total_received p + zlen chunk))).
Proof.
  intros [H1 H2 H3 H4] Hp Hk Hc Hf Hn Ht. cbn [validate_sequence].
  rewrite parse_snapshot_chunk by done. cbn. unfold on_snapshot.
  rewrite Z.eqb_refl, (bool_decide_true (pane ∈ _)), (bool_decide_false (pane ∈ _)), (bool_decide_true (next_chunk p !! _ = _)) by done.
  cbn [negb orb]. replace (negb final && bool_decide (chunk = [])) with false
    by (destruct final; cbn; [done | by rewrite bool_decide_false by auto]).
  rewrite H4. destruct (Z.ltb_spec ATTACHMENT_MAX_PANE_SNAPSHOT_BYTES (n + zlen chunk)); [lia |].
  destruct (Z.ltb_spec ATTACHMENT_MAX_PROJECTION_BYTES (total_received p + zlen chunk)); [lia |]. done.
Qed.

(** The frames of the chunks from the [k]-th on. *)
Definition frames_from (e : Uuid) pane (k : nat) (last : Z) (parts : list bytes) : list ServerFrame :=
  imap (fun i chunk => PaneSnapshotFrame e pane (Z.of_nat (k + i)) (Z.of_nat (k + i) =? last) (b64_encode chunk)) parts.

Lemma frames_from_cons e pane k last c parts :
  frames_from e pane k last (c :: parts)
  = PaneSnapshotFrame e pane (Z.of_nat k) (Z.of_nat k =? last) (b64_encode c)
    :: frames_from e pane (S k) last parts.
Proof.
  unfold frames_from. cbn [imap]. rewrite Nat.add_0_r. f_equal. apply imap_ext.
  intros i c' _. cbn. by rewrite Nat.add_succ_r.
Qed.

(** What is left of the pending projection once [pane] has all its bytes. *)
Record finished p p' pane (n : Z) : Prop := {
  fin_epoch : pp_epoch p' = pp_epoch p;
  fin_panes : pp_panes p' = pp_panes p;
  fin_done : completed p' = {[pane]} ∪ completed p;
  fin_total : total_received p' = total_received p + n;
  fin_others : forall q k m, q <> pane -> expects p q k m -> expects p' q k m;
}.

Lemma frames_from_accepted b p pane k n parts :
  expects p pane (Z.of_nat k) n -> is_pane_id pane = true -> parts <> [] ->
  Forall (fun c => 1 <= zlen c <= ATTACHMENT_MAX_TERMINAL_CHUNK_BYTES) parts ->
  Z.of_nat (k + length parts) <= 16 ->
  n + zlen (concat parts) <= ATTACHMENT_MAX_PANE_SNAPSHOT_BYTES ->
  total_received p + zlen (concat parts) <= ATTACHMENT_MAX_PROJECTION_BYTES ->
  exists p', validate_frames (with_pending b p)
      (frames_from (pp_epoch p) pane k (Z.of_nat (k + length parts) - 1) parts) = Some (with_pending b p')
    /\ finished p p' pane (zlen (concat parts)).
Proof.
  intros Hex Hp Hne Hall. revert p k n Hex. induction Hall as [|c parts Hc Hall IH]; [done |].
  intros p k n Hex Hk Hn Ht. clear Hne. cbn [length concat] in *. zlen_simpl.
  pose proof (zlen_nonneg (concat parts)) as Hpos.
  rewrite frames_from_cons. cbn [validate_frames].
  rewrite (snapshot_frame_accepted b p pane (Z.of_nat k) n); try lia; try done.
  2: { intros _ ->. rewrite zlen_nil in Hc. lia. }
  cbn [mbind option_bind].
  destruct parts as [|c' parts].
  - cbn [length concat]. destruct (Z.eqb_spec (Z.of_nat k) (Z.of_nat (k + 1) - 1)); [| lia].
    eexists; split; [reflexivity |]. zlen_simpl. split; cbn; try done; [lia |].
    intros q j m Hq [H1 H2 H3 H4]. split; cbn; rewrite ?lookup_insert_ne by done; try done. set_solver.
  - destruct (Z.eqb_spec (Z.of_nat k) (Z.of_nat (k + S (length (c' :: parts))) - 1)); [cbn in *; lia |].
    set (p1 := after_chunk _ _ _ _ _ _).
    assert (expects p1 pane (Z.of_nat (S k)) (n + zlen c)) as Hex1.
    { destruct Hex. split; cbn; try done; rewrite lookup_insert_eq; [f_equal; lia | done]. }
    destruct (IH ltac:(done) p1 (S k) _ Hex1) as (p' & Hv & Hfin); [cbn in *; lia | lia | unfold p1, after_chunk; cbn [total_received]; lia |].
    exists p'. split.
    { replace (k + S (length (c' :: parts)))%nat with (S k + length (c' :: parts))%nat by lia. exact Hv. }
    destruct Hfin as [F1 F2 F3 F4 F5]. split; try done.
    + rewrite F4. unfold p1, after_chunk. cbn [total_received]. lia.
    + intros q j m Hq [H1 H2 H3 H4]. apply F5; [done |].
      split; cbn; rewrite ?lookup_insert_ne by done; done.
Qed.

Lemma chunks_count fuel n v :
  (n <> 0)%nat -> zlen (chunks_from fuel n v) * Z.of_nat n < zlen v + Z.of_nat n.
Proof.
  intros Hn. revert v; induction fuel as [|fuel IH]; intros v; cbn [chunks_from].
  { pose proof (zlen_nonneg v). unfold zlen in *. cbn. lia. }
  destruct v as [|c v]; [unfold zlen; cbn; lia |].
  rewrite zlen_cons. specialize (IH (drop n (c :: v))).
  destruct (Nat.le_gt_cases n (length (c :: v))) as [Hle|Hgt].
  - assert (zlen (drop n (c :: v)) = zlen (c :: v) - Z.of_nat n) as Hd
      by (unfold zlen; rewrite length_drop; lia). lia.
  - rewrite drop_ge by lia. assert (zlen (chunks_from fuel n []) = 0) as -> by by destruct fuel.
    rewrite zlen_cons. pose proof (zlen_nonneg v). lia.
Qed.

Lemma snapshot_frames_from e pane parts :
  parts <> [] -> snapshot_frames e pane parts = frames_from e pane 0 (Z.of_nat (0 + length parts) - 1) parts.
Proof. by destruct parts. Qed.

Lemma snapshot_accepted b p pane data :
  expects p pane 0 0 -> is_pane_id pane = true ->
  zlen data <= ATTACHMENT_MAX_PANE_SNAPSHOT_BYTES ->
  total_received p + zlen data <= ATTACHMENT_MAX_PROJECTION_BYTES ->
  exists p', validate_frames (with_pending b p) (snapshot_frames (pp_epoch p) pane (chunks chunk_size data))
    = Some (with_pending b p') /\ finished p p' pane (zlen data).
Proof.
  intros Hex Hp Hn Ht.
  destruct (chunks_spec chunk_size data ltac:(done)) as [Hcat Hall].
  pose proof (chunks_count (length data) chunk_size data ltac:(done)) as Hcount.
  fold (chunks chunk_size data) in Hcount.
  change (Z.of_nat chunk_size) with ATTACHMENT_MAX_TERMINAL_CHUNK_BYTES in *.
  destruct (chunks chunk_size data) as [|c parts] eqn:E.
  - cbn in Hcat. subst data. cbn [snapshot_frames validate_frames].
    pose proof (snapshot_frame_accepted b p pane 0 0 true [] Hex Hp) as H.
    pose proof b64_nil as Hnil.
    change (zlen (@nil Byte.byte)) with 0 in *. rewrite Hnil in H. rewrite H; try done; try lia. cbn.
    eexists; split; [reflexivity |]. split; cbn; try done.
    intros q j m Hq [H1 H2 H3 H4]. split; cbn; rewrite ?lookup_insert_ne by done; try done. set_solver.
  - rewrite snapshot_frames_from by done. rewrite <-Hcat in *.
    apply (frames_from_accepted b p pane 0 0); try done.
    unfold zlen, ATTACHMENT_MAX_PANE_SNAPSHOT_BYTES, ATTACHMENT_MAX_TERMINAL_CHUNK_BYTES in *. lia.
Qed.

(** The snapshots of a projection, in order. *)
Definition snapshots_frames (e : Uuid) (ss : list PaneSnapshot) : list ServerFrame :=
  concat (map (fun s => snapshot_frames e (snapshot_pane_id s) (chunks chunk_size (content s))) ss).

Lemma snapshots_accepted b p ss :
  NoDup (map snapshot_pane_id ss) ->
  Forall (fun s => expects p (snapshot_pane_id s) 0 0 /\ is_pane_id (snapshot_pane_id s) = true
                   /\ zlen (content s) <= ATTACHMENT_MAX_PANE_SNAPSHOT_BYTES) ss ->
  total_received p + contents_bytes ss <= ATTACHMENT_MAX_PROJECTION_BYTES ->
  exists p', validate_frames (with_pending b p) (snapshots_frames (pp_epoch p) ss) = Some (with_pending b p')
    /\ pp_epoch p' = pp_epoch p /\ pp_panes p' = pp_panes p
    /\ completed p' = list_to_set (map snapshot_pane_id ss) ∪ completed p.
Proof.
  revert p; induction ss as [|s ss IH]; intros p Hnd Hall Ht.
  { exists p. cbn. split_and!; try done. set_solver. }
  apply NoDup_cons in Hnd as [Hnotin Hnd]. apply Forall_cons in Hall as [(Hex & Hp & Hs) Hall].
  unfold contents_bytes in *. cbn [map total_bytes] in Ht.
  pose proof (total_bytes_nonneg (map content ss)) as Hpos.
  unfold snapshots_frames. cbn [map concat]. rewrite validate_frames_app.
  destruct (snapshot_accepted b p (snapshot_pane_id s) (content s) Hex Hp Hs ltac:(lia)) as (p1 & Hv & [F1 F2 F3 F4 F5]).
  rewrite Hv. cbn [mbind option_bind].
  destruct (IH p1 Hnd) as (p' & Hv' & G1 & G2 & G3); [| lia |].
  - rewrite Forall_forall in Hall |- *. intros x Hx. destruct (Hall x Hx) as (Hexx & ? & ?).
    split; [| done]. apply F5; [| done]. intros Heq. apply Hnotin. rewrite <-Heq.
    apply list_elem_of_fmap. eauto.
  - exists p'. rewrite <-F1. fold (snapshots_frames (pp_epoch p1) ss). split; [done |].
    rewrite G1, G2, G3, F1, F2, F3. cbn. split_and!; try done. set_solver.
Qed.
End acceptance.

(** ** What a workspace sends *)

Definition delivered (e : Event) : option ServerFrame :=
  match e with
  | Wrote f fate => match write_result fate with Ok _ => Some f | Err _ => None end
  | _ => None
  end.
(** The frames a browser has been sent, oldest first. *)
Definition frames_of (t : list Event) : list ServerFrame := rev (omap delivered t).

(** When [m] succeeds with [a], it has sent the frames [fs] with [P a fs]. *)
Definition sends {A} (m : att A) (P : A -> list ServerFrame -> Prop) : Prop :=
  forall w w' a, m w = (w', Ok a) ->
  exists fs, frames_of (trace w') = frames_of (trace w) ++ fs /\ P a fs.

Section sends_rules.
Context {A B : Type}.
Implicit Types (m : att A) (f : A -> att B).

Lemma sends_weaken m (P Q : A -> list ServerFrame -> Prop) :
  sends m P -> (forall a fs, P a fs -> Q a fs) -> sends m Q.
Proof. intros H HPQ w w' a Hm. destruct (H _ _ _ Hm) as (fs & ? & ?). eauto. Qed.
Lemma sends_ret (a : A) : sends (mret a) (fun b fs => b = a /\ fs = []).
Proof. intros w w' b [= <- <-]. exists []. by rewrite app_nil_r. Qed.
Lemma sends_fail e P : sends (A := A) (fail e) P.
Proof. by intros w w' b [=]. Qed.
Lemma sends_lift r : sends (A := A) (lift r) (fun b fs => r = Ok b /\ fs = []).
Proof. intros w w' b [= <- ->]. exists []. by rewrite app_nil_r. Qed.
Lemma sends_bind m f P (Q : B -> list ServerFrame -> Prop) :
  sends m P -> (forall a fs, P a fs -> sends (f a) (fun b gs => Q b (fs ++ gs))) -> sends (m ≫= f) Q.
Proof.
  intros Hm Hf w w' b H. unfold mbind, att_bind in H. destruct (m w) as [w1 [a|e]] eqn:E; [| done].
  destruct (Hm _ _ _ E) as (fs & H1 & HP). destruct (Hf a fs HP _ _ _ H) as (gs & H2 & HQ).
  exists (fs ++ gs). by rewrite H2, H1, app_assoc.
Qed.
Lemma sends_on_control (g : Adapter -> Adapter * tmux A) :
  sends (on_control g) (fun r fs => (exists s s', g s = (s', r)) /\ fs = []).
Proof.
  intros w w' r H. unfold on_control in H. destruct (g (adapter w)) as [s' r'] eqn:E.
  injection H as <- <-. exists []. rewrite app_nil_r. eauto.
Qed.
End sends_rules.

Lemma frames_of_wrote f fate t :
  write_result fate = Ok tt -> frames_of (Wrote f fate :: t) = frames_of t ++ [f].
Proof. intros H. unfold frames_of. cbn. by rewrite H. Qed.

Section installing.
Context `{Hbase : Base64} `{Hcodec : AttachmentCodec} (oracle : Oracle).

Lemma sends_ask q : sends (ask oracle q) (fun _ fs => fs = []).
Proof. intros w w' b [= <- _]. exists []. by rewrite app_nil_r. Qed.

(** The end of both kinds of sending. *)
Lemma sends_write f :
  sends (fate ← ask oracle AskWrite; emit (Wrote f fate) ;; lift (write_result fate)) (fun _ fs => fs = [f]).
Proof.
  intros w w' [] H. unfold mbind, att_bind, ask, emit, lift in H. cbn in H.
  destruct (write_result _) as [[]|] eqn:E; [| done]. injection H as <-.
  exists [f]. split; [by apply frames_of_wrote | done].
Qed.
Lemma sends_send f : sends (send oracle f) (fun _ fs => fs = [f]).
Proof.
  unfold send. eapply sends_bind; [apply sends_lift |]. intros ? ? [_ ->]. apply sends_write.
Qed.
Lemma sends_pump n : sends (pump n) (fun _ fs => fs = []).
Proof.
  induction n as [|n IH]; cbn [pump].
  - eapply sends_weaken; [apply sends_ret | by intros ?? [_ ->]].
  - eapply sends_bind; [apply sends_on_control |]. intros r ? [_ ->].
    eapply sends_bind; [apply sends_lift |]. by intros ? ? [_ ->].
Qed.
Lemma sends_send_with_control f : sends (send_with_control oracle f) (fun _ fs => fs = [f]).
Proof.
  unfold send_with_control. eapply sends_bind; [apply sends_lift |]. intros ? ? [_ ->].
  eapply sends_bind; [exact (sends_ask AskPumps) |]. intros n ? ->.
  eapply sends_bind; [apply sends_pump |]. intros ? ? ->. apply sends_write.
Qed.
Lemma sends_frames fs : sends (send_frames oracle fs) (fun _ gs => gs = fs).
Proof.
  induction fs as [|f fs IH]; cbn [send_frames].
  - eapply sends_weaken; [apply sends_ret | by intros ?? [_ ->]].
  - eapply sends_bind; [apply sends_send_with_control |]. intros ? ? ->.
    eapply sends_weaken; [apply IH | by intros ?? ->].
Qed.
Lemma sends_snapshots e ss : sends (send_snapshots oracle e ss) (fun _ gs => gs = snapshots_frames e ss).
Proof.
  induction ss as [|s ss IH]; cbn [send_snapshots].
  - eapply sends_weaken; [apply sends_ret | by intros ?? [_ ->]].
  - eapply sends_bind; [apply sends_frames |]. intros ? ? ->.
    eapply sends_weaken; [apply IH | by intros ?? ->].
Qed.

(** Neither asking nor sending touches the control adapter. *)
Lemma att_bind_Ok {A B} (m : att A) (f : A -> att B) w w' b :
  (m ≫= f) w = (w', Ok b) -> exists w1 a, m w = (w1, Ok a) /\ f a w1 = (w', Ok b).
Proof. unfold mbind, att_bind. destruct (m w) as [w1 [a|e]]; [eauto | done]. Qed.
Lemma send_adapter f w w' u : send oracle f w = (w', Ok u) -> adapter w' = adapter w.
Proof.
  unfold send. intros (w1 & x & Hx & H)%att_bind_Ok. injection Hx as <- _.
  apply att_bind_Ok in H as (w2 & fate & Hx & H). injection Hx as <- _.
  apply att_bind_Ok in H as (w3 & y & Hx & H). injection Hx as <-. by injection H as <- _.
Qed.

(** What a workspace installed from the adapter [a] has sent: what the
    hydration of the selected session on that adapter captured. *)
Definition installed (sel : Selection) (a : Adapter) (ws : WorkspaceState) (fs : list ServerFrame)
    : Prop :=
  exists wp, snd (hydrate (sel_session sel) (sel_created sel) a) = Ok wp /\ projection_ok wp
  /\ fs = PhaseFrame Connecting
          :: Projection (dec_signed (rt_epoch (sel_route sel))) (epoch ws) (sel_session sel)
               (sel_created sel) (wp_windows wp) (wp_window wp) (wp_panes wp)
          :: snapshots_frames (epoch ws) (wp_snapshots wp) ++ [PhaseFrame Ready]
  /\ visible_panes ws = list_to_set (map pane_id (wp_panes wp))
  /\ windows ws = list_to_set (map ws_window_id (wp_windows wp))
  /\ (exists p, List.find active (wp_panes wp) = Some p /\ active_pane ws = pane_id p).

(** The rest of [install_projection_inner], once hydrated. *)
Lemma sends_hydrated sel a wp :
  snd (hydrate (sel_session sel) (sel_created sel) a) = Ok wp -> projection_ok wp ->
  sends (workspace_epoch ← ask oracle AskFresh;
         active ← lift (ok_or ProtocolError (pane_id <$> List.find active (wp_panes wp)));
         send_with_control oracle (Projection (dec_signed (rt_epoch (sel_route sel))) workspace_epoch
           (sel_session sel) (sel_created sel) (wp_windows wp) (wp_window wp) (wp_panes wp)) ;;
         send_snapshots oracle workspace_epoch (wp_snapshots wp) ;;
         send_with_control oracle (PhaseFrame Ready) ;;
         mret (Some {| epoch := workspace_epoch; ws_connection_epoch := rt_epoch (sel_route sel);
                       windows := list_to_set (map ws_window_id (wp_windows wp));
                       visible_panes := list_to_set (map pane_id (wp_panes wp));
                       active_pane := active |}))
    (fun x fs => match x with
                 | Some ws => installed sel a ws (PhaseFrame Connecting :: fs) | None => True end).
Proof.
  intros Hwp Hok.
  eapply sends_bind; [exact (sends_ask AskFresh) |]. intros new ? ->.
  eapply sends_bind; [apply sends_lift |]. intros act ? [Ha%ok_or_Ok ->].
  eapply sends_bind; [apply sends_send_with_control |]. intros ? ? ->.
  eapply sends_bind; [apply sends_snapshots |]. intros ? ? ->.
  eapply sends_bind; [apply sends_send_with_control |]. intros ? ? ->.
  eapply sends_weaken; [apply sends_ret |]. intros ? ? [-> ->].
  exists wp. cbn. split_and!; try done.
  destruct (List.find active (wp_panes wp)) as [p|]; [| done]. injection Ha as <-. eauto.
Qed.

Lemma sends_install sel w w' ws :
  install_projection oracle sel w = (w', Ok (Some ws)) ->
  exists fs, frames_of (trace w') = frames_of (trace w) ++ fs /\ installed sel (adapter w) ws fs.
Proof.
  unfold install_projection, or_dropped. intros (w1 & cut & Hask & H)%att_bind_Ok.
  injection Hask as <- <-. destruct (oracle _ AskCut) as [k|].
  { unfold drop_after in H. by destruct (install_projection_inner _ _ _ _ _). }
  unfold install_projection_inner in H. apply att_bind_Ok in H as (w2 & [] & Hsend & H).
  pose proof (send_adapter _ _ _ _ Hsend) as Had.
  destruct (sends_send _ _ _ _ Hsend) as (fs1 & Hf1 & ->).
  apply att_bind_Ok in H as (w3 & hydrated & Hctl & H).
  destruct (sends_on_control _ _ _ _ Hctl) as (fs2 & Hf2 & _ & ->).
  unfold on_control in Hctl. destruct (hydrate _ _ (adapter w2)) as [s' r] eqn:Hh.
  injection Hctl as <- <-. destruct r as [wp|e].
  2: { destruct (recoverable e); [by injection H | done]. }
  rewrite Had in Hh. cbn [adapter] in Hh.
  pose proof (f_equal snd Hh) as Hwp. apply hydrate_sound in Hh as (Hok & _).
  destruct (sends_hydrated sel (adapter w) wp Hwp Hok _ _ _ H) as (fs3 & Hf3 & Hi).
  exists (PhaseFrame Connecting :: fs3). split; [| exact Hi].
  rewrite Hf3, Hf2, Hf1. cbn [trace]. by rewrite app_nil_r, <- app_assoc.
Qed.
End installing.

(** ** The theorem *)

Section theorem.
Context `{Hbase : Base64} `{Hcodec : AttachmentCodec} {Hlaws : Base64Laws} {Hlength : Base64Length}.

Lemma content_frames_from q e pane k last parts :
  is_pane_id pane = true -> Z.of_nat (k + length parts) <= 16 ->
  Forall (fun c => zlen c <= ATTACHMENT_MAX_TERMINAL_CHUNK_BYTES) parts ->
  omap (chunk_of q) (frames_from e pane k last parts) = if bool_decide (pane = q) then parts else [].
Proof.
  intros Hp Hk Hall. revert k Hk; induction Hall as [|c parts Hc Hall IH]; intros k Hk.
  { by destruct (bool_decide _). }
  rewrite frames_from_cons. cbn. cbn [length] in Hk. rewrite IH by lia.
  rewrite parse_snapshot_chunk by (done || lia). by destruct (bool_decide _).
Qed.

Lemma content_snapshot q e pane data :
  is_pane_id pane = true -> zlen data <= ATTACHMENT_MAX_PANE_SNAPSHOT_BYTES ->
  received_content q (snapshot_frames e pane (chunks chunk_size data))
  = if bool_decide (pane = q) then data else [].
Proof.
  intros Hp Hd. destruct (chunks_spec chunk_size data ltac:(done)) as [Hcat Hall].
  pose proof (chunks_count (length data) chunk_size data ltac:(done)) as Hcount.
  fold (chunks chunk_size data) in Hcount.
  change (Z.of_nat chunk_size) with ATTACHMENT_MAX_TERMINAL_CHUNK_BYTES in *.
  unfold received_content. destruct (chunks chunk_size data) as [|c parts] eqn:E.
  - cbn in Hcat. subst data. cbn. case_bool_decide; [| done]. by destruct (parse_snapshot_data _ _ _) eqn:Ep;
      [pose proof (parse_snapshot_chunk pane 0 [] Hp ltac:(lia) ltac:(done)) as Hps; rewrite b64_nil in Hps; simplify_eq |].
  - rewrite snapshot_frames_from by done. rewrite content_frames_from; try done.
    + by destruct (bool_decide _).
    + unfold zlen, ATTACHMENT_MAX_PANE_SNAPSHOT_BYTES, ATTACHMENT_MAX_TERMINAL_CHUNK_BYTES in *. lia.
    + eapply Forall_impl; [exact Hall |]. cbn. lia.
Qed.

Lemma received_content_app q fs gs :
  received_content q (fs ++ gs) = received_content q fs ++ received_content q gs.
Proof. unfold received_content. by rewrite omap_app, concat_app. Qed.

Lemma content_snapshots e ss s :
  NoDup (map snapshot_pane_id ss) -> s ∈ ss ->
  Forall (fun s => is_pane_id (snapshot_pane_id s) = true
            /\ zlen (content s) <= ATTACHMENT_MAX_PANE_SNAPSHOT_BYTES) ss ->
  received_content (snapshot_pane_id s) (snapshots_frames e ss) = content s.
Proof.
  intros Hnd Hs Hall.
  assert (forall ss, snapshot_pane_id s ∉ map snapshot_pane_id ss ->
            Forall (fun s => is_pane_id (snapshot_pane_id s) = true
              /\ zlen (content s) <= ATTACHMENT_MAX_PANE_SNAPSHOT_BYTES) ss ->
            received_content (snapshot_pane_id s) (snapshots_frames e ss) = []) as Hnone.
  { intros l; induction l as [|x l IH]; intros Hn Hf; [done |].
    apply Forall_cons in Hf as [[Hp Hc] Hf]. cbn [map] in Hn. apply not_elem_of_cons in Hn as [Hne Hn].
    unfold snapshots_frames. cbn [map concat]. fold (snapshots_frames e l).
    by rewrite received_content_app, content_snapshot, bool_decide_false, IH by done. }
  induction ss as [|x ss IH]; [by apply elem_of_nil in Hs |].
  apply Forall_cons in Hall as [[Hp Hc] Hall]. apply NoDup_cons in Hnd as [Hn Hnd].
  unfold snapshots_frames. cbn [map concat]. fold (snapshots_frames e ss).
  rewrite received_content_app, content_snapshot by done.
  apply elem_of_cons in Hs as [->|Hs].
  - by rewrite bool_decide_true, Hnone, app_nil_r by done.
  - rewrite bool_decide_false; [by apply IH |]. intros Heq. apply Hn. rewrite Heq.
    apply list_elem_of_fmap. eauto.
Qed.

(** C20. The browser accepts every projection a workspace installs and ends up
    with exactly what was captured: the projection is the one that [hydrate]
    captured from the control adapter as the installation found it; whatever
    state the browser is in on this connection epoch, each of the frames sent
    is in sequence and within its bounds; among them is the one that announces
    the captured windows, window and panes; after the last of them the browser
    works on the workspace's epoch with the captured panes, the active one
    among them, and the chunks of every captured pane, put together, are the
    content captured for it. *)
Theorem projection_reaches_browser (oracle : Oracle) (sel : Selection) (w w' : World)
    (ws : WorkspaceState) (b : BrowserState)
    (Hrun : install_projection oracle sel w = (w', Ok (Some ws)))
    (Hepoch : current_connection_epoch b = Some (dec_signed (rt_epoch (sel_route sel)))) :
  exists wp fs b',
    snd (hydrate (sel_session sel) (sel_created sel) (adapter w)) = Ok wp
    /\ frames_of (trace w') = frames_of (trace w) ++ fs
    /\ Projection (dec_signed (rt_epoch (sel_route sel))) (epoch ws) (sel_session sel)
         (sel_created sel) (wp_windows wp) (wp_window wp) (wp_panes wp) ∈ fs
    /\ projection_ok wp /\ visible_panes ws = list_to_set (map pane_id (wp_panes wp))
    /\ validate_frames b fs = Some b'
    /\ pending_projection b' = None
    /\ current_workspace_epoch b' = Some (epoch ws) /\ current_attachment_epoch b' = Some (epoch ws)
    /\ current_panes b' = visible_panes ws /\ active_pane ws ∈ visible_panes ws
    /\ map snapshot_pane_id (wp_snapshots wp) = map pane_id (wp_panes wp)
    /\ forall s, s ∈ wp_snapshots wp -> received_content (snapshot_pane_id s) fs = content s.
Proof.
  destruct (sends_install oracle sel _ _ _ Hrun)
    as (fs & Hfs & wp & Hwp & Hok & -> & Hv & _ & p & Hp & Ha).
  assert (Forall (fun s => is_pane_id (snapshot_pane_id s) = true
            /\ zlen (content s) <= ATTACHMENT_MAX_PANE_SNAPSHOT_BYTES) (wp_snapshots wp)) as Hsn.
  { apply Forall_forall. intros s Hs. split; [| by eapply Forall_forall in Hs; [| exact (pok_snapshot _ Hok)]].
    assert (snapshot_pane_id s ∈ map pane_id (wp_panes wp)) as (x & -> & Hx)%list_elem_of_fmap.
    { rewrite <-(pok_snapshots _ Hok). apply list_elem_of_fmap. eauto. }
    pose proof (pok_panes _ Hok) as Hpanes. rewrite Forall_forall in Hpanes. by apply Hpanes. }
  set (ids := list_to_set (map pane_id (wp_panes wp)) : gset bytes) in *.
  set (p0 := {| pp_epoch := epoch ws; pp_panes := ids; next_chunk := zero_map ids; completed := ∅;
                pane_bytes := zero_map ids; total_received := 0 |}).
  set (b0 := {| pending_projection := Some p0; current_connection_epoch := current_connection_epoch b;
                current_attachment_epoch := Some (epoch ws); current_workspace_epoch := None;
                current_panes := ∅ |}).
  destruct (snapshots_accepted b0 p0 (wp_snapshots wp)) as (p1 & Hv1 & E1 & E2 & E3).
  { rewrite (pok_snapshots _ Hok). apply (pok_unique_panes _ Hok). }
  { rewrite Forall_forall in Hsn |- *. intros s Hs. split; [| by apply Hsn].
    assert (snapshot_pane_id s ∈ ids) as Hin.
    { apply elem_of_list_to_set. rewrite <-(pok_snapshots _ Hok). apply list_elem_of_fmap. eauto. }
    split; cbn; try done; unfold zero_map; by rewrite lookup_gset_to_gmap, option_guard_True. }
  { cbn. apply (pok_size _ Hok). }
  eexists wp, _, _. split; [exact Hwp |]. split; [exact Hfs |].
  split; [right; left |]. split; [done |]. split; [done |]. split.
  { assert (validate_sequence (without_projection b) (Projection (dec_signed (rt_epoch (sel_route sel)))
        (epoch ws) (sel_session sel) (sel_created sel) (wp_windows wp) (wp_window wp) (wp_panes wp))
        = Some (with_pending b0 p0)) as Hproj by (cbn; by rewrite bool_decide_true).
    rewrite validate_frames_cons. cbn [validate_sequence mbind option_bind].
    rewrite validate_frames_cons, Hproj. cbn [mbind option_bind].
    change (pp_epoch p0) with (epoch ws) in Hv1. rewrite validate_frames_app, Hv1. cbn.
    rewrite bool_decide_true; [reflexivity |]. rewrite E2, E3, (pok_snapshots _ Hok). cbn. f_equal. set_solver. }
  cbn. rewrite E1, E2, Hv. cbn. split_and!; try done.
  - rewrite Ha. apply elem_of_list_to_set, list_elem_of_fmap. exists p. split; [done |].
    apply list_elem_of_In. by apply find_some in Hp as [? _].
  - apply (pok_snapshots _ Hok).
  - intros s Hs. change (received_content (snapshot_pane_id s)
      (snapshots_frames (epoch ws) (wp_snapshots wp) ++ [PhaseFrame Ready]) = content s).
    rewrite received_content_app, content_snapshots; try done.
    + unfold received_content. cbn. by rewrite app_nil_r.
    + rewrite (pok_snapshots _ Hok). apply (pok_unique_panes _ Hok).
Qed.
End theorem.

Definition sample_install : World :=
  {| clock := 0; shared := sample_scope None; adapter := hydration_adapter hydration_wire; trace := [] |}.
Definition hydrated_selection : Selection :=
  {| sel_session := lit "$1"; sel_created := 1700000000; sel_route := sample_route |}.
Definition sample_browser : BrowserState :=
  {| pending_projection := None; current_connection_epoch := Some (lit "7");
     current_attachment_epoch := Some 4; current_workspace_epoch := Some 4; current_panes := ∅ |}.

Definition sample_installed :=
  @install_projection plain_base64 sample_codec sample_oracle hydrated_selection sample_install.

Lemma projection_reaches_browser_witness :
  exists wp fs b',
    snd (hydrate (lit "$1") 1700000000 (hydration_adapter hydration_wire)) = Ok wp
    /\ @validate_frames plain_base64 sample_browser fs = Some b'
    /\ current_workspace_epoch b' = Some 9 /\ zlen fs = 4
    /\ forall s, s ∈ wp_snapshots wp ->
         @received_content plain_base64 (snapshot_pane_id s) fs = content s.
Proof.
  assert (let '(w', x) := sample_installed in
          zlen (frames_of (trace w')) = 4 /\ match x with Ok (Some ws) => epoch ws = 9 | _ => False end)
    as Hc by (vm_compute; repeat split).
  destruct sample_installed as [w' [[ws|]|e]] eqn:E; destruct Hc as [Hn Hr]; [| destruct Hr | destruct Hr].
  destruct (@projection_reaches_browser plain_base64 sample_codec plain_base64_laws plain_base64_length
    sample_oracle hydrated_selection sample_install w' ws sample_browser E eq_refl)
    as (wp & fs & b' & Hwp & Hfs & _ & _ & _ & Hv & _ & He & _ & _ & _ & _ & Hs).
  exists wp, fs, b'. rewrite He, Hr.
  refine (conj Hwp (conj Hv (conj eq_refl (conj _ Hs)))).
  change (frames_of (trace sample_install)) with (@nil ServerFrame) in Hfs. cbn [app] in Hfs.
  rewrite <-Hfs. exact Hn.
Defined.
