(* ===== verification/Upgrade.v ===== *)
(** * Upgrade: the public websockets and what they hold

    Models the upgrade handlers of [crates/owlmux-server/src/relay/mod.rs] and
    of [attachment.rs] with the tasks they spawn, over the permits of [Gate].
    A handler does not await, so one call is one step; it interleaves with the
    other connections and with the requests of the management API, which take
    the same permits. *)

From S2P Require Import Prelude Text Contracts Secrets Base64Url Attachment Admission Gate.

(** ** The handlers *)

(** [enroll_upgrade] with the free permits of [relay_connection_limit]; what
    has been taken is dropped by an early return. *)
Definition enroll_upgrade (now source : Z) (g : GateState) (relay_free : Z)
    : GateState * Z * UpgradeDecision :=
  let '(entries, got) := try_acquire now source (sources g) in
  let g := with_sources entries g in
  if negb got then (g, relay_free, TooManyRequests)
  else match take_preauth g with
       | None => (with_sources (drop_permit source (sources g)) g, relay_free, ServiceUnavailable)
       | Some g =>
           if 0 <? relay_free then (g, relay_free - 1, Upgraded)
           else (with_sources (drop_permit source (sources g)) (drop_preauth g), relay_free,
                 ServiceUnavailable)
       end.

(** [tunnel_upgrade]. *)
Definition tunnel_upgrade (now source : Z) (g : GateState) (relay_free : Z)
    : GateState * Z * UpgradeDecision :=
  let '(entries, got) := try_acquire now source (sources g) in
  let g := with_sources entries g in
  if negb got then (g, relay_free, TooManyRequests)
  else match take_preauth g with
       | None => (with_sources (drop_permit source (sources g)) g, relay_free, ServiceUnavailable)
       | Some g =>
           if 0 <? relay_free then (g, relay_free - 1, Upgraded)
           else (with_sources (drop_permit source (sources g)) (drop_preauth g), relay_free,
                 ServiceUnavailable)
       end.

(** [upgrade] of an attachment on the shared permits. *)
Definition browser_upgrade (origin : option bytes) (public_origin : bytes) (now source : Z)
    (g : GateState) : GateState * UpgradeDecision :=
  let '(entries, d) :=
    Attachment.upgrade origin public_origin now source (0 <? preauth_free g) (sources g) in
  let g := with_sources entries g in
  match d with Upgraded => (default g (take_preauth g), d) | _ => (g, d) end.

(** ** The connections *)

(** A connection is early while its task holds the permit of its source and
    the permit to attempt. *)
Inductive Endpoint : Type := EnrollEndpoint | TunnelEndpoint | BrowserEndpoint.
Global Instance Endpoint_eq_dec : EqDecision Endpoint.
Proof. solve_decision. Defined.
Global Instance UpgradeDecision_eq_dec : EqDecision UpgradeDecision.
Proof. solve_decision. Defined.
Record Socket : Type := { so_endpoint : Endpoint; so_source : Z; so_early : bool }.
Record Public : Type := {
  gate : GateState; relay_free : Z; open_sockets : list Socket; clock : Z;
}.
Definition new_public (now : Z) : Public :=
  {| gate := new_gate; relay_free := 128; open_sockets := []; clock := now |}.

Definition is_relay (x : Socket) : bool :=
  match so_endpoint x with BrowserEndpoint => false | _ => true end.
Definition early_source (x : Socket) : option Z := if so_early x then Some (so_source x) else None.
Definition early_sources (l : list Socket) : list Z := omap early_source l.
Definition relays (l : list Socket) : Z := zlen (filter (fun x => is_relay x = true) l).

Definition arrive (ep : Endpoint) (origin : option bytes) (public_origin : bytes) (now source : Z)
    (s : Public) : Public * UpgradeDecision :=
  let '(g, free, d) :=
    match ep with
    | EnrollEndpoint => enroll_upgrade now source (gate s) (relay_free s)
    | TunnelEndpoint => tunnel_upgrade now source (gate s) (relay_free s)
    | BrowserEndpoint =>
        let '(g, d) := browser_upgrade origin public_origin now source (gate s) in
        (g, relay_free s, d)
    end in
  let x := {| so_endpoint := ep; so_source := source; so_early := true |} in
  ({| gate := g; relay_free := free; clock := now;
      open_sockets := match d with Upgraded => x :: open_sockets s | _ => open_sockets s end |}, d).

(** The two drops, [source_permit] first. *)
Definition drop_early (source : Z) (g : GateState) : GateState :=
  drop_preauth (with_sources (drop_permit source (sources g)) g).

(** The drops after a token was accepted, a tunnel signature verified or an
    attachment answered its challenge. *)
Definition settle_socket (before : list Socket) (x : Socket) (after : list Socket) (s : Public)
    : Public :=
  {| gate := drop_early (so_source x) (gate s); relay_free := relay_free s; clock := clock s;
     open_sockets :=
       before ++ {| so_endpoint := so_endpoint x; so_source := so_source x; so_early := false |}
              :: after |}.

(** The task of a connection ends, by itself or because the node is fenced,
    or the handshake never completes: everything it still holds is dropped. *)
Definition end_socket (before : list Socket) (x : Socket) (after : list Socket) (s : Public)
    : Public :=
  {| gate := if so_early x then drop_early (so_source x) (gate s) else gate s;
     relay_free := if is_relay x then relay_free s + 1 else relay_free s; clock := clock s;
     open_sockets := before ++ after |}.

(** A request of the management API at the instant [now]. *)
Definition request `{Base64} (key : bytes) (now : Z) (lease_ok : bool) (rq : HttpRequest)
    (s : Public) : Public :=
  {| gate := fst (require_auth key now lease_ok rq (gate s)); relay_free := relay_free s;
     clock := now; open_sockets := open_sockets s |}.

Section histories.
Context `{Hbase : Base64}.

Inductive websocket_step : Public -> Public -> Prop :=
| pu_arrive s ep origin public_origin now source :
    clock s <= now -> websocket_step s (fst (arrive ep origin public_origin now source s))
| pu_settle s before x after :
    open_sockets s = before ++ x :: after -> so_early x = true ->
    websocket_step s (settle_socket before x after s)
| pu_end s before x after :
    open_sockets s = before ++ x :: after -> websocket_step s (end_socket before x after s)
| pu_request s key now lease_ok rq :
    clock s <= now -> websocket_step s (request key now lease_ok rq s)
| pu_mutation_done s :
    mutation_free (gate s) < 32 ->
    websocket_step s {| gate := drop_mutation (gate s); relay_free := relay_free s; clock := clock s;
                     open_sockets := open_sockets s |}.

(** ** The invariant: permits are exactly the connections that hold them *)

Definition admission_of (s : Public) : World :=
  {| entries := sources (gate s); permits := early_sources (open_sockets s); instant := clock s |}.

Record public_ok (s : Public) : Prop := {
  po_sources : admission_ok (admission_of s);
  po_preauth : preauth_free (gate s) + zlen (early_sources (open_sockets s)) = 64;
  po_relays : relay_free s + relays (open_sockets s) = 128;
  po_free : 0 <= preauth_free (gate s) /\ 0 <= relay_free s;
}.

Lemma early_sources_cons x l :
  early_sources (x :: l) = (if so_early x then [so_source x] else []) ++ early_sources l.
Proof. unfold early_sources, early_source. cbn. by destruct (so_early x). Qed.
Lemma early_sources_app l k : early_sources (l ++ k) = early_sources l ++ early_sources k.
Proof. apply omap_app. Qed.
Lemma relays_cons x l : relays (x :: l) = (if is_relay x then 1 else 0) + relays l.
Proof. unfold relays. rewrite filter_cons. case_decide; destruct (is_relay x); zlen_simpl; done. Qed.
Lemma relays_app l k : relays (l ++ k) = relays l + relays k.
Proof. unfold relays. by rewrite filter_app, zlen_app. Qed.

(** The two relay endpoints admit alike. *)
Lemma tunnel_upgrade_enroll : tunnel_upgrade = enroll_upgrade.
Proof. reflexivity. Qed.

(** An acquisition that keeps its permit, and one that gives it back. *)
Lemma acquire_ok es l t now source es' got :
  admission_ok {| entries := es; permits := l; instant := t |} -> t <= now ->
  try_acquire now source es = (es', got) ->
  admission_ok {| entries := es'; permits := if got then source :: l else l; instant := now |}.
Proof.
  intros Hok Ht Ha.
  exact (admission_step_ok _ _ Hok (ws_acquire {| entries := es; permits := l; instant := t |}
           now source es' got Ht Ha)).
Qed.
Lemma drop_ok es l source k t :
  admission_ok {| entries := es; permits := l ++ source :: k; instant := t |} ->
  admission_ok {| entries := drop_permit source es; permits := l ++ k; instant := t |}.
Proof.
  intros Hok.
  exact (admission_step_ok _ _ Hok (ws_drop {| entries := es; permits := l ++ source :: k;
           instant := t |} l source k eq_refl)).
Qed.

Lemma later_ok es l t now :
  admission_ok {| entries := es; permits := l; instant := t |} -> t <= now ->
  admission_ok {| entries := es; permits := l; instant := now |}.
Proof.
  intros [Ha Hb Hs] Ht. split; cbn in *; [done | | done].
  intros x e He. destruct (Hb x e He) as (? & ? & ?). split_and!; try done; lia.
Qed.

(** What an arrival decides, and what it leaves behind. *)
Record arrival (ep : Endpoint) (origin : option bytes) (public_origin : bytes) (now source : Z)
    (s s' : Public) (d : UpgradeDecision) : Prop := {
  ar_upgraded : d = Upgraded <->
    (ep = BrowserEndpoint -> origin = Some public_origin)
    /\ snd (try_acquire now source (sources (gate s))) = true
    /\ 0 < preauth_free (gate s) /\ (ep <> BrowserEndpoint -> 0 < relay_free s);
  ar_forbidden : d = Forbidden <-> ep = BrowserEndpoint /\ origin <> Some public_origin;
  ar_sockets : open_sockets s' =
    (if bool_decide (d = Upgraded)
     then [{| so_endpoint := ep; so_source := source; so_early := true |}] else [])
    ++ open_sockets s;
  ar_clock : clock s' = now;
  ar_preauth : preauth_free (gate s')
               = preauth_free (gate s) - (if bool_decide (d = Upgraded) then 1 else 0);
  ar_relay : relay_free s'
             = relay_free s - (if bool_decide (d = Upgraded /\ ep <> BrowserEndpoint) then 1 else 0);
  ar_entries :
    sources (gate s') = sources (gate s) /\ d <> Upgraded
    \/ exists es got, try_acquire now source (sources (gate s)) = (es, got)
         /\ sources (gate s') = (if got then if bool_decide (d = Upgraded) then es
                                             else drop_permit source es else es)
         /\ (d = Upgraded -> got = true);
}.

Lemma arrive_spec ep origin public_origin now source s s' d :
  arrive ep origin public_origin now source s = (s', d) ->
  arrival ep origin public_origin now source s s' d.
Proof.
  unfold arrive. rewrite tunnel_upgrade_enroll.
  unfold enroll_upgrade, browser_upgrade, Attachment.upgrade, take_preauth.
  destruct (try_acquire now source (sources (gate s))) as [es got] eqn:Et.
  cbn [preauth_free with_sources sources].
  destruct ep.
  3: destruct (bool_decide_reflect (origin = Some public_origin)); cbn [negb].
  all: try (destruct got; cbn [negb]).
  all: repeat (case_match; try (progress simplify_eq)); cbn; intros [= <- <-];
    split; cbn; rewrite ?Et; cbn;
    repeat match goal with |- context [bool_decide ?P] =>
      first [rewrite (bool_decide_true P) by (split_and?; done)
            | rewrite (bool_decide_false P) by naive_solver] end;
    split_bools; try done; try lia; try naive_solver lia.
Qed.

Lemma arrive_ok ep origin public_origin now source s :
  public_ok s -> clock s <= now -> public_ok (fst (arrive ep origin public_origin now source s)).
Proof.
  intros [Ha Hp Hr Hf] Ht. destruct (arrive _ _ _ _ _ s) as [s' d] eqn:E. cbn [fst].
  destruct (arrive_spec _ _ _ _ _ _ _ _ E) as [Hu _ Hs Hc Hp' Hr' He].
  unfold admission_of in *.
  split; unfold admission_of; rewrite ?Hs, ?early_sources_app, ?relays_app, ?Hp', ?Hr', ?Hc.
  - destruct He as [[-> Hd] | (es & got & Et & -> & Hd)].
    + rewrite bool_decide_false by done. cbn. by eapply later_ok.
    + pose proof (acquire_ok _ _ _ _ _ _ _ Ha Ht Et) as Hk.
      destruct (bool_decide_reflect (d = Upgraded)) as [Heq|]; [by rewrite Hd in * |].
      destruct got; [| done]. by apply (drop_ok _ [] source).
  - rewrite zlen_app. case_bool_decide; cbn; zlen_simpl; lia.
  - destruct (decide (d = Upgraded)) as [-> |].
    + rewrite (bool_decide_true (Upgraded = Upgraded)), relays_cons by done.
      change (relays []) with 0. unfold is_relay. cbn [so_endpoint].
      destruct ep; case_bool_decide; try naive_solver lia.
    + rewrite !bool_decide_false by naive_solver. change (relays []) with 0. lia.
  - clear Hs Hp' Hr' He. split; case_bool_decide as Hd; [| lia | | lia].
    + apply Hu in Hd as (_ & _ & ? & _). lia.
    + destruct Hd as [Hd Hep]. apply Hu in Hd as (_ & _ & _ & Hfree). specialize (Hfree Hep). lia.
Qed.

Lemma request_sources key now lease_ok rq g :
  preauth_free (fst (require_auth key now lease_ok rq g)) = preauth_free g
  /\ (sources (fst (require_auth key now lease_ok rq g)) = sources g
      \/ exists source es got, try_acquire now source (sources g) = (es, got)
         /\ sources (fst (require_auth key now lease_ok rq g))
            = if got then drop_permit source es else es).
Proof.
  unfold require_auth. destruct (rq_peer rq) as [source|]; [| by eauto].
  destruct (try_acquire now source (sources g)) as [es got] eqn:E.
  destruct got; cbn [negb]; [| cbn; split; [done |]; right; by eexists _, _, _].
  unfold take_preauth, decide_request, take_mutation. cbn.
  repeat case_match; simplify_eq; cbn; (split; [lia |]); right; by eexists _, _, true.
Qed.

Lemma drop_early_ok before x after s :
  public_ok s -> open_sockets s = before ++ x :: after -> so_early x = true ->
  admission_ok {| entries := sources (drop_early (so_source x) (gate s));
                  permits := early_sources (before ++ after); instant := clock s |}.
Proof.
  intros [Ha _ _ _] Hs Hx. unfold admission_of in Ha.
  rewrite Hs, early_sources_app, early_sources_cons, Hx in Ha. cbn in Ha.
  rewrite early_sources_app. by apply drop_ok.
Qed.

Lemma websocket_step_ok s s' : public_ok s -> websocket_step s s' -> public_ok s'.
Proof.
  intros Hok Hs. pose proof Hok as [Ha Hp Hr Hf].
  destruct Hs as [s ep o po now source Ht | s before x after Hl Hx | s before x after Hl
                 | s key now lease_ok rq Ht | s Hm].
  - by apply arrive_ok.
  - rewrite Hl, ?early_sources_app, ?early_sources_cons, ?relays_app, ?relays_cons, Hx in *.
    split; cbn; rewrite ?early_sources_app, ?early_sources_cons, ?relays_app, ?relays_cons; cbn.
    + unfold admission_of. cbn. pose proof (drop_early_ok _ _ _ _ Hok Hl Hx) as Hd.
      rewrite early_sources_app, early_sources_cons in *. exact Hd.
    + zlen_simpl. lia.
    + unfold is_relay in *. cbn. lia.
    + lia.
  - rewrite Hl, ?early_sources_app, ?early_sources_cons, ?relays_app, ?relays_cons in *.
    pose proof (drop_early_ok _ _ _ _ Hok Hl) as Hd.
    split; unfold admission_of in *; cbn; rewrite ?relays_app.
    + destruct (so_early x) eqn:Hx; [by apply Hd |].
      rewrite Hl, early_sources_app, early_sources_cons, Hx in Ha. cbn [app] in Ha.
      by rewrite <- early_sources_app in Ha.
    + rewrite early_sources_app. destruct (so_early x); cbn; zlen_simpl; lia.
    + destruct (is_relay x); lia.
    + destruct (so_early x), (is_relay x); cbn; lia.
  - destruct (request_sources key now lease_ok rq (gate s)) as [Hpre Hsrc].
    split; unfold admission_of in *; cbn; rewrite ?Hpre; try done.
    destruct Hsrc as [-> | (source & es & got & Et & ->)]; [by eapply later_ok |].
    pose proof (acquire_ok _ _ _ _ _ _ _ Ha Ht Et) as Hk.
    destruct got; [| done]. by apply (drop_ok _ [] source).
  - by split.
Qed.

Lemma websocket_steps_ok now s : rtc websocket_step (new_public now) s -> public_ok s.
Proof.
  intros Hs. assert (H0 : public_ok (new_public now)).
  { split; [apply (admission_steps_ok now); apply rtc_refl | reflexivity | reflexivity | by cbn]. }
  revert H0. induction Hs as [s | s1 s2 s3 H12 _ IH]; [done |]. intros H1. apply IH.
  by eapply websocket_step_ok.
Qed.

Lemma admitted_exact now source es :
  snd (try_acquire now source es) = true <->
  (is_Some (retain now es !! source) \/ Z.of_nat (size (retain now es)) < MAX_ADMISSION_SOURCES)
  /\ active (current_entry now source es) < MAX_PREAUTH_PER_SOURCE
  /\ attempts (current_entry now source es) < MAX_PREAUTH_ATTEMPTS_PER_WINDOW.
Proof.
  destruct (try_acquire now source es) as [es' got] eqn:E. apply try_acquire_spec in E as [Hg _].
  cbn [snd]. rewrite Hg, !andb_true_iff, !Z.ltb_lt, negb_andb, orb_true_iff, !negb_true_iff,
    bool_decide_eq_false, Z.leb_gt.
  rewrite not_eq_None_Some. tauto.
Qed.

(** C33. The public websockets are admitted exactly, in every history of
    arrivals, authentications, ends and requests to the management API: at
    most 64 connections are unauthenticated, at most four of one source, and
    at most 128 belong to Relays; a connection is upgraded if and only if its
    origin (for a browser), the attempts of its source, the connections that
    still are unauthenticated and, for a Relay, the Relays that are connected
    leave room for it; an authenticated connection never counts against the
    first two.  One that is refused leaves every permit as it was. *)
Theorem public_capacity (now0 : Z) (s s' : Public) (ep : Endpoint) (origin : option bytes)
    (public_origin : bytes) (now source : Z) (d : UpgradeDecision)
    (Hs : rtc websocket_step (new_public now0) s) (Ht : clock s <= now)
    (Hrun : arrive ep origin public_origin now source s = (s', d)) :
  let early := early_sources (open_sockets s) in
  let known := retain now (sources (gate s)) in
  zlen early <= 64 /\ held_by source early <= MAX_PREAUTH_PER_SOURCE
  /\ relays (open_sockets s) <= 128
  /\ (d = Upgraded <->
       (ep = BrowserEndpoint -> origin = Some public_origin)
       /\ (is_Some (known !! source) \/ Z.of_nat (size known) < MAX_ADMISSION_SOURCES)
       /\ held_by source early < MAX_PREAUTH_PER_SOURCE
       /\ attempts (current_entry now source (sources (gate s))) < MAX_PREAUTH_ATTEMPTS_PER_WINDOW
       /\ zlen early < 64 /\ (ep <> BrowserEndpoint -> relays (open_sockets s) < 128))
  /\ (d <> Upgraded ->
       open_sockets s' = open_sockets s /\ relay_free s' = relay_free s
       /\ preauth_free (gate s') = preauth_free (gate s)
       /\ forall x, live x (sources (gate s')) = live x (sources (gate s))).
Proof.
  intros early known. pose proof (websocket_steps_ok _ _ Hs) as Hok.
  pose proof (arrive_ok ep origin public_origin now source s Hok Ht) as Hok'. rewrite Hrun in Hok'.
  destruct (arrive_spec _ _ _ _ _ _ _ _ Hrun) as [Hu _ Hl _ Hp' Hr' _].
  destruct Hok as [Ha Hp Hr Hf], Hok' as [Ha' _ _ _].
  destruct (current_entry_ok _ now source Ha Ht) as (Ea & Eb & _ & _). cbn in Ea, Eb.
  fold early in Ea, Hp. rewrite Ea in Eb.
  split_and!; [lia | lia | lia | |].
  - rewrite Hu, (admitted_exact now source), Ea. fold known. naive_solver lia.
  - intros Hd. cbn [fst] in Ha'. rewrite bool_decide_false in Hl, Hp' by done.
    rewrite bool_decide_false in Hr' by naive_solver. cbn in Hl. split_and!; [done | lia | lia |].
    intros x. pose proof (ao_active _ Ha x) as H1. pose proof (ao_active _ Ha' x) as H2.
    cbn in H1, H2. rewrite Hl in H2. unfold live. congruence.
Qed.
End histories.

Section example.
#[local] Existing Instance base64url.

Definition up_origin : bytes := lit "https://owl".
Definition up_first : Public := fst (arrive EnrollEndpoint None up_origin 5 9 (new_public 0)).
Definition up_settled : Public :=
  settle_socket [] (Build_Socket EnrollEndpoint 9 true) [] up_first.

Lemma public_capacity_witness :
  rtc websocket_step (new_public 0) up_settled
  /\ zlen (early_sources (open_sockets up_settled)) = 0
  /\ relays (open_sockets up_settled) = 1
  /\ (forall s' d, arrive TunnelEndpoint None up_origin 7 9 up_settled = (s', d) -> d = Upgraded)
  /\ (forall s' d, arrive BrowserEndpoint None up_origin 7 9 up_settled = (s', d) ->
       d <> Upgraded /\ open_sockets s' = open_sockets up_settled).
Proof.
  assert (Hs : rtc websocket_step (new_public 0) up_settled).
  { eapply rtc_l; [exact (pu_arrive (new_public 0) EnrollEndpoint None up_origin 5 9 ltac:(by cbn)) |].
    eapply rtc_l; [| apply rtc_refl].
    apply (pu_settle up_first [] (Build_Socket EnrollEndpoint 9 true) []); vm_compute; reflexivity. }
  assert (Ht : clock up_settled <= 7) by (vm_compute; discriminate).
  split; [exact Hs |]. split; [vm_compute; reflexivity |]. split; [vm_compute; reflexivity |]. split.
  - intros s' d Hrun.
    destruct (public_capacity 0 up_settled s' TunnelEndpoint None up_origin 7 9 d Hs Ht Hrun)
      as (_ & _ & _ & [_ Hup] & _).
    apply Hup. split; [done |]. split; [left; vm_compute; by eexists |].
    split_and!; by vm_compute.
  - intros s' d Hrun.
    destruct (public_capacity 0 up_settled s' BrowserEndpoint None up_origin 7 9 d Hs Ht Hrun)
      as (_ & _ & _ & [Hup _] & Hno).
    assert (Hd : d <> Upgraded). { intros Hd. destruct (Hup Hd) as [Ho _]. by specialize (Ho eq_refl). }
    split; [exact Hd | exact (proj1 (Hno Hd))].
Defined.
End example.
